(* ===== verification/_CoqProject ===== *)
-Q . S2P
Prelude.v
GoStrings.v
Url.v
Sqlident.v
Contracts.v
Models.v
Config.v
Runstate.v
Metrics.v
Runner.v
RunnerProofs.v
MSSQLSink.v
MSSQLSinkProofs.v
MemServer.v
Pool.v
PoolProofs.v
PooledSession.v
Instances.v
Fakes.v
FakesProofs.v
Scheduler.v
SchedulerProofs.v
SchedulerInstances.v
Modbus.v
ModbusProofs.v
SqlSource.v
SqlSourceProofs.v
DsnProofs.v
Repository.v
RepositoryProofs.v
RepositoryInstances.v
FingerprintProofs.v
Opcua.v
OpcuaProofs.v
Logging.v
LoggingProofs.v
Seed.v
SeedProofs.v
SeedInstances.v
Health.v
HealthServer.v
Housekeeping.v
HousekeepingProofs.v
Reload.v
ReloadProofs.v
Server.v
ServerProofs.v
Registry.v
Telemetry.v
SourceConn.v
SourceConnProofs.v
System.v
SystemInstances.v
SinkConn.v
Migrate.v
MigrateProofs.v
Commands.v
