(* ===== verification/Prelude.v ===== *)
(** * Edge data loader: verification development

    ** The program

    The loader is a service that copies data from sources (SQL Server and
    PostgreSQL tables, Modbus and OPC UA devices) into tables of a SQL Server.
    What to copy is described in a metadata database: sources, loads with a
    cron expression, watermarks, run rows and log entries.  The scheduler
    (internal/scheduler) keeps one cron entry per enabled load and starts a run
    when it fires; the runner (internal/pipeline) resolves the parameters of the
    source (internal/config), obtains an opened source from a session or a pool,
    lets the source read in batches, writes each batch to the sink
    (internal/sink), and moves the watermark, the run row, the run state
    (internal/runstate) and the metrics.  Replace loads go to a staging table
    that is swapped in at the end.  SQL identifiers are validated and quoted by
    internal/sqlident.  Around this core, a coordinator (internal/reload) makes
    the scheduler follow the metadata, housekeeping prunes old rows, a health
    server reports, and three commands run the server, migrate the metadata
    schema and seed the metadata from a file.

    ** Conventions

    A Go function becomes a Gallina function of the same name (an underscore is
    added where the name is taken by the interface the function implements).
    Effects are state passing, [M W A := W -> W * A], with the notations below;
    [(T, error)] is [result T], [error] alone is [option error], and a panic is
    [None] where the code can panic.  Every external party (database/sql, gorm,
    cron, the Modbus and OPC UA clients, the clock, SHA-256, Unicode tables) is a
    type class or section variable; where theorems need its documented
    behaviour, a second class states it, and an Instances file implements it, so
    that no theorem is vacuous.  Interleavings of goroutines are step relations
    whose steps are the sections of code between two lock operations.  Integers
    are [Z], with the wrap-around written out where the code can reach it; floats
    are [spec_float] with 53 bits.  Map iteration is a list of the map's entries
    in an arbitrary order.  Contexts, deadlines and log lines are left out.

    ** Files

    - Prelude: this header, errors, state passing, triples, tactics.
    - GoStrings, Url: package strings, strconv.Atoi, UTF-8, net/url.
    - Sqlident: internal/sqlident/ident.go, with a lexer for quoted names as
      the specification.
    - Contracts: pkg/contracts.  A call of [Source.Read] is the tree of its
      handler calls ([ReadProg]); [SinkSpec] is what a sink promises.
    - Models: internal/metadata/models.go.
    - Config, Runstate, Metrics: internal/config, internal/runstate,
      internal/metrics, and the summary of /status.
    - Runner, RunnerProofs: runner.go and replace.go of internal/pipeline.
    - MSSQLSink, MSSQLSinkProofs, MemServer: internal/sink; the proofs show
      that the sink implements [SinkSpec] over a SQL server with transactions
      ([SqlServerSpec]), and MemServer is such a server with injected faults.
    - Pool, PoolProofs: pool.go and session.go of internal/pipeline.
    - PooledSession: the pool as the session of a run, and the run as steps of
      the pool.
    - Instances: a world in which the runner, the sink and the pool run
      together, and the witnesses of their theorems.
    - Fakes, FakesProofs: internal/testutil as instances of the runner's
      interfaces, and the tests of the runner evaluated on them.
    - System, SystemInstances: the runner over the session, the registry and
      the source packages down to the database of the source ([ReadsFrom] is
      what the runner relies on, and both sessions discharge it); and the whole
      loader over in-memory servers.
    - Scheduler, SchedulerProofs, SchedulerInstances: internal/scheduler.
    - Modbus, ModbusProofs; Opcua, OpcuaProofs; SqlSource, SqlSourceProofs,
      DsnProofs: internal/sources; DsnProofs has a reader of URLs as the
      specification of the connection strings.
    - Repository, RepositoryProofs, RepositoryInstances, FingerprintProofs:
      repository.go and telemetry.go of internal/metadata, over the statements of
      gorm ([Gorm]) and their effect on the tables ([GormSpec]), the WHERE
      clauses being predicates of the model; and the fingerprint together with
      the scheduler's reload.
    - Logging, LoggingProofs: internal/logging.
    - Registry, SourceConn, SourceConnProofs: internal/sources/registry.go and
      the New, Open, Ping and Close of the source packages, as the driver that
      the sessions of Pool are proved against; SinkConn: those of the sink.
    - Telemetry: the types of polled rows, from the device to the bulk copy.
    - Seed, SeedProofs, SeedInstances: internal/seed, with gorm's treatment of
      default values (Models).
    - Health, HealthServer: internal/health/server.go, the answers and the
      routing, starting and stopping around them.
    - Housekeeping, HousekeepingProofs: internal/housekeeping.
    - Reload, ReloadProofs: internal/reload.
    - Server, ServerProofs: runServer of cmd/loader/main.go, which starts and
      stops all of the above and joins the scheduler and the pool for a reload.
    - Migrate, MigrateProofs: internal/migrate and cmd/loader/migrate.go over
      goose's provider.
    - Commands: the dispatch of cmd/loader and the command of cmd/seed.

    ** What is proved

    Runs (RunnerProofs, against the interfaces): a replace, over a sink with
    atomic replaces, leaves the live table as it was or with exactly the rows
    read; a watermark moves only after all
    rows are in the target, and then to the value read; a successful append or
    delta run has delivered every batch in order; the run state tells success
    from failure on every path; every lease is released exactly once.

    The loader as a whole (System): over any number of successful delta runs, on
    connections that are opened, reused or replaced, the rows appended to the
    target are exactly those of the source between the first and the stored
    watermark, given a seeded numeric watermark and a source that is not empty
    when it is asked; when runs fail, anywhere and any number of times, none of these
    rows is missing and nothing that was there has gone.  A run over the pool is
    a sequence of steps of the pool, so the guarantees of concurrent leases hold
    for it.  A replace run calls the sink in the order of its protocol, and
    aborts exactly what it has begun and not committed.

    Sink: the staging swap is atomic under any fault; a written batch is exactly
    the rows in column order with the load timestamp; the names of a swap stay
    within the limit and never clash, and a longer name is refused before
    anything is touched.

    Sources: the batching loop loses nothing; reads stop at the first handler
    error; registers decode to the integers the device holds, unless the byte
    order is "little"; polling cycles give one row per point, attributed to the
    right point and typed as its columns; GUIDs survive their encoding; a
    connection string reads as the parameters it was made of, whatever
    characters they have.

    Pool and scheduler: leases of a source are exclusive, connections are
    neither leaked nor reused after a change, no state is stuck; opening a
    source of any kind connects that source only, and a failed attempt closes
    what it opened (sqlserver excepted); reloads make cron match the metadata; runs of a load never overlap.

    Process: components start after the ones they use, and those that are
    stopped are stopped before the ones they use; a start-up that fails closes
    the sink and the sessions and leaves the rest running
    ([server_lifecycle]); the coordinator loses no trigger and is quiet
    after [Stop]; a reload leaves no pooled connection open.

    Repository, logging and the rest: run rows follow their life cycle; pruning
    terminates and removes exactly the old rows, and a sweep exactly those past
    their retention; seeding is all or nothing and leaves the rows the file
    describes; migrations are applied in order and once, and only a database of
    the time before goose is stamped; readiness is reported exactly when every
    check passed; a reload that is skipped because of an equal fingerprint would
    have found the same columns and point counts; log entries are handed to the
    writer in order, none lost; validated
    identifiers are single tokens after quoting; the logger of a context is the
    innermost one attached; the collectors that are observed are registered with
    matching labels.

    Some theorems document flaws of the code instead: [validate_accepts_dot],
    [mssql_quotes_unvalidated_segment], [reload_loses_schedule],
    [stop_misses_run], [little_applied_twice], [rows_read_misses_row],
    [bad_subcode_is_good], [handle_close_race], [fingerprint_collision],
    [disabled_rows_created_enabled], [report_after_rollback],
    [extra_hides_status], [failed_startup_leaves_running],
    [stamp_runs_baseline], [replace_drops_sibling], [sqlserver_open_leaks],
    [opcua_passes_nan], [abort_overflow], [fingerprint_ignores_name].

    ** Fuel

    Recursion is structural except for three loops: UTF-8 decoding uses the
    length of the string as fuel, and each step consumes a byte;
    [resolve_n] has the bound of 100 that slog itself has; the pruning loop
    takes fuel, and [prune_exact] proves that one more than the number of old
    rows is enough.

    ** Not modelled

    The inside of net/http and the JSON text of the answers; the arithmetic of the
    Prometheus collectors; the SQL text of the migrations and the library that
    runs them; the YAML and JSON decoders; slog's console handlers; contexts and
    deadlines, so that a call that would be cut off by its deadline is an error
    of its parameter; src/pipeline/main.go, one call of a library. *)

From Stdlib Require Import Ascii NArith ZArith Lia.
From stdpp Require Export base gmap strings pretty list sorting.

Declare Scope go_scope.
Delimit Scope go_scope with go.
Open Scope go_scope.
Open Scope Z_scope.

Create HintDb loader.
Create Rewrite HintDb loader.

(** ** Errors and effects

    A Go [error] is its message; [fmt.Errorf("p: %w", err)] is the message
    with the prefix in front. *)

Definition error : Type := string.

(** A Go pair [(T, error)] of a function that returns the zero value of [T]
    whenever the error is not nil. *)
Inductive result (A : Type) : Type :=
  | Ok (a : A)
  | Err (e : error).
Arguments Ok {A} _.
Arguments Err {A} _.

Definition is_ok {A} (r : result A) : bool :=
  match r with Ok _ => true | Err _ => false end.

(** State passing: a computation over the world [W]. *)
Definition M (W A : Type) : Type := W -> W * A.

Definition retM {W A} (a : A) : M W A := fun w => (w, a).

Definition bindM {W A B} (m : M W A) (f : A -> M W B) : M W B :=
  fun w => let '(w', a) := m w in f a w'.

(** [x, err := m; if err != nil { return err }] *)
Definition bindE {W A B} (m : M W (result A)) (f : A -> M W (result B)) :
    M W (result B) :=
  bindM m (fun r => match r with Ok a => f a | Err e => retM (Err e) end).

(** [if err := m; err != nil { return wrap(err) }] for an operation that
    returns only an error. *)
Definition checkE {W B} (wrap : error -> error) (m : M W (option error))
    (k : M W (result B)) : M W (result B) :=
  bindM m (fun r => match r with None => k | Some e => retM (Err (wrap e)) end).

(** The same with an error-only continuation. *)
Definition checkN {W} (wrap : error -> error) (m : M W (option error))
    (k : M W (option error)) : M W (option error) :=
  bindM m (fun r => match r with None => k | Some e => retM (Some (wrap e)) end).

Notation "x <~ m ;; k" := (bindM m (fun x => k))
  (at level 100, m at next level, right associativity) : go_scope.
Notation "'do:' p <~ m ;; k" := (bindM m (fun x => match x with p => k end))
  (at level 100, p pattern, m at next level, right associativity) : go_scope.
Notation "m ~;; k" := (bindM m (fun _ => k))
  (at level 100, right associativity) : go_scope.

Definition errorf (prefix : string) (e : error) : error := prefix +:+ ": " +:+ e.

(** Error of a [result] as an [option error]. *)
Definition err_of {A} (r : result A) : option error :=
  match r with Ok _ => None | Err e => Some e end.

(** ** Triples

    [triple P m Q]: from a world with [P], the computation ends in a world and
    a value with [Q]. *)
Definition triple {W A} (P : W -> Prop) (m : M W A) (Q : A -> W -> Prop) : Prop :=
  forall w, P w -> Q (m w).2 (m w).1.

Lemma triple_ret {W A} (P : W -> Prop) (a : A) (Q : A -> W -> Prop) :
  (forall w, P w -> Q a w) -> triple P (retM a) Q.
Proof. intros H w Hw. by apply H. Qed.

Lemma triple_bind {W A B} P (m : M W A) (f : A -> M W B) R Q :
  triple P m R -> (forall a, triple (R a) (f a) Q) -> triple P (bindM m f) Q.
Proof.
  intros Hm Hf w Hw. unfold bindM. specialize (Hm w Hw).
  destruct (m w) as [w' a]. by apply Hf.
Qed.

Lemma triple_conseq {W A} (P P' : W -> Prop) (m : M W A) (Q Q' : A -> W -> Prop) :
  triple P' m Q' -> (forall w, P w -> P' w) -> (forall a w, Q' a w -> Q a w) ->
  triple P m Q.
Proof. intros H HP HQ w Hw. by apply HQ, H, HP. Qed.

(** [keeps f m]: the computation leaves the part [f] of the world alone. *)
Definition keeps {W A X} (f : W -> X) (m : M W A) : Prop := forall w, f (m w).1 = f w.

Lemma keeps_ret {W A X} (f : W -> X) (a : A) : keeps f (retM a).
Proof. by intros w. Qed.

Lemma keeps_bind {W A B X} (f : W -> X) (m : M W A) (k : A -> M W B) :
  keeps f m -> (forall a, keeps f (k a)) -> keeps f (bindM m k).
Proof.
  intros Hm Hk w. unfold bindM. specialize (Hm w). destruct (m w) as [w' a]. simpl in *.
  by rewrite Hk.
Qed.

Lemma keeps_eq {W A X} (f : W -> X) (m : M W A) w w' a :
  keeps f m -> m w = (w', a) -> f w' = f w.
Proof. intros Hk Hm. specialize (Hk w). by rewrite Hm in Hk. Qed.

Lemma triple_keeps {W A X} (f : W -> X) (Phi : X -> Prop) (m : M W A) :
  keeps f m -> triple (fun w => Phi (f w)) m (fun _ w => Phi (f w)).
Proof. intros Hk w Hw. by rewrite Hk. Qed.

(** A bound computation that returned: its two halves returned. *)
Lemma bindM_inv {W A B} (m : M W A) (f : A -> M W B) w w' b :
  bindM m f w = (w', b) -> exists w1 a, m w = (w1, a) /\ f a w1 = (w', b).
Proof. unfold bindM. destruct (m w) as [w1 a]. eauto. Qed.

#[export] Hint Resolve keeps_ret keeps_bind : loader.

(** ** Tactics *)

(** Case on every [match]/[if] scrutinee that the goal still waits for. *)
Ltac go_case :=
  match goal with
  | |- context [match ?x with _ => _ end] => destruct x eqn:?
  | H : context [match ?x with _ => _ end] |- _ => destruct x eqn:?
  end.

(** [keeps] of a composed computation, from the [keeps] hints of its parts. *)
Ltac keeps_tac :=
  repeat first
    [ apply keeps_ret
    | apply keeps_bind; [|intros ?]
    | solve [eauto 2 with loader nocore]
    | case_match ].

(** [kept f H K]: from the run [H : m w = (w', a)] of a computation that keeps
    [f], the equation [K : f w' = f w]. *)
Ltac kept f H K :=
  pose proof H as K; apply (keeps_eq f) in K; [|solve [eauto 2 with loader nocore]].

(** Take apart a run of a sequence of actions, hypothesis [H : (m1 ;; m2) w = _]. *)
Ltac run_inv H :=
  repeat match type of H with
  | bindM _ _ _ = _ => apply bindM_inv in H as (? & ? & ? & H)
  | retM _ _ = _ => unfold retM in H; simplify_eq
  | (let '(_, _) := ?x in _) _ = _ => destruct x
  end.

Ltac go_unfold := unfold bindE, checkE, checkN, bindM, retM in *.

Ltac go_step := go_unfold; simplify_eq/=; repeat (go_case; simplify_eq/=).

(** [%q] of [fmt]: the argument between double quotes.  The escapes of
    unprintable characters are not modelled; no code path looks into the text
    of an error. *)
Definition dquote : string := String (ascii_of_N 34) EmptyString.
Definition fmt_q (s : string) : string := dquote +:+ s +:+ dquote.

(** Decimal rendering of an integer, [%d]. *)
Definition fmt_d (z : Z) : string := pretty z.

(** ** Strings *)

Lemma str_app_nil_l (a : string) : "" +:+ a = a.
Proof. reflexivity. Qed.

Lemma str_app_cons_l (c : ascii) (a b : string) : String c a +:+ b = String c (a +:+ b).
Proof. reflexivity. Qed.

Lemma str_app_nil_r (a : string) : a +:+ "" = a.
Proof. induction a as [|x a IH]; [done|]. change (String x (a +:+ "") = String x a). by rewrite IH. Qed.

Lemma str_app_assoc (a b c : string) : (a +:+ b) +:+ c = a +:+ b +:+ c.
Proof.
  induction a as [|x a IH]; [done|].
  change (String x ((a +:+ b) +:+ c) = String x (a +:+ b +:+ c)). by rewrite IH.
Qed.

Lemma str_length_app (a b : string) :
  String.length (a +:+ b) = (String.length a + String.length b)%nat.
Proof. induction a as [|c a IH]; [done|]. simpl. by rewrite IH. Qed.

Lemma str_app_inj_r (a b c : string) : a +:+ c = b +:+ c -> a = b.
Proof.
  revert b. induction a as [|x a IH]; intros [|y b] H; [done|..].
  1,2: apply (f_equal String.length) in H; rewrite !str_length_app in H; simpl in H; lia.
  rewrite !str_app_cons_l in H. injection H as -> H. by rewrite (IH b).
Qed.

#[export] Hint Rewrite str_app_nil_l str_app_nil_r str_app_cons_l str_app_assoc : loader.
