(* ===== verification/GoStrings.v ===== *)
(** * Go strings

    The operations of the packages [strings] and [unicode/utf8] that the
    loader calls.  A Go string is a byte sequence, which is what a Rocq
    [string] is; the cut sets and separators the loader passes are ASCII, so
    the byte-wise definitions are exact. *)

From S2P Require Import Prelude.
From Stdlib Require Import Ascii NArith ZArith Lia.

Module GoStrings.

Definition char (n : N) : ascii := ascii_of_N n.

(** ** Trim *)

Fixpoint mem_char (c : ascii) (cut : string) : bool :=
  match cut with
  | EmptyString => false
  | String d cut' => Ascii.eqb c d || mem_char c cut'
  end.

Fixpoint TrimLeft (s cut : string) : string :=
  match s with
  | EmptyString => EmptyString
  | String c s' => if mem_char c cut then TrimLeft s' cut else s
  end.

Fixpoint TrimRight (s cut : string) : string :=
  match s with
  | EmptyString => EmptyString
  | String c s' =>
      match TrimRight s' cut with
      | EmptyString => if mem_char c cut then EmptyString else String c EmptyString
      | t => String c t
      end
  end.

(** [strings.Trim(s, cut)] *)
Definition Trim (s cut : string) : string := TrimRight (TrimLeft s cut) cut.

(** ** Split, Join, ReplaceAll, prefixes *)

(** [strings.Split(s, c)] for a one-byte separator: never the empty list. *)
Fixpoint Split (s : string) (c : ascii) : list string :=
  match s with
  | EmptyString => [EmptyString]
  | String d s' =>
      if Ascii.eqb d c then EmptyString :: Split s' c
      else match Split s' c with
           | [] => [String d EmptyString]
           | p :: ps => String d p :: ps
           end
  end.

(** [strings.Join(parts, sep)] *)
Fixpoint Join (parts : list string) (sep : string) : string :=
  match parts with
  | [] => EmptyString
  | [p] => p
  | p :: ps => p +:+ sep +:+ Join ps sep
  end.

(** [strings.ReplaceAll(s, c, r)] for a one-byte pattern. *)
Fixpoint ReplaceAll (s : string) (c : ascii) (r : string) : string :=
  match s with
  | EmptyString => EmptyString
  | String d s' =>
      if Ascii.eqb d c then r +:+ ReplaceAll s' c r else String d (ReplaceAll s' c r)
  end.

(** [strings.HasPrefix], and [strings.TrimPrefix] when it holds. *)
Fixpoint CutPrefix (p s : string) : option string :=
  match p, s with
  | EmptyString, _ => Some s
  | String a p', String b s' => if Ascii.eqb a b then CutPrefix p' s' else None
  | String _ _, EmptyString => None
  end.

(** ** Letter case

    [strings.ToLower], [strings.ToUpper] and [strings.EqualFold] are used by
    the loader only to compare with ASCII literals.  Besides the ASCII letters
    the Unicode tables send exactly these non-ASCII runes to ASCII: lower case
    U+0130 to i and U+212A to k; upper case U+0131 to I and U+017F to S; simple
    folding identifies U+212A with k and U+017F with s.  Every other non-ASCII
    rune maps to a non-ASCII rune, so leaving its bytes unchanged does not
    change any comparison with an ASCII literal. *)

Definition lower_char (c : ascii) : ascii :=
  let n := N_of_ascii c in
  if ((65 <=? n) && (n <=? 90))%N then char (n + 32) else c.

Definition upper_char (c : ascii) : ascii :=
  let n := N_of_ascii c in
  if ((97 <=? n) && (n <=? 122))%N then char (n - 32) else c.

Definition is_byte (c : ascii) (n : N) : bool := N.eqb (N_of_ascii c) n.

Fixpoint ToLower (s : string) : string :=
  match s with
  | EmptyString => EmptyString
  | String c1 s1 =>
      match s1 with
      | String c2 s2 =>
          if is_byte c1 196 && is_byte c2 176 then String "i" (ToLower s2)
          else match s2 with
               | String c3 s3 =>
                   if is_byte c1 226 && is_byte c2 132 && is_byte c3 170
                   then String "k" (ToLower s3)
                   else String (lower_char c1) (ToLower s1)
               | EmptyString => String (lower_char c1) (ToLower s1)
               end
      | EmptyString => String (lower_char c1) EmptyString
      end
  end.

Fixpoint ToUpper (s : string) : string :=
  match s with
  | EmptyString => EmptyString
  | String c1 s1 =>
      match s1 with
      | String c2 s2 =>
          if is_byte c1 196 && is_byte c2 177 then String "I" (ToUpper s2)
          else if is_byte c1 197 && is_byte c2 191 then String "S" (ToUpper s2)
          else String (upper_char c1) (ToUpper s1)
      | EmptyString => String (upper_char c1) EmptyString
      end
  end.

Fixpoint fold_case (s : string) : string :=
  match s with
  | EmptyString => EmptyString
  | String c1 s1 =>
      match s1 with
      | String c2 s2 =>
          if is_byte c1 197 && is_byte c2 191 then String "s" (fold_case s2)
          else match s2 with
               | String c3 s3 =>
                   if is_byte c1 226 && is_byte c2 132 && is_byte c3 170
                   then String "k" (fold_case s3)
                   else String (lower_char c1) (fold_case s1)
               | EmptyString => String (lower_char c1) (fold_case s1)
               end
      | EmptyString => String (lower_char c1) EmptyString
      end
  end.

(** [strings.EqualFold(s, lit)] for an ASCII literal [lit]. *)
Definition EqualFold (s lit : string) : bool :=
  bool_decide (fold_case s = fold_case lit).

(** ** UTF-8

    [decode_rune] is [utf8.DecodeRuneInString] on a non-empty string, with
    [None] for an invalid encoding (bad continuation byte, overlong form,
    surrogate, value above U+10FFFF). *)

Definition byte_Z (c : ascii) : Z := Z.of_N (N_of_ascii c).

Definition is_cont (b : Z) : bool := (128 <=? b) && (b <=? 191).

Definition cont (b : Z) : Z := b - 128.

Definition decode_rune (s : string) : option (Z * string) :=
  match s with
  | EmptyString => None
  | String c1 s1 =>
      let b1 := byte_Z c1 in
      if b1 <=? 127 then Some (b1, s1)
      else match s1 with
      | EmptyString => None
      | String c2 s2 =>
          let b2 := byte_Z c2 in
          if (194 <=? b1) && (b1 <=? 223) then
            if is_cont b2 then Some ((b1 - 192) * 64 + cont b2, s2) else None
          else match s2 with
          | EmptyString => None
          | String c3 s3 =>
              let b3 := byte_Z c3 in
              if (224 <=? b1) && (b1 <=? 239) then
                let r := (b1 - 224) * 4096 + cont b2 * 64 + cont b3 in
                if is_cont b2 && is_cont b3 && (2048 <=? r)
                     && negb ((55296 <=? r) && (r <=? 57343))
                then Some (r, s3) else None
              else match s3 with
              | EmptyString => None
              | String c4 s4 =>
                  let b4 := byte_Z c4 in
                  let r := (b1 - 240) * 262144 + cont b2 * 4096 + cont b3 * 64 + cont b4 in
                  if (240 <=? b1) && (b1 <=? 244) && is_cont b2 && is_cont b3 && is_cont b4
                       && (65536 <=? r) && (r <=? 1114111)
                  then Some (r, s4) else None
              end
          end
      end
  end.

(** The runes of a string, with one step of fuel per byte; [None] when the
    string is not valid UTF-8. *)
Fixpoint runes_fuel (fuel : nat) (s : string) : option (list Z) :=
  match s with
  | EmptyString => Some []
  | _ =>
      match fuel with
      | O => None
      | S f =>
          match decode_rune s with
          | None => None
          | Some (r, s') => cons r <$> runes_fuel f s'
          end
      end
  end.

Definition runes (s : string) : option (list Z) := runes_fuel (String.length s) s.

(** [utf8.ValidString] *)
Definition ValidString (s : string) : bool :=
  match runes s with Some _ => true | None => false end.

(** ** White space and numbers *)

(** [unicode.IsSpace] *)
Definition is_space (r : Z) : bool :=
  ((9 <=? r) && (r <=? 13)) || (r =? 32) || (r =? 133) || (r =? 160) || (r =? 5760)
  || ((8192 <=? r) && (r <=? 8202)) || (r =? 8232) || (r =? 8233) || (r =? 8239)
  || (r =? 8287) || (r =? 12288).

(** The string as the pieces a rune loop visits: a rune with its bytes, or one
    byte of an invalid encoding. *)
Fixpoint pieces_fuel (fuel : nat) (s : string) : list (bool * string) :=
  match fuel, s with
  | O, _ | _, EmptyString => []
  | S f, String c s1 =>
      match decode_rune s with
      | Some (r, s') =>
          (is_space r, String.substring 0 (String.length s - String.length s') s) :: pieces_fuel f s'
      | None => (false, String c EmptyString) :: pieces_fuel f s1
      end
  end.

Fixpoint drop_spaces (l : list (bool * string)) : list (bool * string) :=
  match l with
  | (true, _) :: l' => drop_spaces l'
  | _ => l
  end.

(** [strings.TrimSpace] *)
Definition TrimSpace (s : string) : string :=
  let l := drop_spaces (pieces_fuel (String.length s) s) in
  Join (map snd (rev (drop_spaces (rev l)))) EmptyString.

Definition digit_val (c : ascii) : option Z :=
  let b := byte_Z c in if (48 <=? b) && (b <=? 57) then Some (b - 48) else None.

Fixpoint digits_val (acc : Z) (s : string) : option Z :=
  match s with
  | EmptyString => Some acc
  | String c s' =>
      match digit_val c with
      | Some d => digits_val (acc * 10 + d) s'
      | None => None
      end
  end.

(** The integer that a decimal string spells: an optional sign, at least one
    digit, nothing else. *)
Definition decimal (s : string) : option Z :=
  let '(neg, body) :=
    match s with
    | String c s' =>
        if Ascii.eqb c "-" then (true, s')
        else if Ascii.eqb c "+" then (false, s') else (false, s)
    | EmptyString => (false, s)
    end in
  match body with
  | EmptyString => None
  | _ =>
      match digits_val 0 body with
      | None => None
      | Some v => Some (if neg then - v else v)
      end
  end.

(** [strconv.Atoi] on a 64-bit platform. *)
Definition Atoi (s : string) : option Z :=
  match decimal s with
  | None => None
  | Some z => if (- 2 ^ 63 <=? z) && (z <? 2 ^ 63) then Some z else None
  end.

(** The value of [strconv.Atoi] when its error is ignored: 0 on a syntax
    error, the nearest bound when out of range. *)
Definition Atoi_value (s : string) : Z :=
  match decimal s with
  | None => 0
  | Some z => Z.max (- 2 ^ 63) (Z.min z (2 ^ 63 - 1))
  end.

(** ** Lemmas *)

Fixpoint has_char (c : ascii) (s : string) : bool :=
  match s with
  | EmptyString => false
  | String d s' => Ascii.eqb d c || has_char c s'
  end.

Lemma TrimLeft_id s cut :
  (forall c, mem_char c cut = true -> has_char c s = false) -> TrimLeft s cut = s.
Proof.
  destruct s as [|c s]; simpl; [done|]. intros H.
  destruct (mem_char c cut) eqn:E; [|done].
  apply H in E. by rewrite Ascii.eqb_refl in E.
Qed.

Lemma TrimRight_id s cut :
  (forall c, mem_char c cut = true -> has_char c s = false) -> TrimRight s cut = s.
Proof.
  induction s as [|c s IH]; simpl; [done|]. intros H.
  rewrite IH; last first.
  { intros d Hd. apply H in Hd. by apply orb_false_iff in Hd as [_ ?]. }
  destruct (mem_char c cut) eqn:E.
  { apply H in E. by rewrite Ascii.eqb_refl in E. }
  by destruct s.
Qed.

(** A string without any character of the cut set is not changed by [Trim]. *)
Lemma Trim_id s cut :
  (forall c, mem_char c cut = true -> has_char c s = false) -> Trim s cut = s.
Proof. intros H. unfold Trim. by rewrite TrimLeft_id, TrimRight_id. Qed.

Lemma has_char_app c s t : has_char c (s +:+ t) = has_char c s || has_char c t.
Proof. induction s as [|d s IH]; simpl; [done|]. by rewrite IH, orb_assoc. Qed.

Lemma Split_cons s c : exists p ps, Split s c = p :: ps.
Proof.
  induction s as [|d s [p [ps IH]]]; simpl; [eauto|].
  rewrite IH. destruct (Ascii.eqb d c); eauto.
Qed.

Lemma Split_no_sep s c p : p ∈ Split s c -> has_char c p = false.
Proof.
  revert p. induction s as [|d s IH]; simpl; intros p Hp.
  { by apply list_elem_of_singleton in Hp as ->. }
  destruct (Split_cons s c) as (q & qs & E). rewrite E in *.
  destruct (Ascii.eqb d c) eqn:Ed.
  - apply elem_of_cons in Hp as [->|Hp]; [done|by apply IH].
  - apply elem_of_cons in Hp as [->|Hp]; simpl.
    + rewrite Ed. simpl. apply IH. apply elem_of_cons; by left.
    + apply IH. apply elem_of_cons; by right.
Qed.

Lemma Split_id s c : has_char c s = false -> Split s c = [s].
Proof.
  induction s as [|d s IH]; simpl; [done|].
  intros [Hd Hs]%orb_false_iff. by rewrite Hd, IH.
Qed.

Lemma Split_app_sep a b c : has_char c a = false -> Split (a +:+ String c b) c = a :: Split b c.
Proof.
  intros Ha. induction a as [|x a IH].
  - rewrite str_app_nil_l. simpl. by rewrite Ascii.eqb_refl.
  - simpl in Ha. apply orb_false_iff in Ha as [Hx Ha]. rewrite str_app_cons_l. simpl.
    by rewrite Hx, IH.
Qed.

Lemma Split_Join c fields :
  fields <> [] -> Forall (fun f => has_char c f = false) fields ->
  Split (Join fields (String c "")) c = fields.
Proof.
  intros Hne Hf. induction Hf as [|f fields Hc Hf IH]; [done|]. destruct fields as [|f2 fields].
  - by apply Split_id.
  - change (Join (f :: f2 :: fields) (String c "")) with (f +:+ String c "" +:+ Join (f2 :: fields) (String c "")).
    rewrite str_app_cons_l, str_app_nil_l, Split_app_sep by done. by rewrite IH.
Qed.

(** A literal of one character in front of a string. *)
Lemma str_char c s : String c "" +:+ s = String c s.
Proof. by rewrite str_app_cons_l, str_app_nil_l. Qed.

Lemma CutPrefix_app p s : CutPrefix p (p +:+ s) = Some s.
Proof.
  induction p as [|c p IH]; [done|]. rewrite str_app_cons_l. simpl. by rewrite Ascii.eqb_refl.
Qed.

Lemma ToLower_empty s : ToLower s = "" -> s = "".
Proof.
  destruct s as [|c1 [|c2 [|c3 s]]]; simpl; try done;
    by repeat case_match.
Qed.

End GoStrings.
