(* ===== verification/Url.v ===== *)
(** * URLs (net/url)

    The escaping of the parts of a URL and [URL.String], as the sources use
    them to build connection strings. *)

From S2P Require Import Prelude.
From S2P Require Import GoStrings.
From Stdlib Require Import Ascii ZArith Lia.

Module Url.
Import GoStrings.

Definition hex_digit (n : Z) : ascii :=
  ascii_of_N (Z.to_N (if n <? 10 then 48 + n else 55 + n)).

(** [%XX] *)
Definition pct (c : ascii) : string :=
  String "%" (String (hex_digit (byte_Z c / 16)) (String (hex_digit (byte_Z c mod 16)) "")).

Definition is_alnum (c : ascii) : bool :=
  let b := byte_Z c in
  ((48 <=? b) && (b <=? 57)) || ((65 <=? b) && (b <=? 90)) || ((97 <=? b) && (b <=? 122)).

Inductive encoding := encodeUserPassword | encodeHost | encodePath | encodeQueryComponent.

(** [shouldEscape], negated: the characters that stay as they are. *)
Definition plain (m : encoding) (c : ascii) : bool :=
  is_alnum c || mem_char c "-_.~"
  || match m with
     | encodeUserPassword => mem_char c "$&+,;="
     | encodeHost => mem_char c ("!$&'()*+,;=:[]<>" +:+ dquote)
     | encodePath => mem_char c "$&+,/:;=@"
     | encodeQueryComponent => false
     end.

Fixpoint escape (m : encoding) (s : string) : string :=
  match s with
  | EmptyString => EmptyString
  | String c s' =>
      if plain m c then String c (escape m s')
      else match m with
           | encodeQueryComponent =>
               if Ascii.eqb c " " then String "+" (escape m s') else pct c +:+ escape m s'
           | _ => pct c +:+ escape m s'
           end
  end.

(** [Values.Encode] of keys in the order it writes them. *)
Definition encode_query (kvs : list (string * string)) : string :=
  Join (map (fun kv => escape encodeQueryComponent kv.1 +:+ "=" +:+ escape encodeQueryComponent kv.2)
          kvs) "&".

(** The userinfo of [url.UserPassword] or [url.User], with its at sign. *)
Definition userinfo (user password : string) : string :=
  if bool_decide (user = "") then ""
  else escape encodeUserPassword user
       +:+ (if bool_decide (password = "") then "" else ":" +:+ escape encodeUserPassword password)
       +:+ "@".

(** [u.String()] for a URL with a host. *)
Definition url_string (scheme user password host path rawQuery : string) : string :=
  scheme +:+ "://" +:+ userinfo user password +:+ escape encodeHost host
  +:+ escape encodePath path +:+ (if bool_decide (rawQuery = "") then "" else "?" +:+ rawQuery).

End Url.
