(* ===== verification/Sqlident.v ===== *)
(** * SQL identifiers (internal/sqlident)

    Validation and quoting of identifiers, and the lexical reading of a quoted
    identifier by SQL Server (brackets) and PostgreSQL (double quotes) against
    which the quoting functions are proved. *)

From S2P Require Import Prelude.
From S2P Require Import GoStrings.
From Stdlib Require Import Ascii NArith ZArith Lia.

Module Sqlident.
Import GoStrings.

(** The Unicode classes [\p{L}] and [\p{N}] of package [regexp]: tables of the
    Go distribution, of which only the ASCII part is stated. *)
Class UnicodeTables := {
  is_L : Z -> bool;
  is_N : Z -> bool;
  is_L_ascii : forall r, 0 <= r < 128 ->
    is_L r = ((65 <=? r) && (r <=? 90)) || ((97 <=? r) && (r <=? 122));
  is_N_ascii : forall r, 0 <= r < 128 -> is_N r = (48 <=? r) && (r <=? 57);
}.

Section Ident.
Context {U : UnicodeTables}.

Definition MaxIdentLen : Z := 128.

(** First class of [identRE]: [[\p{L}_]]. *)
Definition ident_first (r : Z) : bool := is_L r || (r =? 95).

(** Second class of [identRE]: letters, numbers, [_ @ $ #], space, dot, minus. *)
Definition ident_rest (r : Z) : bool :=
  is_L r || is_N r || (r =? 95) || (r =? 64) || (r =? 36) || (r =? 35)
  || (r =? 32) || (r =? 46) || (r =? 45).

(** [identRE.MatchString] on the runes of a valid string. *)
Definition identRE (rs : list Z) : bool :=
  match rs with
  | [] => false
  | r :: rest => ident_first r && forallb ident_rest rest && (length rest <=? 127)%nat
  end.

Definition Validate (name : string) : option error :=
  if bool_decide (name = "") then Some "identifier is empty"
  else match runes name with
  | None => Some "identifier is not valid UTF-8"
  | Some rs =>
      if MaxIdentLen <? Z.of_nat (String.length name)
      then Some ("identifier " +:+ fmt_q name +:+ " exceeds 128 characters")
      else if negb (identRE rs)
      then Some ("identifier " +:+ fmt_q name +:+ " contains illegal characters")
      else None
  end.

Definition bracket_cut : string := "[]".
Definition bracket_dquote_cut : string := "[]" +:+ dquote.

Fixpoint validate_parts (parts : list string) : option error :=
  match parts with
  | [] => None
  | p :: ps =>
      match Validate (Trim p bracket_dquote_cut) with
      | Some e => Some e
      | None => validate_parts ps
      end
  end.

Definition ValidateQualified (name : string) : option error :=
  if bool_decide (name = "") then Some "identifier is empty"
  else
    let parts := Split name "." in
    if (2 <? length parts)%nat
    then Some ("identifier " +:+ fmt_q name +:+ " has too many segments")
    else validate_parts parts.

Definition QuoteMSSQL (name : string) : string :=
  "[" +:+ ReplaceAll (Trim name bracket_cut) "]" "]]" +:+ "]".

Definition QuoteMSSQLQualified (name : string) : result string :=
  match ValidateQualified name with
  | Some e => Err e
  | None =>
      Ok (Join (map (fun p => QuoteMSSQL (Trim p bracket_cut)) (Split name ".")) ".")
  end.

Definition QuotePostgres (name : string) : string :=
  dquote +:+ ReplaceAll (Trim name dquote) (char 34) (dquote +:+ dquote) +:+ dquote.

Definition QuotePostgresQualified (name : string) : result string :=
  match ValidateQualified name with
  | Some e => Err e
  | None =>
      Ok (Join (map (fun p => QuotePostgres (Trim p dquote)) (Split name ".")) ".")
  end.

End Ident.

(** ** The readers

    A delimited identifier: after the opening delimiter, everything up to the
    first closing delimiter that is not doubled; a doubled one stands for
    itself. *)

Fixpoint lex_body (close : ascii) (s : string) : option (string * string) :=
  match s with
  | EmptyString => None
  | String c s1 =>
      if Ascii.eqb c close then
        match s1 with
        | String d s2 =>
            if Ascii.eqb d close
            then (fun '(n, r) => (String close n, r)) <$> lex_body close s2
            else Some (EmptyString, s1)
        | EmptyString => Some (EmptyString, EmptyString)
        end
      else (fun '(n, r) => (String c n, r)) <$> lex_body close s1
  end.

Definition lex_ident (open close : ascii) (s : string) : option (string * string) :=
  match s with
  | String c s' => if Ascii.eqb c open then lex_body close s' else None
  | EmptyString => None
  end.

(** A one- or two-part name that takes the whole text. *)
Definition lex_qualified (open close : ascii) (s : string) : option (list string) :=
  match lex_ident open close s with
  | Some (a, EmptyString) => Some [a]
  | Some (a, String c s') =>
      if Ascii.eqb c "." then
        match lex_ident open close s' with
        | Some (b, EmptyString) => Some [a; b]
        | _ => None
        end
      else None
  | None => None
  end.

Definition lex_mssql := lex_qualified "[" "]".
Definition lex_postgres := lex_qualified (char 34) (char 34).

(** ** Lemmas *)

Definition starts_with (c : ascii) (s : string) : bool :=
  match s with String d _ => Ascii.eqb d c | EmptyString => false end.

Lemma lex_body_escaped close n rest :
  starts_with close rest = false ->
  lex_body close
    (ReplaceAll n close (String close (String close "")) +:+ String close rest)
  = Some (n, rest).
Proof.
  intros Hr. induction n as [|c n IH]; simpl.
  - rewrite Ascii.eqb_refl. destruct rest as [|d rest]; [done|].
    simpl in Hr. by rewrite Hr.
  - destruct (Ascii.eqb c close) eqn:Ec.
    + apply Ascii.eqb_eq in Ec as ->. simpl. rewrite Ascii.eqb_refl, str_app_nil_l.
      by rewrite IH.
    + simpl. rewrite Ec. by rewrite IH.
Qed.

Lemma lex_ident_mssql n rest :
  starts_with "]" rest = false ->
  lex_ident "[" "]" (QuoteMSSQL n +:+ rest) = Some (Trim n bracket_cut, rest).
Proof.
  intros Hr. unfold QuoteMSSQL. rewrite !str_app_assoc.
  exact (lex_body_escaped "]" (Trim n bracket_cut) rest Hr).
Qed.

Lemma lex_ident_postgres n rest :
  starts_with (char 34) rest = false ->
  lex_ident (char 34) (char 34) (QuotePostgres n +:+ rest) = Some (Trim n dquote, rest).
Proof.
  intros Hr. unfold QuotePostgres. rewrite !str_app_assoc.
  exact (lex_body_escaped (char 34) (Trim n dquote) rest Hr).
Qed.

Lemma TrimLeft_head s cut c s' :
  TrimLeft s cut = String c s' -> mem_char c cut = false.
Proof. induction s as [|d s IH]; simpl; [done|]. case_match; naive_solver. Qed.

Lemma TrimRight_head s cut c s' :
  TrimRight s cut = String c s' -> exists t, s = String c t.
Proof. destruct s as [|d s]; simpl; [done|]. repeat case_match; naive_solver. Qed.

Lemma TrimRight_idem s cut : TrimRight (TrimRight s cut) cut = TrimRight s cut.
Proof.
  induction s as [|c s IH]; simpl; [done|].
  destruct (TrimRight s cut) as [|d t] eqn:E.
  - destruct (mem_char c cut) eqn:Ec; simpl; [done|by rewrite Ec].
  - cbn [TrimRight] in *. by rewrite IH.
Qed.

Lemma Trim_idem s cut : Trim (Trim s cut) cut = Trim s cut.
Proof.
  unfold Trim. destruct (TrimRight (TrimLeft s cut) cut) as [|c t] eqn:E; [done|].
  destruct (TrimRight_head _ _ _ _ E) as [u Hu].
  assert (Hc : mem_char c cut = false) by by eapply TrimLeft_head.
  assert (HT : TrimLeft (String c t) cut = String c t) by (simpl; by rewrite Hc).
  rewrite HT. rewrite <- E. apply TrimRight_idem.
Qed.

(** ASCII bytes of a valid string are runes of it. *)
Lemma decode_rune_ascii s r s' c :
  decode_rune s = Some (r, s') -> byte_Z c < 128 ->
  has_char c s = true -> r = byte_Z c \/ has_char c s' = true.
Proof.
  intros Hd Hc Hh.
  assert (Heq : forall d, Ascii.eqb d c = true -> byte_Z d = byte_Z c).
  { intros d Hd'. by apply Ascii.eqb_eq in Hd' as ->. }
  unfold decode_rune, is_cont in Hd.
  repeat (case_match; simplify_eq/=); simpl in Hh;
    repeat match goal with
    | H : _ || _ = true |- _ => apply orb_true_iff in H as [H|H]
    | H : Ascii.eqb _ c = true |- _ => apply Heq in H
    end; try (left; lia); try (by right); lia.
Qed.

Lemma runes_fuel_ascii f s rs c :
  runes_fuel f s = Some rs -> byte_Z c < 128 -> has_char c s = true -> byte_Z c ∈ rs.
Proof.
  revert s rs. induction f as [|f IH]; intros s rs Hr Hc Hh; destruct s as [|d s];
    cbn -[decode_rune has_char] in Hr; simplify_eq; try done.
  destruct (decode_rune (String d s)) as [[r s']|] eqn:E; [|done].
  apply fmap_Some in Hr as (rs' & E' & ->).
  destruct (decode_rune_ascii _ _ _ c E Hc Hh) as [->|Hs]; [by left|].
  right. by eapply IH.
Qed.

(** A rune is decoded from the first bytes only. *)
Lemma decode_rune_app s b r s' :
  decode_rune s = Some (r, s') -> decode_rune (s +:+ b) = Some (r, s' +:+ b).
Proof.
  unfold decode_rune. intros H. repeat (case_match; simplify_eq/=; try done).
Qed.

Lemma runes_fuel_mono f g s rs :
  runes_fuel f s = Some rs -> (f <= g)%nat -> runes_fuel g s = Some rs.
Proof.
  revert g s rs. induction f as [|f IH]; intros g [|c s] rs H Hle; destruct g as [|g];
    cbn -[decode_rune] in *; try done; try lia.
  destruct (decode_rune _) as [[r s']|]; [|done].
  apply fmap_Some in H as (rs' & H & ->). by rewrite (IH g _ _ H) by lia.
Qed.

Lemma runes_fuel_app f g s b rs rb :
  runes_fuel f s = Some rs -> runes_fuel g b = Some rb ->
  runes_fuel (f + g) (s +:+ b) = Some (rs ++ rb).
Proof.
  revert s rs. induction f as [|f IH]; intros [|c s] rs Hs Hb;
    cbn -[decode_rune] in Hs; simplify_eq.
  - done.
  - rewrite str_app_nil_l. eapply runes_fuel_mono; [done|lia].
  - destruct (decode_rune _) as [[r s']|] eqn:E; [|done].
    apply fmap_Some in Hs as (rs' & Hs & ->).
    pose proof (decode_rune_app _ b _ _ E) as Ea. rewrite str_app_cons_l in *.
    cbn -[decode_rune]. rewrite Ea. by rewrite (IH _ _ Hs Hb).
Qed.

Lemma runes_app s b rs rb :
  runes s = Some rs -> runes b = Some rb -> runes (s +:+ b) = Some (rs ++ rb).
Proof. unfold runes. rewrite str_length_app. apply runes_fuel_app. Qed.

Lemma runes_fuel_length f s rs : runes_fuel f s = Some rs -> (length rs <= f)%nat.
Proof.
  revert s rs. induction f as [|f IH]; intros [|c s] rs H; cbn -[decode_rune] in H; simplify_eq;
    cbn [length]; try lia.
  destruct (decode_rune _) as [[r s']|]; [|done]. apply fmap_Some in H as (rs' & H & ->).
  apply IH in H. simpl. lia.
Qed.

Section IdentLemmas.
Context {U : UnicodeTables}.

(** A suffix of identifier characters keeps a name valid up to the limit. *)
Lemma Validate_suffix name suf rb :
  Validate name = None -> runes suf = Some rb -> forallb ident_rest rb = true ->
  Validate (name +:+ suf) = None
  <-> Z.of_nat (String.length name) + Z.of_nat (String.length suf) <= MaxIdentLen.
Proof.
  intros Hv Hs Hrb. unfold Validate in *. case_bool_decide as He; [done|].
  destruct (runes name) as [rs|] eqn:Hr; [|done].
  destruct (MaxIdentLen <? _) eqn:El; [done|]. apply Z.ltb_ge in El. destruct (identRE rs) eqn:Hre; [|done].
  pose proof (runes_app _ _ _ _ Hr Hs) as Ha.
  rewrite bool_decide_false by (destruct name; [done|by rewrite str_app_cons_l]).
  rewrite Ha, str_length_app, Nat2Z.inj_add.
  destruct (MaxIdentLen <? _) eqn:E; [split; [done|intros; exfalso; lia]|]. split; [intros _; lia|intros _].
  assert (Hl : (length (rs ++ rb) <= 128)%nat).
  { apply runes_fuel_length in Ha. rewrite str_length_app in Ha.
    unfold MaxIdentLen in E. lia. }
  destruct rs as [|r rest]; [done|]. simpl in *.
  apply andb_true_iff in Hre as [[Hf Hrest]%andb_true_iff _].
  rewrite Hf, forallb_app, Hrest, Hrb, (proj2 (Nat.leb_le _ _)) by lia. done.
Qed.

Lemma identRE_rest rs r : identRE rs = true -> r ∈ rs -> ident_rest r = true.
Proof.
  destruct rs as [|r0 rest]; simpl; [done|].
  intros [[H1 H2]%andb_true_iff _]%andb_true_iff.
  intros [->|Hr]%elem_of_cons.
  - unfold ident_first, ident_rest in *.
    apply orb_true_iff in H1 as [->| ->]; simpl; by rewrite ?orb_true_r.
  - rewrite forallb_forall in H2. apply H2. by apply list_elem_of_In.
Qed.

Lemma Validate_ok_inv name :
  Validate name = None ->
  exists rs, runes name = Some rs /\ identRE rs = true
    /\ Z.of_nat (String.length name) <= 128 /\ name <> "".
Proof.
  unfold Validate, MaxIdentLen. case_bool_decide; [done|].
  destruct (runes name) as [rs|]; [|done]. intros Hv.
  destruct (128 <? _) eqn:E; [done|]. destruct (identRE rs) eqn:E'; [|done].
  exists rs. repeat split; auto. lia.
Qed.

(** The ASCII alphabet of [identRE]. *)
Definition ident_ascii (b : Z) : bool :=
  ((65 <=? b) && (b <=? 90)) || ((97 <=? b) && (b <=? 122)) || ((48 <=? b) && (b <=? 57))
  || (b =? 95) || (b =? 64) || (b =? 36) || (b =? 35) || (b =? 32) || (b =? 46) || (b =? 45).

Lemma Validate_ascii name c :
  Validate name = None -> has_char c name = true -> byte_Z c < 128 ->
  ident_ascii (byte_Z c) = true.
Proof.
  intros (rs & Hr & Hre & _ & _)%Validate_ok_inv Hh Hc.
  assert (Hin : byte_Z c ∈ rs) by by eapply runes_fuel_ascii.
  eapply identRE_rest in Hin; [|done].
  assert (0 <= byte_Z c) by (unfold byte_Z; lia).
  unfold ident_rest in Hin. rewrite is_L_ascii, is_N_ascii in Hin by lia.
  done.
Qed.

Lemma Validate_no_char name c :
  Validate name = None -> byte_Z c < 128 -> ident_ascii (byte_Z c) = false ->
  has_char c name = false.
Proof.
  intros Hv Hc Ha. destruct (has_char c name) eqn:E; [|done].
  eapply Validate_ascii in E; [|done|done]. congruence.
Qed.

Lemma mem_bracket c : mem_char c bracket_cut = true -> c = "["%char \/ c = "]"%char.
Proof.
  unfold bracket_cut; simpl. rewrite orb_false_r.
  by intros [?%Ascii.eqb_eq|?%Ascii.eqb_eq]%orb_true_iff; [left|right].
Qed.

(** Quoting a validated identifier only adds the delimiters. *)
Lemma Validate_Trim name : Validate name = None -> Trim name bracket_cut = name.
Proof.
  intros Hv. apply Trim_id. intros c [->| ->]%mem_bracket;
    by apply Validate_no_char.
Qed.

Lemma Validate_nonempty name : Validate name = None -> name <> "".
Proof. by intros (rs & _ & _ & _ & ?)%Validate_ok_inv. Qed.

Lemma parts_length (name : string) :
  ValidateQualified name = None ->
  exists a, Split name "." = [a] \/ exists b, Split name "." = [a; b].
Proof.
  unfold ValidateQualified. case_bool_decide; [done|]. intros Hv.
  destruct (Split_cons name ".") as (a & ps & E). rewrite E in *. exists a.
  destruct ps as [|b [|c ps]]; simpl in Hv; [by left|right; by exists b|done].
Qed.

(** ** Properties *)

(** C23. A validated identifier is not empty, has at most 128 bytes, every
    ASCII byte of it is a letter, a digit or one of [_ @ $ # space . -] (so no
    quote, bracket, semicolon, slash or control character), and quoting it for
    SQL Server only adds the brackets. *)
Theorem validated_identifier_safe (name : string) (Hv : Validate name = None) :
  name <> "" /\ Z.of_nat (String.length name) <= MaxIdentLen
  /\ (forall c, has_char c name = true -> byte_Z c < 128 -> ident_ascii (byte_Z c) = true)
  /\ QuoteMSSQL name = "[" +:+ name +:+ "]".
Proof.
  split_and!.
  - by apply Validate_nonempty.
  - by destruct (Validate_ok_inv name Hv) as (? & _ & _ & ? & _).
  - intros c Hh Hc. by eapply Validate_ascii.
  - unfold QuoteMSSQL. rewrite Validate_Trim by done.
    assert (Hn : has_char "]" name = false) by by apply Validate_no_char.
    f_equal. f_equal. clear Hv. induction name as [|c s IH]; [done|]. simpl in *.
    apply orb_false_iff in Hn as [Hc Hs]. rewrite Hc. by rewrite IH.
Qed.

(** C24. A qualified name that [QuoteMSSQLQualified] (or
    [QuotePostgresQualified]) accepts is read back by the database as exactly
    the one or two dot-separated segments of the input, stripped of the outer
    delimiters that the quoting function itself strips: whatever bytes the
    segments contain, none of them ends the quoted identifier early. *)
Theorem qualified_quote_roundtrip (name : string) :
  match QuoteMSSQLQualified name with
  | Ok q => lex_mssql q = Some (map (fun p => Trim p bracket_cut) (Split name "."))
  | Err e => ValidateQualified name = Some e
  end /\
  match QuotePostgresQualified name with
  | Ok q => lex_postgres q = Some (map (fun p => Trim p dquote) (Split name "."))
  | Err e => ValidateQualified name = Some e
  end.
Proof.
  unfold QuoteMSSQLQualified, QuotePostgresQualified.
  destruct (ValidateQualified name) eqn:E; [done|].
  apply parts_length in E as (a & [E|(b & E)]); rewrite E;
    cbn [map Join]; unfold lex_mssql, lex_postgres, lex_qualified; split.
  - rewrite <- (str_app_nil_r (QuoteMSSQL _)), lex_ident_mssql by done.
    by rewrite Trim_idem.
  - rewrite <- (str_app_nil_r (QuotePostgres _)), lex_ident_postgres by done.
    by rewrite Trim_idem.
  - rewrite lex_ident_mssql, str_app_cons_l, Ascii.eqb_refl, str_app_nil_l by done.
    rewrite <- (str_app_nil_r (QuoteMSSQL _)), lex_ident_mssql by done.
    by rewrite !Trim_idem.
  - rewrite lex_ident_postgres, str_app_cons_l, Ascii.eqb_refl, str_app_nil_l by done.
    rewrite <- (str_app_nil_r (QuotePostgres _)), lex_ident_postgres by done.
    by rewrite !Trim_idem.
Qed.

(** [Validate] is documented as checking a single segment without
    schema.table dots, but its character class contains the dot. *)
Theorem validate_accepts_dot : Validate "a.b" = None.
Proof.
  unfold Validate, MaxIdentLen. simpl.
  unfold ident_first, ident_rest, byte_Z. simpl.
  by rewrite !is_L_ascii, !is_N_ascii by lia.
Qed.

(** [ValidateQualified] strips double quotes before validating, but
    [QuoteMSSQLQualified] strips only brackets: the name that reaches SQL
    Server is not the one that was validated. *)
Theorem mssql_quotes_unvalidated_segment :
  let name := dquote +:+ "t" +:+ dquote in
  ValidateQualified name = None
  /\ QuoteMSSQLQualified name = Ok ("[" +:+ name +:+ "]")
  /\ Validate name <> None.
Proof.
  assert (H : ValidateQualified (dquote +:+ "t" +:+ dquote) = None).
  { unfold ValidateQualified. simpl. unfold Validate, MaxIdentLen. simpl.
    unfold ident_first, byte_Z. simpl. by rewrite is_L_ascii by lia. }
  split_and!; [done| |].
  - unfold QuoteMSSQLQualified. by rewrite H.
  - unfold Validate, MaxIdentLen. simpl. unfold ident_first, byte_Z.
    simpl. by rewrite is_L_ascii by lia.
Qed.

End IdentLemmas.

(** ASCII-only tables: a concrete instance. *)
#[program] Definition ascii_tables : UnicodeTables := {|
  is_L r := ((65 <=? r) && (r <=? 90)) || ((97 <=? r) && (r <=? 122));
  is_N r := (48 <=? r) && (r <=? 57);
|}.
Next Obligation. done. Qed.
Next Obligation. done. Qed.

Lemma validated_identifier_safe_witness :
  QuoteMSSQL "Order Date" = "[Order Date]".
Proof.
  exact (proj2 (proj2 (proj2
    (@validated_identifier_safe ascii_tables "Order Date" eq_refl)))).
Defined.

End Sqlident.
