(* ===== verification/Contracts.v ===== *)
(** * Ports (pkg/contracts)

    The data that sources, sinks and the pipeline exchange, the interfaces
    between them as classes of operations, and the contract of a sink that the
    pipeline relies on ([SinkSpec]). *)

From S2P Require Import Prelude.
From Stdlib Require Import ZArith Lia SpecFloat.

Module Contracts.

(** ** Values

    A [time.Time] is an instant: nanoseconds since the zero time (January 1,
    year 1, UTC), so [t.IsZero()] is [t = 0] and [t.UTC()] is [t]. *)
Definition Time : Type := Z.
Definition IsZero (t : Time) : bool := t =? 0.

(** [time.Duration] in nanoseconds. *)
Definition Duration : Type := Z.

(** [time.Duration(s)*time.Second] in 64 bits. *)
Definition seconds (s : Z) : Duration := (s * 1000000000 + 2 ^ 63) mod 2 ^ 64 - 2 ^ 63.

(** [time.Duration(ms)*time.Millisecond] in 64 bits. *)
Definition millis (ms : Z) : Duration := (ms * 1000000 + 2 ^ 63) mod 2 ^ 64 - 2 ^ 63.

(** The integer types of Go that can be inside an [any]. *)
Inductive ikind := I8 | I16 | I32 | I64 | U8 | U16 | U32 | U64.

(** [any]: a value with its dynamic type.  [AOther ty repr] is a value of a
    type no switch of the loader names, with its [%v] text. *)
Inductive any : Type :=
  | ANil
  | ABool (b : bool)
  | AString (s : string)
  | ABytes (b : string)
  | AInt (k : ikind) (z : Z)
  | AFloat32 (f : spec_float)
  | AFloat64 (f : spec_float)
  | ATime (t : Time)
  | AGuid (b : string)
  | AArray16 (b : string)
  | AOther (ty repr : string).

(** ** types.go *)

Definition WatermarkNone : string := "none".
Definition WatermarkDatetime : string := "datetime".
Definition WatermarkNumeric : string := "numeric".

Definition LoadModeDelta : string := "delta".
Definition LoadModeAppend : string := "append".
Definition LoadModeReplace : string := "replace".

Record Watermark := mkWatermark { wm_Type : string; wm_Value : string }.

Record Column := mkColumn { col_Name : string; col_DataType : string; col_Nullable : bool }.

(** [map[string]any] *)
Abbreviation Row := (gmap string any).

Record Batch := mkBatch { b_Columns : list Column; b_Rows : list Row }.

(** [ReadResult] without its two wall-clock stamps, which no code reads. *)
Record ReadResult := mkReadResult {
  rr_RowsRead : Z;
  rr_NewWatermark : Watermark;
  rr_WatermarkInit : bool;
}.

Definition zero_watermark : Watermark := mkWatermark "" "".
Definition zero_result : ReadResult := mkReadResult 0 zero_watermark false.

(** ** sink.go *)

Record TargetTable := mkTarget { tt_Schema : string; tt_Name : string }.

#[export] Instance TargetTable_eq_dec : EqDecision TargetTable.
Proof. solve_decision. Defined.

#[export] Instance TargetTable_countable : Countable TargetTable.
Proof.
  apply (inj_countable' (fun t => (tt_Schema t, tt_Name t)) (fun p => mkTarget p.1 p.2)).
  by intros [].
Defined.

Class SinkOps (SK : Type) := {
  TableExists : TargetTable -> M SK (result bool);
  EnsureTable : TargetTable -> list Column -> M SK (option error);
  Truncate : TargetTable -> M SK (option error);
  WriteBatch : TargetTable -> Batch -> Time -> M SK (Z * option error);
}.

(** The optional capability that the runner detects by a type assertion. *)
Class AtomicReplacer (SK : Type) := {
  BeginReplace : TargetTable -> list Column -> M SK (result TargetTable);
  CommitReplace : TargetTable -> TargetTable -> M SK (option error);
  AbortReplace : TargetTable -> M SK (option error);
}.

(** ** telemetry.go *)

Record ModbusPoint := mkModbusPoint {
  mp_CorrelationID : string;
  mp_TagName : string;
  mp_UnitID : Z;
  mp_RegisterType : string;
  mp_Address : Z;
  mp_Quantity : Z;
  mp_DataType : string;
  mp_ByteOrder : string;
  mp_WordOrder : string;
  mp_Scale : spec_float;
  mp_Offset : spec_float;
}.

Record OPCUAPoint := mkOPCUAPoint {
  op_TagName : string;
  op_NodeID : string;
  op_Scale : spec_float;
  op_Offset : spec_float;
}.

Class TelemetryCatalog (T : Type) := {
  ListModbusTags : Z -> M T (result (list ModbusPoint));
  ListOPCUANodes : Z -> M T (result (list OPCUAPoint));
}.

(** ** source.go *)

Record SourceConfig := mkSourceConfig {
  sc_SourceID : Z;
  sc_SourceType : string;
  sc_Name : string;
  sc_Params : gmap string string;
}.

Record LoadConfig := mkLoadConfig {
  lc_LoadID : Z;
  lc_Name : string;
  lc_ObjectName : string;
  lc_Mode : string;
  lc_WatermarkColumn : string;
  lc_WatermarkType : string;
  lc_LastWatermark : Watermark;
  lc_BatchSize : Z;
}.

(** [Source.Read] calls the handler once per batch and goes on with the error
    the handler returned.  A call of [Read] is the tree of these
    interactions: [Emit b k] hands [b] to the handler and continues with [k],
    [Done r e] returns. *)
Inductive ReadProg : Type :=
  | Done (r : ReadResult) (e : option error)
  | Emit (b : Batch) (k : option error -> ReadProg).

(** Running a read against a handler over the state [S]. *)
Fixpoint run_read {S} (p : ReadProg) (handler : Batch -> M S (option error)) :
    M S (ReadResult * option error) :=
  match p with
  | Done r e => retM (r, e)
  | Emit b k => fun s => let '(s', e) := handler b s in run_read (k e) handler s'
  end.

(** "Returning an error aborts the read." *)
Fixpoint aborts_on_error (p : ReadProg) : Prop :=
  match p with
  | Done _ _ => True
  | Emit b k =>
      (forall e, exists r, k (Some e) = Done r (Some e)) /\ aborts_on_error (k None)
  end.

(** The batches a read emits, and what it returns, while the handler
    succeeds. *)
Fixpoint batches_of (p : ReadProg) : list Batch :=
  match p with Done _ _ => [] | Emit b k => b :: batches_of (k None) end.

Fixpoint outcome_of (p : ReadProg) : ReadResult * option error :=
  match p with Done r e => (r, e) | Emit b k => outcome_of (k None) end.

(** ** The contract of a sink with atomic replace

    [view s t] is the content of table [t] ([None]: no such table), [stamp b
    ts] the rows that a batch becomes, [sink_ok] an invariant of the sink and
    [target_ok] the targets it supports. *)
Class SinkSpec (SK : Type) `{SinkOps SK, AtomicReplacer SK} := {
  srow : Type;
  view : SK -> TargetTable -> option (list srow);
  stamp : Batch -> Time -> option (list srow);
  sink_ok : SK -> Prop;
  target_ok : TargetTable -> Prop;
  staging_of : TargetTable -> TargetTable;
  staging_ne : forall t, staging_of t <> t;
  spec_TableExists : forall t s s' r,
    sink_ok s -> TableExists t s = (s', r) ->
    sink_ok s' /\ (forall t', view s' t' = view s t')
    /\ (forall b, r = Ok b -> b = bool_decide (is_Some (view s t)));
  spec_EnsureTable : forall t cols s s' e,
    sink_ok s -> EnsureTable t cols s = (s', e) ->
    sink_ok s' /\ (forall t', t' <> t -> view s' t' = view s t')
    /\ default [] (view s' t) = default [] (view s t)
    /\ (is_Some (view s t) -> is_Some (view s' t));
  spec_WriteBatch : forall t b ts s s' n e,
    sink_ok s -> WriteBatch t b ts s = (s', (n, e)) ->
    sink_ok s' /\ (forall t', t' <> t -> view s' t' = view s t')
    /\ (is_Some (view s t) -> is_Some (view s' t))
    /\ (exists more, default [] (view s' t) = default [] (view s t) ++ more)
    /\ (e = None -> n = Z.of_nat (length (b_Rows b))
          /\ exists rs, stamp b ts = Some rs
               /\ default [] (view s' t) = default [] (view s t) ++ rs);
  spec_BeginReplace : forall t cols s s' r,
    sink_ok s -> BeginReplace t cols s = (s', r) ->
    sink_ok s' /\ (forall t', t' <> staging_of t -> view s' t' = view s t')
    /\ (forall stg, r = Ok stg -> stg = staging_of t /\ view s' stg = Some []);
  spec_CommitReplace : forall t s s' e,
    sink_ok s -> target_ok t -> CommitReplace t (staging_of t) s = (s', e) ->
    sink_ok s'
    /\ (e = None -> view s' t = view s (staging_of t))
    /\ (view s' t = view s t \/ view s' t = view s (staging_of t));
  spec_AbortReplace : forall t s s' e,
    sink_ok s -> AbortReplace (staging_of t) s = (s', e) ->
    sink_ok s' /\ (forall t', t' <> staging_of t -> view s' t' = view s t');
}.

Section SinkSpecDefs.
Context {SK : Type} `{SinkSpec SK}.

(** The rows of a table, none when it does not exist. *)
Definition rows_in (s : SK) (t : TargetTable) : list srow := default [] (view s t).

(** The rows that a list of batches becomes. *)
Fixpoint stamp_all (ts : Time) (bs : list Batch) : option (list srow) :=
  match bs with
  | [] => Some []
  | b :: bs' =>
      match stamp b ts, stamp_all ts bs' with
      | Some rs, Some rest => Some (rs ++ rest)
      | _, _ => None
      end
  end.

Lemma stamp_all_snoc ts bs b rows rs :
  stamp_all ts bs = Some rows -> stamp b ts = Some rs ->
  stamp_all ts (bs ++ [b]) = Some (rows ++ rs).
Proof.
  revert rows. induction bs as [|b' bs IH]; simpl; intros rows Hb Hr.
  - simplify_eq. by rewrite Hr, app_nil_r.
  - destruct (stamp b' ts) as [r1|]; [|done].
    destruct (stamp_all ts bs) as [r2|]; simplify_eq.
    rewrite (IH r2) by done. by rewrite app_assoc.
Qed.
End SinkSpecDefs.

(** ** Lemmas on reads *)

(** A read that aborts on the first handler error, run against a handler that
    keeps an invariant on success, either returns its own outcome after all
    batches, or the error of the handler. *)
Lemma run_read_ind {S} (p : ReadProg) (h : Batch -> M S (option error))
    (I : list Batch -> S -> Prop) (J : S -> Prop) done s :
  aborts_on_error p ->
  I done s ->
  (forall bs b s1 s2, I bs s1 -> h b s1 = (s2, None) -> I (bs ++ [b]) s2) ->
  (forall bs b s1 s2 e, I bs s1 -> h b s1 = (s2, Some e) -> J s2) ->
  forall s' r e, run_read p h s = (s', (r, e)) ->
    ((r, e) = outcome_of p /\ I (done ++ batches_of p) s') \/ (is_Some e /\ J s').
Proof.
  revert done s. induction p as [r0 e0|b k IH]; intros done s Ha HI Hok Herr s' r e Hr.
  - simpl in *. unfold retM in Hr. simplify_eq. left. by rewrite app_nil_r.
  - simpl in *. destruct Ha as [Ha1 Ha2]. destruct (h b s) as [s1 [e1|]] eqn:Eh.
    + destruct (Ha1 e1) as [r1 Hk]. rewrite Hk in Hr. simpl in Hr. unfold retM in Hr.
      simplify_eq. right. split; [done|]. by eapply Herr.
    + destruct (IH None (done ++ [b]) s1 Ha2 (Hok _ _ _ _ HI Eh) Hok Herr _ _ _ Hr)
        as [[? Hf]|?]; [left|by right].
      split; [done|]. by rewrite <- app_assoc in Hf.
Qed.

End Contracts.
