(* ===== verification/Models.v ===== *)
(** * Metadata rows (internal/metadata/models.go)

    The records of the metadata database.  The gorm bookkeeping columns
    [CreatedAt], [UpdatedAt] and [DeletedAt] of sources and loads are written
    by gorm alone and are not kept, except [DeletedAt] as the flag that
    [ListEnabledLoads] filters on. *)

From S2P Require Import Prelude.
From S2P Require Import Contracts.
From Stdlib Require Import ZArith SpecFloat.

Module Metadata.
Import Contracts.

Record Source := mkSource {
  src_ID : Z;
  src_Name : string;
  src_Kind : string;
  src_Description : string;
  src_ParamsJSON : string;
  src_IsEnabled : bool;
  src_Deleted : bool;
}.

Record Load := mkLoad {
  ld_ID : Z;
  ld_SourceID : Z;
  ld_Source : Source;
  ld_Name : string;
  ld_ObjectName : string;
  ld_TargetSchema : string;
  ld_TargetTable : string;
  ld_Mode : string;
  ld_WatermarkColumn : string;
  ld_WatermarkType : string;
  ld_BatchSize : Z;
  ld_AutoCreateTable : bool;
  ld_CronExpression : string;
  ld_IsEnabled : bool;
  ld_Deleted : bool;
}.

Record WatermarkRow := mkWatermarkRow {
  wr_LoadID : Z;
  wr_Value : string;
  wr_UpdatedAt : Time;
  wr_PreviousValue : string;
  wr_ResetAt : option Time;
  wr_ResetReason : string;
}.

Record LoadRun := mkLoadRun {
  run_ID : Z;
  run_RunUUID : string;
  run_LoadID : Z;
  run_Status : string;
  run_StartedAt : Time;
  run_FinishedAt : option Time;
  run_RowsRead : Z;
  run_RowsWritten : Z;
  run_WatermarkStart : string;
  run_WatermarkEnd : string;
  run_ErrorMessage : string;
  run_DurationMs : Z;
}.

Record LogEntry := mkLogEntry {
  le_CreatedAt : Time;
  le_Level : string;
  le_RunUUID : string;
  le_LoadID : option Z;
  le_SourceID : option Z;
  le_Category : string;
  le_Message : string;
  le_Details : string;
}.

Record ModbusTag := mkModbusTag {
  mt_ID : Z;
  mt_LoadID : Z;
  mt_CorrelationID : string;
  mt_TagName : string;
  mt_UnitID : Z;
  mt_RegisterType : string;
  mt_Address : Z;
  mt_Quantity : Z;
  mt_DataType : string;
  mt_ByteOrder : string;
  mt_WordOrder : string;
  mt_Scale : spec_float;
  mt_Offset : spec_float;
  mt_IsEnabled : bool;
}.

Record OPCUANode := mkOPCUANode {
  on_ID : Z;
  on_LoadID : Z;
  on_TagName : string;
  on_NodeID : string;
  on_Scale : spec_float;
  on_Offset : spec_float;
  on_IsEnabled : bool;
}.

(** ** Table names *)

Definition Source_TableName : string := "meta_sources".
Definition Load_TableName : string := "meta_loads".
Definition Watermark_TableName : string := "meta_watermarks".
Definition LoadRun_TableName : string := "meta_load_runs".
Definition LogEntry_TableName : string := "meta_log_entries".
Definition ModbusTag_TableName : string := "meta_modbus_tags".
Definition OPCUANode_TableName : string := "meta_opcua_nodes".

(** ** Defaults

    On [Create], gorm stores the default of the field tag instead of a zero
    value.  The zero float is +0. *)

Definition default_bool (b : bool) : bool := true.
Definition default_string (def s : string) : string := if bool_decide (s = "") then def else s.
Definition default_int (def z : Z) : Z := if z =? 0 then def else z.
Definition default_float (def f : spec_float) : spec_float :=
  match f with S754_zero false => def | _ => f end.

Definition Source_defaults (s : Source) : Source :=
  mkSource (src_ID s) (src_Name s) (src_Kind s) (src_Description s) (src_ParamsJSON s)
    (default_bool (src_IsEnabled s)) (src_Deleted s).

Definition Load_defaults (l : Load) : Load :=
  mkLoad (ld_ID l) (ld_SourceID l) (ld_Source l) (ld_Name l) (ld_ObjectName l)
    (default_string "dbo" (ld_TargetSchema l)) (ld_TargetTable l) (ld_Mode l)
    (ld_WatermarkColumn l) (default_string "none" (ld_WatermarkType l))
    (default_int 1000 (ld_BatchSize l)) (default_bool (ld_AutoCreateTable l))
    (ld_CronExpression l) (default_bool (ld_IsEnabled l)) (ld_Deleted l).

Definition ModbusTag_defaults (t : ModbusTag) : ModbusTag :=
  mkModbusTag (mt_ID t) (mt_LoadID t) (mt_CorrelationID t) (mt_TagName t)
    (default_int 1 (mt_UnitID t)) (mt_RegisterType t) (mt_Address t) (default_int 1 (mt_Quantity t))
    (mt_DataType t) (default_string "big" (mt_ByteOrder t))
    (default_string "high_first" (mt_WordOrder t))
    (default_float (S754_finite false 4503599627370496 (-52)) (mt_Scale t)) (mt_Offset t)
    (default_bool (mt_IsEnabled t)).

Definition OPCUANode_defaults (n : OPCUANode) : OPCUANode :=
  mkOPCUANode (on_ID n) (on_LoadID n) (on_TagName n) (on_NodeID n)
    (default_float (S754_finite false 4503599627370496 (-52)) (on_Scale n)) (on_Offset n)
    (default_bool (on_IsEnabled n)).

End Metadata.
