(* ===== verification/Config.v ===== *)
(** * Configuration (internal/config)

    The environment is a function [env : string -> string] ([os.Getenv],
    empty when unset).  [json.Unmarshal] into a [map[string]string] is a
    parameter: nothing here depends on how JSON is parsed. *)

From S2P Require Import Prelude.
From S2P Require Import GoStrings.
From Stdlib Require Import ZArith Lia.

Module Config.
Import GoStrings.

Record AppConfig := mkAppConfig {
  MetadataDSN : string;
  SinkDSN : string;
  LogLevel : string;
  LogFormat : string;
  HousekeepingEnabled : bool;
  HousekeepingCron : string;
  LogRetentionDays : Z;
  LoadRunRetentionDays : Z;
  HousekeepingBatchSize : Z;
  HousekeepingBatchPauseMs : Z;
  HealthEnabled : bool;
  HealthAddr : string;
  ReloadEnabled : bool;
  ReloadIntervalSec : Z;
  ReloadOnSIGHUP : bool;
  ShutdownTimeoutSec : Z;
  SourcePoolEnabled : bool;
  SourcePoolIdleSec : Z;
  SourcePoolMaxAgeSec : Z;
}.

Section Env.
Variable env : string -> string.

Definition getEnvBool (k : string) (def : bool) : bool :=
  let v := ToLower (TrimSpace (env k)) in
  if bool_decide (v = "") then def
  else if bool_decide (v ∈ ["1"; "true"; "yes"; "on"]) then true
  else if bool_decide (v ∈ ["0"; "false"; "no"; "off"]) then false
  else def.

Definition getEnvInt (k : string) (def : Z) : Z :=
  let v := env k in
  if bool_decide (v = "") then def
  else match Atoi v with None => def | Some n => n end.

Definition getEnvDefault (k d : string) : string :=
  let v := env k in if bool_decide (v = "") then d else v.

Definition FromEnv : result AppConfig :=
  let c := {|
    MetadataDSN := env "LOADER_METADATA_DSN";
    SinkDSN := env "LOADER_SINK_DSN";
    LogLevel := getEnvDefault "LOADER_LOG_LEVEL" "info";
    LogFormat := getEnvDefault "LOADER_LOG_FORMAT" "json";
    HousekeepingEnabled := getEnvBool "LOADER_HOUSEKEEPING_ENABLED" true;
    HousekeepingCron := getEnvDefault "LOADER_HOUSEKEEPING_CRON" "0 2 * * *";
    LogRetentionDays := getEnvInt "LOADER_LOG_RETENTION_DAYS" 14;
    LoadRunRetentionDays := getEnvInt "LOADER_LOAD_RUN_RETENTION_DAYS" 90;
    HousekeepingBatchSize := getEnvInt "LOADER_HOUSEKEEPING_BATCH_SIZE" 5000;
    HousekeepingBatchPauseMs := getEnvInt "LOADER_HOUSEKEEPING_BATCH_PAUSE_MS" 100;
    HealthEnabled := getEnvBool "LOADER_HEALTH_ENABLED" true;
    HealthAddr := getEnvDefault "LOADER_HEALTH_ADDR" "127.0.0.1:9090";
    ReloadEnabled := getEnvBool "LOADER_RELOAD_ENABLED" true;
    ReloadIntervalSec := getEnvInt "LOADER_RELOAD_INTERVAL_SEC" 60;
    ReloadOnSIGHUP := getEnvBool "LOADER_RELOAD_ON_SIGHUP" true;
    ShutdownTimeoutSec := getEnvInt "LOADER_SHUTDOWN_TIMEOUT_SEC" 60;
    SourcePoolEnabled := getEnvBool "LOADER_SOURCE_POOL" false;
    SourcePoolIdleSec := getEnvInt "LOADER_SOURCE_POOL_IDLE_SEC" 300;
    SourcePoolMaxAgeSec := getEnvInt "LOADER_SOURCE_POOL_MAX_AGE_SEC" 3600;
  |} in
  if bool_decide (MetadataDSN c = "") then Err "LOADER_METADATA_DSN is required"
  else if bool_decide (SinkDSN c = "") then Err "LOADER_SINK_DSN is required"
  else Ok c.

(** One entry of the loop of [ResolveParams]. *)
Definition resolve_value (k v : string) : result string :=
  match CutPrefix "$env:" v with
  | Some envKey =>
      let envVal := env envKey in
      if bool_decide (envVal = "")
      then Err ("env var " +:+ fmt_q envKey +:+ " referenced by param " +:+ fmt_q k +:+ " is not set")
      else Ok envVal
  | None => Ok v
  end.

(** The loop over the entries in the order the map iteration yields them. *)
Fixpoint resolve_iter (iter : list (string * string)) (resolved : gmap string string) :
    result (gmap string string) :=
  match iter with
  | [] => Ok resolved
  | (k, v) :: rest =>
      match resolve_value k v with
      | Err e => Err e
      | Ok x => resolve_iter rest (<[k := x]> resolved)
      end
  end.

Variable unmarshal : string -> result (gmap string string).

Definition ResolveParams (paramsJSON : string) : result (gmap string string) :=
  match unmarshal paramsJSON with
  | Err e => Err (errorf "invalid params JSON" e)
  | Ok raw => resolve_iter (map_to_list raw) ∅
  end.

(** ** Properties *)

Lemma resolve_iter_spec iter acc m :
  NoDup iter.*1 -> resolve_iter iter acc = Ok m ->
  (forall k v, (k, v) ∈ iter -> exists x, resolve_value k v = Ok x /\ m !! k = Some x)
  /\ (forall k, k ∉ iter.*1 -> m !! k = acc !! k).
Proof.
  revert acc. induction iter as [|[k v] iter IH]; simpl; intros acc Hnd Hr.
  { simplify_eq. split; [by intros ? ? ?%not_elem_of_nil|done]. }
  destruct (resolve_value k v) as [x|e] eqn:E; [|done].
  apply NoDup_cons in Hnd as [Hk Hnd].
  destruct (IH _ Hnd Hr) as [H1 H2]. split.
  - intros k' v' [Heq|Hin]%elem_of_cons; [|by apply H1].
    simplify_eq. exists x. split; [done|]. rewrite H2 by done. by rewrite lookup_insert_eq.
  - intros k' [? ?]%not_elem_of_cons. rewrite H2 by done. by rewrite lookup_insert_ne.
Qed.

Lemma resolve_iter_err iter acc e :
  resolve_iter iter acc = Err e ->
  exists k v, (k, v) ∈ iter /\ resolve_value k v = Err e.
Proof.
  revert acc. induction iter as [|[k v] iter IH]; simpl; intros acc Hr; [done|].
  destruct (resolve_value k v) as [x|e'] eqn:E; simplify_eq.
  - destruct (IH _ Hr) as (k' & v' & ? & ?). exists k', v'. split; [by right|done].
  - exists k, v. split; [by left|done].
Qed.

(** Parameter resolution does not depend on Go's random map order:
    visited in any order, the entries of the parsed object resolve exactly when
    every [$env:] reference is set, the result has exactly the keys of the
    object, and each value is the variable it references or, without the
    prefix, itself. *)
Theorem resolve_params_order_independent (raw : gmap string string) iter
    (Hiter : iter ≡ₚ map_to_list raw) :
  match resolve_iter iter ∅ with
  | Ok m => dom m = dom raw
      /\ forall k v, raw !! k = Some v -> exists x, resolve_value k v = Ok x /\ m !! k = Some x
  | Err e => exists k v, raw !! k = Some v /\ resolve_value k v = Err e
  end.
Proof.
  assert (Hnd : NoDup iter.*1) by (rewrite Hiter; apply NoDup_fst_map_to_list).
  assert (Hin : forall k v, (k, v) ∈ iter <-> raw !! k = Some v)
    by (intros k v; rewrite Hiter; apply elem_of_map_to_list).
  destruct (resolve_iter iter ∅) as [m|e] eqn:E.
  - destruct (resolve_iter_spec _ _ _ Hnd E) as [H1 H2]. split.
    + apply set_eq. intros k. rewrite !elem_of_dom. split; intros [v Hv].
      * destruct (decide (k ∈ iter.*1)) as [Hk|Hk].
        { apply list_elem_of_fmap in Hk as ([k' v'] & -> & Hk%Hin). by exists v'. }
        { by rewrite H2, lookup_empty in Hv by done. }
      * apply Hin, H1 in Hv as (x & _ & ?). by exists x.
    + intros k v Hv%Hin. by apply H1.
  - apply resolve_iter_err in E as (k & v & ?%Hin & ?). by exists k, v.
Qed.

End Env.

Lemma resolve_params_order_independent_witness :
  let env := fun k => if bool_decide (k = "PW") then "x" else "" in
  match resolve_iter env [("password", "$env:PW"); ("host", "h")] ∅ with
  | Ok m => dom m = dom (<["host" := "h"]> (<["password" := "$env:PW"]> (∅ : gmap string string)))
  | Err _ => False
  end.
Proof.
  intros env.
  pose proof (resolve_params_order_independent env
    (<["host" := "h"]> (<["password" := "$env:PW"]> (∅ : gmap string string)))
    [("password", "$env:PW"); ("host", "h")]) as H.
  assert (Hp : [("password", "$env:PW"); ("host", "h")] ≡ₚ
    map_to_list (<["host" := "h"]> (<["password" := "$env:PW"]> (∅ : gmap string string)))).
  { rewrite map_to_list_insert by done. rewrite map_to_list_insert by done.
    rewrite map_to_list_empty. apply perm_swap. }
  specialize (H Hp). vm_compute in H |- *. apply (proj1 H).
Defined.

End Config.
