(* ===== verification/Runstate.v ===== *)
(** * Run state registry (internal/runstate)

    The in-memory registry behind [/status].  [Registry.mu] makes every method
    atomic, so a method is one transition of the registry. *)

From S2P Require Import Prelude.
From S2P Require Import Contracts.
From Stdlib Require Import ZArith Lia.

Module Runstate.
Import Contracts.

Record LoadState := mkLoadState {
  LoadID : Z;
  LoadName : string;
  SourceName : string;
  SourceKind : string;
  CronExpression : string;
  LastRunUUID : string;
  LastStartedAt : Time;
  LastFinishedAt : Time;
  LastStatus : string;
  LastRowsRead : Z;
  LastRowsWritten : Z;
  LastError : string;
  CurrentlyRunning : bool;
}.

Record Registry := mkRegistry { loads : gmap Z LoadState; startedAt : Time }.

Definition New (now : Time) : Registry := mkRegistry ∅ now.

Definition StartedAt (r : Registry) : Time := startedAt r.

(** The fields of [s], with the run history of [existing]. *)
Definition keep_history (s existing : LoadState) : LoadState := {|
  LoadID := LoadID s;
  LoadName := LoadName s;
  SourceName := SourceName s;
  SourceKind := SourceKind s;
  CronExpression := CronExpression s;
  LastRunUUID := LastRunUUID existing;
  LastStartedAt := LastStartedAt existing;
  LastFinishedAt := LastFinishedAt existing;
  LastStatus := LastStatus existing;
  LastRowsRead := LastRowsRead existing;
  LastRowsWritten := LastRowsWritten existing;
  LastError := LastError existing;
  CurrentlyRunning := CurrentlyRunning existing;
|}.

Definition Register (s : LoadState) (r : Registry) : Registry :=
  let s' := match loads r !! LoadID s with
            | Some existing => keep_history s existing
            | None => s
            end in
  mkRegistry (<[LoadID s := s']> (loads r)) (startedAt r).

Definition MarkRunning (loadID : Z) (runUUID : string) (started : Time) (r : Registry) :
    Registry :=
  match loads r !! loadID with
  | None => r
  | Some s =>
      let s' := {|
        LoadID := LoadID s;
        LoadName := LoadName s;
        SourceName := SourceName s;
        SourceKind := SourceKind s;
        CronExpression := CronExpression s;
        LastRunUUID := runUUID;
        LastStartedAt := started;
        LastFinishedAt := LastFinishedAt s;
        LastStatus := "running";
        LastRowsRead := LastRowsRead s;
        LastRowsWritten := LastRowsWritten s;
        LastError := "";
        CurrentlyRunning := true;
      |} in
      mkRegistry (<[loadID := s']> (loads r)) (startedAt r)
  end.

Definition MarkFinished (loadID : Z) (status : string) (finished : Time)
    (rowsRead rowsWritten : Z) (errMsg : string) (r : Registry) : Registry :=
  match loads r !! loadID with
  | None => r
  | Some s =>
      let s' := {|
        LoadID := LoadID s;
        LoadName := LoadName s;
        SourceName := SourceName s;
        SourceKind := SourceKind s;
        CronExpression := CronExpression s;
        LastRunUUID := LastRunUUID s;
        LastStartedAt := LastStartedAt s;
        LastFinishedAt := finished;
        LastStatus := status;
        LastRowsRead := rowsRead;
        LastRowsWritten := rowsWritten;
        LastError := errMsg;
        CurrentlyRunning := false;
      |} in
      mkRegistry (<[loadID := s']> (loads r)) (startedAt r)
  end.

(** [sort.Slice] by [LoadID]. *)
Definition id_le (a b : LoadState) : Prop := LoadID a <= LoadID b.
#[export] Instance id_le_dec a b : Decision (id_le a b).
Proof. unfold id_le. apply _. Defined.
#[export] Instance id_le_total : Total id_le.
Proof. intros a b. unfold id_le. lia. Qed.
#[export] Instance id_le_trans : Transitive id_le.
Proof. intros a b c. unfold id_le. lia. Qed.

(** [Snapshot], for the entries in the order [iter] the map iteration yields. *)
Definition Snapshot (iter : list (Z * LoadState)) : list LoadState :=
  merge_sort id_le (map snd iter).

(** The roll-up of [handleStatus] (internal/health): totals over a snapshot. *)
Record Summary := mkSummary {
  total_loads : Z; sm_running : Z; last_success : Z; last_failed : Z }.

Definition count_if (f : LoadState -> bool) (l : list LoadState) : Z :=
  Z.of_nat (length (List.filter f l)).

Definition status_summary (l : list LoadState) : Summary := {|
  total_loads := Z.of_nat (length l);
  sm_running := count_if CurrentlyRunning l;
  last_success := count_if (fun s => bool_decide (LastStatus s = "success")) l;
  last_failed := count_if (fun s => bool_decide (LastStatus s = "failed")) l;
|}.

(** ** The registry as a state machine

    The calls the program makes: loads are registered with an empty history,
    and a run finishes as success or failed. *)

Definition fresh_state (s : LoadState) : Prop :=
  CurrentlyRunning s = false /\ LastStatus s = "".

Inductive step : Registry -> Registry -> Prop :=
  | step_register s r : fresh_state s -> step r (Register s r)
  | step_running id u t r : step r (MarkRunning id u t r)
  | step_finished id st t rr rw e r :
      st ∈ ["success"; "failed"] -> step r (MarkFinished id st t rr rw e r).

Inductive reachable : Registry -> Prop :=
  | reach_new now : reachable (New now)
  | reach_step r r' : reachable r -> step r r' -> reachable r'.

Definition wf_state (k : Z) (s : LoadState) : Prop :=
  LoadID s = k /\ (CurrentlyRunning s = true <-> LastStatus s = "running").

Definition wf (r : Registry) : Prop := map_Forall wf_state (loads r).

Lemma step_wf r r' : step r r' -> wf r -> wf r'.
Proof.
  unfold wf. intros Hs Hw. destruct Hs as [s r [Hf1 Hf2]|id u t r|id st t rr rw e r Hst].
  - unfold Register; simpl. apply map_Forall_insert_2; [|done].
    destruct (loads r !! LoadID s) as [ex|] eqn:E.
    + apply Hw in E as [_ E]. split; [done|]. apply E.
    + split; [done|]. by rewrite Hf1, Hf2.
  - unfold MarkRunning. destruct (loads r !! id) as [s|] eqn:E; [|done].
    apply map_Forall_insert_2; [|done]. apply Hw in E as [? _]. by split.
  - unfold MarkFinished. destruct (loads r !! id) as [s|] eqn:E; [|done].
    apply map_Forall_insert_2; [|done]. apply Hw in E as [? _]. split; [done|]. simpl.
    split; [done|].
    intros ->. apply list_elem_of_In in Hst. simpl in Hst. by destruct Hst as [?|[?|[]]].
Qed.

Lemma reachable_wf r : reachable r -> wf r.
Proof. induction 1; [apply map_Forall_empty|by eapply step_wf]. Qed.

Lemma count_if_le3 (f g h : LoadState -> bool) l :
  (forall s, s ∈ l -> Z.b2z (f s) + Z.b2z (g s) + Z.b2z (h s) <= 1) ->
  count_if f l + count_if g l + count_if h l <= Z.of_nat (length l).
Proof.
  unfold count_if. induction l as [|s l IH]; intros Hs; [done|].
  specialize (IH (fun x Hx => Hs x (list_elem_of_further _ _ _ Hx))).
  specialize (Hs s (list_elem_of_here _ _)).
  cbn [List.filter length].
  destruct (f s), (g s), (h s); simpl in *; lia.
Qed.

Lemma strictly_sorted l :
  StronglySorted id_le l -> NoDup (LoadID <$> l) -> StronglySorted Z.lt (LoadID <$> l).
Proof.
  induction 1 as [|s l Hl IH Hf]; [constructor|].
  intros [Hn Hnd]%NoDup_cons. constructor; [by apply IH|].
  apply Forall_fmap, Forall_forall. intros x Hx.
  rewrite Forall_forall in Hf. specialize (Hf x Hx). unfold id_le in Hf. simpl.
  assert (LoadID s <> LoadID x); [|lia].
  intros He. apply Hn. rewrite He. by apply list_elem_of_fmap_2.
Qed.

Lemma Snapshot_Permutation iter : Snapshot iter ≡ₚ map snd iter.
Proof. apply merge_sort_Permutation. Qed.

(** ** Properties *)

(** In every registry the program can reach, for every iteration order of
    its map, the snapshot served by [/status] holds each registered load exactly
    once in strictly increasing order of id (so it does not depend on the map
    order), a load is shown as running exactly when its last status is
    "running", and the summary's running, success and failed counts never
    overlap: together they do not exceed the number of loads. *)
Theorem snapshot_canonical r iter
    (Hr : reachable r) (Hiter : iter ≡ₚ map_to_list (loads r)) :
  StronglySorted Z.lt (LoadID <$> Snapshot iter)
  /\ (forall s, s ∈ Snapshot iter <-> loads r !! LoadID s = Some s)
  /\ (forall s, s ∈ Snapshot iter -> (CurrentlyRunning s = true <-> LastStatus s = "running"))
  /\ (let m := status_summary (Snapshot iter) in
      total_loads m = Z.of_nat (size (loads r))
      /\ sm_running m + last_success m + last_failed m <= total_loads m).
Proof.
  apply reachable_wf in Hr.
  assert (Hel : forall s, s ∈ Snapshot iter <-> loads r !! LoadID s = Some s).
  { intros s. rewrite Snapshot_Permutation, Hiter. rewrite list_elem_of_fmap. split.
    - intros ([k s'] & -> & Hk%elem_of_map_to_list). simpl. by destruct (Hr _ _ Hk) as [-> _].
    - intros Hs. exists (LoadID s, s). split; [done|]. by apply elem_of_map_to_list. }
  assert (Hrun : forall s, s ∈ Snapshot iter ->
            (CurrentlyRunning s = true <-> LastStatus s = "running")).
  { intros s [_ ?]%Hel%Hr. done. }
  split_and!; [|done|done|].
  - assert (Hnd : NoDup (LoadID <$> Snapshot iter)).
    { rewrite Snapshot_Permutation, Hiter.
      replace (LoadID <$> map snd (map_to_list (loads r))) with (map_to_list (loads r)).*1;
        [apply NoDup_fst_map_to_list|].
      rewrite <- list_fmap_compose. apply list_fmap_ext. intros i [k s] Hk. simpl.
      apply list_elem_of_lookup_2, elem_of_map_to_list in Hk.
      by destruct (Hr _ _ Hk) as [-> _]. }
    apply strictly_sorted; [|done]. apply StronglySorted_merge_sort; apply _.
  - simpl. split.
    + rewrite (Permutation_length (Snapshot_Permutation iter)), length_map.
      by rewrite (Permutation_length Hiter), length_map_to_list.
    + apply count_if_le3. intros s Hs. apply Hrun in Hs.
      destruct (CurrentlyRunning s) eqn:E; simpl; repeat case_bool_decide; simpl; try lia;
        first [congruence|destruct Hs as [Hs _]; specialize (Hs eq_refl); congruence].
Qed.

Lemma snapshot_canonical_witness :
  let s := mkLoadState 7 "orders" "erp" "sqlserver" "@every 5m" "" 0 0 "" 0 0 "" false in
  let r := MarkRunning 7 "u" 5 (Register s (New 1)) in
  StronglySorted Z.lt (LoadID <$> Snapshot (map_to_list (loads r))).
Proof.
  intros s r.
  refine (proj1 (snapshot_canonical r (map_to_list (loads r)) _ _)).
  - eapply reach_step; [eapply reach_step; [apply reach_new|]|]; [|apply step_running].
    by apply step_register.
  - reflexivity.
Defined.

End Runstate.
