(* ===== verification/Metrics.v ===== *)
(** * Metrics (internal/metrics)

    The Prometheus collectors are a library; what this package does is decide
    which collector is updated, with which labels and value.  An [Observe]
    function is the list of the updates it makes. *)

From S2P Require Import Prelude.
From S2P Require Import Contracts.
From Stdlib Require Import ZArith Lia.

Module Metrics.
Import Contracts.

Inductive MetricCall : Type :=
  | RunsTotal_Inc (load status : string)
  | RunDuration_Observe (load : string) (d : Duration)
  | RowsRead_Add (load : string) (n : Z)
  | RowsWritten_Add (load target : string) (n : Z)
  | LastSuccess_Set (load : string) (t : Time)
  | OverlapSkips_Inc (load : string)
  | TelemetryBadQuality_Add (load : string) (n : Z)
  | WatermarkLag_Set (load : string) (lag : Duration).

(** ** The collectors *)

Inductive CollectorKind := CounterVec | HistogramVec | GaugeVec | CounterFunc.

(** Kind, name and label names. *)
Record Collector := mkCollector { c_kind : CollectorKind; c_name : string; c_labels : list string }.

Definition RunsTotal := mkCollector CounterVec "loader_runs_total" ["load"; "status"].
Definition RunDuration := mkCollector HistogramVec "loader_run_duration_seconds" ["load"].
Definition RowsRead := mkCollector CounterVec "loader_rows_read_total" ["load"].
Definition RowsWritten := mkCollector CounterVec "loader_rows_written_total" ["load"; "target"].
Definition LastSuccess := mkCollector GaugeVec "loader_last_success_timestamp_seconds" ["load"].
Definition OverlapSkips := mkCollector CounterVec "loader_overlap_skips_total" ["load"].
Definition TelemetryBadQuality := mkCollector CounterVec "loader_telemetry_bad_quality_total" ["load"].
Definition WatermarkLag := mkCollector GaugeVec "loader_watermark_lag_seconds" ["load"].

(** What [promauto] registered when the package is initialised. *)
Definition registered : list Collector :=
  [RunsTotal; RunDuration; RowsRead; RowsWritten; LastSuccess; OverlapSkips; TelemetryBadQuality;
   WatermarkLag].

(** [prometheus.MustRegister]: [None] is the panic on a name that is taken. *)
Definition MustRegister (c : Collector) (cs : list Collector) : option (list Collector) :=
  if bool_decide (c_name c ∈ c_name <$> cs) then None else Some (cs ++ [c]).

(** The registry after the call and the value that the collector reports,
    before its conversion to a float64; [dropped] is [None] when it is nil. *)
Definition RegisterDBLogDropped (dropped : option Z) (cs : list Collector) :
    option (list Collector * Z) :=
  cs' ← MustRegister (mkCollector CounterFunc "loader_dblog_dropped_total" []) cs;
  Some (cs', default 0 dropped).

(** The collector and the label values of an update. *)
Definition with_labels (c : MetricCall) : Collector * list string :=
  match c with
  | RunsTotal_Inc load status => (RunsTotal, [load; status])
  | RunDuration_Observe load _ => (RunDuration, [load])
  | RowsRead_Add load _ => (RowsRead, [load])
  | RowsWritten_Add load target _ => (RowsWritten, [load; target])
  | LastSuccess_Set load _ => (LastSuccess, [load])
  | OverlapSkips_Inc load => (OverlapSkips, [load])
  | TelemetryBadQuality_Add load _ => (TelemetryBadQuality, [load])
  | WatermarkLag_Set load _ => (WatermarkLag, [load])
  end.

(** No call panics: the updates give each collector as many label values as it
    has labels, and the one late registration finds its name free, once. *)
Lemma collectors_fit dropped :
  (forall c, let '(col, values) := with_labels c in
     col ∈ registered /\ length values = length (c_labels col))
  /\ exists cs, RegisterDBLogDropped dropped registered = Some (cs, default 0 dropped)
       /\ RegisterDBLogDropped dropped cs = None.
Proof.
  split.
  - intros c. unfold registered. destruct c; simpl; split; try done; set_solver.
  - eexists. split; vm_compute; reflexivity.
Qed.

(** ** The updates *)

Definition loadLabel (name : string) : string :=
  if bool_decide (name = "") then "unknown" else name.

(** [now1] and [now2] are the two readings of the clock. *)
Definition ObserveRun (loadName status target : string) (rowsRead rowsWritten : Z)
    (startedAt now1 now2 : Time) : list MetricCall :=
  let label := loadLabel loadName in
  [RunsTotal_Inc label status; RunDuration_Observe label (now1 - startedAt)]
  ++ (if 0 <? rowsRead then [RowsRead_Add label rowsRead] else [])
  ++ (if 0 <? rowsWritten then [RowsWritten_Add label target rowsWritten] else [])
  ++ (if bool_decide (status = "success") then [LastSuccess_Set label now2] else []).

Definition ObserveOverlapSkip (loadName : string) : list MetricCall :=
  [OverlapSkips_Inc (loadLabel loadName)].

Definition ObserveBadQuality (loadName : string) (n : Z) : list MetricCall :=
  if n <=? 0 then [] else [TelemetryBadQuality_Add (loadLabel loadName) n].

Section Lag.
(** [time.Parse(time.RFC3339Nano, _)] *)
Variable parse_time : string -> option Time.

Definition ObserveWatermarkLag (loadName watermarkValue : string) (now : Time) :
    list MetricCall :=
  let label := loadLabel loadName in
  if bool_decide (watermarkValue = "") then [WatermarkLag_Set label 0]
  else match parse_time watermarkValue with
  | None => [WatermarkLag_Set label 0]
  | Some ts =>
      let lag := now - ts in
      [WatermarkLag_Set label (if lag <? 0 then 0 else lag)]
  end.
End Lag.

End Metrics.
