(* ===== verification/Runner.v ===== *)
(** * The load runner (internal/pipeline: runner.go, replace.go, store.go)

    [Execute] runs one load end to end against three interfaces: a run store
    (watermarks and run rows), a sink, and source sessions.  The world holds
    their states, the run-state registry, the metric updates and the clock.
    Log lines are not part of the world. *)

From S2P Require Import Prelude.
From S2P Require Import Contracts.
From S2P Require Import Models.
From S2P Require Import Runstate.
From S2P Require Import Metrics.
From Stdlib Require Import ZArith Lia.

Module Runner.
Import Contracts Metadata.

(** ** Interfaces *)

(** store.go *)
Class RunStore (ST : Type) := {
  GetWatermark : Z -> M ST (result (option WatermarkRow));
  UpsertWatermark : Z -> string -> M ST (option error);
  StartRun : Z -> string -> M ST (result LoadRun);
  FinishRun : LoadRun -> string -> Z -> Z -> string -> string -> M ST (option error);
}.

(** session.go: [Obtain] gives an opened source and its release function, which
    together are the lease; [src_read] is [src.Read] on the leased source. *)
Class SourceSession (SS : Type) := {
  Lease : Type;
  Obtain : SourceConfig -> M SS (result Lease);
  release : Lease -> bool -> M SS unit;
  src_read : Lease -> LoadConfig -> M SS ReadProg;
}.

Section Runner.
Context {SK ST SS : Type} `{HSink : SinkOps SK} `{HStore : RunStore ST} `{HSess : SourceSession SS}.
(** [sink.(contracts.AtomicReplacer)]: [None] when the sink lacks it. *)
Context (atomic : option (AtomicReplacer SK)).
(** [config.ResolveParams] with the process environment. *)
Context (ResolveParams : string -> result (gmap string string)).
(** The [n]th reading of the wall clock. *)
Context (clk : nat -> Time).
Context (parse_time : string -> option Time).

(** ** replace.go *)

Record replaceSession := mkReplaceSession {
  rs_live : TargetTable;
  rs_writeTo : TargetTable;
  rs_staging : TargetTable;
  rs_active : bool;
  rs_committed : bool;
  rs_legacy : bool;
}.

Definition newReplaceSession (live : TargetTable) : replaceSession := {|
  rs_live := live;
  rs_writeTo := live;
  rs_staging := mkTarget "" "";
  rs_active := false;
  rs_committed := false;
  rs_legacy := match atomic with Some _ => false | None => true end;
|}.

Definition activate (s : replaceSession) (stg : TargetTable) : replaceSession := {|
  rs_live := rs_live s;
  rs_writeTo := stg;
  rs_staging := stg;
  rs_active := true;
  rs_committed := rs_committed s;
  rs_legacy := rs_legacy s;
|}.

(** [s.atomic.BeginReplace(ctx, s.live, cols)] and the assignments after it. *)
Definition begin_staging (s : replaceSession) (cols : list Column) :
    M SK (replaceSession * option error) :=
  match atomic with
  | None => retM (s, None)
  | Some ar =>
      r <~ BeginReplace (rs_live s) cols ;;
      match r with
      | Err e => retM (s, Some (errorf "begin replace" e))
      | Ok stg => retM (activate s stg, None)
      end
  end.

Definition prepareExisting (s : replaceSession) : M SK (replaceSession * option error) :=
  if rs_legacy s then
    r <~ TableExists (rs_live s) ;;
    match r with
    | Err e => retM (s, Some e)
    | Ok false => retM (s, None)
    | Ok true =>
        e <~ Truncate (rs_live s) ;;
        retM (s, errorf "truncate target" <$> e)
    end
  else
    r <~ TableExists (rs_live s) ;;
    match r with
    | Err e => retM (s, Some e)
    | Ok false => retM (s, None)
    | Ok true => begin_staging s []
    end.

Definition ensureFirstBatch (s : replaceSession) (autoCreate : bool) (cols : list Column) :
    M SK (replaceSession * option error) :=
  if rs_legacy s then
    if autoCreate then
      e <~ EnsureTable (rs_live s) cols ;;
      retM (s, errorf "ensure target" <$> e)
    else retM (s, None)
  else if rs_active s then retM (s, None)
  else begin_staging s cols.

Definition commit (s : replaceSession) : M SK (replaceSession * option error) :=
  if rs_legacy s || negb (rs_active s) then retM (s, None)
  else match atomic with
  | None => retM (s, None)
  | Some ar =>
      e <~ CommitReplace (rs_live s) (rs_staging s) ;;
      match e with
      | Some err => retM (s, Some (errorf "commit replace" err))
      | None =>
          retM (mkReplaceSession (rs_live s) (rs_writeTo s) (rs_staging s)
                  (rs_active s) true (rs_legacy s), None)
      end
  end.

Definition abort (s : replaceSession) : M SK unit :=
  if rs_legacy s || negb (rs_active s) || rs_committed s then retM tt
  else match atomic with
  | None => retM tt
  | Some ar => _ <~ AbortReplace (rs_staging s) ;; retM tt
  end.

(** ** The world of a run *)

Record World := mkWorld {
  w_sink : SK;
  w_store : ST;
  w_sess : SS;
  w_state : Runstate.Registry;
  w_metrics : list Metrics.MetricCall;
  w_tick : nat;
}.

Definition on_sink {A} (m : M SK A) : M World A := fun w =>
  let '(s, a) := m (w_sink w) in
  (mkWorld s (w_store w) (w_sess w) (w_state w) (w_metrics w) (w_tick w), a).

Definition on_store {A} (m : M ST A) : M World A := fun w =>
  let '(s, a) := m (w_store w) in
  (mkWorld (w_sink w) s (w_sess w) (w_state w) (w_metrics w) (w_tick w), a).

Definition on_sess {A} (m : M SS A) : M World A := fun w =>
  let '(s, a) := m (w_sess w) in
  (mkWorld (w_sink w) (w_store w) s (w_state w) (w_metrics w) (w_tick w), a).

Definition on_state (f : Runstate.Registry -> Runstate.Registry) : M World unit := fun w =>
  (mkWorld (w_sink w) (w_store w) (w_sess w) (f (w_state w)) (w_metrics w) (w_tick w), tt).

Definition observe (l : list Metrics.MetricCall) : M World unit := fun w =>
  (mkWorld (w_sink w) (w_store w) (w_sess w) (w_state w) (w_metrics w ++ l) (w_tick w), tt).

(** [time.Now().UTC()] *)
Definition now : M World Time := fun w =>
  (mkWorld (w_sink w) (w_store w) (w_sess w) (w_state w) (w_metrics w) (S (w_tick w)),
   clk (w_tick w)).

(** ** runner.go *)

(** Point-based sources are forced to append without a watermark. *)
Definition force_append (load : Load) : Load :=
  let k := src_Kind (ld_Source load) in
  if bool_decide (k = "modbus") || bool_decide (k = "opcua") then {|
    ld_ID := ld_ID load;
    ld_SourceID := ld_SourceID load;
    ld_Source := ld_Source load;
    ld_Name := ld_Name load;
    ld_ObjectName := ld_ObjectName load;
    ld_TargetSchema := ld_TargetSchema load;
    ld_TargetTable := ld_TargetTable load;
    ld_Mode := LoadModeAppend;
    ld_WatermarkColumn := "";
    ld_WatermarkType := WatermarkNone;
    ld_BatchSize := ld_BatchSize load;
    ld_AutoCreateTable := ld_AutoCreateTable load;
    ld_CronExpression := ld_CronExpression load;
    ld_IsEnabled := ld_IsEnabled load;
    ld_Deleted := ld_Deleted load;
  |} else load.

Definition source_config (load : Load) (params : gmap string string) : SourceConfig := {|
  sc_SourceID := ld_SourceID load;
  sc_SourceType := src_Kind (ld_Source load);
  sc_Name := src_Name (ld_Source load);
  sc_Params := params;
|}.

Definition target_of (load : Load) : TargetTable :=
  mkTarget (ld_TargetSchema load) (ld_TargetTable load).

Definition target_label (load : Load) : string :=
  ld_TargetSchema load +:+ "." +:+ ld_TargetTable load.

Definition load_config (load : Load) (current : Watermark) : LoadConfig := {|
  lc_LoadID := ld_ID load;
  lc_Name := ld_Name load;
  lc_ObjectName := ld_ObjectName load;
  lc_Mode := ld_Mode load;
  lc_WatermarkColumn := ld_WatermarkColumn load;
  lc_WatermarkType := ld_WatermarkType load;
  lc_LastWatermark := current;
  lc_BatchSize := ld_BatchSize load;
|}.

(** The variables that the batch handler closes over. *)
Record Locals := mkLocals {
  l_rowsWritten : Z;
  l_firstBatch : bool;
  l_writeTarget : TargetTable;
  l_repl : option replaceSession;
}.

(** The work of the handler on the first batch. *)
Definition first_batch (load : Load) (cols : list Column) (l : Locals) :
    M SK (Locals * option error) :=
  if bool_decide (ld_Mode load = LoadModeReplace) then
    match l_repl l with
    | None => retM (l, None)
    | Some repl =>
        do: (repl', e) <~ ensureFirstBatch repl (ld_AutoCreateTable load) cols ;;
        match e with
        | Some err =>
            retM (mkLocals (l_rowsWritten l) (l_firstBatch l) (l_writeTarget l) (Some repl'),
                  Some err)
        | None =>
            retM (mkLocals (l_rowsWritten l) false (rs_writeTo repl') (Some repl'), None)
        end
    end
  else if ld_AutoCreateTable load then
    e <~ EnsureTable (target_of load) cols ;;
    match e with
    | Some err => retM (l, Some (errorf "ensure target" err))
    | None => retM (mkLocals (l_rowsWritten l) false (l_writeTarget l) (l_repl l), None)
    end
  else retM (mkLocals (l_rowsWritten l) false (l_writeTarget l) (l_repl l), None).

(** The batch handler of [Execute]. *)
Definition handler (load : Load) (loadTS : Time) (b : Batch) :
    M (SK * Locals) (option error) := fun '(sk, l) =>
  let '(sk1, (l1, e1)) :=
    if l_firstBatch l then first_batch load (b_Columns b) l sk else (sk, (l, None)) in
  match e1 with
  | Some err => ((sk1, l1), Some err)
  | None =>
      let '(sk2, (n, e2)) := WriteBatch (l_writeTarget l1) b loadTS sk1 in
      match e2 with
      | Some err => ((sk2, l1), Some err)
      | None =>
          ((sk2, mkLocals (l_rowsWritten l1 + n) (l_firstBatch l1) (l_writeTarget l1) (l_repl l1)),
           None)
      end
  end.

(** [src.Read(ctx, loadCfg, handler)] on the world. *)
Definition read_with_handler (load : Load) (loadTS : Time) (p : ReadProg) (l : Locals) :
    M World (Locals * (ReadResult * option error)) := fun w =>
  let '((sk, l'), r) := run_read p (handler load loadTS) (w_sink w, l) in
  (mkWorld sk (w_store w) (w_sess w) (w_state w) (w_metrics w) (w_tick w), (l', r)).

Definition observe_run (load : Load) (run : LoadRun) (status : string) (rr rw : Z) :
    M World unit :=
  now1 <~ now ;;
  now2 <~ now ;;
  observe (Metrics.ObserveRun (ld_Name load) status (target_label load) rr rw
             (run_StartedAt run) now1 now2).

Definition mark_finished (load : Load) (status : string) (rr rw : Z) (msg : string) :
    M World unit :=
  t <~ now ;;
  on_state (Runstate.MarkFinished (ld_ID load) status t rr rw msg).

(** [FinishRun(..., "failed", ...)], its error ignored, and [MarkFinished]. *)
Definition finish_failed (load : Load) (run : LoadRun) (wmEnd : string) (rr rw : Z)
    (msg : string) : M World unit :=
  on_store (FinishRun run "failed" rr rw wmEnd msg) ~;;
  mark_finished load "failed" rr rw msg.

(** The same with the run metrics. *)
Definition finish_failed_observed (load : Load) (run : LoadRun) (wmEnd : string) (rr rw : Z)
    (msg : string) : M World unit :=
  finish_failed load run wmEnd rr rw msg ~;;
  observe_run load run "failed" rr rw.

(** From the successful end of the run on: watermark, run row, status. *)
Definition finish_success (load : Load) (run : LoadRun) (current : Watermark)
    (r : ReadResult) (rowsWritten : Z) : M World (option error) :=
  let newWMValue := wm_Value (rr_NewWatermark r) in
  let advance :=
    bool_decide (ld_Mode load = LoadModeDelta) && negb (bool_decide (newWMValue = ""))
    && (rr_WatermarkInit r || negb (bool_decide (newWMValue = wm_Value current))) in
  e <~ (if advance then on_store (UpsertWatermark (ld_ID load) newWMValue) else retM None) ;;
  match e with
  | Some err =>
      finish_failed_observed load run (wm_Value current) (rr_RowsRead r) rowsWritten
        (errorf "update watermark" err) ~;;
      retM (Some (errorf "update watermark" err))
  | None =>
      e2 <~ on_store (FinishRun run "success" (rr_RowsRead r) rowsWritten newWMValue "") ;;
      match e2 with
      | Some err =>
          mark_finished load "failed" (rr_RowsRead r) rowsWritten err ~;;
          observe_run load run "failed" (rr_RowsRead r) rowsWritten ~;;
          retM (Some err)
      | None =>
          mark_finished load "success" (rr_RowsRead r) rowsWritten "" ~;;
          observe_run load run "success" (rr_RowsRead r) rowsWritten ~;;
          (if bool_decide (ld_Mode load = LoadModeDelta)
              && bool_decide (ld_WatermarkType load = WatermarkDatetime)
           then t <~ now ;;
                observe (Metrics.ObserveWatermarkLag parse_time (ld_Name load) newWMValue t)
           else retM tt) ~;;
          retM None
      end
  end.

(** From the read on.  Returns the error, the [invalidate] flag and the
    variables that the deferred functions see. *)
Definition run_body (lease : Lease) (load : Load) (run : LoadRun) (current : Watermark)
    (loadTS : Time) (repl : option replaceSession) :
    M World (option error * bool * Locals) :=
  let l0 := mkLocals 0 true
    (match repl with Some s => rs_writeTo s | None => target_of load end) repl in
  p <~ on_sess (src_read lease (load_config load current)) ;;
  do: (l, (r, e)) <~ read_with_handler load loadTS p l0 ;;
  match e with
  | Some err =>
      finish_failed_observed load run (wm_Value current) (rr_RowsRead r) (l_rowsWritten l) err ~;;
      retM (Some err, true, l)
  | None =>
      do: (l', e2) <~
        match l_repl l with
        | None => retM (l, None)
        | Some s =>
            do: (s', e2) <~ on_sink (commit s) ;;
            retM (mkLocals (l_rowsWritten l) (l_firstBatch l) (l_writeTarget l) (Some s'), e2)
        end ;;
      match e2 with
      | Some err =>
          finish_failed_observed load run (wm_Value current) (rr_RowsRead r) (l_rowsWritten l') err ~;;
          retM (Some err, false, l')
      | None =>
          err <~ finish_success load run current r (l_rowsWritten l') ;;
          retM (err, false, l')
      end
  end.

(** From the watermark read on, for a leased source.  The deferred
    [repl.abort] runs after the body, before the deferred release. *)
Definition run_leased (lease : Lease) (load : Load) : M World (option error * bool) :=
  r <~ on_store (GetWatermark (ld_ID load)) ;;
  match r with
  | Err e => retM (Some e, false)
  | Ok wm =>
      let current := mkWatermark (ld_WatermarkType load)
        (match wm with Some row => wr_Value row | None => "" end) in
      r2 <~ on_store (StartRun (ld_ID load) (wm_Value current)) ;;
      match r2 with
      | Err e => retM (Some e, false)
      | Ok run =>
          on_state (Runstate.MarkRunning (ld_ID load) (run_RunUUID run) (run_StartedAt run)) ~;;
          loadTS <~ now ;;
          if bool_decide (ld_Mode load = LoadModeReplace) then
            do: (repl, e) <~ on_sink (prepareExisting (newReplaceSession (target_of load))) ;;
            match e with
            | Some err =>
                finish_failed load run (wm_Value current) 0 0 err ~;;
                retM (Some err, false)
            | None =>
                do: (err, invalidate, l) <~ run_body lease load run current loadTS (Some repl) ;;
                match l_repl l with Some s => on_sink (abort s) | None => retM tt end ~;;
                retM (err, invalidate)
            end
          else
            do: (err, invalidate, l) <~ run_body lease load run current loadTS None ;;
            retM (err, invalidate)
      end
  end.

Definition Execute (load0 : Load) : M World (option error) :=
  let load := force_append load0 in
  match ResolveParams (src_ParamsJSON (ld_Source load)) with
  | Err e => retM (Some e)
  | Ok params =>
      r <~ on_sess (Obtain (source_config load params)) ;;
      match r with
      | Err e => retM (Some e)
      | Ok lease =>
          do: (err, invalidate) <~ run_leased lease load ;;
          on_sess (release lease invalidate) ~;;
          retM err
      end
  end.

End Runner.
End Runner.
