(* ===== verification/RunnerProofs.v ===== *)
(** * Correctness of the load runner

    The runner against the contracts of its collaborators: what a run does to
    the sink table, to the watermark, to the registry and to the lease. *)

From S2P Require Import Prelude.
From S2P Require Import Contracts.
From S2P Require Import Models.
From S2P Require Import Runstate.
From S2P Require Import Metrics.
From S2P Require Import Runner.
From Stdlib Require Import ZArith Lia.

Module RunnerProofs.
Import Contracts Metadata Runner.

(** ** Contracts of the store and of the sessions *)

(** The watermark of each load, as the run store shows it. *)
Class RunStoreSpec (ST : Type) `{RunStore ST} := {
  wm_view : ST -> Z -> option string;
  spec_GetWatermark : forall id s s' r, GetWatermark id s = (s', r) ->
    (forall i, wm_view s' i = wm_view s i)
    /\ (forall o, r = Ok o -> wm_view s id = wr_Value <$> o);
  spec_UpsertWatermark : forall id v s s' e, UpsertWatermark id v s = (s', e) ->
    (forall i, i <> id -> wm_view s' i = wm_view s i)
    /\ (e = None -> wm_view s' id = Some v)
    /\ (wm_view s' id = wm_view s id \/ wm_view s' id = Some v);
  spec_StartRun : forall id v s s' r, StartRun id v s = (s', r) ->
    forall i, wm_view s' i = wm_view s i;
  spec_FinishRun : forall run st rr rw we msg s s' e,
    FinishRun run st rr rw we msg s = (s', e) ->
    forall i, wm_view s' i = wm_view s i;
}.

(** The leases that are out. *)
Class SessionSpec (SS : Type) `{SourceSession SS} := {
  lease_eq_dec :: EqDecision Lease;
  lease_countable :: Countable Lease;
  leased : SS -> gset Lease;
  spec_Obtain : forall cfg s s' r, Obtain cfg s = (s', r) ->
    match r with
    | Ok l => (l ∉ leased s) /\ (leased s' = {[l]} ∪ leased s)
    | Err _ => leased s' = leased s
    end;
  spec_release : forall l inv s, l ∈ leased s ->
    leased (release l inv s).1 = leased s ∖ {[l]};
  spec_src_read : forall l cfg s, leased (src_read l cfg s).1 = leased s;
}.

Section Proofs.
Context {SK ST SS : Type} `{HSink : SinkOps SK} `{HStore : RunStore ST} `{HSess : SourceSession SS}.
Context (ResolveParams : string -> result (gmap string string)).
Context (clk : nat -> Time) (parse_time : string -> option Time).

Local Abbreviation World := (@World SK ST SS).

(** ** Frames: what each action leaves alone *)

Lemma on_sink_frame {A X} (m : M SK A) (f : World -> X) :
  (forall s w, f (mkWorld s (w_store w) (w_sess w) (w_state w) (w_metrics w) (w_tick w)) = f w) ->
  keeps f (on_sink m).
Proof. intros Hf w. unfold on_sink. destruct (m (w_sink w)). apply Hf. Qed.

Lemma on_store_frame {A X} (m : M ST A) (f : World -> X) :
  (forall s w, f (mkWorld (w_sink w) s (w_sess w) (w_state w) (w_metrics w) (w_tick w)) = f w) ->
  keeps f (on_store m).
Proof. intros Hf w. unfold on_store. destruct (m (w_store w)). apply Hf. Qed.

Lemma on_sess_frame {A X} (m : M SS A) (f : World -> X) :
  (forall s w, f (mkWorld (w_sink w) (w_store w) s (w_state w) (w_metrics w) (w_tick w)) = f w) ->
  keeps f (on_sess m).
Proof. intros Hf w. unfold on_sess. destruct (m (w_sess w)). apply Hf. Qed.

#[local] Hint Extern 0 (keeps _ (on_sink _)) => (apply on_sink_frame; reflexivity) : loader.
#[local] Hint Extern 0 (keeps _ (on_store _)) => (apply on_store_frame; reflexivity) : loader.
#[local] Hint Extern 0 (keeps _ (on_sess _)) => (apply on_sess_frame; reflexivity) : loader.
#[local] Hint Extern 0 (keeps _ (on_state _)) => (intros ?; reflexivity) : loader.
#[local] Hint Extern 0 (keeps _ (observe _)) => (intros ?; reflexivity) : loader.
#[local] Hint Extern 0 (keeps _ (now _)) => (intros ?; reflexivity) : loader.

Lemma sink_finish_success load run cur r rw :
  keeps (@w_sink SK ST SS) (finish_success clk parse_time load run cur r rw).
Proof.
  unfold finish_success, finish_failed_observed, finish_failed, mark_finished, observe_run.
  keeps_tac.
Qed.

Lemma sink_finish_failed load run we rr rw msg :
  keeps (@w_sink SK ST SS) (finish_failed clk load run we rr rw msg).
Proof. unfold finish_failed, mark_finished. keeps_tac. Qed.

Lemma sink_finish_failed_observed load run we rr rw msg :
  keeps (@w_sink SK ST SS) (finish_failed_observed clk load run we rr rw msg).
Proof. unfold finish_failed_observed, finish_failed, mark_finished, observe_run. keeps_tac. Qed.

#[local] Hint Resolve sink_finish_success sink_finish_failed sink_finish_failed_observed : loader.

Lemma target_force_append load : target_of (force_append load) = target_of load.
Proof. unfold force_append. by case_match. Qed.

(** The part [f] of the world is not touched when a leased run starts. *)
Definition start_keeps {X} (load : Load) (f : World -> X) : Prop :=
  keeps f (on_store (GetWatermark (ld_ID load)))
  /\ (forall v, keeps f (on_store (StartRun (ld_ID load) v)))
  /\ (forall u t, keeps f (on_state (Runstate.MarkRunning (ld_ID load) u t)))
  /\ keeps f (now clk).

(** The start of a leased run: either it ends with an error before the run row
    exists, or it goes on with the run, the current watermark and the load
    timestamp. *)
Lemma run_leased_inv atomic lease load (w w' : World) err inv :
  run_leased atomic clk parse_time lease load w = (w', (err, inv)) ->
  exists w6, (forall X (f : World -> X), start_keeps load f -> f w6 = f w)
  /\ ((w6 = w' /\ err <> None)
  \/ exists run cur n,
     (exists row, (GetWatermark (ld_ID load) (w_store w)).2 = Ok row
                 /\ cur = mkWatermark (ld_WatermarkType load)
                            (match row with Some x => wr_Value x | None => "" end))
     /\ (if bool_decide (ld_Mode load = LoadModeReplace) then
        do: (repl, e) <~ on_sink (prepareExisting atomic (newReplaceSession atomic (target_of load))) ;;
        match e with
        | Some err =>
            finish_failed clk load run (wm_Value cur) 0 0 err ~;;
            retM (Some err, false)
        | None =>
            do: (err, invalidate, l) <~ run_body atomic clk parse_time lease load run cur (clk n) (Some repl) ;;
            match l_repl l with Some s => on_sink (abort atomic s) | None => retM tt end ~;;
            retM (err, invalidate)
        end
      else
        do: (err, invalidate, l) <~ run_body atomic clk parse_time lease load run cur (clk n) None ;;
        retM (err, invalidate)) w6 = (w', (err, inv))).
Proof.
  intros H. unfold run_leased in H. apply bindM_inv in H as (w3 & r & Hg & H).
  destruct r as [row|e].
  2: { unfold retM in H. simplify_eq. exists w'. split; [|by left].
       intros X f (Hf & _). by apply (keeps_eq f) in Hg. }
  apply bindM_inv in H as (w4 & r & Hs & H). destruct r as [run|e].
  2: { unfold retM in H. simplify_eq. exists w'. split; [|by left].
       intros X f (Hf1 & Hf2 & _). apply (keeps_eq f) in Hg, Hs; [|done..]. congruence. }
  apply bindM_inv in H as (w5 & [] & Hst & H). apply bindM_inv in H as (w6 & ts & Hn & H).
  exists w6. split.
  - intros X f (Hf1 & Hf2 & Hf3 & Hf4).
    apply (keeps_eq f) in Hg, Hs, Hst, Hn; [|done..]. congruence.
  - right. unfold now in Hn. simplify_eq.
    exists run, (mkWatermark (ld_WatermarkType load) (match row with Some x => wr_Value x | None => "" end)),
      (w_tick w5). split; [|exact H].
    exists row. split; [|done]. unfold on_store in Hg.
    destruct (GetWatermark _ _) as [st r]. by simplify_eq.
Qed.

Lemma sink_start load : start_keeps load (@w_sink SK ST SS).
Proof. split_and!; intros; eauto 2 with loader nocore. Qed.

Lemma sess_start load : start_keeps load (@w_sess SK ST SS).
Proof. split_and!; intros; eauto 2 with loader nocore. Qed.

(** [Execute] is: an error before the source is leased, or a leased run
    followed by the release. *)
Lemma Execute_inv atomic load0 (w w' : World) err :
  Execute atomic ResolveParams clk parse_time load0 w = (w', err) ->
  let load := force_append load0 in
  (exists e, err = Some e /\ (w' = w \/ exists cfg, on_sess (Obtain cfg) w = (w', Err e)))
  \/ exists params lease w1 w2 inv, ResolveParams (src_ParamsJSON (ld_Source load)) = Ok params
     /\ on_sess (Obtain (source_config load params)) w = (w1, Ok lease)
     /\ run_leased atomic clk parse_time lease load w1 = (w2, (err, inv))
     /\ on_sess (release lease inv) w2 = (w', tt).
Proof.
  intros H load. unfold Execute in H. fold load in H.
  destruct (ResolveParams _) as [params|e] eqn:Ep.
  2: { unfold retM in H. simplify_eq. left. exists e. auto. }
  apply bindM_inv in H as (w1 & r & Ho & H). destruct r as [lease|e].
  2: { unfold retM in H. simplify_eq. left. exists e. eauto. }
  apply bindM_inv in H as (w2 & [err2 inv] & Hl & H).
  apply bindM_inv in H as (w3 & [] & Hrel & H). unfold retM in H. simplify_eq.
  right. exists params, lease, w1, w2, inv. eauto.
Qed.

Lemma force_append_ID load : ld_ID (force_append load) = ld_ID load.
Proof. unfold force_append. by case_match. Qed.

(** ** The replace session and the sink *)

(** [p] is a read of the leased source for the load, from the watermark [cur]. *)
Definition read_at (load : Load) (cur : Watermark) (p : ReadProg) : Prop :=
  exists lease ss, p = (src_read lease (load_config load cur) ss).2.

Definition read_of (load : Load) (p : ReadProg) : Prop := exists cur, read_at load cur p.

Lemma sess_read lease load cur (w w1 : World) p :
  (forall lease cfg ss, aborts_on_error (src_read lease cfg ss).2) ->
  on_sess (src_read lease (load_config load cur)) w = (w1, p) ->
  p = (src_read lease (load_config load cur) (w_sess w)).2 /\ aborts_on_error p.
Proof.
  intros Hab Hp. unfold on_sess in Hp.
  destruct (src_read _ _ _) as [ss' p'] eqn:Es. simplify_eq. split; [done|].
  specialize (Hab lease (load_config load cur) (w_sess w)). by rewrite Es in Hab.
Qed.

Section Replace.
Context `{HAR : !AtomicReplacer SK} `{HSpec : !SinkSpec SK}.
Local Abbreviation Execute := (Execute (Some HAR) ResolveParams clk parse_time).

(** A session on [t] that has not been committed. *)
Definition session_open (t : TargetTable) (s : replaceSession) : Prop :=
  rs_legacy s = false /\ rs_live s = t /\ rs_committed s = false
  /\ (rs_active s = true -> rs_staging s = staging_of t /\ rs_writeTo s = staging_of t).

(** The sink and the closure variables after the batches [bs]: the live table
    is as it was ([v0]); the staging table, once it is there, holds exactly the
    rows of [bs]. *)
Definition staged (t : TargetTable) (ts : Time) (v0 : option (list srow)) (bs : list Batch)
    (x : SK * Locals) : Prop :=
  let '(sk, l) := x in
  sink_ok sk /\ view sk t = v0
  /\ exists s, l_repl l = Some s /\ session_open t s
     /\ if rs_active s
        then (exists rows, stamp_all ts bs = Some rows /\ view sk (staging_of t) = Some rows)
             /\ (l_firstBatch l = true -> bs = [])
             /\ (l_firstBatch l = false -> l_writeTarget l = staging_of t)
        else l_firstBatch l = true /\ bs = [] /\ v0 = None.

(** After a handler error: the live table is as it was. *)
Definition unpublished (t : TargetTable) (v0 : option (list srow)) (x : SK * Locals) : Prop :=
  let '(sk, l) := x in
  sink_ok sk /\ view sk t = v0 /\ exists s, l_repl l = Some s /\ session_open t s.

Lemma staged_unpublished t ts v0 bs x : staged t ts v0 bs x -> unpublished t v0 x.
Proof. destruct x as [sk l]. intros (? & ? & s & ? & ? & _). split_and!; eauto. Qed.

(** [BeginReplace] through the session. *)
Lemma begin_staging_spec t s cols sk sk' s' e :
  session_open t s -> sink_ok sk ->
  begin_staging (Some HAR) s cols sk = (sk', (s', e)) ->
  sink_ok sk' /\ view sk' t = view sk t
  /\ match e with
     | Some _ => s' = s
     | None => session_open t s' /\ rs_active s' = true /\ view sk' (staging_of t) = Some []
     end.
Proof.
  intros (Hl & Ht & Hc & Ha) Hok Hb. unfold begin_staging, bindM in Hb.
  destruct (BeginReplace (rs_live s) cols sk) as [sk1 r] eqn:E.
  apply spec_BeginReplace in E as (Hok1 & Hfr & Hr); [|done]. rewrite Ht in *.
  assert (view sk1 t = view sk t) by (apply Hfr, not_eq_sym, staging_ne).
  destruct r as [stg|err]; unfold retM in Hb; simplify_eq; [|done].
  destruct (Hr stg eq_refl) as [-> ?]. by split_and!.
Qed.

Lemma first_batch_staged load t ts v0 cols sk l sk' l' e :
  ld_Mode load = LoadModeReplace -> staged t ts v0 [] (sk, l) -> l_firstBatch l = true ->
  first_batch (Some HAR) load cols l sk = (sk', (l', e)) ->
  match e with
  | Some _ => unpublished t v0 (sk', l')
  | None => staged t ts v0 [] (sk', l') /\ l_firstBatch l' = false
            /\ l_writeTarget l' = staging_of t /\ l_rowsWritten l' = l_rowsWritten l
  end.
Proof.
  intros Hm (Hok & Hv & s & Hs & Ho & Hact) Hfb. unfold first_batch, ensureFirstBatch.
  rewrite bool_decide_true by done. rewrite Hs. pose proof Ho as (Hl & _). rewrite Hl.
  unfold bindM, retM. destruct (rs_active s) eqn:Ea.
  - intros ?; simplify_eq. destruct Hact as ((rows & Hst & Hrows) & _).
    pose proof Ho as (_ & _ & _ & Hsw). destruct (Hsw Ea) as [? Hw].
    split_and!; try done. split_and!; try done. exists s. split_and!; try done.
    rewrite Ea. split_and!; eauto.
  - destruct (begin_staging (Some HAR) s cols sk) as [sk1 [s1 e1]] eqn:Eb.
    apply (begin_staging_spec t) in Eb as (Hok1 & Hv1 & He); [|done..].
    destruct e1 as [err|]; intros ?; simplify_eq.
    + split_and!; [done|done|]. by exists s.
    + destruct He as (Ho1 & Ha1 & Hr1). pose proof Ho1 as (_ & _ & _ & Hsw).
      destruct (Hsw Ha1) as [? ?].
      split_and!; try done. split_and!; try done. exists s1.
      split_and!; try done. rewrite Ha1. split_and!; try done. by exists [].
Qed.

Lemma handler_staged load t ts v0 bs b x x' e :
  ld_Mode load = LoadModeReplace -> staged t ts v0 bs x ->
  handler (Some HAR) load ts b x = (x', e) ->
  match e with
  | Some _ => unpublished t v0 x'
  | None => staged t ts v0 (bs ++ [b]) x'
  end.
Proof.
  intros Hm Hst Hh. destruct x as [sk l]. unfold handler in Hh.
  (* the sink and the variables just before [WriteBatch] *)
  assert (Hpre : exists sk1 l1 e1,
    (if l_firstBatch l then first_batch (Some HAR) load (b_Columns b) l sk
     else (sk, (l, None))) = (sk1, (l1, e1))
    /\ match e1 with
       | Some _ => unpublished t v0 (sk1, l1)
       | None => staged t ts v0 bs (sk1, l1) /\ l_firstBatch l1 = false
                 /\ l_writeTarget l1 = staging_of t
       end).
  { pose proof Hst as (_ & _ & s & _ & _ & Hact).
    destruct (l_firstBatch l) eqn:Efb.
    - assert (bs = []) as ->.
      { destruct (rs_active s); [by destruct Hact as (_ & Hf & _); apply Hf|by destruct Hact as (_ & ? & _)]. }
      destruct (first_batch _ _ _ _ _) as [sk1 [l1 e1]] eqn:Ef.
      exists sk1, l1, e1. split; [done|].
      eapply first_batch_staged in Ef; [|done..]. destruct e1; [done|]. by destruct Ef as (? & ? & ? & _).
    - exists sk, l, None. split_and!; try done.
      destruct (rs_active s); [by destruct Hact as (_ & _ & Hf); apply Hf|by destruct Hact]. }
  destruct Hpre as (sk1 & l1 & e1 & Hf & He1). rewrite Hf in Hh.
  destruct e1 as [err|]; [by simplify_eq|]. destruct He1 as (Hst1 & Hfb & Hwt).
  destruct (WriteBatch (l_writeTarget l1) b ts sk1) as [sk2 [n e2]] eqn:Ew.
  rewrite Hwt in Ew. destruct Hst1 as (Hok & Hv & s & Hs & Ho & Hact).
  apply spec_WriteBatch in Ew as (Hok2 & Hfr & Hsome & _ & Hw); [|done].
  assert (Hv2 : view sk2 t = v0) by (rewrite Hfr by apply not_eq_sym, staging_ne; done).
  destruct e2 as [err|]; simplify_eq.
  { split_and!; try done. by exists s. }
  destruct (Hw eq_refl) as (_ & rs & Hrs & Happ). split_and!; try done. exists s.
  split_and!; try done. destruct (rs_active s) eqn:Ea; [|by rewrite Hfb in Hact; destruct Hact].
  destruct Hact as ((rows & Hrows & Hview) & _).
  split_and!; [|by simpl; rewrite Hfb|by simpl].
  exists (rows ++ rs). split; [by apply stamp_all_snoc|].
  rewrite Hview in *. destruct (Hsome (mk_is_Some _ _ eq_refl)) as [y Hy].
  rewrite Hy in *. simpl in Happ. by rewrite Happ.
Qed.

(** The live table holds exactly the rows of a read that succeeded. *)
Definition published (t : TargetTable) (ts : Time) (p : ReadProg) (sk : SK) : Prop :=
  (outcome_of p).2 = None
  /\ exists rows, stamp_all ts (batches_of p) = Some rows /\ view sk t = Some rows.

(** What a replace run may leave behind, with error [err]: the old content or
    the complete new content; no error only with the new content, or when
    there was no table and nothing to load. *)
Definition replace_outcome (t : TargetTable) (ts : Time) (v0 : option (list srow))
    (p : ReadProg) (err : option error) (sk : SK) : Prop :=
  (view sk t = v0 \/ published t ts p sk)
  /\ (err = None -> published t ts p sk
        \/ ((outcome_of p).2 = None /\ batches_of p = [] /\ v0 = None /\ view sk t = None)).

Definition session_closed (t : TargetTable) (s : replaceSession) : Prop :=
  rs_active s = true -> rs_committed s = false -> rs_staging s = staging_of t.

Lemma commit_spec t ts p s sk sk' s' e l v0 :
  target_ok t -> staged t ts v0 (batches_of p) (sk, l) -> l_repl l = Some s ->
  (outcome_of p).2 = None ->
  commit (Some HAR) s sk = (sk', (s', e)) ->
  sink_ok sk' /\ session_closed t s' /\ replace_outcome t ts v0 p e sk'.
Proof.
  intros Hto (Hok & Hv & s0 & Hs0 & (Hl & Ht & Hc & Ha) & Hact) Hs Hout.
  rewrite Hs in Hs0. simplify_eq. unfold commit. rewrite Hl. simpl.
  destruct (rs_active s0) eqn:Ea; simpl; last first.
  { destruct Hact as (_ & Hb & Hv0). intros [= -> -> <-].
    split_and!; [done|by intros ?; congruence|split; [by left|]]. intros _. right. by rewrite Hb. }
  destruct (Ha eq_refl) as [Hstg _].
  destruct Hact as ((rows & Hrows & Hview) & _). unfold bindM. rewrite Hstg.
  destruct (CommitReplace _ _ sk) as [sk1 e1] eqn:Ec.
  apply spec_CommitReplace in Ec as (Hok1 & Hnone & Hor); [|done..].
  assert (Hpub : view sk1 (rs_live s0) = view sk (staging_of (rs_live s0)) ->
                 published (rs_live s0) ts p sk1).
  { intros He. split; [done|]. exists rows. by rewrite He. }
  destruct e1 as [err|]; intros [= -> <- <-];
    (split_and!; [done|by intros ?|split; [by destruct Hor; auto|]]); [done|].
  intros _. left. by apply Hpub, Hnone.
Qed.

Lemma abort_spec t s sk sk' u :
  session_closed t s -> sink_ok sk -> abort (Some HAR) s sk = (sk', u) ->
  sink_ok sk' /\ view sk' t = view sk t.
Proof.
  intros Hcl Hok. unfold abort. destruct (_ || _) eqn:E.
  { by intros [= -> _]. }
  apply orb_false_iff in E as [[_ Ha%negb_false_iff]%orb_false_iff Hc].
  rewrite (Hcl Ha Hc). unfold bindM.
  destruct (AbortReplace _ sk) as [sk1 e1] eqn:Eab.
  apply spec_AbortReplace in Eab as [? Hfr]; [|done]. intros [= -> _].
  split; [done|]. apply Hfr, not_eq_sym, staging_ne.
Qed.

Lemma prepareExisting_spec t ts sk sk' s e :
  sink_ok sk ->
  prepareExisting (Some HAR) (newReplaceSession (Some HAR) t) sk = (sk', (s, e)) ->
  match e with
  | Some _ => view sk' t = view sk t
  | None => staged t ts (view sk t) [] (sk', mkLocals 0 true (rs_writeTo s) (Some s))
  end.
Proof.
  intros Hok. unfold prepareExisting, bindM.
  change (rs_legacy (newReplaceSession (Some HAR) t)) with false.
  change (rs_live (newReplaceSession (Some HAR) t)) with t. cbv beta iota.
  destruct (TableExists t sk) as [sk1 r] eqn:Et.
  apply spec_TableExists in Et as (Hok1 & Hfr & Hb); [|done].
  destruct r as [[|]|err]; unfold retM.
  - intros Hbs. apply (begin_staging_spec t) in Hbs as (Hok2 & Hv2 & He); [|done..].
    rewrite Hfr in Hv2. destruct e as [err|]; [done|].
    destruct He as (Ho & Ha & Hv). split_and!; try done. exists s. split_and!; try done.
    rewrite Ha. split_and!; try done. by exists [].
  - intros [= -> <- <-]. specialize (Hb false eq_refl). split_and!; try done.
    exists (newReplaceSession (Some HAR) t). split_and!; try done. simpl. split_and!; try done.
    symmetry in Hb. apply bool_decide_eq_false in Hb. by apply eq_None_not_Some.
  - intros [= -> <- <-]. apply Hfr.
Qed.

Context (Haborts : forall lease cfg ss, aborts_on_error (src_read lease cfg ss).2).

(** The read loop of a replace run. *)
Lemma read_replace load t ts p l v0 (w w' : World) l' r e :
  ld_Mode load = LoadModeReplace -> aborts_on_error p ->
  staged t ts v0 [] (w_sink w, l) ->
  read_with_handler (Some HAR) load ts p l w = (w', (l', (r, e))) ->
  match e with
  | Some _ => unpublished t v0 (w_sink w', l')
  | None => (outcome_of p).2 = None /\ staged t ts v0 (batches_of p) (w_sink w', l')
  end.
Proof.
  intros Hm Hab Hst. unfold read_with_handler.
  destruct (run_read _ _ _) as [[sk2 l2] [r2 e2]] eqn:Er. intros [= <- <- <- <-].
  eapply (run_read_ind p _ (staged t ts v0) (unpublished t v0) []) in Er
    as [[Hout Hfin]|[[e' ->] Hun]]; [| |done|done| |].
  - destruct e2; [exact (staged_unpublished _ _ _ _ _ Hfin)|].
    split; [by rewrite <- Hout|exact Hfin].
  - done.
  - intros bs b s1 s2 HI Hh. by eapply (handler_staged _ _ _ _ _ _ _ _ None).
  - intros bs b s1 s2 e0 HI Hh. by eapply (handler_staged _ _ _ _ _ _ _ _ (Some e0)).
Qed.

Lemma run_body_replace load t ts lease run cur s v0 (w w' : World) err inv l :
  ld_Mode load = LoadModeReplace -> target_ok t ->
  staged t ts v0 [] (w_sink w, mkLocals 0 true (rs_writeTo s) (Some s)) ->
  run_body (Some HAR) clk parse_time lease load run cur ts (Some s) w = (w', (err, inv, l)) ->
  exists p s', read_of load p /\ l_repl l = Some s' /\ session_closed t s'
    /\ sink_ok (w_sink w') /\ replace_outcome t ts v0 p err (w_sink w').
Proof.
  intros Hm Hto Hst H. unfold run_body in H.
  apply bindM_inv in H as (w1 & p & Hp & H).
  pose proof (sess_read _ _ _ _ _ _ Haborts Hp) as [Hat Hab].
  assert (Hrd : read_of load p) by (by exists cur, lease, (w_sess w)). clear Hat.
  kept (@w_sink SK ST SS) Hp Hw1.
  apply bindM_inv in H as (w2 & [l2 [r e]] & Hread & H).
  eapply read_replace in Hread; [|done|done|by rewrite Hw1].
  destruct e as [err0|].
  - destruct Hread as (Hok & Hv & s2 & Hs2 & Ho).
    apply bindM_inv in H as (w3 & u & Hff & H). unfold retM in H. simplify_eq.
    kept (@w_sink SK ST SS) Hff Hk.
    exists p, s2. rewrite Hk. split_and!; try done.
    + intros Ha _. apply Ho, Ha.
    + split; [by left|done].
  - destruct Hread as [Hout Hst2]. pose proof Hst2 as (_ & _ & s2 & Hs2 & _). rewrite Hs2 in H.
    apply bindM_inv in H as (w3 & [l3 e3] & Hc & H).
    apply bindM_inv in Hc as (w3' & [s3 e3'] & Hc & Hret). unfold retM in Hret. simplify_eq.
    unfold on_sink in Hc. destruct (commit _ _ _) as [sk3 [s3' e3']] eqn:Ec. simplify_eq.
    eapply commit_spec in Ec as (Hok3 & Hcl & Hro); [|done..].
    destruct e3 as [err3|]; apply bindM_inv in H as (w4 & ef & Hff & H);
      unfold retM in H; simplify_eq;
      kept (@w_sink SK ST SS) Hff Hk; simpl in Hk;
      exists p, s3; rewrite Hk; split_and!; try done.
    destruct Hro as [Hro1 Hro2]. split; [done|]. intros _. by apply Hro2.
Qed.

Lemma run_leased_replace lease load (w w' : World) err inv :
  ld_Mode load = LoadModeReplace -> target_ok (target_of load) -> sink_ok (w_sink w) ->
  run_leased (Some HAR) clk parse_time lease load w = (w', (err, inv)) ->
  (view (w_sink w') (target_of load) = view (w_sink w) (target_of load) /\ err <> None)
  \/ exists p n, read_of load p
       /\ replace_outcome (target_of load) (clk n) (view (w_sink w) (target_of load)) p err (w_sink w').
Proof.
  intros Hmode Htarget Hok Hl. set (t := target_of load) in *.
  apply run_leased_inv in Hl as (w6 & Hw & [[<- ?]|(run & cur & n & _ & H)]);
    specialize (Hw _ _ (sink_start load)).
  { left. by rewrite Hw. }
  rewrite bool_decide_true in H by done.
  apply bindM_inv in H as (w7 & [repl e] & Hprep & H).
  unfold on_sink in Hprep. destruct (prepareExisting _ _ _) as [sk7 [s7 e7]] eqn:Ep.
  simplify_eq. rewrite Hw in Ep.
  apply (prepareExisting_spec _ (clk n)) in Ep; [|done].
  destruct e as [err0|].
  { apply bindM_inv in H as (w8 & u' & Hff & H). unfold retM in H. simplify_eq. left.
    split; [|done]. kept (@w_sink SK ST SS) Hff Hk. by rewrite Hk. }
  apply bindM_inv in H as (w8 & [[err8 inv8] l8] & Hbody & H).
  eapply run_body_replace in Hbody as (p & s' & Hrd & Hs' & Hcl & Hok8 & Hro); [|done..].
  rewrite Hs' in H. apply bindM_inv in H as (w9 & u9 & Hab & H). unfold retM in H. simplify_eq.
  unfold on_sink in Hab. destruct (abort _ _ _) as [sk9 u9'] eqn:Ea. simplify_eq.
  apply (abort_spec t) in Ea as [_ Hv9]; [|done..].
  right. exists p, n. split; [done|].
  unfold replace_outcome, published in *. simpl. by rewrite Hv9.
Qed.

(** ** Properties of a replace run *)

(** C1. A replace load is all-or-nothing, on a sink that can replace atomically
    and for a target that it accepts ([target_ok]; the truncating fallback for
    other sinks is not covered).  Whatever fails and wherever (store,
    sink, source, commit, or the bookkeeping after the commit), the live target
    table ends either with the content it had before the run or with exactly
    the stamped rows of every batch of one complete, successful read, never
    with anything in between; and when [Execute] returns no error the table
    holds the complete new content, unless there was no table and the source
    gave no batch, in which case none is created. *)
Theorem replace_all_or_nothing load (w : World)
    (Hmode : ld_Mode (force_append load) = LoadModeReplace)
    (Htarget : target_ok (target_of load)) (Hok : sink_ok (w_sink w)) :
  let t := target_of load in
  let w' := (Execute load w).1 in
  let err := (Execute load w).2 in
  (view (w_sink w') t = view (w_sink w) t /\ err <> None)
  \/ exists p n, read_of (force_append load) p
       /\ replace_outcome t (clk n) (view (w_sink w) t) p err (w_sink w').
Proof.
  rewrite <- (target_force_append load) in Htarget |- *. revert Hmode Htarget.
  cbv zeta. unfold Execute, Runner.Execute. generalize (force_append load). clear load.
  intros load Hmode Htarget. destruct (ResolveParams _) as [params|e]; [|by left].
  destruct (bindM _ _ w) as [w' err] eqn:H. simpl.
  apply bindM_inv in H as (w1 & r & Ho & H).
  kept (@w_sink SK ST SS) Ho H1.
  destruct r as [lease|e]; [|unfold retM in H; simplify_eq; left; by rewrite H1].
  apply bindM_inv in H as (w2 & [err2 inv] & Hl & H).
  apply bindM_inv in H as (w3 & u & Hrel & H). unfold retM in H. simplify_eq.
  kept (@w_sink SK ST SS) Hrel H2.
  rewrite H2, <- H1. rewrite <- H1 in Hok. by eapply run_leased_replace.
Qed.

End Replace.

(** ** Append and delta runs *)

Section Plain.
Context `{HAR : !AtomicReplacer SK} `{HSpec : !SinkSpec SK} `{HWm : !RunStoreSpec ST}.
Context (atomic : option (AtomicReplacer SK)).
Context (Haborts : forall lease cfg ss, aborts_on_error (src_read lease cfg ss).2).

(** The watermark of load [i] in a world. *)
Definition wm (i : Z) (w : World) : option string := wm_view (w_store w) i.

Lemma wm_StartRun i id v : keeps (wm i) (on_store (StartRun id v)).
Proof.
  intros w. unfold on_store. destruct (StartRun _ _ _) eqn:E. unfold wm; simpl.
  by eapply spec_StartRun.
Qed.

Lemma wm_FinishRun i run st rr rw we msg :
  keeps (wm i) (on_store (FinishRun run st rr rw we msg)).
Proof.
  intros w. unfold on_store. destruct (FinishRun _ _ _ _ _ _ _) eqn:E. unfold wm; simpl.
  by eapply spec_FinishRun.
Qed.

Lemma wm_GetWatermark i id : keeps (wm i) (on_store (GetWatermark id)).
Proof.
  intros w. unfold on_store. destruct (GetWatermark _ _) eqn:E. unfold wm; simpl.
  by eapply spec_GetWatermark in E as [-> _].
Qed.

Lemma wm_read i load ts p l : keeps (wm i) (read_with_handler atomic load ts p l).
Proof. intros w. unfold read_with_handler. by destruct (run_read _ _ _) as [[? ?] ?]. Qed.

#[local] Hint Resolve wm_StartRun wm_FinishRun wm_GetWatermark wm_read : loader.

Lemma wm_finish_failed i load run we rr rw msg :
  keeps (wm i) (finish_failed clk load run we rr rw msg).
Proof. unfold finish_failed, mark_finished. keeps_tac. Qed.

Lemma wm_finish_failed_observed i load run we rr rw msg :
  keeps (wm i) (finish_failed_observed clk load run we rr rw msg).
Proof. unfold finish_failed_observed, finish_failed, mark_finished, observe_run. keeps_tac. Qed.

#[local] Hint Resolve wm_finish_failed wm_finish_failed_observed : loader.

(** The end of a successful read moves at most the watermark of the load, in
    delta mode, to the non-empty value the read returned. *)
Lemma wm_finish_success load run cur r rw (w w' : World) err :
  finish_success clk parse_time load run cur r rw w = (w', err) ->
  let new := wm_Value (rr_NewWatermark r) in
  (forall i, i <> ld_ID load -> wm i w' = wm i w)
  /\ (wm (ld_ID load) w' = wm (ld_ID load) w
      \/ (ld_Mode load = LoadModeDelta /\ new <> "" /\ wm (ld_ID load) w' = Some new))
  /\ (err = None -> ld_Mode load = LoadModeDelta -> new <> "" ->
      wm (ld_ID load) w' = Some new
      \/ (new = wm_Value cur /\ wm (ld_ID load) w' = wm (ld_ID load) w)).
Proof.
  intros H new. unfold finish_success in H. fold new in H.
  apply bindM_inv in H as (w1 & e & Hu & H).
  assert (Hrest : forall i, wm i w' = wm i w1 /\ (err = None -> e = None)).
  { intros i. destruct e as [err0|].
    - apply bindM_inv in H as (w2 & u & Hf & H). unfold retM in H. simplify_eq.
      kept (wm i) Hf Hk. split; [by rewrite Hk|done].
    - split; [|done]. revert H. apply (keeps_eq (wm i)).
      unfold mark_finished, observe_run. keeps_tac. }
  assert (Hw : forall i, wm i w' = wm i w1) by (intros i; by apply Hrest).
  assert (He : err = None -> e = None) by (by apply (Hrest 0)).
  destruct (_ && _) eqn:Eadv.
  - apply andb_true_iff in Eadv as [[Hm%bool_decide_eq_true Hn%negb_true_iff]%andb_true_iff _].
    apply bool_decide_eq_false in Hn.
    unfold on_store in Hu. destruct (UpsertWatermark _ _ _) as [st e'] eqn:Eu. simplify_eq.
    apply spec_UpsertWatermark in Eu as (Ho & Hnone & Hor).
    unfold wm in *; simpl in *. split_and!.
    + intros i Hi. rewrite Hw. by apply Ho.
    + rewrite Hw. destruct Hor; auto.
    + intros -> _ _. left. rewrite Hw. by apply Hnone, He.
  - unfold retM in Hu. simplify_eq. split_and!; [auto..|].
    intros _ Hm Hn. right. rewrite Hw. split; [|done].
    apply andb_false_iff in Eadv as [E|E].
    + apply andb_false_iff in E as [E|E].
      * by apply bool_decide_eq_false in E.
      * by apply negb_false_iff, bool_decide_eq_true in E.
    + apply orb_false_iff in E as [_ E]. by apply negb_false_iff, bool_decide_eq_true in E.
Qed.

(** The sink and the closure variables after the batches [bs] of a run that
    writes straight into the target. *)
Definition delivering (t : TargetTable) (ts : Time) (old : list srow) (bs : list Batch)
    (x : SK * Locals) : Prop :=
  let '(sk, l) := x in
  sink_ok sk /\ l_writeTarget l = t /\ l_repl l = None
  /\ l_rowsWritten l = Z.of_nat (length (concat (b_Rows <$> bs)))
  /\ exists rows, stamp_all ts bs = Some rows /\ rows_in sk t = old ++ rows.

Lemma first_batch_plain load sk l sk' l' e cols :
  ld_Mode load <> LoadModeReplace -> sink_ok sk -> l_writeTarget l = target_of load ->
  first_batch atomic load cols l sk = (sk', (l', e)) ->
  sink_ok sk' /\ l_writeTarget l' = target_of load /\ l_repl l' = l_repl l
  /\ l_rowsWritten l' = l_rowsWritten l
  /\ rows_in sk' (target_of load) = rows_in sk (target_of load).
Proof.
  intros Hm Hok Hwt. unfold first_batch. rewrite bool_decide_false by done.
  destruct (ld_AutoCreateTable load).
  - unfold bindM. destruct (EnsureTable _ _ _) as [sk1 e1] eqn:Ee.
    apply spec_EnsureTable in Ee as (Hok1 & _ & Hr & _); [|done].
    destruct e1; intros [= <- <- <-]; split_and!; done.
  - intros [= <- <- <-]. split_and!; done.
Qed.

Lemma handler_plain load ts old bs b x x' :
  ld_Mode load <> LoadModeReplace -> delivering (target_of load) ts old bs x ->
  handler atomic load ts b x = (x', None) ->
  delivering (target_of load) ts old (bs ++ [b]) x'.
Proof.
  intros Hm Hd Hh. destruct x as [sk l]. unfold handler in Hh.
  assert (Hpre : exists sk1 l1 e1,
    (if l_firstBatch l then first_batch atomic load (b_Columns b) l sk
     else (sk, (l, None))) = (sk1, (l1, e1)) /\ delivering (target_of load) ts old bs (sk1, l1)).
  { destruct Hd as (Hok & Hwt & Hrp & Hrw & rows & Hst & Hin).
    destruct (l_firstBatch l).
    - destruct (first_batch _ _ _ _ _) as [sk1 [l1 e1]] eqn:Ef. exists sk1, l1, e1.
      split; [done|]. apply first_batch_plain in Ef as (? & ? & ? & ? & Hr); [|done..].
      split_and!; try done; [by congruence..|]. exists rows. by rewrite Hr.
    - exists sk, l, None. split; [done|]. split_and!; try done. by exists rows. }
  destruct Hpre as (sk1 & l1 & e1 & Hf & Hok & Hwt & Hrp & Hrw & rows & Hst & Hin).
  rewrite Hf in Hh. destruct e1 as [err|]; [by simplify_eq|].
  destruct (WriteBatch _ b ts sk1) as [sk2 [n e2]] eqn:Ew. rewrite Hwt in Ew.
  apply spec_WriteBatch in Ew as (Hok2 & _ & _ & _ & Hw); [|done].
  destruct e2 as [err|]; simplify_eq.
  destruct (Hw eq_refl) as (-> & rs & Hrs & Happ). split_and!; try done.
  - simpl. rewrite Hrw, fmap_app, concat_app, length_app. simpl. rewrite app_nil_r. lia.
  - exists (rows ++ rs). split; [by apply stamp_all_snoc|].
    unfold rows_in in *. by rewrite Happ, Hin, app_assoc.
Qed.

(** All rows of the read are in the target, behind the rows that were there,
    and the sink is in order. *)
Definition delivered (t : TargetTable) (ts : Time) (p : ReadProg) (sk sk' : SK) : Prop :=
  (outcome_of p).2 = None /\ sink_ok sk'
  /\ exists rows, stamp_all ts (batches_of p) = Some rows /\ rows_in sk' t = rows_in sk t ++ rows.

(** A read of the load from the watermark value [v], delivered with the [n]th
    clock reading as stamp. *)
Definition delivery (load : Load) (v : string) (p : ReadProg) (sk sk' : SK) : Prop :=
  read_at load (mkWatermark (ld_WatermarkType load) v) p
  /\ exists n, delivered (target_of load) (clk n) p sk sk'.

Lemma read_plain load ts p (w w' : World) l' r :
  ld_Mode load <> LoadModeReplace -> aborts_on_error p -> sink_ok (w_sink w) ->
  read_with_handler atomic load ts p (mkLocals 0 true (target_of load) None) w = (w', (l', (r, None))) ->
  outcome_of p = (r, None) /\ delivered (target_of load) ts p (w_sink w) (w_sink w')
  /\ l_repl l' = None /\ l_rowsWritten l' = Z.of_nat (length (concat (b_Rows <$> batches_of p))).
Proof.
  intros Hm Hab Hok. unfold read_with_handler.
  destruct (run_read _ _ _) as [[sk2 l2] [r2 e2]] eqn:Er. intros [= <- <- <- ->].
  eapply (run_read_ind p _ (delivering (target_of load) ts (rows_in (w_sink w) (target_of load)))
            (fun _ => True) []) in Er
    as [[Hout Hfin]|[[e' ?] _]]; [| |done| | |].
  - destruct Hfin as (Hok' & _ & Hrp & Hrw & rows & Hst & Hin). split_and!; try done.
    split_and!; [by rewrite <- Hout|done|]. by exists rows.
  - done.
  - split_and!; try done. exists []. by rewrite app_nil_r.
  - intros bs b s1 s2 HI Hh. by eapply handler_plain.
  - done.
Qed.

Lemma run_body_plain load ts lease run cur (w w' : World) err inv l :
  ld_Mode load <> LoadModeReplace -> sink_ok (w_sink w) ->
  run_body atomic clk parse_time lease load run cur ts None w = (w', (err, inv, l)) ->
  (err <> None /\ (forall i, wm i w' = wm i w))
  \/ exists p w1 r rw, p = (src_read lease (load_config load cur) (w_sess w)).2
     /\ outcome_of p = (r, None)
     /\ delivered (target_of load) ts p (w_sink w) (w_sink w')
     /\ (forall i, wm i w1 = wm i w)
     /\ finish_success clk parse_time load run cur r rw w1 = (w', err).
Proof.
  intros Hm Hok H. unfold run_body in H.
  apply bindM_inv in H as (w1 & p & Hp & H).
  pose proof (sess_read _ _ _ _ _ _ Haborts Hp) as [Hrd Hab]. kept (@w_sink SK ST SS) Hp Hw1.
  assert (Hwm1 : forall i, wm i w1 = wm i w) by (intros i; kept (wm i) Hp Hk; done).
  apply bindM_inv in H as (w2 & [l2 [r e]] & Hread & H).
  assert (Hwm2 : forall i, wm i w2 = wm i w)
    by (intros i; kept (wm i) Hread Hk; by rewrite Hk).
  destruct e as [err0|].
  - left. apply bindM_inv in H as (w3 & u & Hff & H). unfold retM in H. simplify_eq.
    split; [done|]. intros i. kept (wm i) Hff Hk. by rewrite Hk.
  - right. apply read_plain in Hread as (Hout & Hdel & Hrp & _); [|done|done|by rewrite Hw1].
    rewrite Hrp in H. apply bindM_inv in H as (w3 & [l3 e3] & Hret & H).
    unfold retM in Hret. simplify_eq. apply bindM_inv in H as (w4 & e4 & Hfs & H).
    unfold retM in H. simplify_eq. eexists _, w3, r, (l_rowsWritten l).
    kept (@w_sink SK ST SS) Hfs Hk. rewrite Hk, <- Hw1. split_and!; done.
Qed.

Local Abbreviation Execute := (Execute atomic ResolveParams clk parse_time).

Lemma wm_start load i : start_keeps load (wm i).
Proof. split_and!; intros; eauto 2 with loader nocore. Qed.

Lemma run_leased_plain lease load (w w' : World) err inv :
  ld_Mode load <> LoadModeReplace -> sink_ok (w_sink w) ->
  run_leased atomic clk parse_time lease load w = (w', (err, inv)) ->
  (err <> None /\ (forall i, wm i w' = wm i w))
  \/ exists p w1 run cur r rw,
     outcome_of p = (r, None)
     /\ p = (src_read lease (load_config load
              (mkWatermark (ld_WatermarkType load) (default "" (wm (ld_ID load) w)))) (w_sess w)).2
     /\ (exists n, delivered (target_of load) (clk n) p (w_sink w) (w_sink w'))
     /\ (forall i, wm i w1 = wm i w)
     /\ wm_Value cur = default "" (wm (ld_ID load) w)
     /\ finish_success clk parse_time load run cur r rw w1 = (w', err).
Proof.
  intros Hm Hok H.
  apply run_leased_inv in H as (w6 & Hw & [[<- ?]|(run & cur & n & Hcur & H)]).
  { left. split; [done|]. intros i. apply Hw, wm_start. }
  pose proof (Hw _ _ (sink_start load)) as Hsk. rewrite bool_decide_false in H by done.
  apply bindM_inv in H as (w7 & [[err7 inv7] l7] & Hb & H). unfold retM in H. simplify_eq.
  apply run_body_plain in Hb
    as [[? Hwm]|(p & w1 & r & rw & Hrd & Hout & Hdel & Hwm & Hfs)]; [| |done|by rewrite Hsk].
  - left. split; [done|]. intros i. rewrite Hwm. apply Hw, wm_start.
  - right. rewrite Hsk in Hdel. rewrite (Hw _ _ (sess_start load)) in Hrd.
    exists p, w1, run, cur, r, rw.
    assert (cur = mkWatermark (ld_WatermarkType load) (default "" (wm (ld_ID load) w))) as ->.
    { destruct Hcur as (row & Hg & ->). unfold wm.
      destruct (GetWatermark _ _) as [st r'] eqn:Eg. simpl in Hg. simplify_eq.
      apply spec_GetWatermark in Eg as [_ Eg]. rewrite (Eg row eq_refl). by destruct row. }
    split_and!; try done; [by exists n|]. intros i. rewrite Hwm. apply Hw, wm_start.
Qed.

(** A run in append or delta mode: either it failed and left every watermark
    alone, or it leased a source, delivered its read and moved at most its own
    watermark, in delta mode to the non-empty value of the read, and did move
    it when it returned no error. *)
Lemma Execute_plain load0 (w w' : World) err :
  let load := force_append load0 in
  let cur := mkWatermark (ld_WatermarkType load) (default "" (wm (ld_ID load) w)) in
  ld_Mode load <> LoadModeReplace -> sink_ok (w_sink w) -> Execute load0 w = (w', err) ->
  (err <> None /\ forall i, wm i w' = wm i w)
  \/ exists params lease ss p r n,
    ResolveParams (src_ParamsJSON (ld_Source load)) = Ok params
    /\ Obtain (source_config load params) (w_sess w) = (ss, Ok lease)
    /\ p = (src_read lease (load_config load cur) ss).2 /\ outcome_of p = (r, None)
    /\ delivered (target_of load) (clk n) p (w_sink w) (w_sink w')
    /\ (forall i, i <> ld_ID load -> wm i w' = wm i w)
    /\ (wm (ld_ID load) w' = wm (ld_ID load) w
        \/ (ld_Mode load = LoadModeDelta /\ wm_Value (rr_NewWatermark r) <> ""
            /\ wm (ld_ID load) w' = Some (wm_Value (rr_NewWatermark r))))
    /\ (err = None -> ld_Mode load = LoadModeDelta -> wm_Value (rr_NewWatermark r) <> "" ->
        wm (ld_ID load) w' = Some (wm_Value (rr_NewWatermark r))).
Proof.
  cbv zeta. intros Hm Hok H.
  apply Execute_inv in H as [(e & -> & He)|(params & lease & w1 & w2 & inv & Hpar & Ho & Hl & Hr)].
  { left. split; [done|]. intros i. destruct He as [->|(cfg & He)]; [done|]. by kept (wm i) He Hk. }
  revert Hm Hpar Ho Hl. generalize (force_append load0). intros ld Hm Hpar Ho Hl.
  assert (Hw1 : forall i, wm i w1 = wm i w) by (intros i; by kept (wm i) Ho Hk).
  assert (Hw2 : forall i, wm i w' = wm i w2) by (intros i; by kept (wm i) Hr Hk).
  kept (@w_sink SK ST SS) Ho Hk1. kept (@w_sink SK ST SS) Hr Hk2. rewrite Hk2, <- Hk1.
  apply run_leased_plain in Hl
    as [[? Hwm]|(p & w3 & run & cur & r & rw & Hout & Hp & [n Hdel] & Hw3 & Hcur & Hfs)];
    [| |done|by rewrite Hk1].
  { left. split; [done|]. intros i. by rewrite Hw2, Hwm. }
  right. rewrite Hw1 in Hp, Hcur. exists params, lease, (w_sess w1), p, r, n.
  apply wm_finish_success in Hfs as (Hoth & Hor & Hsucc). rewrite !Hw2.
  rewrite Hw3, Hw1 in Hor, Hsucc. split_and!; try done.
  - unfold on_sess in Ho. destruct (Obtain _ _). by simplify_eq.
  - intros i Hi. by rewrite Hw2, Hoth, Hw3.
  - intros He Hd Hne. destruct (Hsucc He Hd Hne) as [?|[Heq ->]]; [done|].
    destruct (wm (ld_ID ld) w) as [v|]; simpl in Hcur; [by rewrite Heq, Hcur|].
    by rewrite Heq, Hcur in Hne.
Qed.

(** Such a run, failed or not, only adds to the target. *)
Definition grown (t : TargetTable) (old : list srow) (sk : SK) : Prop :=
  sink_ok sk /\ exists more, rows_in sk t = old ++ more.

Lemma handler_grows load ts old b sk l sk' l' e :
  ld_Mode load <> LoadModeReplace -> grown (target_of load) old sk ->
  l_writeTarget l = target_of load -> l_repl l = None ->
  handler atomic load ts b (sk, l) = ((sk', l'), e) ->
  grown (target_of load) old sk' /\ l_writeTarget l' = target_of load /\ l_repl l' = None.
Proof.
  intros Hm (Hok & more & Hin) Hwt Hrp Hh. unfold handler in Hh.
  assert (Hpre : exists sk1 l1 e1,
    (if l_firstBatch l then first_batch atomic load (b_Columns b) l sk
     else (sk, (l, None))) = (sk1, (l1, e1))
    /\ grown (target_of load) old sk1 /\ l_writeTarget l1 = target_of load /\ l_repl l1 = None).
  { destruct (l_firstBatch l).
    - destruct (first_batch _ _ _ _ _) as [sk1 [l1 e1]] eqn:Ef. exists sk1, l1, e1.
      split; [done|]. apply first_batch_plain in Ef as (? & ? & ? & ? & Hr); [|done..].
      split; [|by split; [|congruence]]. split; [done|]. exists more. by rewrite Hr.
    - exists sk, l, None. split; [done|]. split; [|done]. split; [done|by exists more]. }
  destruct Hpre as (sk1 & l1 & e1 & Hf & Hg1 & Hwt1 & Hrp1).
  rewrite Hf in Hh. destruct e1 as [err|]; [by simplify_eq|]. destruct Hg1 as (Hok1 & more1 & Hin1).
  destruct (WriteBatch _ b ts sk1) as [sk2 [n e2]] eqn:Ew. rewrite Hwt1 in Ew.
  apply spec_WriteBatch in Ew as (Hok2 & _ & _ & (more2 & Happ) & _); [|done].
  assert (grown (target_of load) old sk2).
  { split; [done|]. exists (more1 ++ more2). unfold rows_in in *. by rewrite Happ, Hin1, app_assoc. }
  by destruct e2; simplify_eq.
Qed.

Lemma read_grows load ts p old l :
  ld_Mode load <> LoadModeReplace -> l_writeTarget l = target_of load -> l_repl l = None ->
  triple (fun w : World => grown (target_of load) old (w_sink w)) (read_with_handler atomic load ts p l)
    (fun x w => grown (target_of load) old (w_sink w) /\ l_repl x.1 = None).
Proof.
  intros Hm Hwt Hrp w Hg. unfold read_with_handler.
  enough (HG : forall sk l sk' l' r, grown (target_of load) old sk ->
    l_writeTarget l = target_of load -> l_repl l = None ->
    run_read p (handler atomic load ts) (sk, l) = ((sk', l'), r) ->
    grown (target_of load) old sk' /\ l_repl l' = None).
  { destruct (run_read _ _ _) as [[sk2 l2] r] eqn:Er. by eapply HG. }
  clear l Hwt Hrp w Hg. induction p as [r0 e0|b k IH]; intros sk l sk' l' r Hg Hwt Hrp Hr.
  - simpl in Hr. unfold retM in Hr. by simplify_eq.
  - cbn [run_read] in Hr. destruct (handler _ _ _ _ _) as [[sk1 l1] e] eqn:Eh.
    apply (handler_grows _ _ old) in Eh as (Hg1 & Hwt1 & Hrp1); [|done..]. by eapply IH.
Qed.

#[local] Hint Resolve sink_finish_success sink_finish_failed sink_finish_failed_observed : loader.

Lemma run_body_grows lease load run cur ts old :
  ld_Mode load <> LoadModeReplace ->
  triple (fun w : World => grown (target_of load) old (w_sink w))
    (run_body atomic clk parse_time lease load run cur ts None)
    (fun _ w => grown (target_of load) old (w_sink w)).
Proof.
  intros Hm. eapply triple_bind; [apply (triple_keeps (@w_sink SK ST SS)); eauto 2 with loader nocore|].
  intros p. eapply triple_bind; [by apply read_grows|]. intros [l [r e]]. simpl.
  destruct (l_repl l); [by intros w [_ ?]|].
  apply (triple_conseq _ (fun w => grown (target_of load) old (w_sink w)) _ _
    (fun _ w => grown (target_of load) old (w_sink w))); [|by intros w [? _]|done].
  apply (triple_keeps (@w_sink SK ST SS)). keeps_tac.
Qed.

Lemma Execute_grows load0 (w w' : World) err :
  let t := target_of load0 in
  ld_Mode (force_append load0) <> LoadModeReplace -> sink_ok (w_sink w) -> Execute load0 w = (w', err) ->
  grown t (rows_in (w_sink w) t) (w_sink w').
Proof.
  rewrite <- (target_force_append load0). cbv zeta. intros Hm Hok H.
  assert (Hg : forall sk, sk = w_sink w -> grown (target_of (force_append load0))
    (rows_in (w_sink w) (target_of (force_append load0))) sk).
  { intros sk ->. split; [done|]. exists []. by rewrite app_nil_r. }
  apply Execute_inv in H as [(e & -> & He)|(params & lease & w1 & w2 & inv & _ & Ho & Hl & Hr)].
  { apply Hg. destruct He as [->|(cfg & He)]; [done|]. by kept (@w_sink SK ST SS) He Hk. }
  kept (@w_sink SK ST SS) Ho Hk1. kept (@w_sink SK ST SS) Hr Hk2. rewrite Hk2.
  apply run_leased_inv in Hl as (w6 & Hw & Hl). pose proof (Hw _ _ (sink_start _)) as Hs6.
  destruct Hl as [[<- _]|(run & cur & n & _ & Hb)]; [apply Hg; congruence|].
  rewrite bool_decide_false in Hb by done.
  apply bindM_inv in Hb as (w8 & [[e8 i8] l8] & Hbody & Hb). unfold retM in Hb. simplify_eq.
  match type of Hbody with run_body _ _ _ _ _ _ _ _ _ _ = _ =>
    epose proof (run_body_grows lease _ run cur (clk n) _ Hm w6 (Hg _ _)) as Hgr end.
  by rewrite Hbody in Hgr.
  Unshelve. congruence.
Qed.

(** ** Properties of append and delta runs *)

(** C6. A run in append or delta mode that returns no error has delivered its
    read completely: the source was read from the stored watermark, the read
    itself succeeded, and the target table now holds the rows it held before
    followed by the stamped rows of every batch the source emitted, in order. *)
Theorem plain_success_delivers load (w : World)
    (Hmode : ld_Mode (force_append load) <> LoadModeReplace) (Hok : sink_ok (w_sink w))
    (Hsucc : (Execute load w).2 = None) :
  exists p, delivery (force_append load) (default "" (wm (ld_ID load) w)) p
              (w_sink w) (w_sink (Execute load w).1).
Proof.
  destruct (Execute load w) as [w' err] eqn:H. simpl in *. subst err.
  apply Execute_plain in H as [[? _]|(params & lease & ss & p & r & n & _ & _ & Hp & _ & Hd & _)]; [done| |done..].
  exists p. rewrite force_append_ID in Hp. split; [by exists lease, ss|by exists n].
Qed.

Lemma wm_run_leased_not_delta i lease load :
  ld_Mode load <> LoadModeDelta ->
  keeps (wm i) (run_leased atomic clk parse_time lease load).
Proof.
  intros Hm. unfold run_leased, run_body, finish_success, mark_finished, observe_run.
  rewrite (bool_decide_false (ld_Mode load = LoadModeDelta)) by done.
  keeps_tac.
Qed.

Lemma wm_Execute_not_delta i load :
  ld_Mode (force_append load) <> LoadModeDelta -> keeps (wm i) (Execute load).
Proof.
  intros Hm. unfold Runner.Execute. case_match; [|apply keeps_ret].
  apply keeps_bind; [keeps_tac|intros [lease|e]; [|apply keeps_ret]].
  apply keeps_bind; [by apply wm_run_leased_not_delta|intros ?; keeps_tac].
Qed.

(** C2. The watermark of a load moves only after complete delivery.  Whatever
    the mode and wherever the run fails, no other load's watermark changes, and
    the load's own watermark either stays as it was or becomes the non-empty
    value returned by a delta read from the old watermark that succeeded and
    all of whose rows are then in the target; so a failed read or write never skips rows.  When a
    delta run returns no error and the read returned a non-empty watermark,
    that value is stored. *)
Theorem watermark_after_delivery load (w : World) (Hok : sink_ok (w_sink w)) :
  let id := ld_ID load in
  let w' := (Execute load w).1 in
  (forall i, i <> id -> wm i w' = wm i w)
  /\ (wm id w' = wm id w
      \/ exists p r, ld_Mode (force_append load) = LoadModeDelta /\ outcome_of p = (r, None)
           /\ delivery (force_append load) (default "" (wm id w)) p (w_sink w) (w_sink w')
           /\ wm_Value (rr_NewWatermark r) <> ""
           /\ wm id w' = Some (wm_Value (rr_NewWatermark r)))
  /\ ((Execute load w).2 = None -> ld_Mode (force_append load) = LoadModeDelta ->
      exists p r, outcome_of p = (r, None)
        /\ delivery (force_append load) (default "" (wm id w)) p (w_sink w) (w_sink w')
        /\ (wm_Value (rr_NewWatermark r) <> "" ->
            wm id w' = Some (wm_Value (rr_NewWatermark r)))).
Proof.
  cbv zeta. rewrite <- (force_append_ID load). destruct (Execute load w) as [w' err] eqn:H. simpl.
  destruct (decide (ld_Mode (force_append load) = LoadModeDelta)) as [Hd|Hd].
  - apply Execute_plain in H
      as [[He Hsame]|(params & lease & ss & p & r & n & _ & _ & Hp & Hout & Hdel & Hoth & Hor & Hnew)];
      [| |by rewrite Hd|done].
    { split_and!; [auto..|]. by intros ->. }
    assert (Hdy : delivery (force_append load) (default "" (wm (ld_ID (force_append load)) w)) p
      (w_sink w) (w_sink w')) by (split; [by exists lease, ss|by exists n]).
    split_and!; [done| |intros; exists p, r; eauto].
    destruct Hor as [?|(_ & ? & ?)]; [by left|right; exists p, r; eauto].
  - assert (Hk : forall i, wm i w' = wm i w)
      by (intros i; revert H; apply (keeps_eq (wm i)); by apply wm_Execute_not_delta).
    split_and!; [auto..|]. by intros.
Qed.

End Plain.

(** ** The registry and the lease *)

Section Bookkeeping.
Context (atomic : option (AtomicReplacer SK)).
Local Abbreviation Execute := (Execute atomic ResolveParams clk parse_time).

(** The registry entry of load [i]. *)
Definition reg (i : Z) (w : World) : option Runstate.LoadState := Runstate.loads (w_state w) !! i.

Lemma reg_read i load ts p l : keeps (reg i) (read_with_handler atomic load ts p l).
Proof. intros w. unfold read_with_handler. by destruct (run_read _ _ _) as [[? ?] ?]. Qed.

Lemma reg_running_other i load u t :
  i <> ld_ID load -> keeps (reg i) (on_state (Runstate.MarkRunning (ld_ID load) u t)).
Proof.
  intros Hi w. unfold reg, on_state, Runstate.MarkRunning; simpl.
  case_match; simpl; [by rewrite lookup_insert_ne|done].
Qed.

Lemma reg_finished_other i load st t rr rw m :
  i <> ld_ID load -> keeps (reg i) (on_state (Runstate.MarkFinished (ld_ID load) st t rr rw m)).
Proof.
  intros Hi w. unfold reg, on_state, Runstate.MarkFinished; simpl.
  case_match; simpl; [by rewrite lookup_insert_ne|done].
Qed.

#[local] Hint Resolve reg_read reg_running_other reg_finished_other : loader.

Lemma reg_other_run_leased i lease load :
  i <> ld_ID load -> keeps (reg i) (run_leased atomic clk parse_time lease load).
Proof.
  intros Hi. unfold run_leased, run_body, finish_success, finish_failed_observed, finish_failed,
    mark_finished, observe_run. keeps_tac.
Qed.

(** The load is registered and its last run ended with status [st]. *)
Definition ended (id : Z) (st : string) (w : World) : Prop :=
  exists s, reg id w = Some s /\ Runstate.CurrentlyRunning s = false /\ Runstate.LastStatus s = st.

Lemma mark_finished_ended load st rr rw m :
  triple (fun w => is_Some (reg (ld_ID load) w)) (mark_finished clk load st rr rw m)
         (fun _ w => ended (ld_ID load) st w).
Proof.
  intros w [s Hs]. unfold mark_finished, bindM, now, on_state, ended, reg in *; simpl in *.
  unfold Runstate.MarkFinished. rewrite Hs. simpl. rewrite lookup_insert_eq.
  eexists. split; [done|]. done.
Qed.

(** Any property of the entry of the load survives what does not touch it. *)
Lemma reg_keeps {A} (Phi : World -> Prop) (m : M World A) id :
  (forall w w', reg id w = reg id w' -> Phi w -> Phi w') -> keeps (reg id) m ->
  triple Phi m (fun _ => Phi).
Proof. intros HP Hk w Hw. eapply HP; [symmetry; apply Hk|done]. Qed.

Lemma ended_ext id st w w' : reg id w = reg id w' -> ended id st w -> ended id st w'.
Proof. intros H (s & Hs & ?). exists s. by rewrite <- H. Qed.

Lemma present_ext id w w' : reg id w = reg id w' -> is_Some (reg id w) -> is_Some (reg id w').
Proof. by intros ->. Qed.

Lemma finish_failed_ended load run we rr rw m :
  triple (fun w => is_Some (reg (ld_ID load) w)) (finish_failed clk load run we rr rw m)
         (fun _ w => ended (ld_ID load) "failed" w).
Proof.
  eapply triple_bind; [|intros ?; apply mark_finished_ended].
  eapply reg_keeps; [apply present_ext|]. eauto 2 with loader nocore.
Qed.

Lemma observe_run_ended load run st rr rw id st' :
  triple (ended id st') (observe_run clk load run st rr rw) (fun _ => ended id st').
Proof. eapply reg_keeps; [apply ended_ext|]. unfold observe_run. keeps_tac. Qed.

Lemma finish_failed_observed_ended load run we rr rw m :
  triple (fun w => is_Some (reg (ld_ID load) w)) (finish_failed_observed clk load run we rr rw m)
         (fun _ w => ended (ld_ID load) "failed" w).
Proof.
  eapply triple_bind; [apply finish_failed_ended|]. intros ?. apply observe_run_ended.
Qed.

(** The status that belongs to the returned error. *)
Definition status_of (err : option error) : string :=
  match err with None => "success" | Some _ => "failed" end.

Lemma finish_success_ended load run cur r rw :
  triple (fun w => is_Some (reg (ld_ID load) w)) (finish_success clk parse_time load run cur r rw)
         (fun err w => ended (ld_ID load) (status_of err) w).
Proof.
  eapply triple_bind with (R := fun _ w => is_Some (reg (ld_ID load) w)).
  { eapply reg_keeps; [apply present_ext|]. keeps_tac. }
  intros [err|].
  { eapply triple_bind; [apply finish_failed_observed_ended|]. intros ?. by apply triple_ret. }
  eapply triple_bind with (R := fun _ w => is_Some (reg (ld_ID load) w)).
  { eapply reg_keeps; [apply present_ext|]. keeps_tac. }
  intros [err|]; (eapply triple_bind; [apply mark_finished_ended|]; intros ?);
    (eapply triple_bind; [apply observe_run_ended|]; intros ?); [by apply triple_ret|].
  eapply triple_bind with (R := fun _ => ended (ld_ID load) "success");
    [|intros ?; by apply triple_ret].
  eapply reg_keeps; [apply ended_ext|]. keeps_tac.
Qed.

Lemma run_body_ended lease load run cur ts repl :
  triple (fun w => is_Some (reg (ld_ID load) w))
         (run_body atomic clk parse_time lease load run cur ts repl)
         (fun x w => ended (ld_ID load) (status_of x.1.1) w).
Proof.
  eapply triple_bind with (R := fun _ w => is_Some (reg (ld_ID load) w)).
  { eapply reg_keeps; [apply present_ext|]. keeps_tac. }
  intros p. eapply triple_bind with (R := fun _ w => is_Some (reg (ld_ID load) w)).
  { eapply reg_keeps; [apply present_ext|]. keeps_tac. }
  intros [l [r [err|]]].
  { eapply triple_bind; [apply finish_failed_observed_ended|]. intros ?. by apply triple_ret. }
  eapply triple_bind with (R := fun _ w => is_Some (reg (ld_ID load) w)).
  { eapply reg_keeps; [apply present_ext|]. keeps_tac. }
  intros [l' [err|]].
  { eapply triple_bind; [apply finish_failed_observed_ended|]. intros ?. by apply triple_ret. }
  eapply triple_bind; [apply finish_success_ended|]. intros err. by apply triple_ret.
Qed.

(** The registry after a leased run: unchanged when the run did not start,
    otherwise the load ended with the status of the returned error. *)
Lemma run_leased_ended lease load (w w' : World) err inv :
  is_Some (reg (ld_ID load) w) ->
  run_leased atomic clk parse_time lease load w = (w', (err, inv)) ->
  (reg (ld_ID load) w' = reg (ld_ID load) w /\ err <> None)
  \/ ended (ld_ID load) (status_of err) w'.
Proof.
  intros Hp H. unfold run_leased in H. apply bindM_inv in H as (w3 & r & Hg & H).
  kept (reg (ld_ID load)) Hg K3. destruct r as [row|e]; [|unfold retM in H; simplify_eq; by left].
  apply bindM_inv in H as (w4 & r & Hs & H). kept (reg (ld_ID load)) Hs K4.
  destruct r as [run|e]; [|unfold retM in H; simplify_eq; left; by rewrite K4, K3].
  right. apply bindM_inv in H as (w5 & [] & Hst & H). apply bindM_inv in H as (w6 & ts & Hn & H).
  assert (Hp6 : is_Some (reg (ld_ID load) w6)).
  { kept (reg (ld_ID load)) Hn K6. rewrite K6. rewrite <- K3, <- K4 in Hp. destruct Hp as [s Hs'].
    unfold on_state in Hst. simplify_eq. unfold reg, Runstate.MarkRunning in *; simpl.
    rewrite Hs'. simpl. rewrite lookup_insert_eq. by eexists. }
  assert (Hbody : forall repl, triple (fun w => is_Some (reg (ld_ID load) w))
     (run_body atomic clk parse_time lease load run
        (mkWatermark (ld_WatermarkType load) (match row with Some x => wr_Value x | None => "" end)) ts repl)
     (fun x w => ended (ld_ID load) (status_of x.1.1) w)) by (intros; apply run_body_ended).
  enough (HT : triple (fun w => w = w6) (fun w => _ w) (fun x w => ended (ld_ID load) (status_of x.1) w))
    by (specialize (HT w6 eq_refl); rewrite H in HT; exact HT).
  apply (triple_conseq _ (fun w => is_Some (reg (ld_ID load) w)) _ _
           (fun x w => ended (ld_ID load) (status_of x.1) w)); [|by intros ? ->|done].
  case_bool_decide.
  - eapply triple_bind with (R := fun _ w => is_Some (reg (ld_ID load) w)).
    { eapply reg_keeps; [apply present_ext|]. keeps_tac. }
    intros [repl [e|]].
    { eapply triple_bind; [apply finish_failed_ended|]. intros ?. by apply triple_ret. }
    eapply triple_bind; [apply Hbody|]. intros [[e i] l].
    eapply triple_bind with (R := fun _ => ended (ld_ID load) (status_of e)).
    { eapply reg_keeps; [apply ended_ext|]. keeps_tac. }
    intros ?. by apply triple_ret.
  - eapply triple_bind; [apply Hbody|]. intros [[e i] l]. by apply triple_ret.
Qed.

(** C7. The registry behind [/status] tells the truth about a run.  For a
    registered load, [Execute] either fails before the run starts and leaves
    the load's entry alone, or leaves the load marked not running with status
    "success" exactly when it returned no error and "failed" otherwise, on
    every path, including a failed watermark update and a failed final
    [FinishRun].  No other load's entry changes. *)
Theorem run_status_truthful load (w : World) (Hreg : is_Some (reg (ld_ID load) w)) :
  let w' := (Execute load w).1 in
  let err := (Execute load w).2 in
  ((reg (ld_ID load) w' = reg (ld_ID load) w /\ err <> None)
   \/ ended (ld_ID load) (status_of err) w')
  /\ (forall i, i <> ld_ID load -> reg i w' = reg i w).
Proof.
  rewrite <- (force_append_ID load) in Hreg |- *. cbv zeta. destruct (Execute load w) as [w' err] eqn:H. simpl.
  apply Execute_inv in H as [(e & -> & He)|(params & lease & w1 & w2 & inv & _ & Ho & Hl & Hr)].
  { assert (Hw : forall i, reg i w' = reg i w).
    { intros i. destruct He as [->|(cfg & He)]; [done|]. by kept (reg i) He Hk. }
    split; [by left|]. auto. }
  revert Hl Hreg. generalize (force_append load). intros ld Hl Hreg.
  assert (Hw1 : forall i, reg i w1 = reg i w) by (intros i; by kept (reg i) Ho Hk).
  assert (Hw2 : forall i, reg i w' = reg i w2) by (intros i; by kept (reg i) Hr Hk).
  split.
  - rewrite <- Hw1, Hw2. destruct (run_leased_ended lease ld w1 w2 err inv) as [?|He];
      [by rewrite Hw1|done|by left|right]. by eapply ended_ext; [symmetry; apply Hw2|].
  - intros i Hi. apply (keeps_eq (reg i)) in Hl; [|by apply reg_other_run_leased].
    by rewrite Hw2, Hl, Hw1.
Qed.

Context `{HLs : !SessionSpec SS}.

Definition out (w : World) : gset Lease := leased (w_sess w).

Lemma out_src_read lease cfg : keeps out (on_sess (src_read lease cfg)).
Proof.
  intros w. unfold on_sess, out. pose proof (spec_src_read lease cfg (w_sess w)).
  by destruct (src_read _ _ _).
Qed.

Lemma out_read load ts p l : keeps out (read_with_handler atomic load ts p l).
Proof. intros w. unfold read_with_handler. by destruct (run_read _ _ _) as [[? ?] ?]. Qed.

#[local] Hint Resolve out_src_read out_read : loader.

Lemma out_run_leased lease load : keeps out (run_leased atomic clk parse_time lease load).
Proof.
  unfold run_leased, run_body, finish_success, finish_failed_observed, finish_failed,
    mark_finished, observe_run. keeps_tac.
Qed.

(** C13. No run leaks a source: on every path of [Execute], through every early
    return, a lease that was obtained is released, so the set of leases that
    are out is the same after the run as before it. *)
Theorem lease_balanced load (w : World) : out (Execute load w).1 = out w.
Proof.
  destruct (Execute load w) as [w' err] eqn:H. simpl.
  apply Execute_inv in H as [(e & -> & He)|(params & lease & w1 & w2 & inv & _ & Ho & Hl & Hr)].
  - destruct He as [->|(cfg & He)]; [done|]. unfold on_sess in He.
    destruct (Obtain _ _) as [ss r] eqn:Eo. simplify_eq. by apply spec_Obtain in Eo.
  - apply (keeps_eq out) in Hl; [|apply out_run_leased].
    unfold on_sess in Ho, Hr. destruct (Obtain _ _) as [ss r] eqn:Eo. simplify_eq.
    apply spec_Obtain in Eo as [Hnew Hss]. unfold out in *; simpl in *.
    pose proof (spec_release lease inv (w_sess w2)) as Hrel.
    destruct (release _ _ _) as [ss2 []]. simplify_eq. simpl in *. rewrite Hrel; set_solver.
Qed.

End Bookkeeping.

(** ** The session *)

Section Session.
Context (atomic : option (AtomicReplacer SK)).

Lemma sess_frame_read load ts p l : keeps (@w_sess SK ST SS) (read_with_handler atomic load ts p l).
Proof. intros w. unfold read_with_handler. by destruct (run_read _ _ _) as [[? ?] ?]. Qed.

#[local] Hint Resolve sess_frame_read : loader.

Lemma run_body_sess lease load run cur ts repl (w : World) :
  w_sess (run_body atomic clk parse_time lease load run cur ts repl w).1
  = (src_read lease (load_config load cur) (w_sess w)).1.
Proof.
  unfold run_body. match goal with |- w_sess (bindM ?m ?k w).1 = _ =>
    assert (Hk : forall p, keeps (@w_sess SK ST SS) (k p)) end.
  { intros p. unfold finish_success, finish_failed_observed, finish_failed, mark_finished, observe_run.
    keeps_tac. }
  unfold bindM at 1. unfold on_sess at 1.
  destruct (src_read _ _ _) as [ss p]. by rewrite Hk.
Qed.

(** A run touches the session by one [Obtain], at most one read of the lease,
    and one release. *)
Lemma Execute_sess load0 (w w' : World) err :
  Execute atomic ResolveParams clk parse_time load0 w = (w', err) ->
  w_sess w' = w_sess w
  \/ exists params cfg, ResolveParams (src_ParamsJSON (ld_Source (force_append load0))) = Ok params
     /\ cfg = source_config (force_append load0) params
     /\ ((exists e, Obtain cfg (w_sess w) = (w_sess w', Err e))
         \/ exists lease s1 s2 inv, Obtain cfg (w_sess w) = (s1, Ok lease)
              /\ (s2 = s1 \/ exists lc, s2 = (src_read lease lc s1).1)
              /\ w_sess w' = (release lease inv s2).1).
Proof.
  unfold Execute. generalize (force_append load0). intros load H.
  destruct (ResolveParams _) as [params|e]; [|unfold retM in H; simplify_eq; by left].
  right. exists params, (source_config load params). split; [done|]. split; [done|].
  apply bindM_inv in H as (w1 & r & Ho & H). unfold on_sess in Ho.
  destruct (Obtain _ _) as [s1 r1] eqn:Eo. simplify_eq.
  destruct r as [lease|e]; [right|unfold retM in H; simplify_eq; left; by exists e].
  apply bindM_inv in H as (w2 & [err2 inv] & Hl & H).
  apply bindM_inv in H as (w3 & [] & Hrel & H). unfold retM in H. simplify_eq.
  exists lease, s1, (w_sess w2), inv. split_and!; [done| |].
  - apply run_leased_inv in Hl as (w6 & Hw & Hl).
    pose proof (Hw _ _ (sess_start load)) as Hs6.
    destruct Hl as [[<- _]|(run & cur & n & _ & Hb)]; [by left|]. case_bool_decide.
    + apply bindM_inv in Hb as (w7 & [repl e] & Hprep & Hb). kept (@w_sess SK ST SS) Hprep H7.
      destruct e as [e|].
      * apply bindM_inv in Hb as (w8 & u & Hff & Hb). unfold retM in Hb. simplify_eq. left.
        apply (keeps_eq (@w_sess SK ST SS)) in Hff; [by rewrite Hff, H7, Hs6|].
        unfold finish_failed, mark_finished. keeps_tac.
      * apply bindM_inv in Hb as (w8 & [[e8 i8] l8] & Hbody & Hb).
        apply bindM_inv in Hb as (w9 & u & Hab & Hb). unfold retM in Hb. simplify_eq. right.
        pose proof (run_body_sess lease load run cur (clk n) (Some repl) w7) as Hs.
        rewrite Hbody, H7, Hs6 in Hs. simpl in Hs. exists (load_config load cur). rewrite <- Hs.
        revert Hab. apply (keeps_eq (@w_sess SK ST SS)). keeps_tac.
    + apply bindM_inv in Hb as (w8 & [[e8 i8] l8] & Hbody & Hb). unfold retM in Hb. simplify_eq. right.
      pose proof (run_body_sess lease load run cur (clk n) None w6) as Hs.
      rewrite Hbody, Hs6 in Hs. by exists (load_config load cur).
  - unfold on_sess in Hrel. by destruct (release _ _ _); simplify_eq.
Qed.
End Session.

End Proofs.
End RunnerProofs.
