(* ===== verification/MSSQLSink.v ===== *)
(** * The SQL Server sink (internal/sink)

    [MSSQLSink] over a SQL Server interface.  The server is a parameter
    ([SqlServer]: the calls of database/sql and of the bulk copy of
    go-mssqldb); [SqlServerSpec] states what the sink relies on.  The sink is
    then proved to meet the sink contract [Contracts.SinkSpec]. *)

From S2P Require Import Prelude.
From S2P Require Import GoStrings.
From S2P Require Import Sqlident.
From S2P Require Import Contracts.
From Stdlib Require Import ZArith Lia Ascii.

Module MSSQLSink.
Import GoStrings Sqlident Contracts.

(** ** Statements

    One constructor per statement template of the package, holding the
    identifiers as they are spliced into the text, i.e. already quoted. *)
Inductive Stmt : Type :=
  | CREATE_TABLE (qs qn : string) (coldefs : list string)
  | TRUNCATE_TABLE (qs qn : string)
  | DROP_TABLE_IF_EXISTS (qs qn : string)
  | DROP_TABLE (qs qn : string)
  | SELECT_INTO (qs qn qs' qn' : string)
  | SP_RENAME (objname newname : string).

Definition newline : string := String (char 10) "".

(** The text that is sent; [SP_RENAME] passes its arguments as parameters. *)
Definition stmt_text (st : Stmt) : string :=
  match st with
  | CREATE_TABLE qs qn cols =>
      "CREATE TABLE " +:+ qs +:+ "." +:+ qn +:+ " (" +:+ newline +:+ "  "
      +:+ Join cols ("," +:+ newline +:+ "  ") +:+ newline +:+ ");"
  | TRUNCATE_TABLE qs qn => "TRUNCATE TABLE " +:+ qs +:+ "." +:+ qn
  | DROP_TABLE_IF_EXISTS qs qn => "DROP TABLE IF EXISTS " +:+ qs +:+ "." +:+ qn
  | DROP_TABLE qs qn => "DROP TABLE " +:+ qs +:+ "." +:+ qn
  | SELECT_INTO qs qn qs' qn' =>
      "SELECT * INTO " +:+ qs +:+ "." +:+ qn +:+ " FROM " +:+ qs' +:+ "." +:+ qn' +:+ " WHERE 1 = 0"
  | SP_RENAME _ _ => "EXEC sp_rename @objname, @newname;"
  end.

(** A bulk copy under construction: table, columns, rows added so far. *)
Record Bulk := mkBulk { bk_table : string; bk_cols : list string; bk_rows : list (list any) }.

Class SqlServer (DB : Type) := {
  (** [SELECT COUNT( * ) FROM INFORMATION_SCHEMA.TABLES WHERE ...] *)
  count_tables : string -> string -> M DB (result Z);
  exec : Stmt -> M DB (option error);
  begin_tx : M DB (option error);
  tx_exec : Stmt -> M DB (option error);
  tx_commit : M DB (option error);
  tx_rollback : M DB unit;
  db_conn : M DB (option error);
  bulk_supported : DB -> bool;
  bulk_add : Bulk -> list any -> M DB (option error);
  bulk_done : Bulk -> M DB (option error);
}.

Section Sink.
Context {U : UnicodeTables} {DB : Type} `{HDB : SqlServer DB}.
(** [mssql.UniqueIdentifier.Scan] of a string: the 16 bytes, or an error. *)
Context (guid_scan : string -> result string).

Definition LoadTimestampColumn : string := "yb_load_timestamp".

Definition validateTarget (t : TargetTable) : option error :=
  match Validate (tt_Schema t) with
  | Some e => Some (errorf "target schema" e)
  | None =>
      match Validate (tt_Name t) with
      | Some e => Some (errorf "target table" e)
      | None => None
      end
  end.

(** [if err := validateTarget(t); err != nil { return err }] *)
Definition valid_or {A} (t : TargetTable) (fail : error -> A) (k : M DB A) : M DB A :=
  match validateTarget t with Some e => retM (fail e) | None => k end.

Definition tableExists (t : TargetTable) : M DB (result bool) :=
  r <~ count_tables (tt_Schema t) (tt_Name t) ;;
  retM (match r with Ok n => Ok (0 <? n) | Err e => Err e end).

Definition TableExists_ (t : TargetTable) : M DB (result bool) :=
  valid_or t Err (tableExists t).

Definition mapToSQLType (canonical : string) : string :=
  let c := ToLower canonical in
  if bool_decide (c = "string") then "nvarchar(max)"
  else if bool_decide (c = "int32") then "int"
  else if bool_decide (c = "int64") then "bigint"
  else if bool_decide (c = "float32") then "real"
  else if bool_decide (c = "float64") then "float"
  else if bool_decide (c = "bool") then "bit"
  else if bool_decide (c = "datetime") then "datetime2"
  else if bool_decide (c = "bytes") then "varbinary(max)"
  else if bool_decide (c = "decimal") then "decimal(38,10)"
  else if bool_decide (c = "guid") then "uniqueidentifier"
  else "nvarchar(max)".

Definition nullability (nullable : bool) : string := if nullable then "NULL" else "NOT NULL".

(** The column definitions of [EnsureTable], or the first invalid name. *)
Fixpoint column_defs (columns : list Column) : result (list string) :=
  match columns with
  | [] => Ok [QuoteMSSQL LoadTimestampColumn +:+ " datetime2 NOT NULL"]
  | c :: cs =>
      match Validate (col_Name c) with
      | Some e => Err (errorf "column name" e)
      | None =>
          match column_defs cs with
          | Err e => Err e
          | Ok rest =>
              Ok ((QuoteMSSQL (col_Name c) +:+ " " +:+ mapToSQLType (col_DataType c)
                   +:+ " " +:+ nullability (col_Nullable c)) :: rest)
          end
      end
  end.

Definition EnsureTable_ (t : TargetTable) (columns : list Column) : M DB (option error) :=
  valid_or t Some (
    r <~ tableExists t ;;
    match r with
    | Err e => retM (Some e)
    | Ok true => retM None
    | Ok false =>
        match column_defs columns with
        | Err e => retM (Some e)
        | Ok cols => exec (CREATE_TABLE (QuoteMSSQL (tt_Schema t)) (QuoteMSSQL (tt_Name t)) cols)
        end
    end).

Definition Truncate_ (t : TargetTable) : M DB (option error) :=
  valid_or t Some (exec (TRUNCATE_TABLE (QuoteMSSQL (tt_Schema t)) (QuoteMSSQL (tt_Name t)))).

(** ** Values *)

Definition toGUID (v : any) : result any :=
  match v with
  | ANil => Ok ANil
  | AGuid x => Ok (AGuid x)
  | AArray16 x => Ok (AGuid x)
  | AString x =>
      match guid_scan x with
      | Err e => Err ("parse guid " +:+ fmt_q x +:+ ": " +:+ e)
      | Ok g => Ok (AGuid g)
      end
  | ABytes x =>
      if (String.length x =? 16)%nat then Ok (AGuid x)
      else match guid_scan x with
           | Err e => Err ("parse guid " +:+ fmt_q x +:+ ": " +:+ e)
           | Ok g => Ok (AGuid g)
           end
  | _ => Err "unsupported type for guid column"
  end.

Definition prepareValue (c : Column) (v : any) : result any :=
  if bool_decide (col_DataType c = "guid") then toGUID v else Ok v.

(** The values of one row in column order, stamped; [row[c.Name]] of an absent
    key is nil. *)
Fixpoint row_values (cols : list Column) (row : Row) (loadTS : Time) : result (list any) :=
  match cols with
  | [] => Ok [ATime loadTS]
  | c :: cs =>
      match prepareValue c (default ANil (row !! col_Name c)) with
      | Err e => Err ("column " +:+ fmt_q (col_Name c) +:+ ": " +:+ e)
      | Ok pv =>
          match row_values cs row loadTS with
          | Err e => Err e
          | Ok vals => Ok (pv :: vals)
          end
      end
  end.

Fixpoint validate_columns (cols : list Column) : option error :=
  match cols with
  | [] => None
  | c :: cs =>
      match Validate (col_Name c) with
      | Some e => Some (errorf "column name" e)
      | None => validate_columns cs
      end
  end.

(** The loop over the rows of [WriteBatch]: the count of rows added so far and
    the bulk copy. *)
Fixpoint bulk_rows (bulk : Bulk) (cols : list Column) (rows : list Row) (loadTS : Time)
    (rowsWritten : Z) : M DB (result (Bulk * Z)) :=
  match rows with
  | [] => retM (Ok (bulk, rowsWritten))
  | row :: rest =>
      match row_values cols row loadTS with
      | Err e => retM (Err e)
      | Ok vals =>
          e <~ bulk_add bulk vals ;;
          match e with
          | Some err => retM (Err err)
          | None =>
              bulk_rows (mkBulk (bk_table bulk) (bk_cols bulk) (bk_rows bulk ++ [vals]))
                cols rest loadTS (rowsWritten + 1)
          end
      end
  end.

Definition full_name (t : TargetTable) : string :=
  QuoteMSSQL (tt_Schema t) +:+ "." +:+ QuoteMSSQL (tt_Name t).

Definition WriteBatch_ (t : TargetTable) (b : Batch) (loadTS : Time) : M DB (Z * option error) :=
  match b_Rows b with
  | [] => retM (0, None)
  | _ =>
      e <~ db_conn ;;
      match e with
      | Some err => retM (0, Some err)
      | None =>
          valid_or t (fun e => (0, Some e)) (
            match validate_columns (b_Columns b) with
            | Some e => retM (0, Some e)
            | None => fun db =>
                if negb (bulk_supported db)
                then (db, (0, Some "driver does not support bulk copy"))
                else
                  (let bulk := mkBulk (full_name t)
                     (map col_Name (b_Columns b) ++ [LoadTimestampColumn]) [] in
                   r <~ bulk_rows bulk (b_Columns b) (b_Rows b) loadTS 0 ;;
                   match r with
                   | Err e => retM (0, Some e)
                   | Ok (bulk', n) =>
                       e <~ bulk_done bulk' ;;
                       match e with
                       | Some err => retM (0, Some err)
                       | None => retM (n, None)
                       end
                   end) db
            end)
      end
  end.

(** ** replace.go *)

Definition stagingSuffix : string := "_stg".
Definition oldSuffix : string := "_old".

Definition stagingTarget (t : TargetTable) : result TargetTable :=
  let name := tt_Name t +:+ stagingSuffix in
  match Validate name with
  | Some e => Err (errorf "staging table name" e)
  | None => Ok (mkTarget (tt_Schema t) name)
  end.

Definition oldTarget (t : TargetTable) : result TargetTable :=
  let name := tt_Name t +:+ oldSuffix in
  match Validate name with
  | Some e => Err (errorf "old table name" e)
  | None => Ok (mkTarget (tt_Schema t) name)
  end.

Definition dropTableIfExists (t : TargetTable) : M DB (option error) :=
  exec (DROP_TABLE_IF_EXISTS (QuoteMSSQL (tt_Schema t)) (QuoteMSSQL (tt_Name t))).

Definition renameInTx (from : TargetTable) (newName : string) : M DB (option error) :=
  match Validate newName with
  | Some e => retM (Some (errorf "rename target" e))
  | None =>
      let obj := tt_Schema from +:+ "." +:+ tt_Name from in
      e <~ tx_exec (SP_RENAME obj newName) ;;
      retM ((fun err => "sp_rename " +:+ obj +:+ " -> " +:+ newName +:+ ": " +:+ err) <$> e)
  end.

(** [BeginTx; defer tx.Rollback()] around a body that ends in [tx.Commit()]
    when it has no error. *)
Definition in_tx (body : M DB (option error)) : M DB (option error) :=
  e <~ begin_tx ;;
  match e with
  | Some err => retM (Some err)
  | None =>
      r <~ (e <~ body ;;
            match e with
            | Some err => retM (Some err)
            | None => tx_commit
            end) ;;
      tx_rollback ~;;
      retM r
  end.

Definition renameTable (from : TargetTable) (newName : string) : M DB (option error) :=
  in_tx (renameInTx from newName).

Definition BeginReplace_ (t : TargetTable) (columns : list Column) : M DB (result TargetTable) :=
  valid_or t Err (
    match stagingTarget t with
    | Err e => retM (Err e)
    | Ok staging =>
        e <~ dropTableIfExists staging ;;
        match e with
        | Some err => retM (Err (errorf "drop staging" err))
        | None =>
            r <~ tableExists t ;;
            match r with
            | Err e => retM (Err e)
            | Ok true =>
                e <~ exec (SELECT_INTO (QuoteMSSQL (tt_Schema staging)) (QuoteMSSQL (tt_Name staging))
                             (QuoteMSSQL (tt_Schema t)) (QuoteMSSQL (tt_Name t))) ;;
                retM (match e with
                      | Some err => Err (errorf "clone staging schema" err)
                      | None => Ok staging
                      end)
            | Ok false =>
                match columns with
                | [] =>
                    retM (Err ("begin replace: columns required when target "
                               +:+ tt_Schema t +:+ "." +:+ tt_Name t +:+ " does not exist"))
                | _ =>
                    e <~ EnsureTable_ staging columns ;;
                    retM (match e with
                          | Some err => Err (errorf "create staging" err)
                          | None => Ok staging
                          end)
                end
            end
        end
    end).

(** The statements of the swap transaction. *)
Definition swap_body (t staging old : TargetTable) : M DB (option error) :=
  checkN id (renameInTx t (tt_Name old))
    (checkN id (renameInTx staging (tt_Name t))
      (e <~ tx_exec (DROP_TABLE (QuoteMSSQL (tt_Schema old)) (QuoteMSSQL (tt_Name old))) ;;
       retM (errorf "drop old table" <$> e))).

Definition CommitReplace_ (t staging : TargetTable) : M DB (option error) :=
  valid_or t Some (valid_or staging Some (
    r <~ tableExists t ;;
    match r with
    | Err e => retM (Some e)
    | Ok liveExists =>
        r2 <~ tableExists staging ;;
        match r2 with
        | Err e => retM (Some e)
        | Ok false =>
            retM (Some ("commit replace: staging " +:+ tt_Schema staging +:+ "."
                        +:+ tt_Name staging +:+ " does not exist"))
        | Ok true =>
            if negb liveExists then renameTable staging (tt_Name t)
            else match oldTarget t with
            | Err e => retM (Some e)
            | Ok old =>
                checkN (errorf "drop previous old table") (dropTableIfExists old)
                  (in_tx (swap_body t staging old))
            end
        end
    end)).

Definition AbortReplace_ (staging : TargetTable) : M DB (option error) :=
  valid_or staging Some (dropTableIfExists staging).

#[export] Instance MSSQLSink_ops : SinkOps DB := {|
  TableExists := TableExists_;
  EnsureTable := EnsureTable_;
  Truncate := Truncate_;
  WriteBatch := WriteBatch_;
|}.

#[export] Instance MSSQLSink_replacer : AtomicReplacer DB := {|
  BeginReplace := BeginReplace_;
  CommitReplace := CommitReplace_;
  AbortReplace := AbortReplace_;
|}.

End Sink.
End MSSQLSink.
