(* ===== verification/MSSQLSinkProofs.v ===== *)
(** * The SQL Server sink meets the sink contract

    [SqlServerSpec] is what the sink relies on from SQL Server and the driver;
    [MSSQLSink_spec] proves the contract of [Contracts.SinkSpec] from it, and
    [MemServer] is a server that has it. *)

From S2P Require Import Prelude.
From S2P Require Import GoStrings.
From S2P Require Import Sqlident.
From S2P Require Import Contracts.
From S2P Require Import MSSQLSink.
From Stdlib Require Import ZArith Lia Ascii.

Module MSSQLSinkProofs.
Import GoStrings Sqlident Contracts MSSQLSink.

(** ** What a statement does to the tables

    A stored row is its named values.  Names are compared as in a
    case-sensitive collation.  [None]: the server rejects the statement. *)

Abbreviation StoredRow := (list (string * any)).
Abbreviation Tables := (gmap TargetTable (list StoredRow)).

Definition unquote (q : string) : option string :=
  match lex_ident "[" "]" q with Some (n, EmptyString) => Some n | _ => None end.

Definition table_of (qs qn : string) : option TargetTable :=
  match unquote qs, unquote qn with
  | Some s, Some n => Some (mkTarget s n)
  | _, _ => None
  end.

Definition move (from to : TargetTable) (m : Tables) : option Tables :=
  match m !! from, m !! to with
  | Some rows, None => Some (<[to := rows]> (delete from m))
  | _, _ => None
  end.

Definition denote (st : Stmt) (m : Tables) : option Tables :=
  match st with
  | CREATE_TABLE qs qn _ =>
      t ← table_of qs qn; match m !! t with None => Some (<[t := []]> m) | Some _ => None end
  | TRUNCATE_TABLE qs qn =>
      t ← table_of qs qn; match m !! t with Some _ => Some (<[t := []]> m) | None => None end
  | DROP_TABLE_IF_EXISTS qs qn => t ← table_of qs qn; Some (delete t m)
  | DROP_TABLE qs qn =>
      t ← table_of qs qn; match m !! t with Some _ => Some (delete t m) | None => None end
  | SELECT_INTO qs qn qs' qn' =>
      t ← table_of qs qn; t' ← table_of qs' qn';
      match m !! t', m !! t with
      | Some _, None => Some (<[t := []]> m)
      | _, _ => None
      end
  | SP_RENAME obj new =>
      match Split obj "." with
      | [s; n] => move (mkTarget s n) (mkTarget s new) m
      | _ => None
      end
  end.

(** [sp_rename] is used here only with a two-part object name. *)
Definition two_part (st : Stmt) : Prop :=
  match st with SP_RENAME obj _ => length (Split obj ".") = 2%nat | _ => True end.

Definition bulk_target (b : Bulk) : option TargetTable :=
  match lex_mssql (bk_table b) with Some [s; n] => Some (mkTarget s n) | _ => None end.

Definition bulk_stored (b : Bulk) : list StoredRow := zip (bk_cols b) <$> bk_rows b.

(** What the sink relies on.  A call that returns an error may still have
    taken effect on the server (the acknowledgement was lost), but never
    partly; only a bulk copy can fail with some of its rows stored, behind the
    rows that were there. *)
Class SqlServerSpec (DB : Type) `{SqlServer DB} := {
  tables : DB -> Tables;
  pending : DB -> option Tables;
  spec_count : forall s n d d' r, count_tables s n d = (d', r) ->
    tables d' = tables d /\ pending d' = pending d
    /\ forall k, r = Ok k -> (0 <? k) = bool_decide (is_Some (tables d !! mkTarget s n));
  spec_exec : forall st d d' e, two_part st -> exec st d = (d', e) ->
    pending d' = pending d
    /\ (e = None -> denote st (tables d) = Some (tables d'))
    /\ (tables d' = tables d \/ denote st (tables d) = Some (tables d'));
  spec_begin : forall d d' e, begin_tx d = (d', e) -> pending d = None ->
    tables d' = tables d
    /\ pending d' = match e with None => Some (tables d) | Some _ => None end;
  spec_tx_exec : forall st d d' e m, two_part st -> pending d = Some m -> tx_exec st d = (d', e) ->
    tables d' = tables d /\ (e = None -> exists m', denote st m = Some m' /\ pending d' = Some m');
  spec_tx_commit : forall d d' e m, pending d = Some m -> tx_commit d = (d', e) ->
    (e = None -> tables d' = m) /\ (tables d' = tables d \/ tables d' = m);
  spec_tx_rollback : forall d, tables (tx_rollback d).1 = tables d /\ pending (tx_rollback d).1 = None;
  spec_conn : forall d, tables (db_conn d).1 = tables d /\ pending (db_conn d).1 = pending d;
  spec_bulk_add : forall b v d,
    tables (bulk_add b v d).1 = tables d /\ pending (bulk_add b v d).1 = pending d;
  spec_bulk_done : forall b d d' e t, bulk_target b = Some t -> bulk_done b d = (d', e) ->
    pending d' = pending d
    /\ (forall t', t' <> t -> tables d' !! t' = tables d !! t')
    /\ (is_Some (tables d !! t) -> is_Some (tables d' !! t))
    /\ (exists more, default [] (tables d' !! t) = default [] (tables d !! t) ++ more)
    /\ (e = None -> exists old, tables d !! t = Some old
                   /\ tables d' !! t = Some (old ++ bulk_stored b));
}.

Section Proofs.
Context {U : UnicodeTables} {DB : Type} `{HDB : SqlServer DB} `{HSpec : !SqlServerSpec DB}.
Context (guid_scan : string -> result string).

Lemma unquote_quote n : Validate n = None -> unquote (QuoteMSSQL n) = Some n.
Proof.
  intros Hv. unfold unquote. rewrite <- (str_app_nil_r (QuoteMSSQL n)).
  rewrite lex_ident_mssql by done. by rewrite Validate_Trim.
Qed.

Lemma validateTarget_inv t :
  validateTarget t = None -> Validate (tt_Schema t) = None /\ Validate (tt_Name t) = None.
Proof. unfold validateTarget. by repeat case_match. Qed.

Lemma table_of_quoted t :
  validateTarget t = None ->
  table_of (QuoteMSSQL (tt_Schema t)) (QuoteMSSQL (tt_Name t)) = Some t.
Proof.
  intros [H1 H2]%validateTarget_inv. unfold table_of. rewrite !unquote_quote by done.
  by destruct t.
Qed.

Lemma bulk_target_full t cols rows :
  validateTarget t = None -> bulk_target (mkBulk (full_name t) cols rows) = Some t.
Proof.
  intros [H1 H2]%validateTarget_inv. unfold bulk_target, full_name, lex_mssql, lex_qualified.
  cbn [bk_table]. rewrite lex_ident_mssql, str_app_cons_l, Ascii.eqb_refl, str_app_nil_l by done.
  rewrite <- (str_app_nil_r (QuoteMSSQL (tt_Name t))).
  rewrite lex_ident_mssql, !Validate_Trim by done. by destruct t.
Qed.

(** ** The names of the swap *)

Definition stg_of (t : TargetTable) : TargetTable :=
  mkTarget (tt_Schema t) (tt_Name t +:+ stagingSuffix).
Definition old_of (t : TargetTable) : TargetTable :=
  mkTarget (tt_Schema t) (tt_Name t +:+ oldSuffix).

(** Targets whose replace can be published: schema and table without dots,
    because [sp_rename] gets [schema.table] unquoted. *)
Definition dotless (t : TargetTable) : Prop :=
  has_char "." (tt_Schema t) = false /\ has_char "." (tt_Name t) = false.

Lemma app_suffix_ne (a b : string) : b <> "" -> a +:+ b <> a.
Proof.
  intros Hb He. apply (f_equal String.length) in He. rewrite str_length_app in He.
  destruct b; [done|]. simpl in He. lia.
Qed.

Lemma stg_ne t : stg_of t <> t.
Proof. destruct t as [s n]. intros [= He]. by apply app_suffix_ne in He. Qed.
Lemma old_ne t : old_of t <> t.
Proof. destruct t as [s n]. intros [= He]. by apply app_suffix_ne in He. Qed.
Lemma old_ne_stg t : old_of t <> stg_of t.
Proof.
  destruct t as [s n]. intros [= He]. induction n as [|c n IH]; [done|].
  by injection He as He.
Qed.

Lemma swap_names_distinct n : NoDup [n; n +:+ stagingSuffix; n +:+ oldSuffix].
Proof.
  assert (H1 : n +:+ stagingSuffix <> n) by by apply app_suffix_ne.
  assert (H2 : n +:+ oldSuffix <> n) by by apply app_suffix_ne.
  assert (H3 : n +:+ stagingSuffix <> n +:+ oldSuffix).
  { intros E. apply (old_ne_stg (mkTarget "" n)). unfold old_of, stg_of. cbn [tt_Schema tt_Name].
    by rewrite E. }
  repeat (apply NoDup_cons; split); [..|apply NoDup_nil_2];
    rewrite ?not_elem_of_cons; split_and?; try apply not_elem_of_nil; auto;
    intros E; symmetry in E; revert E; auto.
Qed.

(** Both suffixes are identifier characters of four bytes. *)
Lemma suffix_runes :
  (exists rb, runes stagingSuffix = Some rb /\ forallb ident_rest rb = true)
  /\ (exists rb, runes oldSuffix = Some rb /\ forallb ident_rest rb = true).
Proof.
  split; [exists [95; 115; 116; 103]|exists [95; 111; 108; 100]]; (split; [reflexivity|]);
    apply Is_true_true, forallb_True; repeat constructor; unfold ident_rest;
    by rewrite is_L_ascii, is_N_ascii by lia.
Qed.

Lemma two_part_name t : dotless t ->
  Split (tt_Schema t +:+ "." +:+ tt_Name t) "." = [tt_Schema t; tt_Name t].
Proof.
  destruct t as [s n]; intros [Hs Hn]; simpl in *.
  induction s as [|c s IH].
  - change ("" +:+ "." +:+ n) with (String "." n). simpl. by rewrite Split_id.
  - simpl in Hs. apply orb_false_iff in Hs as [Hc Hs].
    change (Split (String c (s +:+ "." +:+ n)) "." = [String c s; n]). simpl.
    rewrite Hc. by rewrite IH.
Qed.

Lemma dotless_stg t : dotless t -> dotless (stg_of t).
Proof. intros [? Hn]. split; [done|]. simpl. rewrite has_char_app. by rewrite Hn. Qed.

(** ** Calls *)

Lemma tableExists_spec t d d' r :
  tableExists t d = (d', r) ->
  tables d' = tables d /\ pending d' = pending d
  /\ (forall b, r = Ok b -> b = bool_decide (is_Some (tables d !! t))).
Proof.
  unfold tableExists, bindM. destruct (count_tables _ _ d) as [d1 r1] eqn:E.
  apply spec_count in E as (? & ? & Hk). intros [= <- <-]. split_and!; try done.
  intros b. destruct r1 as [n|]; [|done]. intros [= <-]. rewrite (Hk n eq_refl). by destruct t.
Qed.

Lemma drop_spec t d d' e :
  validateTarget t = None -> dropTableIfExists t d = (d', e) ->
  pending d' = pending d
  /\ (forall t', t' <> t -> tables d' !! t' = tables d !! t')
  /\ (e = None -> tables d' !! t = None).
Proof.
  intros Hv Hx. apply spec_exec in Hx as (Hp & Hn & Hor); [|done]. simpl in *.
  rewrite table_of_quoted in Hn, Hor by done. simpl in *. split_and!; [done| |].
  - intros t' Ht. destruct Hor as [->|[= <-]]; [done|]. by rewrite lookup_delete_ne.
  - intros ->. specialize (Hn eq_refl). simplify_eq. rewrite <- Hn. apply lookup_delete_eq.
Qed.

Lemma EnsureTable_spec t cols d d' e :
  EnsureTable_ t cols d = (d', e) ->
  pending d' = pending d
  /\ (forall t', t' <> t -> tables d' !! t' = tables d !! t')
  /\ (forall rows, tables d !! t = Some rows -> tables d' !! t = Some rows)
  /\ (tables d !! t = None -> tables d' !! t = None \/ tables d' !! t = Some [])
  /\ (e = None -> is_Some (tables d' !! t)).
Proof.
  unfold EnsureTable_, valid_or. destruct (validateTarget t) as [err|] eqn:Hv.
  { intros [= <- <-]. split_and!; auto; done. }
  unfold bindM. destruct (tableExists t d) as [d1 r] eqn:Et.
  apply tableExists_spec in Et as (Ht & Hp & Hb). rewrite <- Ht, <- Hp.
  destruct r as [[|]|err]; last by (intros [= <- <-]; split_and!; auto; done).
  { intros [= <- <-]. split_and!; auto. intros _. specialize (Hb true eq_refl).
    rewrite Ht. by apply eq_sym, bool_decide_eq_true in Hb. }
  destruct (column_defs cols) as [defs|err]; last by (intros [= <- <-]; split_and!; auto; done).
  specialize (Hb false eq_refl). apply eq_sym, bool_decide_eq_false, eq_None_not_Some in Hb.
  rewrite <- Ht in Hb. intros Hx. apply spec_exec in Hx as (Hp2 & Hn & Hor); [|done]. simpl in *.
  rewrite table_of_quoted in Hn, Hor by done. simpl in *. rewrite Hb in *.
  split_and!; [done| |done| |].
  - intros t' Hne. destruct Hor as [->|[= <-]]; [done|]. by rewrite lookup_insert_ne.
  - intros _. destruct Hor as [->|[= <-]]; [by left|]. right. apply lookup_insert_eq.
  - intros ->. specialize (Hn eq_refl). injection Hn as <-. rewrite lookup_insert_eq. by eexists.
Qed.

(** The transaction wrapper: it applies all of the body or none of it. *)
Lemma in_tx_spec (body : M DB (option error)) (F : Tables -> option Tables) :
  (forall d d' e m, pending d = Some m -> body d = (d', e) ->
     tables d' = tables d /\ (e = None -> exists m', F m = Some m' /\ pending d' = Some m')) ->
  forall d d' e, pending d = None -> in_tx body d = (d', e) ->
    pending d' = None /\ (e = None -> F (tables d) = Some (tables d'))
    /\ (tables d' = tables d \/ F (tables d) = Some (tables d')).
Proof.
  intros HF d d' e Hp H. unfold in_tx in H. apply bindM_inv in H as (d1 & e1 & Hb & H).
  apply spec_begin in Hb as [Ht1 Hp1]; [|done].
  destruct e1 as [err|]; [unfold retM in H; simplify_eq; split_and!; auto; done|].
  apply bindM_inv in H as (d2 & r & Hbody & H). apply bindM_inv in H as (d3 & [] & Hrb & H).
  unfold retM in H. simplify_eq.
  pose proof (spec_tx_rollback d2) as [Ht3 Hp3]. rewrite Hrb in Ht3, Hp3. simpl in *.
  rewrite Ht3. split; [done|].
  apply bindM_inv in Hbody as (d4 & e4 & Hbody & H4).
  apply (HF _ _ _ _ Hp1) in Hbody as [Ht4 Hn4]. rewrite Ht1 in Ht4.
  destruct e4 as [err|]; [unfold retM in H4; simplify_eq; split; [done|by left]|].
  destruct (Hn4 eq_refl) as (m' & HFm & Hp4).
  eapply spec_tx_commit in H4 as [Hc1 Hc2]; [|done]. rewrite HFm. split.
  - intros He. by rewrite Hc1.
  - destruct Hc2 as [->| ->]; [left; done|by right].
Qed.

Lemma renameInTx_spec from new d d' e m :
  dotless from -> pending d = Some m -> renameInTx from new d = (d', e) ->
  tables d' = tables d
  /\ (e = None -> exists m', move from (mkTarget (tt_Schema from) new) m = Some m'
                  /\ pending d' = Some m').
Proof.
  intros Hd Hp. unfold renameInTx. destruct (Validate new); [by intros [= <- <-]|].
  unfold bindM. destruct (tx_exec _ d) as [d1 e1] eqn:Ex.
  eapply spec_tx_exec in Ex as [Ht Hn]; [|by simpl; rewrite two_part_name|done].
  intros [= <- <-]. split; [done|]. destruct e1; [done|]. intros _.
  cbn [denote] in Hn. rewrite two_part_name in Hn by done. destruct from. exact (Hn eq_refl).
Qed.

(** The swap as a function on tables. *)
Definition swap (t : TargetTable) (m : Tables) : option Tables :=
  m1 ← move t (old_of t) m; m2 ← move (stg_of t) t m1;
  match m2 !! old_of t with Some _ => Some (delete (old_of t) m2) | None => None end.

Lemma move_lookup from to m m' :
  from <> to -> move from to m = Some m' ->
  m' !! to = m !! from /\ m' !! from = None
  /\ forall t, t <> from -> t <> to -> m' !! t = m !! t.
Proof.
  unfold move. intros Hne H. repeat case_match; simplify_eq. split_and!.
  - by rewrite lookup_insert_eq.
  - by rewrite lookup_insert_ne, lookup_delete_eq by done.
  - intros t ??. by rewrite lookup_insert_ne, lookup_delete_ne by done.
Qed.

(** What publishing the staging table means: its rows are the target's, it is
    gone, and only the tables of the swap changed. *)
Definition published (t : TargetTable) (m m' : Tables) : Prop :=
  m' !! t = m !! stg_of t /\ m' !! stg_of t = None
  /\ forall t', t' <> t -> t' <> stg_of t -> t' <> old_of t -> m' !! t' = m !! t'.

Lemma swap_publishes t m m' : swap t m = Some m' -> published t m m'.
Proof.
  unfold swap. intros (m1 & H1 & (m2 & H2 & H3)%bind_Some)%bind_Some.
  case_match; simplify_eq.
  apply move_lookup in H1 as (_ & _ & H1); [|apply not_eq_sym, old_ne].
  apply move_lookup in H2 as (H2 & H2' & H2''); [|apply stg_ne]. split_and!.
  - rewrite lookup_delete_ne by apply old_ne. rewrite H2.
    apply H1; [apply stg_ne|apply not_eq_sym, old_ne_stg].
  - by rewrite lookup_delete_ne by apply old_ne_stg.
  - intros t' ???. by rewrite lookup_delete_ne, H2'', H1 by done.
Qed.

Lemma move_publishes t m m' : move (stg_of t) t m = Some m' -> published t m m'.
Proof.
  intros (H1 & H2 & H3)%move_lookup; [|apply stg_ne]. split_and!; auto.
Qed.

Lemma swap_body_spec t d d' e m :
  dotless t -> validateTarget (old_of t) = None ->
  pending d = Some m -> swap_body t (stg_of t) (old_of t) d = (d', e) ->
  tables d' = tables d /\ (e = None -> exists m', swap t m = Some m' /\ pending d' = Some m').
Proof.
  intros Hd Hv Hp H. unfold swap_body, checkN in H. apply bindM_inv in H as (d1 & e1 & Hr1 & H).
  eapply renameInTx_spec in Hr1 as [Ht1 Hn1]; [|done..].
  destruct e1 as [err|]; [unfold retM in H; simplify_eq; by rewrite Ht1|].
  destruct (Hn1 eq_refl) as (m1 & Hm1 & Hp1). apply bindM_inv in H as (d2 & e2 & Hr2 & H).
  eapply renameInTx_spec in Hr2 as [Ht2 Hn2]; [|by apply dotless_stg|done..].
  destruct e2 as [err|]; [unfold retM in H; simplify_eq; by rewrite Ht2, Ht1|].
  destruct (Hn2 eq_refl) as (m2 & Hm2 & Hp2). apply bindM_inv in H as (d3 & e3 & Hr3 & H).
  eapply spec_tx_exec in Hr3 as [Ht3 Hn3]; [|done..]. unfold retM in H. simplify_eq.
  rewrite Ht3, Ht2, Ht1. split; [done|]. destruct e3; [done|]. intros _.
  destruct (Hn3 eq_refl) as (m3 & Hm3 & Hp3). exists m3. split; [|done].
  change (move t (old_of t) m = Some m1) in Hm1. unfold swap. rewrite Hm1. simpl.
  replace (mkTarget (tt_Schema (stg_of t)) (tt_Name t)) with t in Hm2 by (by destruct t).
  rewrite Hm2. simpl. unfold denote in Hm3. by rewrite table_of_quoted in Hm3.
Qed.

(** ** Bulk copy *)

(** The rows that a batch becomes in the table: each row in the column order
    of the batch, GUIDs converted, with the load timestamp last.  [None] when
    some value cannot be converted. *)
Definition stored_row (cols : list Column) (ts : Time) (row : Row) : option StoredRow :=
  match row_values guid_scan cols row ts with
  | Ok vals => Some (zip (map col_Name cols ++ [LoadTimestampColumn]) vals)
  | Err _ => None
  end.

Definition stored_batch (b : Batch) (ts : Time) : option (list StoredRow) :=
  mapM (stored_row (b_Columns b) ts) (b_Rows b).

Lemma bulk_rows_spec cols ts rows : forall bulk n d d' r,
  bk_cols bulk = map col_Name cols ++ [LoadTimestampColumn] ->
  bulk_rows guid_scan bulk cols rows ts n d = (d', r) ->
  tables d' = tables d /\ pending d' = pending d
  /\ forall bulk' n', r = Ok (bulk', n') ->
       bk_table bulk' = bk_table bulk /\ n' = n + Z.of_nat (length rows)
       /\ exists rs, mapM (stored_row cols ts) rows = Some rs
            /\ bulk_stored bulk' = bulk_stored bulk ++ rs.
Proof.
  induction rows as [|row rows IH]; intros bulk n d d' r Hc H; simpl in H.
  { unfold retM in H. simplify_eq. split_and!; try done. intros ?? [= <- <-].
    split_and!; [done|simpl; lia|]. exists []. by rewrite app_nil_r. }
  destruct (row_values _ cols row ts) as [vals|e] eqn:Ev; [|unfold retM in H; by simplify_eq].
  apply bindM_inv in H as (d1 & e & Ha & H). pose proof (spec_bulk_add bulk vals d) as [Ht Hp].
  rewrite Ha in Ht, Hp. simpl in *. destruct e as [err|]; [unfold retM in H; by simplify_eq|].
  apply IH in H as (Ht2 & Hp2 & Hr); [|done]. rewrite Ht2, Hp2. split_and!; try done.
  intros bulk' n' ->. destruct (Hr _ _ eq_refl) as (Htab & -> & rs & Hm & Hs).
  split_and!; [done|lia|]. exists (zip (bk_cols bulk) vals :: rs). split.
  - assert (Hrow : stored_row cols ts row = Some (zip (bk_cols bulk) vals))
      by (unfold stored_row; by rewrite Ev, Hc).
    simpl. rewrite Hrow. simpl. by rewrite Hm.
  - rewrite Hs. unfold bulk_stored. simpl. rewrite fmap_app. simpl. by rewrite <- app_assoc.
Qed.

Lemma WriteBatch_spec t b ts d d' n e :
  WriteBatch_ guid_scan t b ts d = (d', (n, e)) ->
  pending d' = pending d
  /\ (forall t', t' <> t -> tables d' !! t' = tables d !! t')
  /\ (is_Some (tables d !! t) -> is_Some (tables d' !! t))
  /\ (exists more, default [] (tables d' !! t) = default [] (tables d !! t) ++ more)
  /\ (e = None -> n = Z.of_nat (length (b_Rows b))
        /\ exists rs, stored_batch b ts = Some rs
             /\ default [] (tables d' !! t) = default [] (tables d !! t) ++ rs).
Proof.
  assert (Hsame : forall d, exists more : list StoredRow,
    default [] (tables d !! t) = default [] (tables d !! t) ++ more)
    by (intros; exists []; by rewrite app_nil_r).
  intros H. unfold WriteBatch_, stored_batch in *.
  destruct (b_Rows b) as [|row rows] eqn:Eb.
  { unfold retM in H. simplify_eq. split_and!; auto. intros _. split; [done|].
    exists []. by rewrite app_nil_r. }
  rewrite <- Eb in *. clear Eb row rows.
  apply bindM_inv in H as (d1 & e1 & Hc & H). pose proof (spec_conn d) as [Ht Hp].
  rewrite Hc in Ht, Hp. simpl in Ht, Hp. rewrite <- Ht, <- Hp.
  destruct e1 as [err|]; [unfold retM in H; simplify_eq; split_and!; auto; done|].
  unfold valid_or in H. destruct (validateTarget t) eqn:Hv;
    [unfold retM in H; simplify_eq; split_and!; auto; done|].
  destruct (validate_columns _); [unfold retM in H; simplify_eq; split_and!; auto; done|].
  destruct (negb _); [simplify_eq; split_and!; auto; done|].
  apply bindM_inv in H as (d2 & r & Hr & H). apply bulk_rows_spec in Hr as (Ht2 & Hp2 & Hr); [|done].
  rewrite <- Ht2, <- Hp2.
  destruct r as [[bulk' m]|err]; [|unfold retM in H; simplify_eq; split_and!; auto; done].
  destruct (Hr _ _ eq_refl) as (Htab & Hm & rs & Hrs & Hst).
  apply bindM_inv in H as (d3 & e3 & Hd & H).
  eapply spec_bulk_done in Hd as (Hp3 & Hoth & His & Hmore & Hok);
    [|destruct bulk'; simpl in Htab; subst; by apply bulk_target_full].
  destruct e3 as [err|]; unfold retM in H; simplify_eq; split_and!; auto; [done|].
  intros _. split; [done|]. exists rs. split; [done|].
  destruct (Hok eq_refl) as (old & -> & ->). by rewrite Hst.
Qed.

Lemma WriteBatch_failed t b ts d :
  (WriteBatch_ guid_scan t b ts d).2.2 <> None -> (WriteBatch_ guid_scan t b ts d).2.1 = 0.
Proof.
  unfold WriteBatch_, valid_or, bindM, retM.
  destruct (b_Rows b); [done|]. by repeat case_match; simplify_eq/=.
Qed.

(** What the table must hold for a value, independently of the code: a column
    that is not a GUID holds the value itself, nil included; a GUID column holds
    the sixteen bytes of the GUID, given as such, raw, or in text form. *)
Inductive cell_stored (c : Column) : any -> any -> Prop :=
  | cell_plain v : col_DataType c <> "guid" -> cell_stored c v v
  | cell_guid_null : col_DataType c = "guid" -> cell_stored c ANil ANil
  | cell_guid g : col_DataType c = "guid" -> cell_stored c (AGuid g) (AGuid g)
  | cell_guid_array g : col_DataType c = "guid" -> cell_stored c (AArray16 g) (AGuid g)
  | cell_guid_raw g :
      col_DataType c = "guid" -> String.length g = 16%nat -> cell_stored c (ABytes g) (AGuid g)
  | cell_guid_bytes x g :
      col_DataType c = "guid" -> String.length x <> 16%nat -> guid_scan x = Ok g ->
      cell_stored c (ABytes x) (AGuid g)
  | cell_guid_text x g :
      col_DataType c = "guid" -> guid_scan x = Ok g -> cell_stored c (AString x) (AGuid g).

(** A stored row: a cell per column of the batch, in their order, under the
    column's name and for the row's value of that name (nil when the row has
    none), followed by the load timestamp. *)
Definition row_stored (cols : list Column) (ts : Time) (row : Row) (r : StoredRow) : Prop :=
  exists cells, r = cells ++ [("yb_load_timestamp", ATime ts)]
    /\ Forall2 (fun c cell => cell.1 = col_Name c
          /\ cell_stored c (default ANil (row !! col_Name c)) cell.2) cols cells.

Lemma prepareValue_stored c v pv : prepareValue guid_scan c v = Ok pv -> cell_stored c v pv.
Proof.
  unfold prepareValue. case_bool_decide as Hg; [|intros [= <-]; by constructor].
  unfold toGUID. destruct v; try done; try (intros [= <-]; by constructor).
  - destruct (guid_scan _) eqn:Es; [|done]. intros [= <-]. by constructor.
  - destruct (_ =? _)%nat eqn:El.
    + intros [= <-]. apply cell_guid_raw; [done|by apply Nat.eqb_eq].
    + destruct (guid_scan _) eqn:Es; [|done]. intros [= <-].
      apply cell_guid_bytes; [done|by apply Nat.eqb_neq|done].
Qed.

Lemma row_values_stored row ts cols : forall vals,
  row_values guid_scan cols row ts = Ok vals ->
  row_stored cols ts row (zip (map col_Name cols ++ [LoadTimestampColumn]) vals).
Proof.
  induction cols as [|c cols IH]; simpl; intros vals H; [simplify_eq; exists []; by split|].
  destruct (prepareValue _ _ _) as [pv|] eqn:Ep; [|done]. apply prepareValue_stored in Ep.
  destruct (row_values _ cols row ts) as [vals'|]; [|done]. simplify_eq.
  destruct (IH _ eq_refl) as (cells & Hz & Hc).
  exists ((col_Name c, pv) :: cells). simpl. rewrite Hz. split; [done|]. by constructor.
Qed.

Lemma stored_batch_stored b ts rs :
  stored_batch b ts = Some rs -> Forall2 (row_stored (b_Columns b) ts) (b_Rows b) rs.
Proof.
  unfold stored_batch. intros H%mapM_Some. eapply Forall2_impl; [exact H|]. intros row r Hr.
  unfold stored_row in Hr. destruct (row_values _ _ row ts) as [vals|] eqn:E; [|done].
  injection Hr as <-. by apply row_values_stored.
Qed.

(** ** Replace *)

Lemma valid_sibling t n :
  validateTarget t = None -> Validate n = None -> validateTarget (mkTarget (tt_Schema t) n) = None.
Proof. intros [Hs _]%validateTarget_inv Hn. unfold validateTarget. simpl. by rewrite Hs, Hn. Qed.

Lemma BeginReplace_spec t cols d d' r :
  BeginReplace_ t cols d = (d', r) ->
  pending d' = pending d
  /\ (forall t', t' <> stg_of t -> tables d' !! t' = tables d !! t')
  /\ (forall stg, r = Ok stg -> stg = stg_of t /\ tables d' !! stg = Some []).
Proof.
  unfold BeginReplace_, valid_or. destruct (validateTarget t) eqn:Hv; [by intros [= <- <-]|].
  unfold stagingTarget. destruct (Validate _) eqn:Hvn; [by intros [= <- <-]|].
  pose proof (valid_sibling t _ Hv Hvn) as Hvs. fold (stg_of t) in *.
  intros (d1 & e1 & H1 & H)%bindM_inv. apply drop_spec in H1 as (Hp1 & Ho1 & Hn1); [|done].
  destruct e1 as [err|]; [unfold retM in H; by simplify_eq|].
  specialize (Hn1 eq_refl). apply bindM_inv in H as (d2 & r2 & H2 & H).
  apply tableExists_spec in H2 as (Ht2 & Hp2 & _). rewrite <- Ht2 in Ho1, Hn1. rewrite <- Hp2 in Hp1.
  enough (pending d' = pending d2
    /\ (forall t', t' <> stg_of t -> tables d' !! t' = tables d2 !! t')
    /\ (forall stg, r = Ok stg -> stg = stg_of t /\ tables d' !! stg = Some [])) as (? & Hf & ?)
    by (split_and!; [congruence|intros t' Hne; by rewrite Hf, Ho1|done]).
  clear Ht2 Hp2 Hp1 Ho1.
  destruct r2 as [[|]|err]; [| |unfold retM in H; by simplify_eq].
  - apply bindM_inv in H as (d3 & e3 & H3 & H).
    apply spec_exec in H3 as (Hp3 & Hn3 & Hor3); [|done]. cbn [denote] in *.
    rewrite !table_of_quoted in Hn3, Hor3 by done. simpl in Hn3, Hor3. rewrite Hn1 in Hn3, Hor3.
    unfold retM in H. simplify_eq. split_and!; [done| |].
    + intros t' Hne. destruct Hor3 as [->|Hor3]; [done|]. case_match; simplify_eq.
      rewrite <- Hor3. by rewrite lookup_insert_ne.
    + destruct e3; [done|]. intros stg [= <-]. specialize (Hn3 eq_refl). case_match; simplify_eq.
      rewrite <- Hn3. by rewrite lookup_insert_eq.
  - destruct cols as [|c cols]; [unfold retM in H; by simplify_eq|].
    apply bindM_inv in H as (d3 & e3 & H3 & H).
    apply EnsureTable_spec in H3 as (Hp3 & Ho3 & _ & Hem & Hok).
    unfold retM in H. simplify_eq. split_and!; [done|done|].
    destruct e3; [done|]. intros stg [= <-]. split; [done|].
    destruct (Hok eq_refl) as [rows Hrows]. destruct (Hem Hn1) as [?|?]; congruence.
Qed.

Lemma renameTable_spec from new d d' e :
  dotless from -> pending d = None -> renameTable from new d = (d', e) ->
  pending d' = None
  /\ (e = None -> move from (mkTarget (tt_Schema from) new) (tables d) = Some (tables d'))
  /\ (tables d' = tables d \/ move from (mkTarget (tt_Schema from) new) (tables d) = Some (tables d')).
Proof.
  intros Hd Hp. apply (in_tx_spec _ (move from (mkTarget (tt_Schema from) new))); [|done].
  intros d0 d0' e0 m Hp0 H0. by eapply renameInTx_spec.
Qed.

(** Same tables, apart from the previous generation of [t]. *)
Definition unchanged (t : TargetTable) (m m' : Tables) : Prop :=
  forall t', t' <> old_of t -> m' !! t' = m !! t'.

Lemma published_unchanged t m m1 m' : unchanged t m m1 -> published t m1 m' -> published t m m'.
Proof.
  intros Hu (H1 & H2 & H3). split_and!; [|done|].
  - rewrite H1. apply Hu, not_eq_sym, old_ne_stg.
  - intros t' ???. by rewrite H3, Hu.
Qed.

Lemma CommitReplace_spec t d d' e :
  dotless t -> pending d = None -> CommitReplace_ t (stg_of t) d = (d', e) ->
  pending d' = None
  /\ (e = None -> published t (tables d) (tables d'))
  /\ (unchanged t (tables d) (tables d') \/ published t (tables d) (tables d')).
Proof.
  intros Hd Hp. unfold CommitReplace_, valid_or.
  assert (Hrefl : forall m, unchanged t m m) by (by intros m t').
  destruct (validateTarget t) eqn:Hv; [intros [= <- <-]; split_and!; by auto|].
  destruct (validateTarget (stg_of t)) eqn:Hvs; [intros [= <- <-]; split_and!; by auto|].
  intros (d1 & r1 & H1 & H)%bindM_inv. apply tableExists_spec in H1 as (Ht1 & Hp1 & _).
  rewrite <- Ht1. rewrite <- Hp1 in Hp. clear Ht1 Hp1.
  destruct r1 as [live|err]; [|unfold retM in H; simplify_eq; split_and!; by auto].
  apply bindM_inv in H as (d2 & r2 & H2 & H). apply tableExists_spec in H2 as (Ht2 & Hp2 & _).
  rewrite <- Ht2. rewrite <- Hp2 in Hp. clear Ht2 Hp2.
  destruct r2 as [[|]|err]; [|unfold retM in H; simplify_eq; split_and!; by auto..].
  destruct live; simpl in H.
  - unfold oldTarget in H.
    destruct (Validate _) eqn:Hvo in H; [unfold retM in H; simplify_eq; split_and!; by auto|].
    pose proof (valid_sibling t _ Hv Hvo) as Hvold. fold (old_of t) in *.
    unfold checkN in H. apply bindM_inv in H as (d3 & e3 & H3 & H).
    apply drop_spec in H3 as (Hp3 & Ho3 & _); [|done]. rewrite <- Hp3 in Hp.
    destruct e3 as [err|]; [unfold retM in H; simplify_eq; split_and!; by auto|].
    apply (in_tx_spec _ (swap t)) in H as (Hp4 & Hn4 & Hor4); [| |done].
    + split_and!; [done| |].
      * intros He. by eapply published_unchanged, swap_publishes, Hn4.
      * destruct Hor4 as [->|Hs]; [by left|right]. by eapply published_unchanged, swap_publishes.
    + intros d4 d4' e4 m Hpm Hb. by eapply swap_body_spec.
  - apply renameTable_spec in H as (Hp3 & Hn3 & Hor3); [|by apply dotless_stg|done].
    replace (mkTarget (tt_Schema (stg_of t)) (tt_Name t)) with t in Hn3, Hor3 by (by destruct t).
    split_and!; [done|by eauto using move_publishes|].
    destruct Hor3 as [->|Hm]; [by left|right]. by apply move_publishes.
Qed.

(** ** The contract *)

#[export] Program Instance MSSQLSink_spec :
    @SinkSpec DB (MSSQLSink_ops guid_scan) MSSQLSink_replacer := {|
  srow := StoredRow;
  view := fun d t => tables d !! t;
  stamp := stored_batch;
  sink_ok := fun d => pending d = None;
  target_ok := dotless;
  staging_of := stg_of;
  staging_ne := stg_ne;
|}.
Next Obligation.
  intros t d d' r Hp H. simpl in H. unfold TableExists_, valid_or in H.
  destruct (validateTarget t); [unfold retM in H; by simplify_eq|].
  apply tableExists_spec in H as (-> & -> & Hb). by auto.
Qed.
Next Obligation.
  intros t cols d d' e Hp H. apply EnsureTable_spec in H as (-> & Ho & Hs & Hn & _).
  split_and!; [done|done| |].
  - destruct (tables d !! t) as [rows|]; [by rewrite (Hs rows)|].
    by destruct (Hn eq_refl) as [->| ->].
  - intros [rows Hr]. rewrite (Hs rows) by done. by eexists.
Qed.
Next Obligation. intros t b ts d d' n e Hp H. apply WriteBatch_spec in H as (-> & ?). by auto. Qed.
Next Obligation. intros t cols d d' r Hp H. apply BeginReplace_spec in H as (-> & ?). by auto. Qed.
Next Obligation.
  intros t d d' e Hp Ht H. apply CommitReplace_spec in H as (? & Hn & Hor); [|done..].
  split_and!; [done|by intros He; apply Hn|].
  destruct Hor as [Hu|[Hpub _]]; [left; apply Hu, not_eq_sym, old_ne|by right].
Qed.
Next Obligation.
  intros t d d' e Hp H. simpl in H. unfold AbortReplace_, valid_or in H.
  destruct (validateTarget _) eqn:Hv; [unfold retM in H; by simplify_eq|].
  apply drop_spec in H as (-> & ? & _); auto.
Qed.

(** ** Properties *)

(** C5. Publishing a staging table is atomic on SQL Server.  For a target
    without dots in its names, wherever [CommitReplace] fails (a lost
    connection between any two statements, a failed commit, a lost
    acknowledgement of one), either no table changed except the leftover [_old]
    table, or the target holds exactly the staged rows, the staging table is
    gone and no table outside the swap was touched; without an error it is the
    second, and no transaction is left open. *)
Theorem commit_replace_atomic t d (Hd : dotless t) (Hp : pending d = None) :
  let d' := (CommitReplace_ t (stg_of t) d).1 in
  pending d' = None
  /\ (unchanged t (tables d) (tables d') \/ published t (tables d) (tables d'))
  /\ ((CommitReplace_ t (stg_of t) d).2 = None -> published t (tables d) (tables d')).
Proof.
  destruct (CommitReplace_ t (stg_of t) d) as [d' e] eqn:E.
  apply CommitReplace_spec in E as (? & ? & ?); auto.
Qed.

(** C9. [WriteBatch] touches no other table and removes no row.  It either
    reports an error and the count 0, in which case the target still holds the
    rows it held, possibly followed by others, or appends to the target exactly
    the rows of the batch, in order, and returns their number.  Each stored row
    has one cell per column of the batch, in column order, which holds the row's
    value of that name (nil when it has none; the sixteen bytes of a GUID in a
    GUID column), and the load timestamp as its last cell. *)
Theorem write_batch_appends t b ts d :
  let d' := (WriteBatch_ guid_scan t b ts d).1 in
  let '(n, e) := (WriteBatch_ guid_scan t b ts d).2 in
  (forall t', t' <> t -> tables d' !! t' = tables d !! t')
  /\ (is_Some (tables d !! t) -> is_Some (tables d' !! t))
  /\ match e with
     | Some _ => n = 0
         /\ exists more, default [] (tables d' !! t) = default [] (tables d !! t) ++ more
     | None => n = Z.of_nat (length (b_Rows b))
         /\ exists rs, Forall2 (row_stored (b_Columns b) ts) (b_Rows b) rs
              /\ default [] (tables d' !! t) = default [] (tables d !! t) ++ rs
     end.
Proof.
  pose proof (WriteBatch_failed t b ts d) as Hz.
  destruct (WriteBatch_ guid_scan t b ts d) as [d' [n e]] eqn:E.
  apply WriteBatch_spec in E as (_ & ? & ? & ? & Hs). split_and!; auto. destruct e; [split; [by apply Hz|done]|].
  destruct (Hs eq_refl) as (-> & rs & Hrs & Happ). split; [done|]. exists rs.
  split; [by apply stored_batch_stored|done].
Qed.

End Proofs.

(** C10. The names of a replace stay within SQL Server's 128 bytes.  For a valid
    target name the staging name and the name for the old table are accepted
    exactly when the target name has at most 124 bytes; accepted, both are valid
    identifiers in the target's schema, and the three names are distinct.
    Different targets have different staging tables.  With a longer name
    [BeginReplace], and [CommitReplace] of the staging table, return an error
    without a single call of the server, so nothing is created or dropped. *)
Theorem replace_names_bounded {U : UnicodeTables} {DB : Type} {HDB : SqlServer DB} (t : TargetTable)
    (Hv : Validate (tt_Name t) = None) :
  (is_ok (stagingTarget t) = true <-> Z.of_nat (String.length (tt_Name t)) <= 124)
  /\ (is_ok (oldTarget t) = true <-> Z.of_nat (String.length (tt_Name t)) <= 124)
  /\ (forall staging old, stagingTarget t = Ok staging -> oldTarget t = Ok old ->
        Validate (tt_Name staging) = None /\ Validate (tt_Name old) = None
        /\ tt_Schema staging = tt_Schema t /\ tt_Schema old = tt_Schema t
        /\ NoDup [tt_Name t; tt_Name staging; tt_Name old])
  /\ (forall t' staging, stagingTarget t = Ok staging -> stagingTarget t' = Ok staging -> t = t')
  /\ (124 < Z.of_nat (String.length (tt_Name t)) ->
        (forall cols, exists e, forall d : DB, BeginReplace_ t cols d = (d, Err e))
        /\ exists e, forall d : DB, CommitReplace_ t (stg_of t) d = (d, Some e)).
Proof.
  destruct suffix_runes as [(r1 & E1 & F1) (r2 & E2 & F2)].
  pose proof (Validate_suffix _ _ _ Hv E1 F1) as H1. pose proof (Validate_suffix _ _ _ Hv E2 F2) as H2.
  change (Z.of_nat (String.length stagingSuffix)) with 4 in H1.
  change (Z.of_nat (String.length oldSuffix)) with 4 in H2. unfold MaxIdentLen in *.
  unfold BeginReplace_, CommitReplace_, valid_or, stagingTarget, oldTarget. split_and!.
  - transitivity (Validate (tt_Name t +:+ stagingSuffix) = None); [|rewrite H1; lia].
    clear. destruct (Validate (tt_Name t +:+ stagingSuffix)); simpl; naive_solver.
  - transitivity (Validate (tt_Name t +:+ oldSuffix) = None); [|rewrite H2; lia].
    clear. destruct (Validate (tt_Name t +:+ oldSuffix)); simpl; naive_solver.
  - intros staging old Hs Ho. destruct (Validate (_ +:+ stagingSuffix)) eqn:V1; [done|].
    destruct (Validate (_ +:+ oldSuffix)) eqn:V2; simplify_eq/=. split_and!; [done..|].
    apply swap_names_distinct.
  - intros t' staging Hs Hs'. repeat case_match; simplify_eq. destruct t, t'; simpl in *.
    simplify_eq. f_equal. by eapply str_app_inj_r.
  - intros Hlong. destruct (Validate (tt_Name t +:+ stagingSuffix)) as [e|] eqn:V1;
      [|by pose proof (proj1 H1 eq_refl); lia].
    unfold validateTarget, stg_of. simpl. rewrite V1, Hv. by destruct (Validate (tt_Schema t)); split; eexists.
Qed.

End MSSQLSinkProofs.
