(* ===== verification/MemServer.v ===== *)
(** * A SQL Server in memory

    A server that has [MSSQLSinkProofs.SqlServerSpec]: tables in a map, one
    transaction at a time, and a script of faults, one entry per call.  It
    makes the theorems about the sink applicable at concrete inputs. *)

From S2P Require Import Prelude.
From S2P Require Import GoStrings.
From S2P Require Import Sqlident.
From S2P Require Import Contracts.
From S2P Require Import MSSQLSink.
From S2P Require Import MSSQLSinkProofs.
From Stdlib Require Import ZArith Lia Ascii.

Module MemServer.
Import GoStrings Sqlident Contracts MSSQLSink MSSQLSinkProofs.

Record Server := mkServer {
  ms_tables : Tables;
  ms_pending : option Tables;
  ms_faults : list (option error);
}.

(** The fault of the next call; no fault once the script is used up. *)
Definition next_fault : M Server (option error) := fun d =>
  match ms_faults d with
  | [] => (d, None)
  | f :: fs => (mkServer (ms_tables d) (ms_pending d) fs, f)
  end.

Definition set_tables (m : Tables) : M Server unit := fun d =>
  (mkServer m (ms_pending d) (ms_faults d), tt).
Definition set_pending (p : option Tables) : M Server unit := fun d =>
  (mkServer (ms_tables d) p (ms_faults d), tt).

Definition mem_exec (st : Stmt) : M Server (option error) :=
  checkN id next_fault (fun d =>
    match denote st (ms_tables d) with
    | Some m => (set_tables m ~;; retM None) d
    | None => (d, Some "rejected")
    end).

Definition mem_tx_exec (st : Stmt) : M Server (option error) :=
  checkN id next_fault (fun d =>
    match ms_pending d with
    | None => (d, Some "no transaction")
    | Some p =>
        match denote st p with
        | Some m => (set_pending (Some m) ~;; retM None) d
        | None => (d, Some "rejected")
        end
    end).

Definition mem_bulk_done (b : Bulk) : M Server (option error) :=
  checkN id next_fault (fun d =>
    match bulk_target b with
    | None => (d, Some "rejected")
    | Some t =>
        match ms_tables d !! t with
        | None => (d, Some "invalid object name")
        | Some old => (set_tables (<[t := old ++ bulk_stored b]> (ms_tables d)) ~;; retM None) d
        end
    end).

#[export] Instance mem_server : SqlServer Server := {|
  count_tables := fun s n =>
    e <~ next_fault ;; fun d =>
      (d, match e with
          | Some err => Err err
          | None => Ok (if bool_decide (is_Some (ms_tables d !! mkTarget s n)) then 1 else 0)
          end);
  exec := mem_exec;
  begin_tx := checkN id next_fault (fun d => (set_pending (Some (ms_tables d)) ~;; retM None) d);
  tx_exec := mem_tx_exec;
  tx_commit := checkN id next_fault (fun d =>
    match ms_pending d with
    | None => (d, Some "no transaction")
    | Some m => (set_tables m ~;; set_pending None ~;; retM None) d
    end);
  tx_rollback := set_pending None;
  db_conn := next_fault;
  bulk_supported := fun _ => true;
  bulk_add := fun _ _ => next_fault;
  bulk_done := mem_bulk_done;
|}.

Lemma next_fault_frame d d' e :
  next_fault d = (d', e) -> ms_tables d' = ms_tables d /\ ms_pending d' = ms_pending d.
Proof. unfold next_fault. destruct (ms_faults d); by intros [= <- <-]. Qed.

(** A call that starts with a fault either returns it or goes on. *)
Lemma faulty_inv (k : M Server (option error)) d d' e :
  checkN id next_fault k d = (d', e) ->
  exists d1, ms_tables d1 = ms_tables d /\ ms_pending d1 = ms_pending d
    /\ ((d' = d1 /\ is_Some e) \/ k d1 = (d', e)).
Proof.
  unfold checkN. intros (d1 & f & Hf & H)%bindM_inv. apply next_fault_frame in Hf as [Ht Hp].
  exists d1. destruct f; [unfold retM in H; simplify_eq|]; split_and!; eauto.
Qed.

(** A bulk insert that failed and changed nothing. *)
Lemma bulk_unchanged (m : gmap TargetTable (list StoredRow)) (p : option (gmap TargetTable (list StoredRow)))
    (t : TargetTable) (x : error) (P : Prop) :
  p = p /\ (forall t', t' <> t -> m !! t' = m !! t')
  /\ (is_Some (m !! t) -> is_Some (m !! t))
  /\ (exists more, default [] (m !! t) = default [] (m !! t) ++ more) /\ (Some x = None -> P).
Proof. split_and!; [done..| |done]. exists []. by rewrite app_nil_r. Qed.

#[local] Obligation Tactic := idtac.

#[export] Program Instance mem_server_spec : SqlServerSpec Server := {|
  tables := ms_tables;
  pending := ms_pending;
|}.
Next Obligation.
  intros s n d d' r H. simpl in H. apply bindM_inv in H as (d1 & e & Hf & H).
  apply next_fault_frame in Hf as [Ht Hp]. simplify_eq. split_and!; [done..|].
  intros k. destruct e; [done|]. intros [= <-]. rewrite Ht. by case_bool_decide.
Qed.
Next Obligation.
  intros st d d' e _ H. apply faulty_inv in H as (d1 & <- & <- & [[-> [? ->]]|H]); [split_and!; by auto|].
  destruct (denote st (ms_tables d1)) eqn:Ed; cbn in H; unfold retM in H; simplify_eq; cbn; rewrite ?Ed; split_and!; by auto.
Qed.
Next Obligation.
  intros d d' e H Hp. apply faulty_inv in H as (d1 & <- & Hp1 & [[-> [? ->]]|H]);
    [by rewrite Hp1|].
  cbn in H; unfold retM in H. by simplify_eq.
Qed.
Next Obligation.
  intros st d d' e m _ Hp H. apply faulty_inv in H as (d1 & <- & Hp1 & [[-> [? ->]]|H]); [done|].
  rewrite Hp1, Hp in H. destruct (denote st m) as [m'|]; cbn in H; unfold retM in H; simplify_eq; [|done].
  split; [done|]. by eexists.
Qed.
Next Obligation.
  intros d d' e m Hp H. apply faulty_inv in H as (d1 & <- & Hp1 & [[-> [? ->]]|H]); [split_and!; by auto|].
  rewrite Hp1, Hp in H. cbn in H; unfold retM in H. simplify_eq. cbn. split_and!; by auto.
Qed.
Next Obligation. done. Qed.
Next Obligation. intros d. simpl. destruct (next_fault d) eqn:E. by apply next_fault_frame in E. Qed.
Next Obligation. intros b v d. simpl. destruct (next_fault d) eqn:E. by apply next_fault_frame in E. Qed.
Next Obligation.
  intros b d d' e t Hb H. apply faulty_inv in H as (d1 & <- & <- & [[-> [? ->]]|H]);
    [by apply bulk_unchanged|].
  rewrite Hb in H. destruct (ms_tables d1 !! t) as [old|] eqn:Et; cbn in H; unfold retM in H; simplify_eq;
    [|rewrite <- Et; by apply bulk_unchanged].
  split_and!; [done| | | |].
  - intros t' Hne. cbn. by rewrite lookup_insert_ne.
  - intros _. cbn. rewrite lookup_insert_eq. by eexists.
  - exists (bulk_stored b). cbn. by rewrite lookup_insert_eq.
  - intros _. exists old. cbn. by rewrite lookup_insert_eq.
Qed.

(** ** Witness *)

#[local] Existing Instance ascii_tables.

Definition ex_target : TargetTable := mkTarget "dbo" "orders".
Definition ex_server (faults : list (option error)) : Server :=
  mkServer {[ ex_target := [[("a", AInt I64 1)]]; stg_of ex_target := [[("a", AInt I64 2)]] ]}
    None faults.

(** A commit on a server without faults publishes the staged rows. *)
Lemma commit_replace_atomic_witness :
  dotless ex_target /\ pending (ex_server []) = None
  /\ (CommitReplace_ ex_target (stg_of ex_target) (ex_server [])).2 = None
  /\ published ex_target (tables (ex_server []))
       (tables (CommitReplace_ ex_target (stg_of ex_target) (ex_server [])).1).
Proof.
  assert (He : (CommitReplace_ ex_target (stg_of ex_target) (ex_server [])).2 = None)
    by (vm_compute; reflexivity).
  split_and!; [split; vm_compute; reflexivity|reflexivity|exact He|].
  apply (commit_replace_atomic ex_target (ex_server [])); [split; vm_compute; reflexivity|reflexivity|].
  exact He.
Defined.

(** A name of 125 bytes: valid, but a replace of it is refused at once. *)
Definition long_target : TargetTable :=
  mkTarget "dbo" (String.concat "" (replicate 125 "a")).

Lemma replace_names_bounded_witness :
  Validate (tt_Name long_target) = None
  /\ exists e, forall d : Server, BeginReplace_ long_target [] d = (d, Err e).
Proof.
  assert (Hv : Validate (tt_Name long_target) = None) by (vm_compute; reflexivity).
  split; [exact Hv|]. apply (replace_names_bounded (DB := Server) long_target Hv). vm_compute. reflexivity.
Defined.

(** The staging name of one load can be the target of another: a replace of
    [orders] drops the rows that a load delivered to [orders_stg]. *)
Theorem replace_drops_sibling :
  let sibling := mkTarget "dbo" "orders_stg" in
  let d := mkServer {[ ex_target := []; sibling := [[("a", AInt I64 1)]] ]} None [] in
  let '(d', r) := BeginReplace_ ex_target [mkColumn "a" "int64" false] d in
  r = Ok sibling /\ ms_tables d' !! sibling = Some [].
Proof. vm_compute. done. Qed.

End MemServer.
