(* ===== verification/Pool.v ===== *)
(** * Source sessions (internal/pipeline: session.go, pool.go)

    [Ephemeral] opens a source per run; [SourcePool] keeps opened sources per
    source id, each behind a lock that is held for the length of a lease.  The
    pool is a step relation over goroutines, entries and their locks. *)

From S2P Require Import Prelude.
From S2P Require Import GoStrings.
From S2P Require Import Contracts.
From S2P Require Import Runner.
From S2P Require Import RunnerProofs.
From Stdlib Require Import ZArith Lia Ascii.

Module Pool.
Import GoStrings Contracts Runner RunnerProofs.

(** ** Sources

    A source is a handle; what the handles do is the driver's ([W]). *)
Abbreviation Src := positive.

Class SourceDriver (W : Type) := {
  Build : SourceConfig -> M W (result Src);
  Open : Src -> M W (option error);
  Close : Src -> M W (option error);
  Ping : Src -> M W (option error);
  Read : Src -> LoadConfig -> M W ReadProg;
}.

(** The open connections.  A new source is not open yet, a failed [Open] may
    leave its own connection half open, [Close] always ends it. *)
Class SourceDriverSpec (W : Type) `{SourceDriver W} := {
  conns : W -> gset Src;
  spec_Build : forall cfg w w' r, Build cfg w = (w', r) ->
    conns w' = conns w /\ forall s, r = Ok s -> s ∉ conns w;
  spec_Open : forall s w w' e, Open s w = (w', e) ->
    conns w' ∖ {[s]} = conns w ∖ {[s]} /\ (e = None -> s ∈ conns w');
  spec_Close : forall s w, conns (Close s w).1 = conns w ∖ {[s]};
  spec_Ping : forall s w, conns (Ping s w).1 = conns w;
  spec_Read : forall s cfg w, conns (Read s cfg w).1 = conns w;
}.

Section Session.
Context {W : Type} `{HD : SourceDriver W}.

(** Build, open, and close again when opening failed: the same in both
    sessions. *)
Definition build_open (cfg : SourceConfig) : M W (result Src) :=
  r <~ Build cfg ;;
  match r with
  | Err e => retM (Err e)
  | Ok src =>
      e <~ Open src ;;
      match e with
      | Some err => Close src ~;; retM (Err err)
      | None => retM (Ok src)
      end
  end.

(** ** Ephemeral *)

#[export] Instance Ephemeral : SourceSession W := {|
  Lease := Src;
  Obtain := build_open;
  release := fun src _ => Close src ~;; retM tt;
  src_read := Read;
|}.

(** The sessions of [NewRunnerWithBuilder]: the given ones, else ephemeral ones
    over the given builder, else over the registry's. *)
Definition runner_sessions {B S : Type} (sources_Build : B) (NewEphemeral : B -> S)
    (build : option B) (sessions : option S) : S :=
  let build := default sources_Build build in
  default (NewEphemeral build) sessions.

(** ** ParamsFingerprint *)

(** The bytes that are hashed. *)
Definition nul : string := String (char 0) "".

Fixpoint fp_pairs (params : gmap string string) (keys : list string) : string :=
  match keys with
  | [] => ""
  | k :: ks => k +:+ nul +:+ default "" (params !! k) +:+ nul +:+ fp_pairs params ks
  end.

Definition fp_bytes (kind : string) (params : gmap string string) (keys : list string) : string :=
  ToLower kind +:+ nul +:+ fp_pairs params (merge_sort String.le keys).

(** [hex.EncodeToString(sha256(...))]; [keys] is the order in which the map
    iteration yields the keys. *)
Context (digest : string -> string).

Definition ParamsFingerprint (kind : string) (params : gmap string string) (keys : list string) :
    string := digest (fp_bytes kind params keys).

Definition map_keys (params : gmap string string) : list string := (map_to_list params).*1.

Definition fingerprint (cfg : SourceConfig) : string :=
  ParamsFingerprint (sc_SourceType cfg) (sc_Params cfg) (map_keys (sc_Params cfg)).

(** ** SourcePool *)

Record PoolConfig := mkPoolConfig { IdleTimeout : Duration; MaxAge : Duration }.

Record poolEntry := mkEntry {
  e_src : option Src;
  e_fp : string;
  e_openedAt : Time;
  e_lastUsed : Time;
}.

Record SourcePool := mkPool {
  p_idle : Duration;
  p_maxAge : Duration;
  p_entries : gmap Z poolEntry;
}.

Definition minute : Duration := 60 * 1000000000.

Definition NewSourcePool (cfg : PoolConfig) : SourcePool :=
  mkPool (if IdleTimeout cfg <=? 0 then 5 * minute else IdleTimeout cfg) (MaxAge cfg) ∅.

Definition empty_entry : poolEntry := mkEntry None "" 0 0.

Definition reusable (idle maxAge : Duration) (ent : poolEntry) (fp : string) (now : Time) : bool :=
  if negb (bool_decide (e_fp ent = fp)) then false
  else if (0 <? idle) && (idle <? now - e_lastUsed ent) then false
  else if (0 <? maxAge) && (maxAge <? now - e_openedAt ent) then false
  else true.

Definition closeEntry (ent : poolEntry) : M W poolEntry :=
  match e_src ent with
  | None => retM ent
  | Some src => Close src ~;; retM (mkEntry None "" (e_openedAt ent) (e_lastUsed ent))
  end.

(** [Obtain] under [p.mu]: the entry of the source id, made when missing. *)
Definition find_slot (id : Z) (entries : gmap Z poolEntry) : gmap Z poolEntry :=
  match entries !! id with
  | Some _ => entries
  | None => <[id := empty_entry]> entries
  end.

(** [Obtain] under [ent.mu].  On an error the caller unlocks the entry. *)
Definition obtain_entry (idle maxAge : Duration) (cfg : SourceConfig) (now : Time)
    (ent : poolEntry) : M W (poolEntry * result Src) :=
  let fp := fingerprint cfg in
  ent1 <~ match e_src ent with
          | Some _ => if negb (reusable idle maxAge ent fp now) then closeEntry ent else retM ent
          | None => retM ent
          end ;;
  match e_src ent1 with
  | Some src => retM (ent1, Ok src)
  | None =>
      r <~ build_open cfg ;;
      match r with
      | Err e => retM (ent1, Err e)
      | Ok src => retM (mkEntry (Some src) fp now now, Ok src)
      end
  end.

(** The release function of a lease, before it unlocks the entry. *)
Definition release_entry (invalidate : bool) (now : Time) (ent : poolEntry) : M W poolEntry :=
  if invalidate then closeEntry ent
  else retM (mkEntry (e_src ent) (e_fp ent) (e_openedAt ent) now).

(** [Invalidate] and [InvalidateAll] when no lease is out. *)
Definition Invalidate (id : Z) (p : SourcePool) : M W SourcePool :=
  match p_entries p !! id with
  | None => retM p
  | Some ent =>
      ent' <~ closeEntry ent ;;
      retM (mkPool (p_idle p) (p_maxAge p) (<[id := ent']> (p_entries p)))
  end.

Fixpoint invalidate_ids (ids : list Z) (p : SourcePool) : M W SourcePool :=
  match ids with
  | [] => retM p
  | id :: ids' => p' <~ Invalidate id p ;; invalidate_ids ids' p'
  end.

Definition InvalidateAll (p : SourcePool) : M W SourcePool :=
  invalidate_ids (map_to_list (p_entries p)).*1 p.

Definition Close_ (p : SourcePool) : M W (SourcePool * option error) :=
  p' <~ InvalidateAll p ;; retM (p', None).

(** The ping of one entry under its lock. *)
Definition ping_entry (id : Z) (ent : poolEntry) : M W (option error) :=
  match e_src ent with
  | None => retM None
  | Some src =>
      e <~ Ping src ;;
      retM ((fun err => "source_id " +:+ fmt_d id +:+ ": " +:+ err) <$> e)
  end.

Fixpoint ping_entries (l : list (Z * poolEntry)) : M W (option error) :=
  match l with
  | [] => retM None
  | (id, ent) :: l' =>
      e <~ ping_entry id ent ;;
      match e with Some err => retM (Some err) | None => ping_entries l' end
  end.

Definition PingAll (p : SourcePool) : M W (option error) :=
  ping_entries (map_to_list (p_entries p)).

Definition Len (p : SourcePool) : Z := Z.of_nat (size (p_entries p)).

Definition LiveCount (p : SourcePool) : Z :=
  Z.of_nat (length (filter (fun kv => is_Some (e_src kv.2)) (map_to_list (p_entries p)))).

(** ** Goroutines

    Each goroutine is inside one call.  [p.mu] sections are one step; the part
    of a call between locking and unlocking an entry is one step too, because
    the entry is touched only under its lock.  A goroutine reads the source it
    leased. *)
Inductive Thread :=
  | WantObtain (cfg : SourceConfig)       (** waits for [ent.mu] in [Obtain] *)
  | Leased (id : Z) (src : Src)           (** between [Obtain] and [release] *)
  | Released                              (** [release] was called *)
  | Invalidating (ids : list Z)           (** [Invalidate], [InvalidateAll], [Close] *)
  | Pinging (ids : list Z).               (** [PingAll] *)

Record State := mkState {
  g_world : W;
  g_entries : gmap Z poolEntry;
  g_locks : gmap Z nat;                   (** the goroutine that holds [ent.mu] *)
  g_threads : gmap nat Thread;
}.

Context (idle maxAge : Duration).

(** The call that a step belongs to. *)
Inductive Call :=
  | InObtain (id : Z)
  | InRead (id : Z)
  | InRelease
  | InInvalidate
  | InPing.

Definition call_of (th : Thread) : Call :=
  match th with
  | WantObtain cfg => InObtain (sc_SourceID cfg)
  | Leased id _ => InRead id
  | Released => InRelease
  | Invalidating _ => InInvalidate
  | Pinging _ => InPing
  end.

(** A step of goroutine [t] inside a call. *)
Inductive act (t : nat) : Call -> State -> State -> Prop :=
  | step_find cfg w es ls ts :
      ts !! t = None ->
      act t (InObtain (sc_SourceID cfg)) (mkState w es ls ts)
        (mkState w (find_slot (sc_SourceID cfg) es) ls (<[t := WantObtain cfg]> ts))
  | step_obtain cfg now ent ent' src w w' es ls ts :
      ts !! t = Some (WantObtain cfg) -> ls !! sc_SourceID cfg = None ->
      es !! sc_SourceID cfg = Some ent ->
      obtain_entry idle maxAge cfg now ent w = (w', (ent', Ok src)) ->
      act t (InObtain (sc_SourceID cfg)) (mkState w es ls ts)
        (mkState w' (<[sc_SourceID cfg := ent']> es) (<[sc_SourceID cfg := t]> ls)
           (<[t := Leased (sc_SourceID cfg) src]> ts))
  | step_obtain_err cfg now ent ent' err w w' es ls ts :
      ts !! t = Some (WantObtain cfg) -> ls !! sc_SourceID cfg = None ->
      es !! sc_SourceID cfg = Some ent ->
      obtain_entry idle maxAge cfg now ent w = (w', (ent', Err err)) ->
      act t (InObtain (sc_SourceID cfg)) (mkState w es ls ts)
        (mkState w' (<[sc_SourceID cfg := ent']> es) ls (delete t ts))
  | step_release id src invalidate now ent w es ls ts :
      ts !! t = Some (Leased id src) -> es !! id = Some ent ->
      act t InRelease (mkState w es ls ts)
        (mkState (release_entry invalidate now ent w).1
           (<[id := (release_entry invalidate now ent w).2]> es) (delete id ls)
           (<[t := Released]> ts))
  | step_release_again w es ls ts :
      ts !! t = Some Released -> act t InRelease (mkState w es ls ts) (mkState w es ls ts)
  | step_return th w es ls ts :
      ts !! t = Some th -> th = Released \/ th = Invalidating [] \/ th = Pinging [] ->
      act t (call_of th) (mkState w es ls ts) (mkState w es ls (delete t ts))
  | step_start ids th w es ls ts :
      ts !! t = None -> (forall id, id ∈ ids -> is_Some (es !! id)) ->
      th = Invalidating ids \/ th = Pinging ids ->
      act t (call_of th) (mkState w es ls ts) (mkState w es ls (<[t := th]> ts))
  | step_invalidate id ids ent w es ls ts :
      ts !! t = Some (Invalidating (id :: ids)) -> ls !! id = None -> es !! id = Some ent ->
      act t InInvalidate (mkState w es ls ts)
        (mkState (closeEntry ent w).1 (<[id := (closeEntry ent w).2]> es) ls
           (<[t := Invalidating ids]> ts))
  | step_ping id ids ent w es ls ts :
      ts !! t = Some (Pinging (id :: ids)) -> ls !! id = None -> es !! id = Some ent ->
      act t InPing (mkState w es ls ts)
        (mkState (ping_entry id ent w).1 es ls
           (match (ping_entry id ent w).2 with
            | None => <[t := Pinging ids]> ts
            | Some _ => delete t ts
            end))
  | step_read id src load w es ls ts :
      ts !! t = Some (Leased id src) ->
      act t (InRead id) (mkState w es ls ts) (mkState (Read src load w).1 es ls ts).

Definition step (g g' : State) : Prop := exists t c, act t c g g'.

(** A sequence of steps of goroutine [t]. *)
Inductive acts (t : nat) : list Call -> State -> State -> Prop :=
  | acts_nil g : acts t [] g g
  | acts_cons c cs g g1 g' : act t c g g1 -> acts t cs g1 g' -> acts t (c :: cs) g g'.

Inductive reachable (w0 : W) : State -> Prop :=
  | reach_init : reachable w0 (mkState w0 ∅ ∅ ∅)
  | reach_step g g' : reachable w0 g -> step g g' -> reachable w0 g'.

End Session.
End Pool.
