(* ===== verification/PoolProofs.v ===== *)
(** * Source sessions: properties

    Leases of the pool are exclusive and hold open connections, connections
    are never lost, goroutines wait only for leases; a connection is reused
    only for the parameters it was opened with; [Ephemeral] meets the session
    contract of the runner. *)

From S2P Require Import Prelude.
From S2P Require Import GoStrings.
From S2P Require Import Contracts.
From S2P Require Import Runner.
From S2P Require Import RunnerProofs.
From S2P Require Import Pool.
From Stdlib Require Import ZArith Lia Ascii.

Module PoolProofs.
Import GoStrings Contracts Runner RunnerProofs Pool.

Section Proofs.
Context {W : Type} `{HD : SourceDriver W} `{HS : !SourceDriverSpec W}.

(** ** Opening and closing *)

Lemma build_open_spec cfg w w' r :
  build_open cfg w = (w', r) ->
  match r with
  | Ok s => (s ∉ conns w) /\ conns w' = {[s]} ∪ conns w
  | Err _ => conns w' = conns w
  end.
Proof.
  intros H. unfold build_open in H. apply bindM_inv in H as (w1 & r1 & Hb & H).
  apply spec_Build in Hb as [Hb Hf]. destruct r1 as [s|e]; [|unfold retM in H; by simplify_eq].
  specialize (Hf s eq_refl). apply bindM_inv in H as (w2 & e & Ho & H).
  apply spec_Open in Ho as [Ho Hok]. destruct e as [err|].
  - apply bindM_inv in H as (w3 & e3 & Hc & H). unfold retM in H. simplify_eq.
    pose proof (spec_Close s w2) as Hcl. rewrite Hc in Hcl. simpl in Hcl. set_solver.
  - unfold retM in H. simplify_eq. split; [done|]. specialize (Hok eq_refl).
    apply set_eq. intros x. destruct (decide (x = s)); set_solver.
Qed.

(** [Ephemeral] keeps exactly the connections of its leases open. *)
#[export] Program Instance Ephemeral_spec : @SessionSpec W Ephemeral := {|
  leased := conns;
|}.
Next Obligation.
  intros cfg w w' r H. simpl in H. apply build_open_spec in H. destruct r; set_solver.
Qed.
Next Obligation.
  intros l inv w Hl. simpl. unfold bindM, retM. pose proof (spec_Close l w).
  by destruct (Close l w).
Qed.
Next Obligation. intros l cfg w. apply spec_Read. Qed.

(** The connection that an entry owns. *)
Definition own (ent : poolEntry) : gset Src :=
  match e_src ent with Some s => {[s]} | None => ∅ end.

(** An operation on an entry replaces the connection it owns, and touches no
    other. *)
Definition owned_update (ent ent' : poolEntry) (w w' : W) : Prop :=
  conns w' = (conns w ∖ own ent) ∪ own ent' /\ own ent' ## conns w ∖ own ent.

Lemma owned_update_same ent w w' :
  own ent ⊆ conns w -> conns w' = conns w -> owned_update ent ent w w'.
Proof.
  intros Hs Hw. unfold owned_update. rewrite Hw. split; [|set_solver]. apply set_eq. intros x.
  destruct (decide (x ∈ own ent)); set_solver.
Qed.

Lemma closeEntry_spec ent w w' ent' :
  closeEntry ent w = (w', ent') ->
  e_src ent' = None /\ conns w' = conns w ∖ own ent.
Proof.
  unfold closeEntry, own. destruct (e_src ent) as [s|] eqn:E.
  - intros (w1 & e & Hc & H)%bindM_inv. unfold retM in H. simplify_eq. split; [done|].
    pose proof (spec_Close s w) as Hcl. by rewrite Hc in Hcl.
  - intros [= <- <-]. split; [done|set_solver].
Qed.

Lemma closeEntry_owned ent w w' ent' :
  closeEntry ent w = (w', ent') -> owned_update ent ent' w w'.
Proof.
  intros [He Hc]%closeEntry_spec. unfold owned_update, own at 2 3. rewrite He, Hc.
  split; set_solver.
Qed.

Lemma release_entry_owned inv now ent w w' ent' :
  own ent ⊆ conns w ->
  release_entry inv now ent w = (w', ent') -> owned_update ent ent' w w'.
Proof.
  intros Hs. unfold release_entry. destruct inv; [apply closeEntry_owned|].
  intros [= <- <-]. by apply (owned_update_same ent).
Qed.

Lemma ping_entry_conns id ent w : conns (ping_entry id ent w).1 = conns w.
Proof.
  unfold ping_entry. destruct (e_src ent) as [s|]; [|done]. unfold bindM, retM.
  pose proof (spec_Ping s w). by destruct (Ping s w).
Qed.

Section Leases.
Context (digest : string -> string) (idle maxAge : Duration).

Abbreviation obtain_entry := (obtain_entry digest idle maxAge).
Abbreviation fingerprint := (fingerprint digest).

Lemma obtain_entry_cases cfg now ent w w' ent' r :
  obtain_entry cfg now ent w = (w', (ent', r)) ->
  (exists s, r = Ok s /\ e_src ent = Some s /\ ent' = ent /\ w' = w
     /\ reusable idle maxAge ent (fingerprint cfg) now = true)
  \/ (exists w1, w1 = (closeEntry ent w).1 /\ conns w1 = conns w ∖ own ent
      /\ build_open cfg w1 = (w', r)
      /\ match r with
         | Ok s => ent' = mkEntry (Some s) (fingerprint cfg) now now
         | Err _ => e_src ent' = None
         end).
Proof.
  unfold Pool.obtain_entry. intros (w1 & ent1 & H1 & H)%bindM_inv.
  destruct (e_src ent) as [s|] eqn:Es.
  - destruct (reusable _ _ ent _ now) eqn:Er; simpl in H1.
    + unfold retM in H1. simplify_eq. rewrite Es in H. unfold retM in H. simplify_eq.
      left. by exists s.
    + right. pose proof H1 as [Hn Hc]%closeEntry_spec. rewrite Hn in H. exists w1. rewrite H1.
      apply bindM_inv in H as (w2 & r2 & Hb & H).
      destruct r2; unfold retM in H; simplify_eq; by split_and!.
  - unfold retM in H1. simplify_eq. rewrite Es in H. right. exists w1. unfold closeEntry. rewrite Es.
    apply bindM_inv in H as (w2 & r2 & Hb & H). unfold own. rewrite Es.
    split; [done|]. split; [set_solver|]. destruct r2; unfold retM in H; simplify_eq; by split_and!.
Qed.

Lemma obtain_entry_owned cfg now ent w w' ent' r :
  own ent ⊆ conns w -> obtain_entry cfg now ent w = (w', (ent', r)) ->
  owned_update ent ent' w w' /\ forall s, r = Ok s -> e_src ent' = Some s.
Proof.
  intros Hs [(s & -> & He & -> & -> & _)|(w1 & _ & Hw1 & Hb & Hr)]%obtain_entry_cases.
  - split; [by apply owned_update_same|]. by intros ? [= <-].
  - apply build_open_spec in Hb. rewrite Hw1 in Hb. unfold owned_update, own at 2 3.
    destruct r as [s|e]; subst; [simpl|rewrite Hr]; (split; [|by intros ? [= <-]]); set_solver.
Qed.

(** ** The invariant *)

(** Connections: each open one belongs to exactly one entry. *)
Definition owners_ok (w : W) (es : gmap Z poolEntry) : Prop :=
  (forall s, s ∈ conns w <-> exists id ent, es !! id = Some ent /\ e_src ent = Some s)
  /\ (forall i j ei ej s, es !! i = Some ei -> es !! j = Some ej ->
        e_src ei = Some s -> e_src ej = Some s -> i = j).

(** Locks: an entry is locked between calls exactly by the goroutine that has
    a lease of it, and the lease is of the entry's connection. *)
Definition locks_ok (es : gmap Z poolEntry) (ls : gmap Z nat) (ts : gmap nat Thread) : Prop :=
  (forall id t, ls !! id = Some t <-> exists s, ts !! t = Some (Leased id s))
  /\ (forall t id s, ts !! t = Some (Leased id s) ->
        exists ent, es !! id = Some ent /\ e_src ent = Some s).

(** The ids that a goroutine will still visit. *)
Definition wants (th : Thread) : list Z :=
  match th with
  | WantObtain cfg => [sc_SourceID cfg]
  | Invalidating ids | Pinging ids => ids
  | Leased _ _ | Released => []
  end.

Definition inv (g : @State W) : Prop :=
  owners_ok (g_world g) (g_entries g) /\ locks_ok (g_entries g) (g_locks g) (g_threads g)
  /\ (forall t th id, g_threads g !! t = Some th -> id ∈ wants th -> is_Some (g_entries g !! id)).

Lemma owners_own w es id ent : owners_ok w es -> es !! id = Some ent -> own ent ⊆ conns w.
Proof.
  intros [Ho _] He s Hs. unfold own in Hs. destruct (e_src ent) as [s'|] eqn:E; [|set_solver].
  apply Ho. exists id, ent. set_solver.
Qed.

Lemma own_elem ent s : s ∈ own ent <-> e_src ent = Some s.
Proof. unfold own. destruct (e_src ent); set_solver. Qed.

Lemma owners_update w w' es id ent ent' :
  owners_ok w es -> es !! id = Some ent -> owned_update ent ent' w w' ->
  owners_ok w' (<[id := ent']> es).
Proof.
  intros [Ho Hu] He [Hc Hd]. split.
  - intros s. rewrite Hc, elem_of_union, elem_of_difference, !own_elem. split.
    + intros [[Hs Hne]|Hs]; [|exists id, ent'; by rewrite lookup_insert_eq].
      apply Ho in Hs as (j & ej & Hj & Hsj). exists j, ej.
      rewrite lookup_insert_ne; [done|]. intros ->. congruence.
    + intros (j & ej & Hj & Hsj). apply lookup_insert_Some in Hj as [[<- <-]|[Hne Hj]]; [by right|].
      left. split; [apply Ho; eauto|]. intros Hsi. by apply Hne, (Hu id j ent ej s).
  - assert (Hnew : forall j ej s, id <> j -> es !! j = Some ej -> e_src ej = Some s ->
        e_src ent' = Some s -> False).
    { intros j ej s Hne Hj Hsj Hs. apply (Hd s); [by apply own_elem|].
      apply elem_of_difference. split; [apply Ho; eauto|].
      intros Hsi%own_elem. by apply Hne, (Hu id j ent ej s). }
    intros i j ei ej s Hi Hj Hsi Hsj.
    apply lookup_insert_Some in Hi as [[<- <-]|[Hni Hi]];
      apply lookup_insert_Some in Hj as [[<- <-]|[Hnj Hj]]; auto.
    + by destruct (Hnew j ej s).
    + by destruct (Hnew i ei s).
    + by apply (Hu i j ei ej s).
Qed.

Lemma locks_thread es ls ts t th0 th :
  locks_ok es ls ts -> ts !! t = th0 ->
  (forall id s, th0 <> Some (Leased id s)) -> (forall id s, th <> Leased id s) ->
  locks_ok es ls (<[t := th]> ts) /\ locks_ok es ls (delete t ts).
Proof.
  intros [Hl Hs] Ht H0 H1. unfold locks_ok. split; split.
  - intros id t'. rewrite Hl. split; intros [s Hx]; exists s.
    + rewrite lookup_insert_ne; [done|]. intros <-. subst. by destruct (H0 id s).
    + apply lookup_insert_Some in Hx as [[<- Hx]|[_ Hx]]; [by destruct (H1 id s)|done].
  - intros t' id s Hx. apply lookup_insert_Some in Hx as [[<- Hx]|[_ Hx]];
      [by destruct (H1 id s)|eauto].
  - intros id t'. rewrite Hl. split; intros [s Hx]; exists s.
    + rewrite lookup_delete_ne; [done|]. intros <-. subst. by destruct (H0 id s).
    + by apply lookup_delete_Some in Hx as [_ Hx].
  - intros t' id s Hx. apply lookup_delete_Some in Hx as [_ Hx]. eauto.
Qed.

(** An entry that is not locked can change. *)
Lemma locks_entry es ls ts id ent' :
  locks_ok es ls ts -> ls !! id = None -> locks_ok (<[id := ent']> es) ls ts.
Proof.
  intros [Hl Hs] Hn. split; [done|]. intros t j s Hx. destruct (Hs t j s Hx) as (ej & Hj & Hsj).
  exists ej. split; [|done]. rewrite lookup_insert_ne; [done|]. intros <-.
  assert (ls !! id = Some t) by (apply Hl; eauto). congruence.
Qed.

Lemma find_slot_lookup id j es :
  find_slot id es !! j = es !! j \/ (es !! j = None /\ j = id /\ find_slot id es !! j = Some empty_entry).
Proof.
  unfold find_slot. destruct (es !! id) eqn:E; [by left|].
  destruct (decide (j = id)) as [->|]; [right|left].
  - by rewrite lookup_insert_eq.
  - by rewrite lookup_insert_ne.
Qed.

Lemma find_slot_Some id j ent es : es !! j = Some ent -> find_slot id es !! j = Some ent.
Proof. intros H. destruct (find_slot_lookup id j es) as [->|(? & _)]; congruence. Qed.

Lemma find_slot_own id j ent s es :
  find_slot id es !! j = Some ent -> e_src ent = Some s -> es !! j = Some ent.
Proof.
  intros H Hs. destruct (find_slot_lookup id j es) as [Heq|(_ & _ & He)]; [congruence|].
  rewrite He in H. by simplify_eq.
Qed.

Lemma find_slot_owners w es id : owners_ok w es -> owners_ok w (find_slot id es).
Proof.
  intros [Ho Hu]. split.
  - intros s. rewrite Ho. split; intros (j & ej & Hj & Hs); exists j, ej;
      eauto using find_slot_Some, find_slot_own.
  - intros i j ei ej s Hi Hj Hsi Hsj. eapply Hu; eauto using find_slot_own.
Qed.

Lemma find_slot_is_Some es id : is_Some (find_slot id es !! id).
Proof.
  unfold find_slot. destruct (es !! id) eqn:E; [by rewrite E|]. rewrite lookup_insert_eq. by eexists.
Qed.

(** The third part of the invariant: goroutines only look for entries that
    exist, and entries are never removed. *)
Definition wants_ok (es : gmap Z poolEntry) (ts : gmap nat Thread) : Prop :=
  forall t th id, ts !! t = Some th -> id ∈ wants th -> is_Some (es !! id).

Lemma wants_insert es es' ts t th :
  wants_ok es ts -> (forall id, is_Some (es !! id) -> is_Some (es' !! id)) ->
  (forall id, id ∈ wants th -> is_Some (es' !! id)) -> wants_ok es' (<[t := th]> ts).
Proof.
  intros Hw He Hth t' th' id Ht Hid.
  apply lookup_insert_Some in Ht as [[<- <-]|[_ Ht]]; eauto.
Qed.

Lemma wants_delete es es' ts t :
  wants_ok es ts -> (forall id, is_Some (es !! id) -> is_Some (es' !! id)) ->
  wants_ok es' (delete t ts).
Proof.
  intros Hw He t' th' id Ht Hid. apply lookup_delete_Some in Ht as [_ Ht]. eauto.
Qed.

Lemma insert_is_Some (es : gmap Z poolEntry) i ent id :
  is_Some (es !! id) -> is_Some (<[i := ent]> es !! id).
Proof. intros H. apply lookup_insert_is_Some'. by right. Qed.

Lemma locks_obtain es ls ts t cfg ent' s :
  locks_ok es ls ts -> ls !! sc_SourceID cfg = None -> ts !! t = Some (WantObtain cfg) ->
  e_src ent' = Some s ->
  locks_ok (<[sc_SourceID cfg := ent']> es) (<[sc_SourceID cfg := t]> ls)
    (<[t := Leased (sc_SourceID cfg) s]> ts).
Proof.
  intros Hok Hn Ht Hs. destruct (locks_entry _ _ _ _ ent' Hok Hn) as [Hl Hown]. split.
  - intros id t'. rewrite lookup_insert_Some. setoid_rewrite lookup_insert_Some. split.
    + intros [[<- <-]|[Hne Hx]]; [exists s; by left|]. apply Hl in Hx as [s' Hx].
      exists s'. right. split; [|done]. intros <-. congruence.
    + intros [s' [[<- Hx]|[Hne Hx]]]; [left; by simplify_eq|]. right.
      assert (ls !! id = Some t') by (apply Hl; eauto). split; [|done]. intros <-. congruence.
  - intros t' id s' Hx. apply lookup_insert_Some in Hx as [[<- Hx]|[_ Hx]]; [|eauto].
    simplify_eq. exists ent'. by rewrite lookup_insert_eq.
Qed.

Lemma locks_release es ls ts t id s ent' :
  locks_ok es ls ts -> ts !! t = Some (Leased id s) ->
  locks_ok (<[id := ent']> es) (delete id ls) (<[t := Released]> ts).
Proof.
  intros [Hl Hown] Ht. assert (Hlt : ls !! id = Some t) by (apply Hl; eauto). split.
  - intros id' t'. rewrite lookup_delete_Some. setoid_rewrite lookup_insert_Some. split.
    + intros [Hne Hx]. apply Hl in Hx as [s' Hx]. exists s'. right. split; [|done].
      intros <-. congruence.
    + intros [s' [[_ ?]|[Hne Hx]]]; [done|]. assert (ls !! id' = Some t') by (apply Hl; eauto).
      split; [|done]. intros <-. congruence.
  - intros t' id' s' Hx. apply lookup_insert_Some in Hx as [[<- ?]|[Hne Hx]]; [done|].
    destruct (Hown _ _ _ Hx) as (ent & He & Hs). exists ent. split; [|done].
    rewrite lookup_insert_ne; [done|]. intros <-.
    assert (ls !! id = Some t') by (apply Hl; eauto). congruence.
Qed.

Lemma step_inv g g' : step digest idle maxAge g g' -> inv g -> inv g'.
Proof.
  intros Hst (Ho & Hl & Hw). unfold inv. simpl in *. fold (wants_ok (g_entries g) (g_threads g)) in Hw.
  destruct Hst as (t & c & Hst). destruct Hst as [cfg w es ls ts Ht
    |cfg now ent ent' src w w' es ls ts Ht Hn He Hob
    |cfg now ent ent' err w w' es ls ts Ht Hn He Hob
    |id src iv now ent w es ls ts Ht He
    |w es ls ts Ht
    |th w es ls ts Ht Hth
    |ids th w es ls ts Ht Hids Hth
    |id ids ent w es ls ts Ht Hn He
    |id ids ent w es ls ts Ht Hn He
    |id src load w es ls ts Ht]; simpl in *.
  - split_and!; [by apply find_slot_owners| |].
    + destruct (locks_thread es ls ts t None (WantObtain cfg)) as [[Hl1 Hl2] _]; try done.
      split; [done|]. intros t' id s Hx. destruct (Hl2 t' id s Hx) as (e & ? & ?).
      exists e. by split; [apply find_slot_Some|].
    + apply (wants_insert es); [done| |].
      * intros id [e ?]. exists e. by apply find_slot_Some.
      * intros id ->%list_elem_of_singleton. apply find_slot_is_Some.
  - destruct (obtain_entry_owned _ _ _ _ _ _ _ (owners_own _ _ _ _ Ho He) Hob) as [Hu Hs].
    split_and!; [by eapply owners_update|by apply locks_obtain; auto|].
    apply (wants_insert es); [done|intros ?; apply insert_is_Some|simpl; set_solver].
  - destruct (obtain_entry_owned _ _ _ _ _ _ _ (owners_own _ _ _ _ Ho He) Hob) as [Hu _].
    split_and!; [by eapply owners_update| |].
    + destruct (locks_thread es ls ts t _ Released Hl Ht) as [_ Hl']; [done..|].
      by apply locks_entry.
    + apply (wants_delete es); [done|intros ?; apply insert_is_Some].
  - destruct (release_entry iv now ent w) as [w' ent'] eqn:Er. simpl.
    apply release_entry_owned in Er; [|by eapply owners_own].
    split_and!; [by eapply owners_update|by eapply locks_release|].
    apply (wants_insert es); [done|intros ?; apply insert_is_Some|simpl; set_solver].
  - split_and!; done.
  - destruct (locks_thread es ls ts t _ Released Hl Ht) as [_ ?]; [naive_solver|done|].
    split_and!; [done|done|by apply (wants_delete es)].
  - destruct (locks_thread es ls ts t _ th Hl Ht) as [? _]; [done|naive_solver|].
    split_and!; [done|done|]. apply (wants_insert es); [done|done|].
    destruct Hth as [->| ->]; simpl; auto.
  - destruct (closeEntry ent w) as [w' ent'] eqn:Ec. simpl. apply closeEntry_owned in Ec.
    destruct (locks_thread es ls ts t _ (Invalidating ids) Hl Ht) as [? _]; [done..|].
    split_and!; [by eapply owners_update|by apply locks_entry|].
    apply (wants_insert es); [done|intros ?; apply insert_is_Some|].
    simpl. intros j Hj. apply insert_is_Some, (Hw t _ j Ht). simpl. set_solver.
  - destruct (locks_thread es ls ts t _ (Pinging ids) Hl Ht) as [? ?]; [done..|].
    split_and!.
    + destruct Ho as [Ho1 Ho2]. split; [|done]. intros s. by rewrite ping_entry_conns.
    + by destruct (ping_entry id ent w).2.
    + destruct (ping_entry id ent w).2; [by apply (wants_delete es)|].
      apply (wants_insert es); [done|done|]. simpl. intros j Hj. apply (Hw t _ j Ht). simpl. set_solver.
  - split_and!; [|done|done]. destruct Ho as [Ho1 Ho2]. split; [|done]. intros s. by rewrite spec_Read.
Qed.

Lemma reachable_inv w0 g : conns w0 = ∅ -> reachable digest idle maxAge w0 g -> inv g.
Proof.
  intros H0 Hr. induction Hr as [|g g' _ IH Hst]; [|by eapply step_inv].
  unfold inv; simpl. split_and!.
  - split; [|done]. intros s. rewrite H0. split; [set_solver|]. intros (? & ? & ? & _). done.
  - split; [|done]. intros id t. split; [done|]. by intros [? ?].
  - done.
Qed.

(** ** Properties of the pool *)

(** C11. Leases of the source pool are exclusive.  However goroutines
    interleave their reads and their calls of [Obtain], [release], [Invalidate],
    [InvalidateAll], [Close] and [PingAll], the connection of every lease is
    open, and two leases that are out at the same time are of different source
    ids and of different connections; so no call closes or shares a connection
    while a run reads from it. *)
Theorem pool_leases_exclusive w0 g t1 t2 id1 id2 s1 s2
    (H0 : conns w0 = ∅) (Hr : reachable digest idle maxAge w0 g)
    (H1 : g_threads g !! t1 = Some (Leased id1 s1))
    (H2 : g_threads g !! t2 = Some (Leased id2 s2)) :
  s1 ∈ conns (g_world g) /\ (t1 <> t2 -> id1 <> id2 /\ s1 <> s2).
Proof.
  destruct (reachable_inv _ _ H0 Hr) as ([Ho Hu] & [Hl Hown] & _).
  destruct (Hown _ _ _ H1) as (e1 & He1 & Hs1). destruct (Hown _ _ _ H2) as (e2 & He2 & Hs2).
  split; [apply Ho; eauto|]. intros Hne. assert (Hid : id1 <> id2).
  { intros <-. apply Hne. assert (g_locks g !! id1 = Some t1) by (apply Hl; eauto).
    assert (g_locks g !! id1 = Some t2) by (apply Hl; eauto). congruence. }
  split; [done|]. intros <-. eauto.
Qed.

(** C12. The pool never loses a connection and never waits for anything but a
    lease.  In every reachable state the open connections are exactly the ones
    held by entries, each by one entry, so that closing the entries closes
    everything, and once; and a goroutine that needs an entry finds it, either
    unlocked or locked by another goroutine that has the lease and can release
    it. *)
Theorem pool_no_leak_no_deadlock w0 g (H0 : conns w0 = ∅)
    (Hr : reachable digest idle maxAge w0 g) :
  (forall s, s ∈ conns (g_world g) <->
     exists id ent, g_entries g !! id = Some ent /\ e_src ent = Some s)
  /\ (forall id1 id2 ent1 ent2 s,
       g_entries g !! id1 = Some ent1 -> g_entries g !! id2 = Some ent2 ->
       e_src ent1 = Some s -> e_src ent2 = Some s -> id1 = id2)
  /\ (forall t th id, g_threads g !! t = Some th -> id ∈ wants th ->
       exists ent, g_entries g !! id = Some ent
         /\ (g_locks g !! id = None
             \/ exists t' s g', t' <> t /\ g_threads g !! t' = Some (Leased id s)
                  /\ act digest idle maxAge t' InRelease g g' /\ g_locks g' !! id = None)).
Proof.
  destruct (reachable_inv _ _ H0 Hr) as ([Ho Hu] & [Hl Hown] & Hw). split; [done|]. split; [done|].
  intros t th id Ht Hid. destruct (Hw _ _ _ Ht Hid) as [ent He]. exists ent. split; [done|].
  destruct (g_locks g !! id) as [t'|] eqn:El; [right|by left].
  apply Hl in El as [s Hs]. destruct g as [w es ls ts]; simpl in *.
  eexists t', s, _. split_and!; [|done|by apply (step_release _ _ _ _ id s false 0 ent)|].
  - intros ->. rewrite Hs in Ht. simplify_eq. simpl in Hid. set_solver.
  - simpl. apply lookup_delete_eq.
Qed.

(** C36. A pooled connection is reused only when it fits.  [Obtain] hands out
    the connection that the entry holds only if that connection was opened for
    the same fingerprint of kind and parameters, has been idle for no longer
    than the idle timeout and, when a maximum age is set, is not older; it then
    leaves everything as it is.  Otherwise the old connection is closed, and
    what is handed out is newly built, open, and recorded with the new
    fingerprint and the current time; if that fails the entry is left empty. *)
Theorem pool_reuse_fresh cfg now ent w (Hidle : 0 < idle) :
  let '(w', (ent', r)) := obtain_entry cfg now ent w in
  match r with
  | Ok s =>
      (e_src ent = Some s /\ ent' = ent /\ w' = w /\ e_fp ent = fingerprint cfg
         /\ now - e_lastUsed ent <= idle /\ (0 < maxAge -> now - e_openedAt ent <= maxAge))
      \/ (ent' = mkEntry (Some s) (fingerprint cfg) now now /\ (s ∉ conns w ∖ own ent)
          /\ conns w' = {[s]} ∪ (conns w ∖ own ent))
  | Err _ => e_src ent' = None /\ conns w' = conns w ∖ own ent
  end.
Proof.
  destruct (obtain_entry cfg now ent w) as [w' [ent' r]] eqn:E.
  apply obtain_entry_cases in E as [(s & -> & He & -> & -> & Hre)|(w1 & _ & Hw1 & Hb & Hr)].
  - left. unfold reusable in Hre. case_bool_decide; [|done]. simpl in Hre.
    rewrite (proj2 (Z.ltb_lt 0 idle)) in Hre by done. simpl in Hre.
    destruct (Z.ltb_spec idle (now - e_lastUsed ent)); [done|]. split_and!; auto.
    intros Hm. rewrite (proj2 (Z.ltb_lt 0 maxAge)) in Hre by done. simpl in Hre.
    by destruct (Z.ltb_spec maxAge (now - e_openedAt ent)).
  - apply build_open_spec in Hb. rewrite Hw1 in Hb. destruct r; [destruct Hb; right|]; by split_and!.
Qed.

End Leases.

(** ** Invalidation *)

(** The entry of [j], if any, holds no connection. *)
Definition closed (p : SourcePool) (j : Z) : Prop :=
  forall ent, p_entries p !! j = Some ent -> e_src ent = None.

Lemma Invalidate_spec id p w w' p' :
  owners_ok w (p_entries p) -> Invalidate id p w = (w', p') ->
  owners_ok w' (p_entries p') /\ forall j, j = id \/ closed p j -> closed p' j.
Proof.
  intros Ho. unfold Invalidate, closed. destruct (p_entries p !! id) as [ent|] eqn:He.
  - intros (w1 & ent' & Hc & H)%bindM_inv. unfold retM in H. simplify_eq. simpl.
    split; [by eapply owners_update, closeEntry_owned|].
    intros j Hj ej. rewrite lookup_insert_Some. intros [[<- <-]|[? ?]]; [|naive_solver].
    by apply closeEntry_spec in Hc as [? _].
  - intros [= <- <-]. split; [done|]. intros j [->|?] ej Hj; [congruence|auto].
Qed.

Lemma invalidate_ids_spec ids : forall p w w' p',
  owners_ok w (p_entries p) -> invalidate_ids ids p w = (w', p') ->
  owners_ok w' (p_entries p') /\ forall j, j ∈ ids \/ closed p j -> closed p' j.
Proof.
  induction ids as [|id ids IH]; simpl; intros p w w' p' Ho H.
  - unfold retM in H. simplify_eq. split; [done|]. intros j [Hj|?]; [set_solver|done].
  - apply bindM_inv in H as (w1 & p1 & H1 & H). apply Invalidate_spec in H1 as [Ho1 H1]; [|done].
    apply IH in H as [Ho2 H2]; [|done]. split; [done|]. intros j Hj. apply H2.
    destruct Hj as [Hj|Hj]; [apply elem_of_cons in Hj as [->|?]|]; auto.
Qed.

Lemma InvalidateAll_entries p w w' p' :
  owners_ok w (p_entries p) -> InvalidateAll p w = (w', p') ->
  owners_ok w' (p_entries p') /\ forall j ent, p_entries p' !! j = Some ent -> e_src ent = None.
Proof.
  intros Hown [Ho Hall]%invalidate_ids_spec; [|done]. split; [done|]. intros j. apply Hall.
  destruct (p_entries p !! j) as [ent|] eqn:Ej.
  - left. apply list_elem_of_fmap. exists (j, ent). by rewrite elem_of_map_to_list.
  - right. intros ent. congruence.
Qed.

(** After [InvalidateAll], which [Close] and a metadata reload use, no
    connection is open and no entry is live, whatever the state of the pool. *)
Lemma InvalidateAll_spec p w w' p' :
  owners_ok w (p_entries p) -> InvalidateAll p w = (w', p') ->
  owners_ok w' (p_entries p') /\ conns w' = ∅ /\ LiveCount p' = 0.
Proof.
  intros Hown [Ho Hc]%InvalidateAll_entries; [|done]. split_and!; [done|..].
  - apply set_eq. intros s. rewrite (proj1 Ho). split; [|set_solver].
    intros (j & ent & Hj & Hs). by rewrite (Hc j ent) in Hs.
  - unfold LiveCount. destruct (filter _ _) as [|[j ent] l] eqn:Ef; [done|].
    assert (Hin : (j, ent) ∈ (j, ent) :: l) by set_solver. rewrite <- Ef in Hin.
    apply list_elem_of_filter in Hin as [[s Hs] Hj%elem_of_map_to_list].
    simpl in Hs. by rewrite (Hc j ent) in Hs.
Qed.

(** ** Fingerprints *)

Definition nul_free (s : string) : Prop := has_char (char 0) s = false.

Lemma Split_nul a b : nul_free a -> Split (a +:+ nul +:+ b) (char 0) = a :: Split b (char 0).
Proof. apply Split_app_sep. Qed.

Definition params_nul_free (params : gmap string string) : Prop :=
  map_Forall (fun k v => nul_free k /\ nul_free v) params.

(** The hashed bytes determine the keys and values. *)
Lemma Split_fp_pairs params keys :
  (forall k, k ∈ keys -> nul_free k /\ nul_free (default "" (params !! k))) ->
  Split (fp_pairs params keys) (char 0)
  = concat (map (fun k => [k; default "" (params !! k)]) keys) ++ [""].
Proof.
  induction keys as [|k keys IH]; intros Hf; [done|]. cbn [fp_pairs map concat].
  destruct (Hf k) as [Hk Hv]; [set_solver|]. rewrite !Split_nul by done.
  rewrite IH by (intros; apply Hf; set_solver). done.
Qed.

Lemma concat_pairs_inj (f g : string -> string) l1 l2 :
  concat (map (fun k => [k; f k]) l1) = concat (map (fun k => [k; g k]) l2) ->
  l1 = l2 /\ forall k, k ∈ l1 -> f k = g k.
Proof.
  revert l2. induction l1 as [|a l1 IH]; intros [|b l2]; simpl; try done.
  - intros _. split; [done|]. set_solver.
  - intros [= -> Hf H]. apply IH in H as [-> H]. split; [done|].
    intros k [->|Hk]%elem_of_cons; auto.
Qed.

Lemma sorted_keys_elem params k :
  k ∈ merge_sort String.le (map_keys params) <-> is_Some (params !! k).
Proof.
  rewrite merge_sort_Permutation. unfold map_keys. rewrite list_elem_of_fmap. split.
  - intros ([? v] & -> & Hk%elem_of_map_to_list). by exists v.
  - intros [v Hv]. exists (k, v). by rewrite elem_of_map_to_list.
Qed.

Lemma fp_pairs_split params :
  params_nul_free params ->
  Split (fp_pairs params (merge_sort String.le (map_keys params))) (char 0)
  = concat (map (fun k => [k; default "" (params !! k)]) (merge_sort String.le (map_keys params)))
    ++ [""].
Proof.
  intros Hf. apply Split_fp_pairs. intros k [v Hv]%sorted_keys_elem. rewrite Hv. by apply Hf.
Qed.

(** The identity of a pooled connection is exact.  Unless the digest
    collides, two configurations whose kind, keys and values hold no NUL have
    the same fingerprint if and only if they have the same kind up to letter
    case and exactly the same parameters; and the order in which the map
    yields its keys does not matter.  So a changed parameter never reuses the
    old connection and an unchanged one never reopens it. *)
Theorem fingerprint_identifies (digest : string -> string) c1 c2
    (Hinj : Inj (=) (=) digest)
    (Hk1 : nul_free (ToLower (sc_SourceType c1))) (Hk2 : nul_free (ToLower (sc_SourceType c2)))
    (Hp1 : params_nul_free (sc_Params c1)) (Hp2 : params_nul_free (sc_Params c2)) :
  (fingerprint digest c1 = fingerprint digest c2
   <-> ToLower (sc_SourceType c1) = ToLower (sc_SourceType c2) /\ sc_Params c1 = sc_Params c2)
  /\ (forall keys, keys ≡ₚ map_keys (sc_Params c1) ->
        ParamsFingerprint digest (sc_SourceType c1) (sc_Params c1) keys = fingerprint digest c1).
Proof.
  split; [split|].
  - intros He%Hinj%(f_equal (fun s => Split s (char 0))). unfold fp_bytes in He.
    rewrite !Split_nul, !fp_pairs_split in He by done. injection He as -> He.
    apply app_inv_tail, concat_pairs_inj in He as [Hks Hvs]. split; [done|].
    apply map_eq. intros k. pose proof (sorted_keys_elem (sc_Params c1) k) as E1.
    pose proof (sorted_keys_elem (sc_Params c2) k) as E2. rewrite <- Hks in E2.
    destruct (sc_Params c1 !! k) as [v|] eqn:Ev, (sc_Params c2 !! k) as [v'|] eqn:Ev'; try done.
    + specialize (Hvs k). rewrite Ev, Ev' in Hvs. f_equal. apply Hvs, E1. by eexists.
    + apply proj2 in E1. apply proj1 in E2. destruct E2 as [? ?]; [apply E1; by eexists|done].
    + apply proj2 in E2. apply proj1 in E1. destruct E1 as [? ?]; [apply E2; by eexists|done].
  - intros [Hk Hp]. unfold fingerprint, ParamsFingerprint, fp_bytes. by rewrite Hk, Hp.
  - intros keys Hperm. unfold fingerprint, ParamsFingerprint, fp_bytes.
    rewrite (Sorted_unique String.le (merge_sort String.le keys)
      (merge_sort String.le (map_keys (sc_Params c1)))); [done| | |].
    1,2: apply (Sorted_merge_sort _).
    by rewrite !merge_sort_Permutation.
Qed.

End Proofs.
End PoolProofs.
