(* ===== verification/PooledSession.v ===== *)
(** * The source pool as the session of the runner (internal/pipeline/pool.go)

    [SourcePool] behind the [SourceSession] interface, for a goroutine that
    finds the entry unlocked: [Obtain] finds or makes the entry and takes a
    connection for it, [release] keeps or closes it.  The calls are shown to be
    steps of the concurrent pool, so that a run of the runner over the pool is
    a sequence of them. *)

From S2P Require Import Prelude.
From S2P Require Import GoStrings.
From S2P Require Import Contracts.
From S2P Require Import Models.
From S2P Require Import Runner.
From S2P Require Import RunnerProofs.
From S2P Require Import Pool.
From S2P Require Import PoolProofs.
From stdpp Require Import relations.
From Stdlib Require Import ZArith Lia.

Module PooledSession.
Import Contracts Metadata Runner RunnerProofs Pool PoolProofs.

Section Session.
Context {W : Type} `{HD : SourceDriver W}.
Context (digest : string -> string).
(** The readings of [time.Now()]. *)
Context (now : nat -> Time).

Record PoolState := mkPoolState { ps_world : W; ps_pool : SourcePool; ps_ticks : nat }.

Definition set_entries (p : SourcePool) (es : gmap Z poolEntry) : SourcePool :=
  mkPool (p_idle p) (p_maxAge p) es.

Definition pool_Obtain (cfg : SourceConfig) : M PoolState (result (Z * Src)) := fun ps =>
  let p := ps_pool ps in
  let es := find_slot (sc_SourceID cfg) (p_entries p) in
  let ent := default empty_entry (es !! sc_SourceID cfg) in
  let '(w', (ent', r)) :=
    obtain_entry digest (p_idle p) (p_maxAge p) cfg (now (ps_ticks ps)) ent (ps_world ps) in
  (mkPoolState w' (set_entries p (<[sc_SourceID cfg := ent']> es)) (S (ps_ticks ps)),
   match r with Ok src => Ok (sc_SourceID cfg, src) | Err e => Err e end).

Definition pool_release (lease : Z * Src) (invalidate : bool) : M PoolState unit := fun ps =>
  let p := ps_pool ps in
  let ent := default empty_entry (p_entries p !! lease.1) in
  let '(w', ent') := release_entry invalidate (now (ps_ticks ps)) ent (ps_world ps) in
  (mkPoolState w' (set_entries p (<[lease.1 := ent']> (p_entries p)))
     (if invalidate then ps_ticks ps else S (ps_ticks ps)), tt).

Definition pool_read (lease : Z * Src) (load : LoadConfig) : M PoolState ReadProg := fun ps =>
  let '(w', r) := Read lease.2 load (ps_world ps) in
  (mkPoolState w' (ps_pool ps) (ps_ticks ps), r).

Definition Pooled : SourceSession PoolState := {|
  Lease := Z * Src;
  Obtain := pool_Obtain;
  release := pool_release;
  src_read := pool_read;
|}.

(** ** The calls as steps *)

(** The concurrent pool with the locks and goroutines [ls] and [ts]. *)
Definition state_of (ps : PoolState) (ls : gmap Z nat) (ts : gmap nat Thread) : @State W :=
  mkState (ps_world ps) (p_entries (ps_pool ps)) ls ts.

Section Steps.
Context (idle maxAge : Duration).
Local Abbreviation acts := (acts digest idle maxAge).

Definition configured (ps : PoolState) : Prop :=
  p_idle (ps_pool ps) = idle /\ p_maxAge (ps_pool ps) = maxAge.

Lemma acts_app t cs cs' g g1 g' : acts t cs g g1 -> acts t cs' g1 g' -> acts t (cs ++ cs') g g'.
Proof. induction 1; [done|]. intros. simpl. eapply acts_cons; eauto. Qed.

Lemma acts_two t c c' g g1 g' :
  act digest idle maxAge t c g g1 -> act digest idle maxAge t c' g1 g' -> acts t [c; c'] g g'.
Proof. intros. eapply acts_cons; [done|]. eapply acts_cons; [done|]. apply acts_nil. Qed.

Lemma acts_steps t cs g g' : acts t cs g g' -> rtc (step digest idle maxAge) g g'.
Proof. induction 1; [apply rtc_refl|]. eapply rtc_l; [by eexists t, _|done]. Qed.

(** [Obtain] is two steps, up to the entry's lock and from there on. *)
Lemma pool_Obtain_acts t cfg ps ps' r ls ts :
  configured ps -> ts !! t = None -> ls !! sc_SourceID cfg = None ->
  pool_Obtain cfg ps = (ps', r) ->
  configured ps'
  /\ match r with
     | Ok lease => lease.1 = sc_SourceID cfg /\ is_Some (p_entries (ps_pool ps') !! lease.1)
     | Err _ => True
     end
  /\ acts t [InObtain (sc_SourceID cfg); InObtain (sc_SourceID cfg)] (state_of ps ls ts)
       match r with
       | Ok lease => state_of ps' (<[lease.1 := t]> ls) (<[t := Leased lease.1 lease.2]> ts)
       | Err _ => state_of ps' ls ts
       end.
Proof.
  intros [Hi Hm] Ht Hl. unfold pool_Obtain. rewrite Hi, Hm.
  destruct (find_slot_is_Some (p_entries (ps_pool ps)) (sc_SourceID cfg)) as [ent He].
  rewrite He. simpl. destruct (obtain_entry _ _ _ _ _ _ _) as [w' [ent' r']] eqn:Eo.
  intros [= <- <-]. split; [by split|].
  pose proof (step_find digest idle maxAge t cfg
    (ps_world ps) (p_entries (ps_pool ps)) ls ts Ht) as H1.
  destruct r' as [src|e]; simpl.
  - split; [by rewrite lookup_insert_eq|]. eapply acts_two; [exact H1|].
    pose proof (step_obtain digest idle maxAge t cfg _ _ _ _ _ _
      (find_slot (sc_SourceID cfg) (p_entries (ps_pool ps))) ls (<[t := WantObtain cfg]> ts)
      ltac:(apply lookup_insert_eq) Hl He Eo) as H2.
    by rewrite insert_insert_eq in H2.
  - split; [done|]. eapply acts_two; [exact H1|].
    pose proof (step_obtain_err digest idle maxAge t cfg _ _ _ _ _ _
      (find_slot (sc_SourceID cfg) (p_entries (ps_pool ps))) ls (<[t := WantObtain cfg]> ts)
      ltac:(apply lookup_insert_eq) Hl He Eo) as H2.
    by rewrite delete_insert_id in H2.
Qed.

Lemma pool_release_acts t lease inv ps ls ts :
  ts !! t = None -> ls !! lease.1 = None -> is_Some (p_entries (ps_pool ps) !! lease.1) ->
  acts t [InRelease; InRelease]
    (state_of ps (<[lease.1 := t]> ls) (<[t := Leased lease.1 lease.2]> ts))
    (state_of (pool_release lease inv ps).1 ls ts).
Proof.
  intros Ht Hl [ent He]. unfold pool_release. rewrite He. simpl.
  pose proof (step_release digest idle maxAge t lease.1 lease.2 inv (now (ps_ticks ps)) ent
    (ps_world ps) (p_entries (ps_pool ps)) (<[lease.1 := t]> ls) (<[t := Leased lease.1 lease.2]> ts)
    ltac:(apply lookup_insert_eq) He) as H1.
  destruct (release_entry _ _ _ _) as [w' ent']. simpl in H1. eapply acts_two; [exact H1|].
  rewrite delete_insert_id, insert_insert_eq by done.
  pose proof (step_return digest idle maxAge t Released w' (<[lease.1 := ent']> (p_entries (ps_pool ps)))
    ls (<[t := Released]> ts) ltac:(apply lookup_insert_eq) ltac:(by left)) as H2.
  by rewrite delete_insert_id in H2.
Qed.

Lemma pool_read_act t lease load ps ls ts :
  ts !! t = Some (Leased lease.1 lease.2) ->
  act digest idle maxAge t (InRead lease.1) (state_of ps ls ts) (state_of (pool_read lease load ps).1 ls ts).
Proof.
  intros Ht. unfold pool_read.
  pose proof (step_read digest idle maxAge t lease.1 lease.2 load (ps_world ps)
    (p_entries (ps_pool ps)) ls ts Ht) as H1.
  by destruct (Read _ _ _).
Qed.
End Steps.

(** ** Runs over the pool *)

Section Runs.
Context {SK ST : Type} `{HSink : SinkOps SK} `{HStore : RunStore ST}.
Context (atomic : option (AtomicReplacer SK)).
Context (ResolveParams : string -> result (gmap string string)).
Context (clk : nat -> Time) (parse_time : string -> option Time).

Local Abbreviation Execute :=
  (Execute (HSess := Pooled) atomic ResolveParams clk parse_time).

(** The steps of a run on the source [id]: none, [Obtain] alone when it fails,
    or [Obtain], at most one read of the source and its release. *)
Definition run_calls (id : Z) (cs : list Call) : Prop :=
  cs = [] \/ cs = [InObtain id; InObtain id]
  \/ exists read, (read = [] \/ read = [InRead id])
       /\ cs = [InObtain id; InObtain id] ++ read ++ [InRelease; InRelease].

(** C14. A run over the pool is a sequence of steps of the concurrent pool.
    Whatever the load, the store, the sink and the source do, and whatever
    other goroutines hold, a goroutine [t] that executes a load whose source is
    not leased takes the pool through steps of its own and no others: those of
    [Obtain] for the load's source, at most one read of it, and its release, on
    every path of [Execute].  At its end it holds no lease, the locks and calls
    of the other goroutines are as they were, and the pool is configured as it
    was.  So the invariants of the pool hold between runs. *)
Theorem pooled_run_steps idle maxAge t load (w : @World SK ST PoolState) ls ts
    (Hc : configured idle maxAge (w_sess w)) (Ht : ts !! t = None)
    (Hfree : ls !! ld_SourceID load = None) :
  let w' := (Execute load w).1 in
  configured idle maxAge (w_sess w')
  /\ (exists cs, run_calls (ld_SourceID load) cs
       /\ acts digest idle maxAge t cs (state_of (w_sess w) ls ts) (state_of (w_sess w') ls ts))
  /\ rtc (step digest idle maxAge) (state_of (w_sess w) ls ts) (state_of (w_sess w') ls ts).
Proof.
  destruct (Execute load w) as [w' err] eqn:H. simpl.
  enough (configured idle maxAge (w_sess w')
    /\ exists cs, run_calls (ld_SourceID load) cs
       /\ acts digest idle maxAge t cs (state_of (w_sess w) ls ts) (state_of (w_sess w') ls ts))
    as (? & cs & ? & ?) by (split_and!; [done|by exists cs|by eapply acts_steps]).
  assert (Hid : forall params, sc_SourceID (source_config (force_append load) params) = ld_SourceID load)
    by (intros; unfold force_append; by case_match).
  apply Execute_sess in H as [->|(params & cfg & _ & -> & Ho)].
  { split; [done|]. exists []. split; [by left|apply acts_nil]. }
  specialize (Hid params). rewrite <- Hid in Hfree.
  destruct Ho as [(e & Ho)|(lease & s1 & s2 & inv & Ho & Hr & ->)];
    (eapply (pool_Obtain_acts _ _ t) in Ho as (Hc1 & Hl & Ha); [|done..]).
  { split; [done|]. rewrite Hid in Ha. eexists. split; [by right; left|exact Ha]. }
  destruct Hl as [Hl Hent].
  assert (Hs2 : ps_pool s2 = ps_pool s1 /\ exists read,
    (read = [] \/ read = [InRead (ld_SourceID load)]) /\ acts digest idle maxAge t read
      (state_of s1 (<[lease.1 := t]> ls) (<[t := Leased lease.1 lease.2]> ts))
      (state_of s2 (<[lease.1 := t]> ls) (<[t := Leased lease.1 lease.2]> ts))).
  { destruct Hr as [->|(lc & ->)]; [split; [done|]; exists []; split; [by left|apply acts_nil]|]. split.
    - simpl. unfold pool_read. by destruct (Read _ _ _).
    - eexists. split; [by right|]. eapply acts_cons; [|apply acts_nil]. rewrite <- Hid, <- Hl.
      apply pool_read_act, lookup_insert_eq. }
  destruct Hs2 as (Hp2 & read & Hread & Hst2). rewrite <- Hp2 in Hent. split.
  - simpl. unfold pool_release. destruct (release_entry _ _ _ _). simpl. unfold configured in *. by rewrite Hp2.
  - rewrite Hid in Ha. exists ([InObtain (ld_SourceID load); InObtain (ld_SourceID load)] ++ read ++ [InRelease; InRelease]).
    split; [by right; right; exists read|]. eapply acts_app; [exact Ha|]. eapply acts_app; [exact Hst2|].
    apply pool_release_acts; [done|by rewrite Hl|done].
Qed.
End Runs.
End Session.
End PooledSession.
