(* ===== verification/Instances.v ===== *)
(** * Instances in memory

    A run store and a source driver in memory that meet the contracts the
    runner and the pool rely on.  With [MemServer] they make the theorems about
    runs and leases applicable at concrete inputs. *)

From S2P Require Import Prelude.
From S2P Require Import GoStrings.
From S2P Require Import Sqlident.
From S2P Require Import Contracts.
From S2P Require Import Models.
From S2P Require Import Runstate.
From S2P Require Import Runner.
From S2P Require Import RunnerProofs.
From S2P Require Import MSSQLSink.
From S2P Require Import MSSQLSinkProofs.
From S2P Require Import MemServer.
From S2P Require Import Pool.
From S2P Require Import PoolProofs.
From Stdlib Require Import ZArith Lia Ascii.

Module Instances.
Import GoStrings Sqlident Contracts Metadata Runner RunnerProofs MSSQLSink MSSQLSinkProofs MemServer
  Pool PoolProofs.

#[local] Obligation Tactic := idtac.

(** ** A store *)

Record Store := mkStore { st_wm : gmap Z string; st_runs : list LoadRun }.

#[export] Instance mem_store : RunStore Store := {|
  GetWatermark := fun id s =>
    (s, Ok ((fun v => mkWatermarkRow id v 0 "" None "") <$> st_wm s !! id));
  UpsertWatermark := fun id v s => (mkStore (<[id := v]> (st_wm s)) (st_runs s), None);
  StartRun := fun id v s =>
    let run := mkLoadRun 1 "run" id "running" 5 None 0 0 v "" "" 0 in
    (mkStore (st_wm s) (st_runs s ++ [run]), Ok run);
  FinishRun := fun run status rr rw we msg s =>
    let run' := mkLoadRun (run_ID run) (run_RunUUID run) (run_LoadID run) status
      (run_StartedAt run) (Some 9) rr rw (run_WatermarkStart run) we msg 0 in
    (mkStore (st_wm s) (st_runs s ++ [run']), None);
|}.

#[export] Program Instance mem_store_spec : RunStoreSpec Store := {|
  wm_view := fun s id => st_wm s !! id;
|}.
Next Obligation.
  intros id s s' r [= <- <-]. split; [done|]. intros o [= <-]. by destruct (st_wm s !! id).
Qed.
Next Obligation.
  intros id v s s' e [= <- <-]. simpl. split_and!; [|by rewrite lookup_insert_eq|].
  - intros i Hi. by rewrite lookup_insert_ne.
  - right. by rewrite lookup_insert_eq.
Qed.
Next Obligation. by intros id v s s' r [= <- <-]. Qed.
Next Obligation. by intros run st rr rw we msg s s' e [= <- <-]. Qed.

(** ** A driver

    Every read emits the batches of [d_batches] and returns [d_result]. *)

Record Driver := mkDriver { d_open : gset Src; d_batches : list Batch; d_result : ReadResult }.

Fixpoint emit_all (bs : list Batch) (r : ReadResult) : ReadProg :=
  match bs with
  | [] => Done r None
  | b :: bs' =>
      Emit b (fun e => match e with Some err => Done r (Some err) | None => emit_all bs' r end)
  end.

Lemma emit_all_aborts bs r : aborts_on_error (emit_all bs r).
Proof. induction bs; simpl; [done|]. split; [|done]. intros e. by eexists. Qed.

#[export] Instance mem_driver : SourceDriver Driver := {|
  Build := fun cfg d => (d, Ok (fresh (d_open d)));
  Open := fun s d => (mkDriver ({[s]} ∪ d_open d) (d_batches d) (d_result d), None);
  Close := fun s d => (mkDriver (d_open d ∖ {[s]}) (d_batches d) (d_result d), None);
  Ping := fun s d => (d, None);
  Read := fun s cfg d => (d, emit_all (d_batches d) (d_result d));
|}.

#[export] Program Instance mem_driver_spec : SourceDriverSpec Driver := {| conns := d_open |}.
Next Obligation. intros cfg w w' r [= <- <-]. split; [done|]. intros s [= <-]. apply is_fresh. Qed.
Next Obligation. intros s w w' e [= <- <-]. simpl. set_solver. Qed.
Next Obligation. done. Qed.
Next Obligation. done. Qed.
Next Obligation. done. Qed.

Lemma mem_reads_abort (l : Src) cfg (d : Driver) : aborts_on_error (src_read l cfg d).2.
Proof. apply emit_all_aborts. Qed.

(** ** A run *)

#[local] Existing Instance ascii_tables.

Definition no_guid (s : string) : result string := Err "not a guid".
#[local] Instance ex_sink_ops : SinkOps Server := MSSQLSink_ops no_guid.
#[local] Instance ex_spec : SinkSpec Server := MSSQLSink_spec no_guid.

Definition ex_columns : list Column := [mkColumn "a" "int64" false].
Definition ex_batch (n : Z) : Batch := mkBatch ex_columns [{[ "a" := AInt I64 n ]}].

Definition ex_driver : Driver :=
  mkDriver ∅ [ex_batch 7; ex_batch 8]
    (mkReadResult 2 (mkWatermark "numeric" "8") true).

Definition ex_load (mode : string) : Load :=
  mkLoad 3 1 (mkSource 1 "erp" "postgres" "" "{}" true false) "orders" "public.orders"
    "dbo" "orders" mode "id" "numeric" 1000 true "*/5 * * * *" true false.

Definition ex_state : Runstate.Registry :=
  Runstate.Register
    (Runstate.mkLoadState 3 "orders" "erp" "postgres" "*/5 * * * *" "" 0 0 "" 0 0 "" false)
    (Runstate.New 1).

Definition ex_world : @World Server Store Driver :=
  mkWorld (ex_server []) (mkStore ∅ []) ex_driver ex_state [] 0.

Definition ex_execute (mode : string) : @World Server Store Driver * option error :=
  Execute (Some MSSQLSink_replacer) (fun _ => Ok ∅)
    (fun n => 100 + Z.of_nat n) (fun _ => None) (ex_load mode) ex_world.

Lemma ex_target_ok mode : target_ok (target_of (ex_load mode)).
Proof. split; vm_compute; reflexivity. Defined.

Lemma ex_sink_ok : sink_ok (w_sink ex_world).
Proof. reflexivity. Defined.

(** A replace run over the SQL Server sink: it succeeds, and the live table
    holds the two new rows, stamped, in place of the old one. *)
Lemma replace_all_or_nothing_witness :
  (ex_execute "replace").2 = None
  /\ length (rows_in (w_sink (ex_execute "replace").1) ex_target) = 2%nat
  /\ exists p n, read_of (ex_load "replace") p
       /\ replace_outcome ex_target (100 + Z.of_nat n) (view (w_sink ex_world) ex_target) p None
            (w_sink (ex_execute "replace").1).
Proof.
  assert (He : (ex_execute "replace").2 = None) by (vm_compute; reflexivity).
  split_and!; [exact He|vm_compute; reflexivity|].
  destruct (replace_all_or_nothing (SK := Server) (ST := Store) (SS := Driver)
    (HSess := Ephemeral) (HSpec := ex_spec) (fun _ => Ok ∅)
    (fun n => 100 + Z.of_nat n) (fun _ => None) mem_reads_abort (ex_load "replace") ex_world eq_refl (ex_target_ok _) ex_sink_ok) as [[_ []]|Hp].
  - exact He.
  - destruct Hp as (p & n & Hrd & Hout). exists p, n. split; [exact Hrd|].
    change (Execute _ _ _ _ _ _) with (ex_execute "replace") in Hout. rewrite He in Hout. exact Hout.
Defined.

(** An append run: the new rows follow the old one. *)
Lemma plain_success_delivers_witness :
  length (rows_in (w_sink (ex_execute "append").1) ex_target) = 3%nat
  /\ exists p, delivery (fun n => 100 + Z.of_nat n) (ex_load "append") "" p
       (w_sink ex_world) (w_sink (ex_execute "append").1).
Proof.
  split; [vm_compute; reflexivity|].
  apply (plain_success_delivers (SK := Server) (ST := Store) (SS := Driver)
    (HSess := Ephemeral) (HSpec := ex_spec) (fun _ => Ok ∅)
    (fun n => 100 + Z.of_nat n) (fun _ => None) (Some MSSQLSink_replacer) mem_reads_abort (ex_load "append") ex_world);
    [discriminate|exact ex_sink_ok|vm_compute; reflexivity].
Defined.

(** A delta run: the watermark becomes the value that the read returned. *)
Lemma watermark_after_delivery_witness :
  wm 3 ex_world = None /\ wm 3 (ex_execute "delta").1 = Some "8"
  /\ forall i, i <> 3 -> wm i (ex_execute "delta").1 = wm i ex_world.
Proof.
  split_and!; [reflexivity|vm_compute; reflexivity|].
  apply (watermark_after_delivery (SK := Server) (ST := Store) (SS := Driver)
    (HSess := Ephemeral) (HSpec := ex_spec) (fun _ => Ok ∅)
    (fun n => 100 + Z.of_nat n) (fun _ => None) (Some MSSQLSink_replacer) mem_reads_abort (ex_load "delta") ex_world ex_sink_ok).
Defined.

Lemma run_status_truthful_witness :
  is_Some (reg 3 ex_world) /\ ended 3 "success" (ex_execute "delta").1.
Proof.
  assert (Hs : is_Some (reg 3 ex_world)) by (eexists; vm_compute; reflexivity).
  split; [exact Hs|].
  destruct (run_status_truthful (SK := Server) (ST := Store) (SS := Driver) (HSess := Ephemeral) (fun _ => Ok ∅)
    (fun n => 100 + Z.of_nat n) (fun _ => None) (Some MSSQLSink_replacer) (ex_load "delta") ex_world Hs) as [[[_ []]|Hend] _].
  - vm_compute; reflexivity.
  - exact Hend.
Defined.

(** ** Leases *)

Definition ex_cfg (id : Z) : SourceConfig := mkSourceConfig id "postgres" "erp" {[ "host" := "db" ]}.

Lemma ex_driver_closed : conns ex_driver = ∅.
Proof. reflexivity. Defined.

(** Two goroutines obtain leases of two sources. *)
Definition ex_obtain (t : nat) (cfg : SourceConfig) (now : Time) (g : @State Driver) :
    option (@State Driver) :=
  let es := find_slot (sc_SourceID cfg) (g_entries g) in
  ent ← es !! sc_SourceID cfg;
  match obtain_entry id 60 0 cfg now ent (g_world g) with
  | (w', (ent', Ok src)) =>
      Some (mkState w' (<[sc_SourceID cfg := ent']> es) (<[sc_SourceID cfg := t]> (g_locks g))
        (<[t := Leased (sc_SourceID cfg) src]> (<[t := WantObtain cfg]> (g_threads g))))
  | _ => None
  end.

Lemma ex_obtain_reachable t cfg now g g' w0 :
  reachable id 60 0 w0 g -> g_threads g !! t = None -> g_locks g !! sc_SourceID cfg = None ->
  ex_obtain t cfg now g = Some g' -> reachable id 60 0 w0 g'.
Proof.
  intros Hr Ht Hl H. destruct g as [w es ls ts]. unfold ex_obtain in H. simpl in *.
  apply bind_Some in H as (ent & He & H).
  destruct (obtain_entry _ _ _ _ _ _ _) as [w' [ent' [src|e]]] eqn:Eo; simplify_eq.
  eapply reach_step; [eapply reach_step; [exact Hr|eexists t, _; by apply (step_find _ _ _ t cfg)]|].
  eexists t, _. eapply step_obtain; [apply lookup_insert_eq|done|done|exact Eo].
Qed.

Definition ex_init : @State Driver := mkState ex_driver ∅ ∅ ∅.

Definition ex_leases : @State Driver :=
  default ex_init (g1 ← ex_obtain 0 (ex_cfg 1) 10 ex_init; ex_obtain 1 (ex_cfg 2) 11 g1).

Lemma ex_leases_reachable : reachable id 60 0 ex_driver ex_leases.
Proof.
  unfold ex_leases. destruct (ex_obtain 0 (ex_cfg 1) 10 ex_init) as [g1|] eqn:E1;
    [|vm_compute in E1; discriminate]. simpl.
  pose proof E1 as Hr1. apply (ex_obtain_reachable _ _ _ _ _ ex_driver) in Hr1;
    [|apply reach_init|reflexivity..].
  vm_compute in E1. injection E1 as E1.
  destruct (ex_obtain 1 (ex_cfg 2) 11 g1) as [g2|] eqn:E2; [|subst g1; vm_compute in E2; discriminate].
  simpl. by apply (ex_obtain_reachable _ _ _ _ _ ex_driver) in E2; [|exact Hr1|subst g1; reflexivity..].
Qed.

Lemma pool_leases_exclusive_witness :
  exists s1 s2, g_threads ex_leases !! 0%nat = Some (Leased 1 s1)
    /\ g_threads ex_leases !! 1%nat = Some (Leased 2 s2) /\ s1 <> s2 /\ s1 ∈ d_open (g_world ex_leases).
Proof.
  assert (H1 : exists s, g_threads ex_leases !! 0%nat = Some (Leased 1 s))
    by (eexists; vm_compute; reflexivity).
  assert (H2 : exists s, g_threads ex_leases !! 1%nat = Some (Leased 2 s))
    by (eexists; vm_compute; reflexivity).
  destruct H1 as [s1 H1], H2 as [s2 H2]. exists s1, s2.
  destruct (pool_leases_exclusive id 60 0 ex_driver ex_leases 0%nat 1%nat 1 2 s1 s2
    ex_driver_closed ex_leases_reachable H1 H2) as [Ho Hne].
  split_and!; [exact H1|exact H2|by apply Hne|exact Ho].
Defined.

Lemma pool_no_leak_no_deadlock_witness :
  d_open ex_driver = ∅
  /\ (forall s, s ∈ d_open (g_world ex_leases) <->
        exists id ent, g_entries ex_leases !! id = Some ent /\ e_src ent = Some s).
Proof.
  split; [reflexivity|].
  apply (pool_no_leak_no_deadlock id 60 0 ex_driver ex_leases ex_driver_closed ex_leases_reachable).
Defined.

(** An entry that has been idle for too long is replaced. *)
Definition ex_idle_entry : poolEntry := mkEntry (Some 9%positive) (fingerprint id (ex_cfg 1)) 0 0.

Lemma pool_reuse_fresh_witness :
  0 < 60 /\ let '(w', (ent', r)) := obtain_entry id 60 0 (ex_cfg 1) 100 ex_idle_entry ex_driver in
  exists s, r = Ok s /\ ent' = mkEntry (Some s) (fingerprint id (ex_cfg 1)) 100 100.
Proof.
  split; [lia|].
  pose proof (pool_reuse_fresh id 60 0 (ex_cfg 1) 100 ex_idle_entry ex_driver ltac:(lia)) as H.
  destruct (obtain_entry _ _ _ _ _ _ _) as [w' [ent' r]] eqn:E.
  destruct r as [s|e]; [|vm_compute in E; discriminate].
  exists s. split; [reflexivity|]. destruct H as [(_ & _ & _ & _ & Hi & _)|[H _]]; [|exact H].
  exfalso. revert Hi. vm_compute. intros Hi. by apply Hi.
Defined.

Definition ex_pool : SourcePool := mkPool 60 0 {[ 1 := mkEntry (Some 9%positive) "fp" 0 0 ]}.
Definition ex_pool_driver : Driver := mkDriver {[ 9%positive ]} [] zero_result.

Lemma ex_pool_owners : owners_ok ex_pool_driver (p_entries ex_pool).
Proof.
  split.
  - intros s. simpl. rewrite elem_of_singleton. split.
    + intros ->. exists 1, (mkEntry (Some 9%positive) "fp" 0 0). by rewrite lookup_singleton_eq.
    + intros (id & ent & [<- <-]%lookup_singleton_Some & [= <-]). done.
  - simpl. intros i j ei ej s [<- _]%lookup_singleton_Some [<- _]%lookup_singleton_Some. done.
Qed.

Lemma fingerprint_identifies_witness :
  fingerprint id (ex_cfg 1) = fingerprint id (ex_cfg 2).
Proof.
  assert (Hp : params_nul_free {[ "host" := "db" ]}) by (apply map_Forall_singleton; done).
  apply (proj1 (fingerprint_identifies id (ex_cfg 1) (ex_cfg 2) ltac:(intros ?? H; exact H)
    eq_refl eq_refl Hp Hp)). split; reflexivity.
Defined.

End Instances.
