(* ===== verification/Fakes.v ===== *)
(** * Test doubles (internal/testutil/fakes.go)

    The hand-written source, sinks and run store that the pipeline tests run
    the runner against, as instances of the interfaces of Contracts, Runner and
    Pool.  The mutexes of the fakes make each call one step, as here.  The
    fields of [FakeSink] are grouped: the errors it is told to return, the
    numbers of calls, and the rest.  The counters do not reach the end of their
    width. *)

From S2P Require Import Prelude.
From S2P Require Import Contracts.
From S2P Require Import Models.
From S2P Require Import Runner.
From S2P Require Import Pool.
From Stdlib Require Import ZArith Lia.

Module Fakes.
Import Contracts Metadata Runner.

(** ** FakeSource *)

Record FakeSource := mkFakeSource {
  KindName : string;
  OpenErr : option error;
  PingErr : option error;
  CloseErr : option error;
  ReadFn : option (LoadConfig -> ReadProg);
  OpenCalls : Z;
  CloseCalls : Z;
}.

Definition FakeSource_Kind (f : FakeSource) : string := KindName f.

Definition FakeSource_Open : M FakeSource (option error) := fun f =>
  (mkFakeSource (KindName f) (OpenErr f) (PingErr f) (CloseErr f) (ReadFn f)
     (OpenCalls f + 1) (CloseCalls f), OpenErr f).

Definition FakeSource_Ping : M FakeSource (option error) := fun f => (f, PingErr f).

Definition FakeSource_Close : M FakeSource (option error) := fun f =>
  (mkFakeSource (KindName f) (OpenErr f) (PingErr f) (CloseErr f) (ReadFn f)
     (OpenCalls f) (CloseCalls f + 1), CloseErr f).

Definition FakeSource_Read (load : LoadConfig) : M FakeSource ReadProg := fun f =>
  (f, match ReadFn f with Some fn => fn load | None => Done zero_result None end).

(** The builder of the tests, [func(cfg) { return src, nil }]: every source it
    builds is the same object. *)
#[export] Instance FakeSource_driver : Pool.SourceDriver FakeSource := {|
  Pool.Build := fun _ => retM (Ok 1%positive);
  Pool.Open := fun _ => FakeSource_Open;
  Pool.Close := fun _ => FakeSource_Close;
  Pool.Ping := fun _ => FakeSource_Ping;
  Pool.Read := fun _ => FakeSource_Read;
|}.

(** ** FakeSink *)

Record FakeErrs := mkFakeErrs {
  ExistsErr : option error;
  EnsureErr : option error;
  TruncateErr : option error;
  WriteErr : option error;
  BeginErr : option error;
  CommitErr : option error;
  AbortErr : option error;
}.

Record FakeCalls := mkFakeCalls {
  EnsureCalls : Z;
  TruncateCalls : Z;
  WriteCalls : Z;
  BeginCalls : Z;
  CommitCalls : Z;
  AbortCalls : Z;
}.

Record FakeSink := mkFakeSink {
  fs_errs : FakeErrs;
  fs_calls : FakeCalls;
  Exists : bool;
  RowsWritten : Z;
  LastTarget : TargetTable;
  LastWriteTo : TargetTable;
  Truncated : bool;
}.

Definition FakeSink_Open : M FakeSink (option error) := retM None.
Definition FakeSink_Ping : M FakeSink (option error) := retM None.
Definition FakeSink_Close : M FakeSink (option error) := retM None.

Definition FakeSink_TableExists (t : TargetTable) : M FakeSink (result bool) := fun s =>
  (s, match ExistsErr (fs_errs s) with Some e => Err e | None => Ok (Exists s) end).

Definition FakeSink_EnsureTable (t : TargetTable) (cols : list Column) :
    M FakeSink (option error) := fun s =>
  let c := fs_calls s in
  (mkFakeSink (fs_errs s)
     (mkFakeCalls (EnsureCalls c + 1) (TruncateCalls c) (WriteCalls c) (BeginCalls c)
        (CommitCalls c) (AbortCalls c))
     true (RowsWritten s) t (LastWriteTo s) (Truncated s), EnsureErr (fs_errs s)).

Definition FakeSink_Truncate (t : TargetTable) : M FakeSink (option error) := fun s =>
  let c := fs_calls s in
  (mkFakeSink (fs_errs s)
     (mkFakeCalls (EnsureCalls c) (TruncateCalls c + 1) (WriteCalls c) (BeginCalls c)
        (CommitCalls c) (AbortCalls c))
     (Exists s) (RowsWritten s) t (LastWriteTo s) true, TruncateErr (fs_errs s)).

Definition FakeSink_WriteBatch (t : TargetTable) (b : Batch) (ts : Time) :
    M FakeSink (Z * option error) := fun s =>
  let c := fs_calls s in
  let c' := mkFakeCalls (EnsureCalls c) (TruncateCalls c) (WriteCalls c + 1) (BeginCalls c)
              (CommitCalls c) (AbortCalls c) in
  match WriteErr (fs_errs s) with
  | Some e =>
      (mkFakeSink (fs_errs s) c' (Exists s) (RowsWritten s) (LastTarget s) t (Truncated s),
       (0, Some e))
  | None =>
      let n := Z.of_nat (length (b_Rows b)) in
      (mkFakeSink (fs_errs s) c' (Exists s) (RowsWritten s + n) (LastTarget s) t (Truncated s),
       (n, None))
  end.

Definition FakeSink_BeginReplace (t : TargetTable) (cols : list Column) :
    M FakeSink (result TargetTable) := fun s =>
  let c := fs_calls s in
  let c' := mkFakeCalls (EnsureCalls c) (TruncateCalls c) (WriteCalls c) (BeginCalls c + 1)
              (CommitCalls c) (AbortCalls c) in
  match BeginErr (fs_errs s) with
  | Some e =>
      (mkFakeSink (fs_errs s) c' (Exists s) (RowsWritten s) (LastTarget s) (LastWriteTo s)
         (Truncated s), Err e)
  | None =>
      let stg := mkTarget (tt_Schema t) (tt_Name t +:+ "_stg") in
      (mkFakeSink (fs_errs s) c' (Exists s) (RowsWritten s) stg (LastWriteTo s) (Truncated s),
       Ok stg)
  end.

Definition FakeSink_CommitReplace (t staging : TargetTable) : M FakeSink (option error) := fun s =>
  let c := fs_calls s in
  (mkFakeSink (fs_errs s)
     (mkFakeCalls (EnsureCalls c) (TruncateCalls c) (WriteCalls c) (BeginCalls c)
        (CommitCalls c + 1) (AbortCalls c))
     true (RowsWritten s) t (LastWriteTo s) (Truncated s), CommitErr (fs_errs s)).

Definition FakeSink_AbortReplace (staging : TargetTable) : M FakeSink (option error) := fun s =>
  let c := fs_calls s in
  (mkFakeSink (fs_errs s)
     (mkFakeCalls (EnsureCalls c) (TruncateCalls c) (WriteCalls c) (BeginCalls c)
        (CommitCalls c) (AbortCalls c + 1))
     (Exists s) (RowsWritten s) (LastTarget s) (LastWriteTo s) (Truncated s), AbortErr (fs_errs s)).

#[export] Instance FakeSink_ops : SinkOps FakeSink := {|
  TableExists := FakeSink_TableExists;
  EnsureTable := FakeSink_EnsureTable;
  Truncate := FakeSink_Truncate;
  WriteBatch := FakeSink_WriteBatch;
|}.

#[export] Instance FakeSink_replacer : AtomicReplacer FakeSink := {|
  BeginReplace := FakeSink_BeginReplace;
  CommitReplace := FakeSink_CommitReplace;
  AbortReplace := FakeSink_AbortReplace;
|}.

(** ** TruncateOnlySink *)

Record TruncateOnlySink := mkTruncateOnly {
  to_Exists : bool;
  to_TruncateCalls : Z;
  to_EnsureCalls : Z;
  to_WriteCalls : Z;
}.

Definition TruncateOnlySink_Open : M TruncateOnlySink (option error) := retM None.
Definition TruncateOnlySink_Ping : M TruncateOnlySink (option error) := retM None.
Definition TruncateOnlySink_Close : M TruncateOnlySink (option error) := retM None.

#[export] Instance TruncateOnlySink_ops : SinkOps TruncateOnlySink := {|
  TableExists := fun _ s => (s, Ok (to_Exists s));
  EnsureTable := fun _ _ s =>
    (mkTruncateOnly true (to_TruncateCalls s) (to_EnsureCalls s + 1) (to_WriteCalls s), None);
  Truncate := fun _ s =>
    (mkTruncateOnly (to_Exists s) (to_TruncateCalls s + 1) (to_EnsureCalls s) (to_WriteCalls s), None);
  WriteBatch := fun _ b _ s =>
    (mkTruncateOnly (to_Exists s) (to_TruncateCalls s) (to_EnsureCalls s) (to_WriteCalls s + 1),
     (Z.of_nat (length (b_Rows b)), None));
|}.

(** ** FakeRunStore *)

(** [fr_ticks] counts the readings of the clock. *)
Record FakeRunStore := mkFakeRunStore {
  fr_Watermark : option WatermarkRow;
  GetWMErr : option error;
  UpsertErr : option error;
  StartErr : option error;
  FinishErr : option error;
  Runs : list LoadRun;
  FinishedStatus : list string;
  UpsertCalls : Z;
  UpsertValues : list string;
  fr_ticks : nat;
}.

Section FakeRunStore.
(** The readings of [time.Now().UTC()]. *)
Context (clk : nat -> Time).

(** One watermark for all loads. *)
Definition FakeRunStore_GetWatermark (id : Z) : M FakeRunStore (result (option WatermarkRow)) :=
  fun s => (s, match GetWMErr s with Some e => Err e | None => Ok (fr_Watermark s) end).

Definition FakeRunStore_UpsertWatermark (id : Z) (v : string) : M FakeRunStore (option error) :=
  fun s =>
  let row := match UpsertErr s with
             | Some _ => fr_Watermark s
             | None => Some (mkWatermarkRow 0 v 0 "" None "")
             end in
  (mkFakeRunStore row (GetWMErr s) (UpsertErr s) (StartErr s) (FinishErr s) (Runs s)
     (FinishedStatus s) (UpsertCalls s + 1) (UpsertValues s ++ [v]) (fr_ticks s), UpsertErr s).

Definition FakeRunStore_StartRun (id : Z) (wmStart : string) : M FakeRunStore (result LoadRun) :=
  fun s =>
  match StartErr s with
  | Some e => (s, Err e)
  | None =>
      let n := Z.of_nat (length (Runs s)) + 1 in
      let run := mkLoadRun n ("run-" +:+ fmt_d n) id "running" (clk (fr_ticks s)) None 0 0
                   wmStart "" "" 0 in
      (mkFakeRunStore (fr_Watermark s) (GetWMErr s) (UpsertErr s) (StartErr s) (FinishErr s)
         (Runs s ++ [run]) (FinishedStatus s) (UpsertCalls s) (UpsertValues s) (S (fr_ticks s)),
       Ok run)
  end.

(** The run [run] after [FinishRun] has assigned to its fields. *)
Definition finished_run (status : string) (rowsRead rowsWritten : Z) (wmEnd errMsg : string)
    (now : Time) (run : LoadRun) : LoadRun :=
  mkLoadRun (run_ID run) (run_RunUUID run) (run_LoadID run) status (run_StartedAt run) (Some now)
    rowsRead rowsWritten (run_WatermarkStart run) wmEnd errMsg (run_DurationMs run).

(** [run] points at the element of [Runs] that [StartRun] returned, number
    [run.ID]; assigning to its fields changes that element. *)
Definition FakeRunStore_FinishRun (run : LoadRun) (status : string) (rowsRead rowsWritten : Z)
    (wmEnd errMsg : string) : M FakeRunStore (option error) := fun s =>
  let upd := finished_run status rowsRead rowsWritten wmEnd errMsg (clk (fr_ticks s)) in
  (mkFakeRunStore (fr_Watermark s) (GetWMErr s) (UpsertErr s) (StartErr s) (FinishErr s)
     (alter upd (Z.to_nat (run_ID run - 1)) (Runs s))
     (FinishedStatus s ++ [status]) (UpsertCalls s) (UpsertValues s) (S (fr_ticks s)), FinishErr s).

#[export] Instance FakeRunStore_store : RunStore FakeRunStore := {|
  GetWatermark := FakeRunStore_GetWatermark;
  UpsertWatermark := FakeRunStore_UpsertWatermark;
  StartRun := FakeRunStore_StartRun;
  FinishRun := FakeRunStore_FinishRun;
|}.
End FakeRunStore.

End Fakes.
