(* ===== verification/FakesProofs.v ===== *)
(** * The runner against the test doubles

    The tests of internal/pipeline/runner_test.go evaluated on the model, and
    the protocol that they sample: which calls of the sink a replace run makes,
    for every read and every combination of errors. *)

From S2P Require Import Prelude.
From S2P Require Import Contracts.
From S2P Require Import Models.
From S2P Require Import Runstate.
From S2P Require Import Runner.
From S2P Require Import RunnerProofs.
From S2P Require Import Pool.
From S2P Require Import Instances.
From S2P Require Import Fakes.
From Stdlib Require Import ZArith Lia.

Module FakesProofs.
Import Contracts Metadata Runner RunnerProofs Fakes.

(** ** The calls of a replace run *)

Definition stg (t : TargetTable) : TargetTable := mkTarget (tt_Schema t) (tt_Name t +:+ "_stg").

(** The calls between the sinks [s0] and [s] of a replace run on [t] that
    returned [err].  [b], [k] and [a] count [BeginReplace], [CommitReplace] and
    [AbortReplace]. *)
Definition replace_calls (t : TargetTable) (s0 s : FakeSink) (err : option error) : Prop :=
  let c0 := fs_calls s0 in
  let c := fs_calls s in
  let b := BeginCalls c - BeginCalls c0 in
  let k := CommitCalls c - CommitCalls c0 in
  let a := AbortCalls c - AbortCalls c0 in
  TruncateCalls c = TruncateCalls c0 /\ EnsureCalls c = EnsureCalls c0
  /\ 0 <= k <= b /\ 0 <= a <= b /\ b <= 1
  /\ (b = 1 -> BeginErr (fs_errs s0) = None ->
      (k = 1 /\ CommitErr (fs_errs s0) = None /\ a = 0)
      \/ ((k = 0 \/ CommitErr (fs_errs s0) <> None) /\ a = 1))
  /\ (BeginErr (fs_errs s0) <> None -> k = 0 /\ a = 0)
  /\ (err = None -> k = b /\ a = 0)
  /\ (WriteCalls c = WriteCalls c0 \/ (b = 1 /\ LastWriteTo s = stg t)).

(** The sink and the closure variables during the read. *)
Definition session_inv (t : TargetTable) (s0 : FakeSink) (failed : bool) (x : FakeSink * Locals) : Prop :=
  let '(s, l) := x in
  let c0 := fs_calls s0 in
  let c := fs_calls s in
  fs_errs s = fs_errs s0
  /\ TruncateCalls c = TruncateCalls c0 /\ EnsureCalls c = EnsureCalls c0
  /\ CommitCalls c = CommitCalls c0 /\ AbortCalls c = AbortCalls c0
  /\ exists r, l_repl l = Some r /\ rs_legacy r = false /\ rs_committed r = false /\ rs_live r = t
     /\ if rs_active r
        then BeginCalls c = BeginCalls c0 + 1 /\ BeginErr (fs_errs s0) = None
             /\ rs_writeTo r = stg t /\ rs_staging r = stg t /\ l_writeTarget l = stg t
             /\ (WriteCalls c = WriteCalls c0 \/ LastWriteTo s = stg t)
        else l_firstBatch l = true /\ WriteCalls c = WriteCalls c0
             /\ (BeginCalls c = BeginCalls c0
                 \/ (failed = true /\ BeginErr (fs_errs s0) <> None
                     /\ BeginCalls c = BeginCalls c0 + 1)).

Lemma session_inv_failed t s0 x : session_inv t s0 false x -> session_inv t s0 true x.
Proof.
  destruct x as [s l]. intros (? & ? & ? & ? & ? & r & ? & ? & ? & ? & H). split_and!; try done.
  exists r. split_and!; try done. destruct (rs_active r); [done|].
  destruct H as (? & ? & [?|(? & _)]); [|done]. split_and!; auto.
Qed.

(** [begin_staging] from a session that is not active. *)
Lemma begin_staging_inv t s0 s l r cols s' r' e :
  session_inv t s0 false (s, l) -> l_repl l = Some r -> rs_active r = false ->
  begin_staging (Some FakeSink_replacer) r cols s = (s', (r', e)) ->
  match e with
  | Some _ => session_inv t s0 true (s', mkLocals (l_rowsWritten l) (l_firstBatch l) (l_writeTarget l) (Some r'))
              /\ rs_active r' = false
  | None => forall n fb, session_inv t s0 false (s', mkLocals n fb (rs_writeTo r') (Some r'))
            /\ rs_active r' = true
  end.
Proof.
  intros (He & Ht & Hen & Hc & Ha & r0 & Hr0 & Hl & Hco & Hlv & Hact) Hr Hna.
  rewrite Hr in Hr0. injection Hr0 as <-. rewrite Hna in Hact.
  destruct Hact as (Hfb & Hw & [Hb|(? & _)]); [|done].
  unfold begin_staging, bindM. simpl. unfold FakeSink_BeginReplace. rewrite He, Hlv.
  destruct (BeginErr (fs_errs s0)) as [err|] eqn:Eb; intros [= <- <- <-].
  - unfold session_inv. simpl. split; [|done]. split_and!; try done. exists r. split_and!; try done.
    rewrite Hna. split_and!; [done..|]. right. by rewrite Hb.
  - intros n fb. unfold session_inv. simpl. split; [|done]. split_and!; try done.
    eexists. split; [done|]. simpl. split_and!; auto. by rewrite Hb.
Qed.

Lemma first_batch_inv load t s0 s l cols s' l' e :
  ld_Mode load = LoadModeReplace ->
  session_inv t s0 false (s, l) -> first_batch (Some FakeSink_replacer) load cols l s = (s', (l', e)) ->
  match e with
  | Some _ => session_inv t s0 true (s', l')
  | None => session_inv t s0 false (s', l') /\ exists r, l_repl l' = Some r /\ rs_active r = true
  end.
Proof.
  intros Hm HI. pose proof HI as (He & Ht & Hen & Hc & Ha & r & Hr & Hl & Hco & Hlv & Hact).
  unfold first_batch, ensureFirstBatch. rewrite bool_decide_true by done. rewrite Hr, Hl.
  unfold bindM, retM. destruct (rs_active r) eqn:Ea.
  - intros [= <- <- <-]. destruct Hact as (? & ? & Hwt & ? & ? & ?). split; [|eauto].
    split_and!; try done. exists r. rewrite Ea. by split_and!.
  - destruct (begin_staging _ r cols s) as [s1 [r1 e1]] eqn:Eb.
    eapply begin_staging_inv in Eb; [|done..].
    destruct e1 as [err|]; intros [= <- <- <-]; [apply Eb|].
    destruct (Eb (l_rowsWritten l) false). split; [done|eauto].
Qed.

Lemma handler_inv load t s0 ts b x x' e :
  ld_Mode load = LoadModeReplace ->
  session_inv t s0 false x -> handler (Some FakeSink_replacer) load ts b x = (x', e) ->
  session_inv t s0 (match e with Some _ => true | None => false end) x'.
Proof.
  intros Hm HI. destruct x as [s l]. unfold handler.
  assert (Hpre : match (if l_firstBatch l then first_batch (Some FakeSink_replacer) load (b_Columns b) l s
                        else (s, (l, None))) with
    | (s1, (l1, Some _)) => session_inv t s0 true (s1, l1)
    | (s1, (l1, None)) => session_inv t s0 false (s1, l1) /\ exists r, l_repl l1 = Some r /\ rs_active r = true
    end).
  { destruct (l_firstBatch l) eqn:Efb.
    - destruct (first_batch _ _ _ _ _) as [s1 [l1 e1]] eqn:Ef.
      eapply first_batch_inv in Ef; [|done..]. by destruct e1.
    - split; [done|]. destruct HI as (_ & _ & _ & _ & _ & r & Hr & _ & _ & _ & Hact).
      exists r. split; [done|]. destruct (rs_active r); [done|]. by destruct Hact as [? _]; congruence. }
  destruct (if l_firstBatch l then _ else _) as [s1 [l1 [err|]]]; [by intros [= <- <-]|].
  destruct Hpre as [(He & Ht & Hen & Hc & Ha & r & Hr & Hl & Hco & Hlv & Hact) (r' & Hr' & Hra)].
  rewrite Hr in Hr'. injection Hr' as <-. rewrite Hra in Hact.
  destruct Hact as (Hb & Hbe & Hw & Hs & Hwt & _).
  unfold WriteBatch, FakeSink_ops, FakeSink_WriteBatch.
  destruct (WriteErr (fs_errs s1)) as [err|]; intros [= <- <-];
    (split_and!; try done; exists r; split_and!; try done; rewrite Hra; simpl; split_and!; auto).
Qed.

(** The sink after the commit, before the deferred abort. *)
Lemma commit_calls t s0 s l r s' r' e :
  session_inv t s0 false (s, l) -> l_repl l = Some r ->
  commit (Some FakeSink_replacer) r s = (s', (r', e)) ->
  forall s'' u, abort (Some FakeSink_replacer) r' s' = (s'', u) ->
  forall err, (err = None -> e = None) -> replace_calls t s0 s'' err.
Proof.
  intros (He & Ht & Hen & Hc & Ha & r0 & Hr0 & Hl & Hco & Hlv & Hact) Hr.
  rewrite Hr in Hr0. injection Hr0 as <-. unfold commit. rewrite Hl.
  destruct (rs_active r) eqn:Ea; simpl.
  - destruct Hact as (Hb & Hbe & _ & _ & _ & Hw). unfold bindM, abort. simpl.
    destruct (CommitErr (fs_errs s)) as [ce|] eqn:Ece; intros [= <- <- <-]; simpl;
      rewrite ?Hl, ?Ea, ?Hco; simpl; unfold bindM, retM; intros s'' u [= <- <-] err Herr;
      unfold replace_calls; simpl; rewrite He in Ece; rewrite Hb, Hc, Ha, Ece, Hbe;
      split_and!; try done; try lia.
    + intros _ _. right. split; [by right|lia].
    + intros ->. by specialize (Herr eq_refl).
    + destruct Hw; [by left|right]. split; [lia|done].
    + intros _ _. left. split_and!; [lia|done|lia].
    + destruct Hw; [by left|right]. split; [lia|done].
  - intros [= <- <- <-] s'' u. unfold abort. rewrite Hl, Ea. simpl. intros [= <- <-] err Herr.
    destruct Hact as (_ & Hw & [Hb|(? & _)]); [|done].
    unfold replace_calls. rewrite Hb, Hc, Ha. split_and!; try done; lia.
Qed.

(** The sink after a read that failed, and the deferred abort. *)
Lemma failed_calls t s0 s l r s' u err :
  session_inv t s0 true (s, l) -> l_repl l = Some r ->
  abort (Some FakeSink_replacer) r s = (s', u) -> err <> None ->
  replace_calls t s0 s' err.
Proof.
  intros (He & Ht & Hen & Hc & Ha & r0 & Hr0 & Hl & Hco & Hlv & Hact) Hr Hab Herr.
  rewrite Hr in Hr0. injection Hr0 as <-. revert Hab. unfold abort. rewrite Hl, Hco.
  destruct (rs_active r) eqn:Ea; simpl.
  - destruct Hact as (Hb & Hbe & _ & _ & _ & Hw). unfold bindM. simpl. intros [= <- <-].
    unfold replace_calls; simpl. rewrite Hb, Hc, Ha, Hbe.
    split_and!; try done; try lia. destruct Hw; [by left|right]. split; [lia|done].
  - intros [= <- <-]. destruct Hact as (_ & Hw & Hb).
    unfold replace_calls. rewrite Hc, Ha.
    destruct Hb as [Hb|(_ & Hbe & Hb)]; rewrite Hb; split_and!; try done; lia.
Qed.

Section Protocol.
Context {ST SS : Type} `{HStore : RunStore ST} `{HSess : SourceSession SS}.
Context (ResolveParams : string -> result (gmap string string)).
Context (clk : nat -> Time) (parse_time : string -> option Time).
Context (Haborts : forall lease cfg ss, aborts_on_error (src_read lease cfg ss).2).

Local Abbreviation World := (@World FakeSink ST SS).
Local Abbreviation Execute := (Execute (Some FakeSink_replacer) ResolveParams clk parse_time).

Lemma no_calls t s e : e <> None -> replace_calls t s s e.
Proof. intros He. unfold replace_calls. split_and!; try done; try lia. Qed.

(** The read loop keeps [session_inv]. *)
Lemma read_inv load t s0 ts p l (w w' : World) l' r e :
  ld_Mode load = LoadModeReplace -> aborts_on_error p -> session_inv t s0 false (w_sink w, l) ->
  read_with_handler (Some FakeSink_replacer) load ts p l w = (w', (l', (r, e))) ->
  session_inv t s0 (match e with Some _ => true | None => false end) (w_sink w', l').
Proof.
  intros Hm Hab HI. unfold read_with_handler.
  destruct (run_read _ _ _) as [[sk2 l2] [r2 e2]] eqn:Er. intros [= <- <- <- <-].
  eapply (run_read_ind p _ (fun _ => session_inv t s0 false) (session_inv t s0 true) []) in Er
    as [[_ Hfin]|[[e' ->] Hun]]; [| |done|done| |].
  - destruct e2; [by apply session_inv_failed|done].
  - done.
  - intros bs b s1 s2 Hs Hh. by eapply (handler_inv _ _ _ _ _ _ _ None).
  - intros bs b s1 s2 e0 Hs Hh. by eapply (handler_inv _ _ _ _ _ _ _ (Some e0)).
Qed.

(** The body of the run followed by the deferred abort. *)
Lemma body_calls load t s0 ts lease run cur s (w w' : World) err inv l :
  ld_Mode load = LoadModeReplace ->
  session_inv t s0 false (w_sink w, mkLocals 0 true (rs_writeTo s) (Some s)) ->
  run_body (Some FakeSink_replacer) clk parse_time lease load run cur ts (Some s) w = (w', (err, inv, l)) ->
  exists r, l_repl l = Some r /\ forall s' u,
    abort (Some FakeSink_replacer) r (w_sink w') = (s', u) -> replace_calls t s0 s' err.
Proof.
  intros Hm HI H. unfold run_body in H.
  apply bindM_inv in H as (w1 & p & Hp & H).
  pose proof (sess_read _ _ _ _ _ _ Haborts Hp) as [_ Hpa].
  apply (keeps_eq w_sink) in Hp; [|by apply on_sess_frame].
  apply bindM_inv in H as (w2 & [l2 [rr e]] & Hread & H).
  eapply read_inv in Hread; [|done|done|by rewrite Hp].
  pose proof Hread as (_ & _ & _ & _ & _ & r2 & Hr2 & _).
  destruct e as [err0|].
  - apply bindM_inv in H as (w3 & v & Hff & H). unfold retM in H. simplify_eq.
    apply (keeps_eq w_sink) in Hff; [|apply sink_finish_failed_observed].
    exists r2. split; [done|]. intros s' u Ea. rewrite Hff in Ea. by eapply failed_calls.
  - rewrite Hr2 in H. apply bindM_inv in H as (w3 & [l3 e3] & Hc & H).
    apply bindM_inv in Hc as (w3' & [s3 e3'] & Hc & Hret). unfold retM in Hret. simplify_eq.
    unfold on_sink in Hc. destruct (commit _ _ _) as [sk3 [s3' e3']] eqn:Ec. simplify_eq.
    destruct e3 as [err3|]; apply bindM_inv in H as (w4 & ef & Hff & H);
      unfold retM in H; simplify_eq; exists s3; (split; [done|]); intros s' u Ea;
      (apply (keeps_eq w_sink) in Hff; [|apply sink_finish_failed_observed || apply sink_finish_success]);
      rewrite Hff in Ea; by eapply commit_calls.
Qed.

(** [prepareExisting] on a new session. *)
Lemma prepare_inv t s0 s' repl e :
  prepareExisting (Some FakeSink_replacer) (newReplaceSession (Some FakeSink_replacer) t) s0
    = (s', (repl, e)) ->
  match e with
  | Some _ => session_inv t s0 true (s', mkLocals 0 true t (Some repl)) /\ rs_active repl = false
  | None => session_inv t s0 false (s', mkLocals 0 true (rs_writeTo repl) (Some repl))
  end.
Proof.
  assert (HI : session_inv t s0 false
    (s0, mkLocals 0 true t (Some (newReplaceSession (Some FakeSink_replacer) t)))).
  { split_and!; try done. eexists. split; [done|]. simpl. split_and!; auto. }
  unfold prepareExisting, bindM. simpl. unfold FakeSink_TableExists. intros Ep.
  destruct (ExistsErr _) as [ee|]; [injection Ep as <- <- <-; split; [exact (session_inv_failed _ _ _ HI)|done]|].
  destruct (Exists _); [|by injection Ep as <- <- <-].
  apply (begin_staging_inv _ _ _ _ (newReplaceSession (Some FakeSink_replacer) t) [] _ _ _ HI) in Ep;
    [|done..]. destruct e; [exact Ep|exact (proj1 (Ep 0 true))].
Qed.

Lemma run_leased_calls lease load (w w' : World) err inv :
  ld_Mode load = LoadModeReplace ->
  run_leased (Some FakeSink_replacer) clk parse_time lease load w = (w', (err, inv)) ->
  replace_calls (target_of load) (w_sink w) (w_sink w') err.
Proof.
  intros Hm Hl. set (t := target_of load).
  apply run_leased_inv in Hl as (w6 & Hw & [[<- ?]|(run & cur & n & _ & H)]);
    specialize (Hw _ _ (sink_start clk load)).
  { rewrite Hw. by apply no_calls. }
  rewrite bool_decide_true in H by done.
  apply bindM_inv in H as (w7 & [repl e] & Hprep & H).
  unfold on_sink in Hprep. destruct (prepareExisting _ _ _) as [sk7 [s7 e7]] eqn:Ep. simplify_eq.
  rewrite Hw in Ep. apply prepare_inv in Ep. destruct e as [err0|].
  - apply bindM_inv in H as (w8 & u & Hff & H). unfold retM in H. simplify_eq.
    apply (keeps_eq w_sink) in Hff; [|apply sink_finish_failed]. rewrite Hff.
    destruct Ep as [Hpre Hina]. eapply (failed_calls _ _ _ _ repl _ tt); [exact Hpre|done| |done].
    unfold abort. by rewrite Hina, orb_true_r.
  - apply bindM_inv in H as (w8 & [[err8 inv8] l8] & Hbody & H).
    apply bindM_inv in H as (w9 & u9 & Hab & H). unfold retM in H. simplify_eq.
    eapply body_calls in Hbody as (r & Hr & Hcalls); [|done..]. rewrite Hr in Hab.
    unfold on_sink in Hab. destruct (abort _ _ _) as [sk'' u'] eqn:Ea. simplify_eq.
    by eapply Hcalls.
Qed.

(** C15. The replace session uses its sink in protocol.  Against the recording
    sink, for every store, source and combination of injected errors, a
    replace run never truncates and never creates the live table; it begins at
    most one staging table; one that was begun is either committed
    successfully and not aborted, or aborted exactly once; nothing is committed
    or aborted when beginning failed; a run without error committed what it
    began; and rows are written to the staging table only, after it was
    begun. *)
Theorem replace_session_protocol load (w : World)
    (Hmode : ld_Mode (force_append load) = LoadModeReplace) :
  replace_calls (target_of load) (w_sink w) (w_sink (Execute load w).1) (Execute load w).2.
Proof.
  rewrite <- (target_force_append load). destruct (Execute load w) as [w' err] eqn:H. simpl.
  apply Execute_inv in H as [(e & -> & He)|(params & lease & w1 & w2 & inv & _ & Ho & Hl & Hr)].
  - assert (w_sink w' = w_sink w) as ->; [|by apply no_calls].
    destruct He as [->|(cfg & He)]; [done|].
    apply (keeps_eq w_sink) in He; [done|by apply on_sess_frame].
  - apply run_leased_calls in Hl; [|done].
    apply (keeps_eq w_sink) in Ho, Hr; [|by apply on_sess_frame..]. by rewrite Hr, <- Ho.
Qed.
End Protocol.

(** ** runner_test.go *)

Definition sampleLoad (mode : string) : Load :=
  mkLoad 1 2 (mkSource 2 "erp" "fake" "" "{}" true false) "orders" "dbo.Orders" "dbo" "stg_orders"
    mode "" WatermarkNone 100 true "" false false.

Definition no_errs : FakeErrs := mkFakeErrs None None None None None None None.
Definition fake_sink (exists_ : bool) : FakeSink :=
  mkFakeSink no_errs (mkFakeCalls 0 0 0 0 0 0) exists_ 0 (mkTarget "" "") (mkTarget "" "") false.
Definition fake_source (fn : option (LoadConfig -> ReadProg)) : FakeSource :=
  mkFakeSource "fake" None None None fn 0 0.
Definition fake_store (wm : option WatermarkRow) (upsertErr : option error) : FakeRunStore :=
  mkFakeRunStore wm None upsertErr None None [] [] 0 [] 0.

Definition test_clk (n : nat) : Time := 1000 + Z.of_nat n.

(** [NewRunnerWithBuilder(store, nil, sink, runstate.New(), ...).Execute];
    the parameters of the sample load are the empty object. *)
Definition test_execute {SK} `{SinkOps SK} (atomic : option (AtomicReplacer SK)) (sink : SK)
    (src : FakeSource) (store : FakeRunStore) (load : Load) :=
  Execute (HStore := FakeRunStore_store test_clk) (HSess := Pool.Ephemeral) atomic
    (fun _ => Ok ∅) test_clk (fun _ => None) load
    (mkWorld sink store src (Runstate.New 0) [] 0).

Definition fake_execute := test_execute (Some FakeSink_replacer).

(** TestRunner_UpsertWatermarkFailure_FailsRun_D04 *)
Definition delta_load : Load :=
  mkLoad 1 2 (mkSource 2 "erp" "fake" "" "{}" true false) "orders" "dbo.Orders" "dbo" "stg_orders"
    "delta" "id" WatermarkNumeric 100 true "" false false.

Example upsert_failure_fails_run :
  let r := fake_execute (fake_sink true)
    (fake_source (Some (fun _ => Done (mkReadResult 1 (mkWatermark WatermarkNumeric "100") false) None)))
    (fake_store (Some (mkWatermarkRow 0 "50" 0 "" None "")) (Some "db down")) delta_load in
  r.2 = Some "update watermark: db down" /\ last (FinishedStatus (w_store r.1)) = Some "failed".
Proof. split; vm_compute; reflexivity. Qed.

Definition counts (s : FakeSink) : Z * Z * Z * Z :=
  let c := fs_calls s in (TruncateCalls c, BeginCalls c, CommitCalls c, AbortCalls c).

(** TestRunner_Replace_BeginsAndCommits_ZeroRows_ADR020 *)
Example replace_begins_and_commits_zero_rows :
  let r := fake_execute (fake_sink true) (fake_source (Some (fun _ => Done zero_result None)))
             (fake_store None None) (sampleLoad "replace") in
  r.2 = None /\ counts (w_sink r.1) = (0, 1, 1, 0) /\ FinishedStatus (w_store r.1) = ["success"].
Proof. split_and!; vm_compute; reflexivity. Qed.

(** TestRunner_Replace_NoTable_ZeroRows_Skips_ADR020 *)
Example replace_no_table_zero_rows_skips :
  let r := fake_execute (fake_sink false) (fake_source None) (fake_store None None)
             (sampleLoad "replace") in
  r.2 = None /\ counts (w_sink r.1) = (0, 0, 0, 0).
Proof. split; vm_compute; reflexivity. Qed.

(** TestRunner_Replace_WritesToStaging_ADR020 *)
Definition one_row_read (_ : LoadConfig) : ReadProg :=
  Emit (mkBatch [mkColumn "id" "int64" false] [{[ "id" := AInt I64 1 ]}])
    (fun e => match e with
              | Some err => Done zero_result (Some err)
              | None => Done (mkReadResult 1 zero_watermark false) None
              end).

Example replace_writes_to_staging :
  let r := fake_execute (fake_sink true) (fake_source (Some one_row_read)) (fake_store None None)
             (sampleLoad "replace") in
  r.2 = None /\ LastWriteTo (w_sink r.1) = mkTarget "dbo" "stg_orders_stg"
  /\ CommitCalls (fs_calls (w_sink r.1)) = 1.
Proof. split_and!; vm_compute; reflexivity. Qed.

(** TestRunner_Replace_AbortOnReadFailure_ADR020 *)
Example replace_aborts_on_read_failure :
  let r := fake_execute (fake_sink true)
             (fake_source (Some (fun _ => Done zero_result (Some "source down"))))
             (fake_store None None) (sampleLoad "replace") in
  r.2 = Some "source down" /\ counts (w_sink r.1) = (0, 1, 0, 1).
Proof. split; vm_compute; reflexivity. Qed.

(** TestRunner_Replace_LegacyTruncate_WhenNoAtomicReplacer_ADR020 *)
Example replace_legacy_truncates :
  let r := test_execute None (mkTruncateOnly true 0 0 0) (fake_source None)
             (fake_store None None) (sampleLoad "replace") in
  r.2 = None /\ to_TruncateCalls (w_sink r.1) = 1.
Proof. split; vm_compute; reflexivity. Qed.

(** The protocol on a run of two batches over the in-memory source. *)
Lemma replace_session_protocol_witness :
  let w := mkWorld (fake_sink true) (fake_store None None) Instances.ex_driver (Runstate.New 0) [] 0 in
  let r := Execute (HStore := FakeRunStore_store test_clk) (HSess := Pool.Ephemeral (HD := Instances.mem_driver))
    (Some FakeSink_replacer) (fun _ => Ok ∅) test_clk (fun _ => None) (sampleLoad "replace") w in
  counts (w_sink r.1) = (0, 1, 1, 0) /\ replace_calls (mkTarget "dbo" "stg_orders") (w_sink w) (w_sink r.1) r.2.
Proof.
  intros w r. split; [vm_compute; reflexivity|].
  exact (replace_session_protocol (HStore := FakeRunStore_store test_clk) (HSess := Pool.Ephemeral (HD := Instances.mem_driver))
    (fun _ => Ok ∅) test_clk (fun _ => None) Instances.mem_reads_abort (sampleLoad "replace") w eq_refl).
Defined.

End FakesProofs.
