(* ===== verification/Scheduler.v ===== *)
(** * The scheduler (internal/scheduler)

    [Reload] reconciles the cron entries with the enabled loads; [trigger] is
    what a cron entry runs, guarded against overlapping runs of a load; [Stop]
    waits for the runs in flight.  The cron library and the metadata repository
    are parameters. *)

From S2P Require Import Prelude.
From S2P Require Import Contracts.
From S2P Require Import Models.
From S2P Require Import Runstate.
From S2P Require Import Metrics.
From Stdlib Require Import ZArith Lia.

Module Scheduler.
Import Contracts Metadata.

(** [cron.Cron]: [AddFunc expr id] registers the trigger of load [id]. *)
Class Cron (C : Type) := {
  AddFunc : string -> Z -> M C (result Z);
  Remove : Z -> M C unit;
}.

(** [RunAborter] *)
Class RunAborter (R : Type) := {
  AbortRunningRuns : string -> M R (result Z);
  ListEnabledLoads : M R (result (list Load));
  MetadataFingerprint : M R (result string);
}.

(** The bound on [Stop]'s wait that [New] keeps. *)
Definition New_shutdownTimeout (shutdownTimeout : Duration) : Duration :=
  if shutdownTimeout <=? 0 then 60 * 1000000000 else shutdownTimeout.

Record scheduledLoad := mkScheduled { sl_load : Load; sl_entryID : Z }.

Section Scheduler.
Context {C R : Type} `{HC : Cron C} `{HR : RunAborter R}.
(** The order in which a [range] over a map yields its entries. *)
Context (order : forall A, gmap Z A -> list (Z * A)).
Arguments order {A} _.

Record State := mkState {
  s_cron : C;
  s_repo : R;
  s_registry : Runstate.Registry;
  s_scheduled : gmap Z scheduledLoad;
  s_running : gset Z;
  s_fingerprint : string;
}.

(** [New]: nothing is scheduled, and the empty fingerprint makes the first
    [Reload] reconcile. *)
Definition New (cron : C) (repo : R) (registry : Runstate.Registry) : State :=
  mkState cron repo registry ∅ ∅ "".

(** The part of the state that the loops of [Reload] change. *)
Definition Sched : Type := C * gmap Z scheduledLoad.

(** The first loop: entries whose load is gone. *)
Fixpoint remove_stale (desired : gmap Z Load) (it : list (Z * scheduledLoad)) : M Sched unit :=
  match it with
  | [] => retM tt
  | (id, existing) :: it' =>
      (fun '(c, sched) =>
         match desired !! id with
         | Some _ => ((c, sched), tt)
         | None => (((Remove (sl_entryID existing) c).1, delete id sched), tt)
         end) ~;;
      remove_stale desired it'
  end.

(** One iteration of the second loop; the errors are only logged. *)
Definition sync_load (id : Z) (ld : Load) : M Sched unit := fun '(c, sched) =>
  match sched !! id with
  | Some existing =>
      if negb (bool_decide (ld_CronExpression (sl_load existing) = ld_CronExpression ld)) then
        let c1 := (Remove (sl_entryID existing) c).1 in
        match AddFunc (ld_CronExpression ld) (ld_ID ld) c1 with
        | (c2, Err _) => ((c2, sched), tt)
        | (c2, Ok entryID) => ((c2, <[id := mkScheduled ld entryID]> sched), tt)
        end
      else ((c, <[id := mkScheduled ld (sl_entryID existing)]> sched), tt)
  | None =>
      match AddFunc (ld_CronExpression ld) (ld_ID ld) c with
      | (c2, Err _) => ((c2, sched), tt)
      | (c2, Ok entryID) => ((c2, <[id := mkScheduled ld entryID]> sched), tt)
      end
  end.

Fixpoint sync_loads (it : list (Z * Load)) : M Sched unit :=
  match it with
  | [] => retM tt
  | (id, ld) :: it' => sync_load id ld ~;; sync_loads it'
  end.

Definition desired_by_id (desired : list Load) : gmap Z Load :=
  foldl (fun m ld => <[ld_ID ld := ld]> m) ∅ desired.

Definition register_state (ld : Load) : Runstate.LoadState := {|
  Runstate.LoadID := ld_ID ld;
  Runstate.LoadName := ld_Name ld;
  Runstate.SourceName := src_Name (ld_Source ld);
  Runstate.SourceKind := src_Kind (ld_Source ld);
  Runstate.CronExpression := ld_CronExpression ld;
  Runstate.LastRunUUID := "";
  Runstate.LastStartedAt := 0;
  Runstate.LastFinishedAt := 0;
  Runstate.LastStatus := "";
  Runstate.LastRowsRead := 0;
  Runstate.LastRowsWritten := 0;
  Runstate.LastError := "";
  Runstate.CurrentlyRunning := false;
|}.

Definition register_all (desired : list Load) (r : Runstate.Registry) : Runstate.Registry :=
  foldl (fun r ld => Runstate.Register (register_state ld) r) r desired.

(** The section of [Reload] under [s.mu]. *)
Definition reconcile (fp : string) (desired : list Load) (s : State) : State :=
  let byID := desired_by_id desired in
  let '((c, sched), _) :=
    (remove_stale byID (order (s_scheduled s)) ~;; sync_loads (order byID))
      (s_cron s, s_scheduled s) in
  mkState c (s_repo s) (register_all desired (s_registry s)) sched (s_running s) fp.

Definition on_repo {A} (m : M R A) : M State A := fun s =>
  let '(r, a) := m (s_repo s) in
  (mkState (s_cron s) r (s_registry s) (s_scheduled s) (s_running s) (s_fingerprint s), a).

Definition Reload : M State (option error) :=
  r <~ on_repo MetadataFingerprint ;;
  match r with
  | Err e => retM (Some e)
  | Ok fp => fun s =>
      if bool_decide (fp = s_fingerprint s) then (s, None)
      else
        (r2 <~ on_repo ListEnabledLoads ;;
         match r2 with
         | Err e => retM (Some e)
         | Ok desired => fun s' => (reconcile fp desired s', None)
         end) s
  end.

Definition Load_ : M State (option error) :=
  r <~ on_repo (AbortRunningRuns "aborted: orphaned running row at startup") ;;
  match r with
  | Err e => retM (Some e)
  | Ok _ => Reload
  end.

(** ** trigger *)

Inductive TriggerOutcome :=
  | Unscheduled
  | Overlap (skip : list Metrics.MetricCall)
  | Run (load : Load).

(** [trigger] up to the unlock before the run. *)
Definition trigger_enter (loadID : Z) (sched : gmap Z scheduledLoad) (running : gset Z) :
    gset Z * TriggerOutcome :=
  match sched !! loadID with
  | None => (running, Unscheduled)
  | Some entry =>
      if bool_decide (loadID ∈ running)
      then (running, Overlap (Metrics.ObserveOverlapSkip (ld_Name (sl_load entry))))
      else ({[loadID]} ∪ running, Run (sl_load entry))
  end.

(** The deferred function, under the lock. *)
Definition trigger_exit (loadID : Z) (running : gset Z) : gset Z := running ∖ {[loadID]}.

(** ** Goroutines

    A goroutine of a fired cron entry goes through [trigger]; [Reload] runs at
    any time; [Stop] stops cron, waits for the wait group or the timeout, and
    aborts what is still marked running. *)
Inductive Trig :=
  | Fired (id : Z)                    (** before [s.mu.Lock()] *)
  | Acquired (id : Z) (ld : Load)     (** before [s.wg.Add(1)] *)
  | Executing (id : Z) (ld : Load)    (** in [Execute] *)
  | Leaving (id : Z).                 (** before [s.wg.Done()] *)

Inductive Phase := Up | CronStopped | Waited (timedOut : bool) | Stopped.

Record Sys := mkSys {
  y_scheduled : gmap Z scheduledLoad;
  y_running : gset Z;
  y_wg : Z;
  y_threads : gmap nat Trig;
  y_metrics : list Metrics.MetricCall;
  y_phase : Phase;
}.

Inductive sys_step : Sys -> Sys -> Prop :=
  | y_fire t id sc rn wg ts ms :
      ts !! t = None ->
      sys_step (mkSys sc rn wg ts ms Up) (mkSys sc rn wg (<[t := Fired id]> ts) ms Up)
  | y_enter t id sc rn rn' o wg ts ms ph :
      ts !! t = Some (Fired id) -> trigger_enter id sc rn = (rn', o) ->
      sys_step (mkSys sc rn wg ts ms ph)
        (match o with
         | Unscheduled => mkSys sc rn' wg (delete t ts) ms ph
         | Overlap skip => mkSys sc rn' wg (delete t ts) (ms ++ skip) ph
         | Run ld => mkSys sc rn' wg (<[t := Acquired id ld]> ts) ms ph
         end)
  | y_add t id ld sc rn wg ts ms ph :
      ts !! t = Some (Acquired id ld) ->
      sys_step (mkSys sc rn wg ts ms ph) (mkSys sc rn (wg + 1) (<[t := Executing id ld]> ts) ms ph)
  | y_finish t id ld sc rn wg ts ms ph :
      ts !! t = Some (Executing id ld) ->
      sys_step (mkSys sc rn wg ts ms ph)
        (mkSys sc (trigger_exit id rn) wg (<[t := Leaving id]> ts) ms ph)
  | y_done t id sc rn wg ts ms ph :
      ts !! t = Some (Leaving id) ->
      sys_step (mkSys sc rn wg ts ms ph) (mkSys sc rn (wg - 1) (delete t ts) ms ph)
  | y_reload sc sc' rn wg ts ms ph :
      sys_step (mkSys sc rn wg ts ms ph) (mkSys sc' rn wg ts ms ph)
  | y_stop sc rn wg ts ms :
      sys_step (mkSys sc rn wg ts ms Up) (mkSys sc rn wg ts ms CronStopped)
  | y_waited sc rn wg ts ms :
      wg = 0 -> sys_step (mkSys sc rn wg ts ms CronStopped) (mkSys sc rn wg ts ms (Waited false))
  | y_timeout sc rn wg ts ms :
      sys_step (mkSys sc rn wg ts ms CronStopped) (mkSys sc rn wg ts ms (Waited true))
  | y_abort sc rn wg ts ms b :
      sys_step (mkSys sc rn wg ts ms (Waited b)) (mkSys sc rn wg ts ms Stopped).

Inductive sys_reachable : Sys -> Prop :=
  | y_init : sys_reachable (mkSys ∅ ∅ 0 ∅ [] Up)
  | y_next y y' : sys_reachable y -> sys_step y y' -> sys_reachable y'.

End Scheduler.
End Scheduler.
