(* ===== verification/SchedulerProofs.v ===== *)
(** * The scheduler: properties

    [Reload] makes the cron entries match the enabled loads, runs of a load
    never overlap, and two behaviours that depart from this: an invalid cron
    expression that is taken back, and a run that [Stop] does not wait for. *)

From S2P Require Import Prelude.
From S2P Require Import Contracts.
From S2P Require Import Models.
From S2P Require Import Runstate.
From S2P Require Import Metrics.
From S2P Require Import Scheduler.
From Stdlib Require Import ZArith Lia.

Module SchedulerProofs.
Import Contracts Metadata Scheduler.

(** What the scheduler relies on from cron: entry ids are handed out in order
    and never reused, [AddFunc] fails exactly on an expression that does not
    parse, and [Remove] removes only the entry it names. *)
Class CronSpec (C : Type) `{Cron C} := {
  cron_entries : C -> gmap Z (string * Z);
  cron_next : C -> Z;
  valid_expr : string -> bool;
  spec_AddFunc : forall x id c,
    match AddFunc x id c with
    | (c', Ok e) => valid_expr x = true /\ e = cron_next c
        /\ cron_entries c' = <[e := (x, id)]> (cron_entries c) /\ cron_next c' = e + 1
    | (c', Err _) => valid_expr x = false
        /\ cron_entries c' = cron_entries c /\ cron_next c' = cron_next c
    end;
  spec_Remove : forall e c,
    cron_entries (Remove e c).1 = delete e (cron_entries c)
    /\ cron_next (Remove e c).1 = cron_next c;
}.

Section Reload.
Context {C R : Type} `{HC : Cron C} `{HR : RunAborter R} `{HCS : !CronSpec C}.
Context (order : forall A, gmap Z A -> list (Z * A)).
Context (Horder : forall A (m : gmap Z A), order A m ≡ₚ map_to_list m).

Abbreviation Sched := (@Sched C).

(** The cron entries and the record of them agree: each cron entry is the one
    recorded for its load, with the recorded expression. *)
Definition wf (st : Sched) : Prop :=
  (forall e x id, cron_entries st.1 !! e = Some (x, id) ->
     exists sl, st.2 !! id = Some sl /\ sl_entryID sl = e /\ ld_CronExpression (sl_load sl) = x)
  /\ (forall id sl, st.2 !! id = Some sl -> sl_entryID sl < cron_next st.1)
  /\ (forall i j si sj, st.2 !! i = Some si -> st.2 !! j = Some sj ->
        sl_entryID si = sl_entryID sj -> i = j).

(** Every recorded load has its cron entry. *)
Definition live (st : Sched) : Prop :=
  forall id sl, st.2 !! id = Some sl ->
    cron_entries st.1 !! sl_entryID sl = Some (ld_CronExpression (sl_load sl), id).

(** ** Steps of the reconciliation *)

Lemma wf_remove c sched id sl :
  wf (c, sched) -> sched !! id = Some sl ->
  wf ((Remove (sl_entryID sl) c).1, delete id sched)
  /\ (live (c, sched) -> live ((Remove (sl_entryID sl) c).1, delete id sched)).
Proof.
  intros (H1 & H2 & H3) Hs. destruct (spec_Remove (sl_entryID sl) c) as [He Hn].
  unfold wf, live. simpl in *. rewrite He, Hn. split; [split_and!|].
  - intros e x j [Hne He']%lookup_delete_Some. destruct (H1 _ _ _ He') as (sl' & Hj & Heq & Hx).
    exists sl'. split; [|done]. rewrite lookup_delete_ne; [done|]. intros ->. congruence.
  - intros j sj [_ Hj]%lookup_delete_Some. eauto.
  - intros i j si sj [_ Hi]%lookup_delete_Some [_ Hj]%lookup_delete_Some. eauto.
  - intros Hl j sj [Hne Hj]%lookup_delete_Some. rewrite lookup_delete_ne; [by apply Hl|].
    intros Heq. by apply Hne, (H3 id j sl sj).
Qed.

(** Registering an expression for a load that has no entry in cron. *)
Lemma wf_add c c' sched id ld :
  wf (c, sched) -> (forall e x, cron_entries c !! e <> Some (x, id)) ->
  cron_entries c' = <[cron_next c := (ld_CronExpression ld, id)]> (cron_entries c) ->
  cron_next c' = cron_next c + 1 ->
  let st' := (c', <[id := mkScheduled ld (cron_next c)]> sched) in
  wf st' /\ ((forall j sj, j <> id -> sched !! j = Some sj ->
                cron_entries c !! sl_entryID sj = Some (ld_CronExpression (sl_load sj), j)) -> live st').
Proof.
  intros (H1 & H2 & H3) Hno He Hn. unfold wf, live. simpl in *. rewrite He, Hn. split; [split_and!|].
  - intros e x j [[<- [= <- <-]]|[Hne He']]%lookup_insert_Some.
    + eexists. by rewrite lookup_insert_eq.
    + destruct (H1 _ _ _ He') as (sl & Hj & Heq). exists sl. split; [|done].
      rewrite lookup_insert_ne; [done|]. intros ->. by apply (Hno e x).
  - intros j sj [[<- <-]|[_ Hj]]%lookup_insert_Some; [simpl; lia|]. specialize (H2 _ _ Hj). lia.
  - intros i j si sj [[<- <-]|[Hni Hi]]%lookup_insert_Some [[<- <-]|[Hnj Hj]]%lookup_insert_Some;
      simpl; try done; eauto.
    + specialize (H2 _ _ Hj). lia.
    + specialize (H2 _ _ Hi). lia.
  - intros Hl j sj [[<- <-]|[Hne Hj]]%lookup_insert_Some; simpl; [by rewrite lookup_insert_eq|].
    rewrite lookup_insert_ne; [by apply Hl|]. specialize (H2 _ _ Hj). lia.
Qed.

Lemma wf_add_invalid c c' sched :
  wf (c, sched) -> cron_entries c' = cron_entries c -> cron_next c' = cron_next c -> wf (c', sched).
Proof. unfold wf. simpl. by intros Hwf -> ->. Qed.

(** An entry whose expression stays. *)
Lemma wf_same c sched id sl ld :
  wf (c, sched) -> sched !! id = Some sl ->
  ld_CronExpression (sl_load sl) = ld_CronExpression ld ->
  wf (c, <[id := mkScheduled ld (sl_entryID sl)]> sched)
  /\ (live (c, sched) -> live (c, <[id := mkScheduled ld (sl_entryID sl)]> sched)).
Proof.
  intros (H1 & H2 & H3) Hs Hx. unfold wf, live. simpl in *. split; [split_and!|].
  - intros e x j He. destruct (H1 _ _ _ He) as (sj & Hj & Heq & Hx').
    destruct (decide (j = id)) as [->|Hne].
    + eexists. rewrite lookup_insert_eq. split_and!; [done|simpl; congruence..].
    + exists sj. by rewrite lookup_insert_ne.
  - intros j sj [[<- <-]|[_ Hj]]%lookup_insert_Some; simpl; eauto.
  - intros i j si sj [[<- <-]|[Hni Hi]]%lookup_insert_Some [[<- <-]|[Hnj Hj]]%lookup_insert_Some;
      simpl; try done; intros; eauto.
  - intros Hl j sj [[<- <-]|[Hne Hj]]%lookup_insert_Some; [|by apply Hl].
    simpl. rewrite <- Hx. by apply Hl.
Qed.

(** The cron entry of the load is removed while its record stays. *)
Lemma wf_unhook c sched id sl :
  wf (c, sched) -> sched !! id = Some sl ->
  wf ((Remove (sl_entryID sl) c).1, sched)
  /\ (forall e x, cron_entries (Remove (sl_entryID sl) c).1 !! e <> Some (x, id))
  /\ (live (c, sched) -> forall j sj, j <> id -> sched !! j = Some sj ->
       cron_entries (Remove (sl_entryID sl) c).1 !! sl_entryID sj
       = Some (ld_CronExpression (sl_load sj), j)).
Proof.
  intros (H1 & H2 & H3) Hs. destruct (spec_Remove (sl_entryID sl) c) as [He Hn].
  unfold wf, live. simpl in *. rewrite He, Hn. split_and!; [| | | |].
  - intros e x j [_ He']%lookup_delete_Some. eauto.
  - eauto.
  - eauto.
  - intros e x [Hne He']%lookup_delete_Some. destruct (H1 _ _ _ He') as (sj & Hj & Heq & _). congruence.
  - intros Hl j sj Hne Hj. rewrite lookup_delete_ne; [by apply Hl|].
    intros Heq. by apply Hne, (H3 j id sj sl).
Qed.

Lemma sync_load_spec id ld st :
  wf st -> ld_ID ld = id ->
  let st' := (sync_load id ld st).1 in
  wf st' /\ (forall j, j <> id -> st'.2 !! j = st.2 !! j)
  /\ (valid_expr (ld_CronExpression ld) = true -> live st ->
      live st' /\ exists e, st'.2 !! id = Some (mkScheduled ld e)
        /\ forall sl, st.2 !! id = Some sl ->
             ld_CronExpression (sl_load sl) = ld_CronExpression ld -> e = sl_entryID sl).
Proof.
  destruct st as [c sched]. intros Hwf Hid. cbv zeta. unfold sync_load.
  destruct (sched !! id) as [sl|] eqn:Es.
  - destruct (bool_decide_reflect (ld_CronExpression (sl_load sl) = ld_CronExpression ld)) as [Hx|Hx];
      simpl.
    + destruct (wf_same _ _ _ _ ld Hwf Es Hx) as [Hwf' Hl]. split_and!; [done| |].
      * intros j Hne. by rewrite lookup_insert_ne.
      * intros _ Hlive. split; [by apply Hl|]. exists (sl_entryID sl).
        rewrite lookup_insert_eq. split; [done|]. intros sl' Heq. by simplify_eq.
    + destruct (wf_unhook _ _ _ _ Hwf Es) as (Hwf' & Hno & Hl).
      pose proof (spec_AddFunc (ld_CronExpression ld) (ld_ID ld) (Remove (sl_entryID sl) c).1) as Ha.
      destruct (AddFunc _ _ _) as [c2 [e|err]]; simpl.
      * destruct Ha as (Hv & -> & He & Hn). rewrite Hid in He.
        destruct (wf_add _ _ _ _ _ Hwf' Hno He Hn) as [Hwf2 Hl2]. split_and!; [done| |].
        -- intros j Hne. by rewrite lookup_insert_ne.
        -- intros _ Hlive. split; [by apply Hl2, Hl|]. eexists. rewrite lookup_insert_eq.
           split; [done|]. intros sl' Heq Hx'. by simplify_eq.
      * destruct Ha as (Hv & He & Hn). split_and!; [by eapply wf_add_invalid|done|congruence].
  - pose proof (spec_AddFunc (ld_CronExpression ld) (ld_ID ld) c) as Ha.
    assert (Hno : forall e x, cron_entries c !! e <> Some (x, id)).
    { intros e x He. destruct Hwf as (H1 & _). destruct (H1 _ _ _ He) as (? & ? & _).
      simpl in *. congruence. }
    destruct (AddFunc _ _ _) as [c2 [e|err]]; simpl.
    + destruct Ha as (Hv & -> & He & Hn). rewrite Hid in He.
      destruct (wf_add _ _ _ _ _ Hwf Hno He Hn) as [Hwf2 Hl2]. split_and!; [done| |].
      * intros j Hne. by rewrite lookup_insert_ne.
      * intros _ Hlive. split; [apply Hl2; intros; by apply Hlive|].
        eexists. rewrite lookup_insert_eq. split; [done|]. congruence.
    + destruct Ha as (Hv & He & Hn). split_and!; [by eapply wf_add_invalid|done|congruence].
Qed.

Definition all_valid (it : list (Z * Load)) : Prop :=
  forall id ld, (id, ld) ∈ it -> valid_expr (ld_CronExpression ld) = true.

Lemma sync_loads_spec it : forall st,
  wf st -> NoDup it.*1 -> (forall id ld, (id, ld) ∈ it -> ld_ID ld = id) ->
  let st' := (sync_loads it st).1 in
  wf st' /\ (forall j, j ∉ it.*1 -> st'.2 !! j = st.2 !! j)
  /\ (all_valid it -> live st ->
      live st' /\ forall id ld, (id, ld) ∈ it ->
        exists e, st'.2 !! id = Some (mkScheduled ld e)
        /\ forall sl, st.2 !! id = Some sl ->
             ld_CronExpression (sl_load sl) = ld_CronExpression ld -> e = sl_entryID sl).
Proof.
  induction it as [|[id ld] it IH]; intros st Hwf Hnd Hids.
  { simpl. split_and!; [done|done|]. intros _ Hl. split; [done|]. set_solver. }
  cbn [sync_loads]. unfold bindM. pose proof (sync_load_spec id ld st Hwf) as Hs.
  destruct (sync_load id ld st) as [st1 u]. cbv zeta in *. simpl in Hs.
  destruct Hs as (Hwf1 & Hoth & Hok); [apply Hids; set_solver|].
  rewrite fmap_cons, NoDup_cons in Hnd. destruct Hnd as [Hni Hnd]. simpl in Hni.
  destruct (IH st1 Hwf1 Hnd) as (Hwf2 & Hoth2 & Hok2); [intros; apply Hids; set_solver|].
  split_and!; [done| |].
  - intros j Hj. rewrite fmap_cons in Hj. simpl in Hj. rewrite Hoth2 by set_solver. set_solver.
  - intros Hv Hl. destruct (Hok ltac:(apply (Hv id ld); set_solver) Hl) as (Hl1 & e & He & Hsame).
    destruct (Hok2 ltac:(intros ???; apply (Hv id0 ld0); set_solver) Hl1) as (Hl2 & Hall).
    split; [done|]. intros i l [[= -> ->]|Hin]%elem_of_cons.
    + exists e. by rewrite Hoth2.
    + destruct (Hall i l Hin) as (e' & He' & Hs'). exists e'. split; [done|].
      assert (i <> id) by (intros ->; apply Hni, list_elem_of_fmap; by exists (id, l)).
      rewrite Hoth in Hs' by done. done.
Qed.

Lemma remove_stale_spec desired it : forall st,
  wf st -> NoDup it.*1 -> (forall id sl, (id, sl) ∈ it -> st.2 !! id = Some sl) ->
  let st' := (remove_stale desired it st).1 in
  wf st' /\ (live st -> live st')
  /\ (forall j, is_Some (desired !! j) \/ j ∉ it.*1 -> st'.2 !! j = st.2 !! j)
  /\ (forall j, j ∈ it.*1 -> desired !! j = None -> st'.2 !! j = None).
Proof.
  induction it as [|[id sl] it IH]; intros [c sched] Hwf Hnd Hin.
  { simpl. split_and!; auto. set_solver. }
  cbn [remove_stale]. unfold bindM. rewrite fmap_cons, NoDup_cons in Hnd.
  destruct Hnd as [Hni Hnd]. simpl in Hni, Hin.
  assert (Hs : sched !! id = Some sl) by (apply Hin; set_solver).
  assert (Hne : forall j sj, (j, sj) ∈ it -> j <> id).
  { intros j sj Hj ->. apply Hni, list_elem_of_fmap. by exists (id, sj). }
  destruct (desired !! id) as [ld|] eqn:Ed.
  - destruct (IH (c, sched) Hwf Hnd) as (Hwf1 & Hl1 & Hoth & Hgone); [intros; apply Hin; set_solver|].
    split_and!; [done|done| |].
    + intros j Hj. apply Hoth. set_solver.
    + intros j Hj Hdj. apply Hgone; [|done]. rewrite fmap_cons in Hj. simpl in Hj.
      apply elem_of_cons in Hj as [->|]; [congruence|done].
  - destruct (wf_remove _ _ _ _ Hwf Hs) as [Hwf0 Hl0].
    destruct (IH _ Hwf0 Hnd) as (Hwf1 & Hl1 & Hoth & Hgone).
    { intros j sj Hj. simpl. rewrite lookup_delete_ne by (apply not_eq_sym; eauto).
      apply Hin. set_solver. }
    split_and!; [done|auto| |].
    + intros j Hj. assert (j <> id) by (destruct Hj as [[? ?]|?]; [congruence|set_solver]).
      rewrite Hoth by set_solver. simpl. by rewrite lookup_delete_ne.
    + intros j Hj Hdj. destruct (decide (j ∈ it.*1)) as [Hit|Hit]; [by apply Hgone|].
      rewrite Hoth by (by right). simpl.
      rewrite fmap_cons in Hj. apply elem_of_cons in Hj as [->|?]; [apply lookup_delete_eq|done].
Qed.

Lemma desired_by_id_key desired : map_Forall (fun id ld => ld_ID ld = id) (desired_by_id desired).
Proof.
  unfold desired_by_id. assert (H : map_Forall (fun id ld => ld_ID ld = id) (∅ : gmap Z Load))
    by apply map_Forall_empty.
  revert H. generalize (∅ : gmap Z Load). induction desired as [|ld l IH]; intros m Hm; simpl; [done|].
  apply IH, map_Forall_insert_2; done.
Qed.

Lemma order_keys {A} (m : gmap Z A) : NoDup (order A m).*1.
Proof. rewrite Horder. apply NoDup_fst_map_to_list. Qed.

Lemma order_elem {A} (m : gmap Z A) id a : (id, a) ∈ order A m <-> m !! id = Some a.
Proof. rewrite Horder. apply elem_of_map_to_list. Qed.

Lemma order_dom {A} (m : gmap Z A) id : id ∈ (order A m).*1 <-> is_Some (m !! id).
Proof.
  rewrite list_elem_of_fmap. split.
  - intros ([? a] & -> & H%order_elem). by eexists.
  - intros [a H]. exists (id, a). by rewrite order_elem.
Qed.

(** ** Reload *)

Abbreviation State := (@State C R).
Abbreviation reconcile := (reconcile order).
Abbreviation Reload := (Reload order).

Definition sched_of (s : State) : Sched := (s_cron s, s_scheduled s).

Lemma reconcile_spec fp desired s :
  wf (sched_of s) ->
  let s' := reconcile fp desired s in
  let byID := desired_by_id desired in
  wf (sched_of s')
  /\ (all_valid (order _ byID) -> live (sched_of s) ->
      live (sched_of s')
      /\ (forall id, sl_load <$> s_scheduled s' !! id = byID !! id)
      /\ (forall id sl ld, s_scheduled s !! id = Some sl -> byID !! id = Some ld ->
            ld_CronExpression (sl_load sl) = ld_CronExpression ld ->
            s_scheduled s' !! id = Some (mkScheduled ld (sl_entryID sl)))).
Proof.
  intros Hwf. cbv zeta. unfold Scheduler.reconcile, bindM.
  pose proof (remove_stale_spec (desired_by_id desired) (order _ (s_scheduled s)) (sched_of s) Hwf
    (order_keys _) (fun id sl => proj1 (order_elem _ id sl))) as Hrm.
  change (s_cron s, s_scheduled s) with (sched_of s).
  destruct (remove_stale _ _ _) as [st1 u]. destruct Hrm as (Hwf1 & Hl1 & Hkeep & Hgone). simpl in *.
  pose proof (sync_loads_spec (order _ (desired_by_id desired)) st1 Hwf1 (order_keys _)) as Hsy.
  destruct (sync_loads _ _) as [[c2 sched2] u2]. destruct Hsy as (Hwf2 & Hoth & Hok).
  { intros id ld Hin%order_elem. by apply (desired_by_id_key desired). }
  simpl in *. split; [done|]. intros Hv Hl. destruct (Hok Hv (Hl1 Hl)) as [Hl2 Hall].
  split_and!; [done| |].
  - intros id. destruct (desired_by_id desired !! id) as [ld|] eqn:Ed.
    + destruct (Hall id ld) as (e & -> & _); [by apply order_elem|]. done.
    + rewrite Hoth by (rewrite order_dom, Ed; by intros []).
      destruct (s_scheduled s !! id) eqn:Es.
      * rewrite Hgone; [done|by apply order_dom; rewrite Es|done].
      * rewrite Hkeep; [by rewrite Es|]. right. rewrite order_dom, Es. by intros [].
  - intros id sl ld Hs Hd Hx. destruct (Hall id ld) as (e & -> & He); [by apply order_elem|].
    rewrite (He sl); [done| |done]. rewrite Hkeep; [done|]. left. by rewrite Hd.
Qed.

(** C17. A reload makes the schedule match the metadata.  When every enabled
    load has a cron expression that parses and every recorded load has its cron
    entry, then after [Reload]'s reconciliation the recorded loads are exactly
    the enabled loads with their current definitions, cron fires exactly these
    loads with exactly their expressions, each load has one cron entry, and a
    load whose expression did not change keeps the entry it had. *)
Theorem reload_reconciles fp desired s
    (Hwf : wf (sched_of s)) (Hlive : live (sched_of s))
    (Hvalid : all_valid (order _ (desired_by_id desired))) :
  let s' := reconcile fp desired s in
  let byID := desired_by_id desired in
  (forall id, sl_load <$> s_scheduled s' !! id = byID !! id)
  /\ (forall id x, (exists e, cron_entries (s_cron s') !! e = Some (x, id))
        <-> exists ld, byID !! id = Some ld /\ ld_CronExpression ld = x)
  /\ (forall e1 e2 x1 x2 id, cron_entries (s_cron s') !! e1 = Some (x1, id) ->
        cron_entries (s_cron s') !! e2 = Some (x2, id) -> e1 = e2)
  /\ (forall id sl ld, s_scheduled s !! id = Some sl -> byID !! id = Some ld ->
        ld_CronExpression (sl_load sl) = ld_CronExpression ld ->
        s_scheduled s' !! id = Some (mkScheduled ld (sl_entryID sl))).
Proof.
  destruct (reconcile_spec fp desired s Hwf) as ((H1 & _ & _) & Hok).
  destruct (Hok Hvalid Hlive) as (Hl & Hdom & Hkeep). cbv zeta. split_and!; [done| | |done].
  - intros id x. split.
    + intros [e He]. destruct (H1 _ _ _ He) as (sl & Hs & _ & Hx). simpl in Hs.
      exists (sl_load sl). rewrite <- Hdom, Hs. done.
    + intros (ld & Hd & Hx). rewrite <- Hdom in Hd.
      apply fmap_Some in Hd as (sl & Hs & ->). exists (sl_entryID sl). rewrite <- Hx. by apply Hl.
  - intros e1 e2 x1 x2 id He1 He2. destruct (H1 _ _ _ He1) as (s1 & Hs1 & <- & _).
    destruct (H1 _ _ _ He2) as (s2 & Hs2 & <- & _). simpl in *. congruence.
Qed.

(** C18. [Reload] and the startup [Load] keep the schedule consistent whatever
    happens: no load ever gets a second cron entry or one with an expression
    other than the recorded one, with expressions that do not parse and failing
    queries included; and a failed call changes neither the schedule nor the
    stored fingerprint. *)
Theorem reload_consistent s (Hwf : wf (sched_of s)) :
  (let '(s', e) := Reload s in
   wf (sched_of s')
   /\ (e <> None -> sched_of s' = sched_of s /\ s_fingerprint s' = s_fingerprint s))
  /\ (let '(s', e) := Load_ order s in
   wf (sched_of s')
   /\ (e <> None -> sched_of s' = sched_of s /\ s_fingerprint s' = s_fingerprint s)).
Proof.
  assert (HR' : forall s, wf (sched_of s) -> let '(s', e) := Reload s in
    wf (sched_of s')
    /\ (e <> None -> sched_of s' = sched_of s /\ s_fingerprint s' = s_fingerprint s)).
  { clear s Hwf. intros s Hwf. unfold Scheduler.Reload, on_repo, bindM, retM.
    destruct (MetadataFingerprint (s_repo s)) as [r [fp|e]]; simpl; [|done].
    case_bool_decide; [by split|]. destruct (ListEnabledLoads r) as [r2 [desired|e]]; simpl; [|done].
    split; [|done]. by apply reconcile_spec. }
  split; [by apply HR'|]. unfold Load_, bindM, on_repo, retM.
  destruct (AbortRunningRuns _ (s_repo s)) as [r [n|e]]; [|by split].
  exact (HR' (mkState (s_cron s) r (s_registry s) (s_scheduled s) (s_running s) (s_fingerprint s)) Hwf).
Qed.

End Reload.

(** ** Overlap *)

(** The load whose run a goroutine has claimed. *)
Definition claims (th : Trig) : option Z :=
  match th with Acquired id _ | Executing id _ => Some id | Fired _ | Leaving _ => None end.

(** The goroutines that the wait group counts. *)
Definition counted (th : Trig) : Prop :=
  match th with Executing _ _ | Leaving _ => True | Fired _ | Acquired _ _ => False end.
#[export] Instance counted_dec th : Decision (counted th).
Proof. destruct th; simpl; apply _. Defined.

Definition n_counted (ts : gmap nat Trig) : Z :=
  Z.of_nat (size (filter (fun kv => counted kv.2) ts)).

(** The guard's set is the set of claimed loads, and no load is claimed twice. *)
Definition claims_ok (R : gset Z) (ts : gmap nat Trig) : Prop :=
  (forall id, id ∈ R <-> exists t th, ts !! t = Some th /\ claims th = Some id)
  /\ (forall t1 t2 th1 th2 id, ts !! t1 = Some th1 -> ts !! t2 = Some th2 ->
        claims th1 = Some id -> claims th2 = Some id -> t1 = t2).

Definition sys_inv (y : Sys) : Prop :=
  claims_ok (y_running y) (y_threads y) /\ y_wg y = n_counted (y_threads y).

Definition bit (th : option Trig) : Z :=
  match th with Some x => if decide (counted x) then 1 else 0 | None => 0 end.

Lemma n_counted_delete ts t : n_counted (delete t ts) = n_counted ts - bit (ts !! t).
Proof.
  unfold n_counted. rewrite map_filter_delete. destruct (ts !! t) as [th|] eqn:E; simpl.
  - case_decide as Hc.
    + rewrite map_size_delete_Some by (eexists; by apply map_lookup_filter_Some).
      assert (0 < size (filter (fun kv => counted kv.2) ts))%nat; [|lia].
      apply Nat.neq_0_lt_0. intros H0%map_size_empty_inv.
      assert (Hl : filter (fun kv => counted kv.2) ts !! t = Some th) by (by apply map_lookup_filter_Some).
      rewrite H0 in Hl. done.
    + rewrite delete_id; [lia|]. apply map_lookup_filter_None. right. intros ? ?. by simplify_eq.
  - rewrite delete_id; [lia|]. apply map_lookup_filter_None. by left.
Qed.

Lemma n_counted_insert ts t th :
  n_counted (<[t := th]> ts) = n_counted ts - bit (ts !! t) + bit (Some th).
Proof.
  rewrite <- insert_delete_eq, <- n_counted_delete. unfold n_counted. simpl. case_decide as Hc.
  - rewrite map_filter_insert_True by done.
    rewrite map_size_insert_None by (apply map_lookup_filter_None; left; apply lookup_delete_eq). lia.
  - rewrite map_filter_insert_not' by (done || (intros ?; by rewrite lookup_delete_eq)). lia.
Qed.

(** What a step of one goroutine does to the claims. *)
Lemma claims_change (ts ts' : gmap nat Trig) t th' (R R' : gset Z) :
  claims_ok R ts ->
  (forall t', t' <> t -> ts' !! t' = ts !! t') -> ts' !! t = th' ->
  (forall id, id ∈ R' <->
     (th' ≫= claims) = Some id \/ (id ∈ R /\ (ts !! t ≫= claims) <> Some id)) ->
  (forall id, (th' ≫= claims) = Some id -> id ∈ R -> (ts !! t ≫= claims) = Some id) ->
  claims_ok R' ts'.
Proof.
  intros [HR Hu] Hoth Ht HR' Hnew.
  assert (Hex : forall t1 t2 th id, ts !! t1 = Some th -> claims th = Some id ->
    (ts !! t2 ≫= claims) = Some id -> t1 = t2).
  { intros t1 t2 th id H1 H2 (th2 & Ht2 & Hc2)%bind_Some. eauto. }
  assert (Huniq : forall t2 th2 id, t2 <> t -> ts !! t2 = Some th2 -> claims th2 = Some id ->
    (th' ≫= claims) = Some id -> False).
  { intros t2 th2 id Hne H2 Hc2 Hc. apply Hne. eapply Hex; [done..|].
    apply Hnew; [done|]. apply HR. eauto. }
  split.
  - intros id. rewrite HR'. split.
    + intros [Hc|[Hin Hold]].
      * apply bind_Some in Hc as (th & -> & Hc). eauto.
      * apply HR in Hin as (t1 & th1 & H1 & Hc1). exists t1, th1.
        rewrite Hoth; [done|]. intros ->. apply Hold. by rewrite H1.
    + intros (t1 & th1 & H1 & Hc1). destruct (decide (t1 = t)) as [->|Hne].
      * left. rewrite <- Ht, H1. done.
      * right. rewrite Hoth in H1 by done. split; [apply HR; eauto|].
        intros Hold. by apply Hne, (Hex t1 t th1 id).
  - intros t1 t2 th1 th2 id H1 H2 Hc1 Hc2.
    destruct (decide (t1 = t)) as [->|Hn1], (decide (t2 = t)) as [->|Hn2]; try done.
    + rewrite Hoth in H2 by done. destruct (Huniq t2 th2 id); try done. by rewrite <- Ht, H1.
    + rewrite Hoth in H1 by done. destruct (Huniq t1 th1 id); try done. by rewrite <- Ht, H2.
    + rewrite Hoth in H1, H2 by done. eauto.
Qed.

Lemma claims_insert ts t th R R' :
  claims_ok R ts ->
  (forall id, id ∈ R' <->
     claims th = Some id \/ (id ∈ R /\ (ts !! t ≫= claims) <> Some id)) ->
  (forall id, claims th = Some id -> id ∈ R -> (ts !! t ≫= claims) = Some id) ->
  claims_ok R' (<[t := th]> ts).
Proof.
  intros Hc HR Hn. eapply (claims_change ts _ t (Some th)); [done| |apply lookup_insert_eq|done..].
  intros. by rewrite lookup_insert_ne.
Qed.

Lemma claims_delete ts t th R :
  claims_ok R ts -> ts !! t = Some th -> claims th = None -> claims_ok R (delete t ts).
Proof.
  intros Hc Ht Hn. eapply (claims_change ts _ t None); [done| |apply lookup_delete_eq| |done].
  - intros. by rewrite lookup_delete_ne.
  - intros id. rewrite Ht. simpl. rewrite Hn. naive_solver.
Qed.

Lemma sys_step_inv y y' : sys_step y y' -> sys_inv y -> sys_inv y'.
Proof.
  intros Hst [Hc Hwg]. unfold sys_inv.
  destruct Hst as [t id sc rn wg ts ms Ht|t id sc rn rn' o wg ts ms ph Ht He
    |t id ld sc rn wg ts ms ph Ht|t id ld sc rn wg ts ms ph Ht|t id sc rn wg ts ms ph Ht
    |sc sc' rn wg ts ms ph|sc rn wg ts ms|sc rn wg ts ms Hz|sc rn wg ts ms|sc rn wg ts ms b];
    simpl in *; try done.
  - rewrite n_counted_insert, Ht. simpl. split; [|lia].
    eapply claims_insert; [done|rewrite Ht; naive_solver|done].
  - unfold trigger_enter in He. destruct (sc !! id) as [entry|]; [case_bool_decide as Hin|];
      simplify_eq; simpl; rewrite ?n_counted_delete, ?n_counted_insert, Ht; simpl; (split; [|lia]).
    1,3: by eapply claims_delete.
    eapply claims_insert; [done|rewrite Ht; set_solver|]. by intros ? [= <-] ?.
  - rewrite n_counted_insert, Ht. simpl. split; [|lia].
    eapply claims_insert; [done|rewrite Ht; simpl|by rewrite Ht].
    intros i. split; [|intros [[= <-]|?]; [|naive_solver]].
    + intros Hi. destruct (decide (i = id)) as [->|]; [by left|right]. split; [done|congruence].
    + apply Hc. by eexists t, _.
  - rewrite n_counted_insert, Ht. simpl. split; [|lia].
    eapply claims_insert; [done|rewrite Ht; simpl|done].
    unfold trigger_exit. intros i. rewrite elem_of_difference, elem_of_singleton. naive_solver.
  - rewrite n_counted_delete, Ht. simpl. split; [|lia]. by eapply claims_delete.
Qed.

Lemma sys_reachable_inv y : sys_reachable y -> sys_inv y.
Proof.
  induction 1 as [|y y' _ IH Hst]; [|by eapply sys_step_inv]. split; [split|]; simpl.
  - intros id. split; [set_solver|]. by intros (t & th & ? & _).
  - done.
  - reflexivity.
Qed.

(** C16. Runs of a load never overlap.  However cron fires, reloads happen and
    runs end, no two goroutines are ever past the overlap guard of [trigger]
    for the same load, the guard's [running] set is exactly the set of loads
    that have such a goroutine, so a trigger is skipped (and counted as a skip)
    exactly when a run of that load is in flight; and when the wait group is at
    zero no run is executing. *)
Theorem trigger_no_overlap y (Hr : sys_reachable y) :
  (forall t1 t2 th1 th2 id, y_threads y !! t1 = Some th1 -> y_threads y !! t2 = Some th2 ->
     claims th1 = Some id -> claims th2 = Some id -> t1 = t2)
  /\ (forall id sl, y_scheduled y !! id = Some sl ->
        trigger_enter id (y_scheduled y) (y_running y)
        = (if bool_decide (id ∈ y_running y)
           then (y_running y, Overlap (Metrics.ObserveOverlapSkip (ld_Name (sl_load sl))))
           else ({[id]} ∪ y_running y, Run (sl_load sl)))
        /\ (id ∈ y_running y <-> exists t th, y_threads y !! t = Some th /\ claims th = Some id))
  /\ (y_wg y = 0 -> forall t th, y_threads y !! t = Some th -> ~ counted th).
Proof.
  destruct (sys_reachable_inv y Hr) as [[HR Hu] Hwg]. split_and!; [done| |].
  - intros id sl Hs. split; [|by apply HR]. unfold trigger_enter. by rewrite Hs.
  - intros H0 t th Ht Hc. pose proof (n_counted_delete (y_threads y) t) as Hd.
    rewrite Ht in Hd. simpl in Hd. rewrite decide_True in Hd by done. unfold n_counted in *. lia.
Qed.

(** [trigger] joins the wait group only after it has released the lock, so
    [Stop] can see the counter at zero, finish without a timeout and abort the
    run rows, and the run starts to execute after that. *)
Theorem stop_misses_run : exists y t id ld,
  sys_reachable y /\ y_phase y = Stopped /\ y_threads y !! t = Some (Executing id ld)
  /\ exists y0, sys_reachable y0 /\ y_phase y0 = Waited false /\ y_threads y0 !! t = Some (Acquired id ld).
Proof.
  set (ld := mkLoad 1 1 (mkSource 1 "" "" "" "" true false) "" "" "" "" "" "" "" 0 true "" true false).
  set (sc := {[ 1 := mkScheduled ld 1 ]} : gmap Z scheduledLoad).
  assert (H0 : sys_reachable (mkSys sc ({[1]} ∪ ∅) 0
    (<[0%nat := Acquired 1 ld]> (<[0%nat := Fired 1]> ∅)) [] (Waited false))).
  { eapply y_next; [eapply y_next; [eapply y_next; [eapply y_next; [eapply y_next;
      [apply y_init|apply (y_reload _ sc)]|by apply (y_fire 0%nat 1)]|]|apply y_stop]|by apply y_waited].
    eapply (y_enter 0%nat 1 _ _ _ (Run ld)); [apply lookup_insert_eq|reflexivity]. }
  eexists _, 0%nat, 1, ld. split_and!.
  - eapply y_next; [eapply y_next; [exact H0|apply y_abort]|].
    apply (y_add 0%nat 1 ld). apply lookup_insert_eq.
  - done.
  - apply lookup_insert_eq.
  - eexists. split_and!; [exact H0|done|apply lookup_insert_eq].
Qed.

End SchedulerProofs.
