(* ===== verification/SchedulerInstances.v ===== *)
(** * The scheduler at concrete inputs

    A cron in memory that meets [SchedulerProofs.CronSpec], the scheduler's
    theorems applied to it, and the schedule that is lost when an invalid cron
    expression is taken back. *)

From S2P Require Import Prelude.
From S2P Require Import Contracts.
From S2P Require Import Models.
From S2P Require Import Runstate.
From S2P Require Import Metrics.
From S2P Require Import Scheduler.
From S2P Require Import SchedulerProofs.
From Stdlib Require Import ZArith Lia.

Module SchedulerInstances.
Import Contracts Metadata Scheduler SchedulerProofs.

#[local] Obligation Tactic := idtac.

Record MemCron := mkMemCron { mc_entries : gmap Z (string * Z); mc_next : Z }.

(** Expressions parse unless they are "bad". *)
Definition mc_valid (x : string) : bool := negb (bool_decide (x = "bad")).

#[export] Instance mem_cron : Cron MemCron := {|
  AddFunc := fun x id c =>
    if mc_valid x
    then (mkMemCron (<[mc_next c := (x, id)]> (mc_entries c)) (mc_next c + 1), Ok (mc_next c))
    else (c, Err "parse error");
  Remove := fun e c => (mkMemCron (delete e (mc_entries c)) (mc_next c), tt);
|}.

#[export] Program Instance mem_cron_spec : CronSpec MemCron := {|
  cron_entries := mc_entries; cron_next := mc_next; valid_expr := mc_valid;
|}.
Next Obligation. intros x id c. simpl. by destruct (mc_valid x). Qed.
Next Obligation. done. Qed.

(** A repository that returns the loads it holds. *)
Record MemRepo := mkMemRepo { mr_fp : string; mr_loads : list Load }.

#[export] Instance mem_repo : RunAborter MemRepo := {|
  AbortRunningRuns := fun _ r => (r, Ok 0);
  ListEnabledLoads := fun r => (r, Ok (mr_loads r));
  MetadataFingerprint := fun r => (r, Ok (mr_fp r));
|}.

Definition in_order (A : Type) (m : gmap Z A) : list (Z * A) := map_to_list m.

Lemma in_order_perm A (m : gmap Z A) : in_order A m ≡ₚ map_to_list m.
Proof. done. Qed.

Definition ex_ld (id : Z) (cron : string) : Load :=
  mkLoad id 1 (mkSource 1 "erp" "postgres" "" "{}" true false) "orders" "orders" "dbo" "orders"
    "append" "" "none" 100 true cron true false.

Definition ex_start (loads : list Load) : @State MemCron MemRepo :=
  mkState (mkMemCron ∅ 1) (mkMemRepo "fp1" loads) (Runstate.New 0) ∅ ∅ "".

Lemma ex_start_wf loads : wf (sched_of (ex_start loads)) /\ live (sched_of (ex_start loads)).
Proof. done. Qed.

Lemma reload_reconciles_witness :
  wf (sched_of (ex_start [])) /\ live (sched_of (ex_start []))
  /\ exists e, cron_entries (s_cron (reconcile in_order "fp" [ex_ld 4 "@daily"] (ex_start []))) !! e
       = Some ("@daily", 4).
Proof.
  destruct (ex_start_wf []) as [Hwf Hlive]. split_and!; [exact Hwf|exact Hlive|].
  apply (reload_reconciles in_order in_order_perm "fp" [ex_ld 4 "@daily"] (ex_start []) Hwf Hlive).
  - intros id ld [[= -> ->]|H]%elem_of_cons; [reflexivity|]. by apply elem_of_nil in H.
  - exists (ex_ld 4 "@daily"). split; reflexivity.
Defined.

Lemma reload_consistent_witness :
  wf (sched_of (ex_start [ex_ld 4 "bad"]))
  /\ wf (sched_of (Reload in_order (ex_start [ex_ld 4 "bad"])).1).
Proof.
  destruct (ex_start_wf [ex_ld 4 "bad"]) as [Hwf _]. split; [exact Hwf|].
  pose proof (proj1 (reload_consistent in_order in_order_perm (ex_start [ex_ld 4 "bad"]) Hwf)) as H.
  destruct (Reload _ _) as [s' e]. exact (proj1 H).
Defined.

(** Load 4 is scheduled and a run of it is in flight. *)
Definition ex_sched : gmap Z scheduledLoad := {[ 4 := mkScheduled (ex_ld 4 "@daily") 1 ]}.
Definition ex_sys : Sys :=
  mkSys ex_sched ({[4]} ∪ ∅) 0
    (<[0%nat := Acquired 4 (ex_ld 4 "@daily")]> (<[0%nat := Fired 4]> ∅)) [] Up.

Lemma ex_sys_reachable : sys_reachable ex_sys.
Proof.
  eapply y_next; [eapply y_next; [eapply y_next;
    [apply y_init|apply (y_reload _ ex_sched)]|by apply (y_fire 0%nat 4)]|].
  eapply (y_enter 0%nat 4 _ _ _ (Run (ex_ld 4 "@daily"))); [apply lookup_insert_eq|reflexivity].
Qed.

(** A second trigger of it is skipped. *)
Lemma trigger_no_overlap_witness :
  sys_reachable ex_sys
  /\ trigger_enter 4 ex_sched (y_running ex_sys)
     = (y_running ex_sys, Overlap (Metrics.ObserveOverlapSkip "orders")).
Proof.
  split; [exact ex_sys_reachable|].
  destruct (trigger_no_overlap ex_sys ex_sys_reachable) as (_ & H & _).
  destruct (H 4 (mkScheduled (ex_ld 4 "@daily") 1) eq_refl) as [He _].
  etransitivity; [exact He|]. vm_compute. reflexivity.
Defined.

(** The expression of a scheduled load is edited to one that does not parse
    and then set back.  The failed update has removed the cron entry but kept
    the record with the old expression, so the second reload sees no change:
    the load is enabled, recorded, reported in [/status], and never fires. *)
Theorem reload_loses_schedule :
  let good := ex_ld 4 "@daily" in
  let s1 := reconcile in_order "fp1" [good] (ex_start []) in
  let s2 := reconcile in_order "fp2" [ex_ld 4 "bad"] s1 in
  let s3 := reconcile in_order "fp3" [good] s2 in
  mc_entries (s_cron s1) = {[ 1 := ("@daily", 4) ]}
  /\ sl_load <$> s_scheduled s3 !! 4 = Some good
  /\ mc_entries (s_cron s3) = ∅.
Proof. split_and!; vm_compute; reflexivity. Qed.

End SchedulerInstances.
