(* ===== verification/Modbus.v ===== *)
(** * The Modbus source (internal/sources/modbus)

    Decoding of registers into float64 values, and a polling cycle over the
    tags of a load.  The Modbus client is a parameter. *)

From S2P Require Import Prelude.
From S2P Require Import GoStrings.
From S2P Require Import Url.
From S2P Require Import Contracts.
From S2P Require Import Metrics.
From Stdlib Require Import ZArith Lia SpecFloat.

Module Modbus.
Import GoStrings Contracts.

(** ** Bytes and integers (encoding/binary)

    A byte is a [Z] from 0 to 255, a buffer a list of bytes. *)

Definition byte_at (k i : Z) : Z := Z.land (Z.shiftr k (8 * i)) 255.

Fixpoint BigEndian (acc : Z) (b : list Z) : Z :=
  match b with [] => acc | x :: b' => BigEndian (Z.lor (Z.shiftl acc 8) x) b' end.

Fixpoint LittleEndian (b : list Z) : Z :=
  match b with [] => 0 | x :: b' => Z.lor x (Z.shiftl (LittleEndian b') 8) end.

(** [binary.{Big,Little}Endian.Uint{16,32,64}(buf)] for [n] bytes. *)
Definition uint (le : bool) (n : nat) (buf : list Z) : Z :=
  if le then LittleEndian (take n buf) else BigEndian 0 (take n buf).

(** [binary.BigEndian.PutUint16] *)
Definition put_uint16 (r : Z) : list Z := [byte_at r 1; byte_at r 0].

(** Conversion of a [w]-bit unsigned integer to a signed one. *)
Definition to_signed (w u : Z) : Z := if u <? 2 ^ (w - 1) then u else u - 2 ^ w.

(** ** Floats (IEEE 754 binary64, rounding to nearest even) *)

Definition prec64 : Z := 53.
Definition emax64 : Z := 1024.

(** [float64(v)] of an integer. *)
Definition float64_of_Z (z : Z) : spec_float := binary_normalize prec64 emax64 z 0 false.

(** [math.Float{32,64}frombits] for a format with [mb] mantissa bits and [eb]
    exponent bits. *)
Definition float_of_bits (mb eb : Z) (bits : Z) : spec_float :=
  let m := Z.land bits (2 ^ mb - 1) in
  let e := Z.land (Z.shiftr bits mb) (2 ^ eb - 1) in
  let s := Z.testbit bits (mb + eb) in
  let bias := 2 ^ (eb - 1) - 1 in
  if e =? 2 ^ eb - 1 then if m =? 0 then S754_infinity s else S754_nan
  else if e =? 0 then
    match m with Zpos p => S754_finite s p (1 - bias - mb) | _ => S754_zero s end
  else match 2 ^ mb + m with Zpos p => S754_finite s p (e - bias - mb) | _ => S754_zero s end.

(** [float64(f)] of a float32, which is exact. *)
Definition widen (f : spec_float) : spec_float :=
  match f with
  | S754_finite s p e => binary_normalize prec64 emax64 (cond_Zopp s (Zpos p)) e s
  | _ => f
  end.

Definition float64_mul := SFmul prec64 emax64.
Definition float64_add := SFadd prec64 emax64.

Definition IsNaN (f : spec_float) : bool := match f with S754_nan => true | _ => false end.
Definition IsInf (f : spec_float) : bool := match f with S754_infinity _ => true | _ => false end.

(** ** Decoding *)

(** The register types that a Modbus client reads. *)
Inductive RegType := HOLDING_REGISTER | INPUT_REGISTER.
Inductive Endianness := BIG_ENDIAN | LITTLE_ENDIAN.
Inductive WordOrder := HIGH_WORD_FIRST | LOW_WORD_FIRST.

Definition endianness (s : string) : Endianness :=
  if EqualFold s "little" then LITTLE_ENDIAN else BIG_ENDIAN.

Definition wordOrder (s : string) : WordOrder :=
  if EqualFold s "low_first" then LOW_WORD_FIRST else HIGH_WORD_FIRST.

Definition nullIfEmpty (s : string) : any := if bool_decide (s = "") then ANil else AString s.

(** The data types of [decodeNumeric]: name, size in bytes, reading of the
    unsigned integer. *)
Definition decodeNumeric (buf : list Z) (dataType byteOrder : string) : result spec_float :=
  let le := EqualFold byteOrder "little" in
  let dt := ToLower dataType in
  let need (n : nat) (f : Z -> spec_float) :=
    if (length buf <? n)%nat
    then Err (dt +:+ " needs " +:+ fmt_d (Z.of_nat n) +:+ " bytes")
    else Ok (f (uint le n buf)) in
  if bool_decide (dt = "int16") then need 2%nat (fun u => float64_of_Z (to_signed 16 u))
  else if bool_decide (dt = "uint16") then need 2%nat float64_of_Z
  else if bool_decide (dt = "int32") then need 4%nat (fun u => float64_of_Z (to_signed 32 u))
  else if bool_decide (dt = "uint32") then need 4%nat float64_of_Z
  else if bool_decide (dt = "int64") then need 8%nat (fun u => float64_of_Z (to_signed 64 u))
  else if bool_decide (dt = "uint64") then need 8%nat float64_of_Z
  else if bool_decide (dt = "float32") then need 4%nat (fun u => widen (float_of_bits 23 8 u))
  else if bool_decide (dt = "float64") then need 8%nat (float_of_bits 52 11)
  else Err ("unsupported data type " +:+ fmt_q dataType).

Definition quantityFor (dataType : string) (override : Z) : Z :=
  if 0 <? override then override
  else
    let dt := ToLower dataType in
    if bool_decide (dt ∈ ["int16"; "uint16"]) then 1
    else if bool_decide (dt ∈ ["int32"; "uint32"; "float32"]) then 2
    else if bool_decide (dt ∈ ["int64"; "uint64"; "float64"]) then 4
    else 1.

(** [out[i*2] = buf[srcHi]; out[i*2+1] = buf[srcHi+1]] for every word [i];
    a last odd byte of [out] stays zero. *)
Definition swapWords (buf : list Z) : list Z :=
  let words := (length buf / 2)%nat in
  concat (map (fun i =>
      let srcHi := ((words - 1 - i) * 2)%nat in
      [nth srcHi buf 0; nth (srcHi + 1) buf 0]) (seq 0 words))
  ++ replicate (length buf mod 2) 0.

(** The registers as a buffer, high word first. *)
Definition register_buffer (order : string) (regs : list Z) : list Z :=
  let buf := concat (map put_uint16 regs) in
  if EqualFold order "low_first" && (2 <=? length regs)%nat then swapWords buf else buf.

(** From the registers to the scaled value; no fused multiply-add. *)
Definition decode_registers (tag : ModbusPoint) (regs : list Z) : result spec_float :=
  match decodeNumeric (register_buffer (mp_WordOrder tag) regs) (mp_DataType tag) (mp_ByteOrder tag) with
  | Err e => Err e
  | Ok raw =>
      let scaled := float64_add (float64_mul raw (mp_Scale tag)) (mp_Offset tag) in
      if IsNaN scaled || IsInf scaled then Err "decoded value is NaN/Inf"
      else Ok scaled
  end.

(** ** A polling cycle *)

Class ModbusClient (C : Type) := {
  SetUnitId : Z -> M C (option error);
  SetEncoding : Endianness -> WordOrder -> M C (option error);
  ReadCoils : Z -> Z -> M C (result (list bool));
  ReadDiscreteInputs : Z -> Z -> M C (result (list bool));
  ReadRegisters : Z -> Z -> RegType -> M C (result (list Z));
}.

Section Read.
Context {C : Type} `{HC : ModbusClient C}.

Definition readRegisters (tag : ModbusPoint) (row : Row) : M C (option (Row * option error)) :=
  let regType := if bool_decide (ToLower (mp_RegisterType tag) = "input")
                 then INPUT_REGISTER else HOLDING_REGISTER in
  let quantity := quantityFor (mp_DataType tag) (mp_Quantity tag) in
  r <~ ReadRegisters (mp_Address tag) quantity regType ;;
  match r with
  | Err e => retM (Some (row, Some e))
  | Ok regs =>
      match decode_registers tag regs with
      | Err e => retM (Some (row, Some e))
      | Ok scaled => retM (Some (<["value_num" := AFloat64 scaled]> row, None))
      end
  end.

(** [vals[0]] of the bits that were read; [None] is the index panic. *)
Definition read_bit (r : result (list bool)) (row : Row) : option (Row * option error) :=
  match r with
  | Err e => Some (row, Some e)
  | Ok [] => None
  | Ok (v :: _) => Some (<["value_bool" := ABool v]> row, None)
  end.

Definition readTagInto (tag : ModbusPoint) (row : Row) : M C (option (Row * option error)) :=
  let rt := ToLower (mp_RegisterType tag) in
  if bool_decide (rt = "coil") then
    r <~ ReadCoils (mp_Address tag) 1 ;; retM (read_bit r row)
  else if bool_decide (rt = "discrete") then
    r <~ ReadDiscreteInputs (mp_Address tag) 1 ;; retM (read_bit r row)
  else if bool_decide (rt = "holding") || bool_decide (rt = "input") then
    readRegisters tag row
  else retM (Some (row, Some ("unknown register type " +:+ fmt_q (mp_RegisterType tag)))).

Definition columns : list Column := [
  mkColumn "correlation_id" "string" true;
  mkColumn "tag_name" "string" false;
  mkColumn "ts" "datetime" false;
  mkColumn "value_num" "float64" true;
  mkColumn "value_bool" "bool" true;
  mkColumn "value_text" "string" true;
  mkColumn "quality" "string" false].

Definition blank_row (tag : ModbusPoint) (pollTS : Time) : Row := {[
  "correlation_id" := nullIfEmpty (mp_CorrelationID tag);
  "tag_name" := AString (mp_TagName tag);
  "ts" := ATime pollTS;
  "value_num" := ANil;
  "value_bool" := ANil;
  "value_text" := ANil;
  "quality" := AString "good"]}.

(** [row["quality"] = "bad"; row["value_text"] = text] *)
Definition bad_row (text : string) (row : Row) : Row :=
  <["value_text" := AString text]> (<["quality" := AString "bad"]> row).

(** One tag: its row and whether [RowsRead] is incremented. *)
Definition read_tag (pollTS : Time) (tag : ModbusPoint) : M C (option (Row * bool)) :=
  let row := blank_row tag pollTS in
  e <~ SetUnitId (mp_UnitID tag) ;;
  match e with
  | Some err => retM (Some (bad_row ("set unit: " +:+ err) row, false))
  | None =>
      e2 <~ SetEncoding (endianness (mp_ByteOrder tag)) (wordOrder (mp_WordOrder tag)) ;;
      match e2 with
      | Some err => retM (Some (bad_row ("set encoding: " +:+ err) row, false))
      | None =>
          r <~ readTagInto tag row ;;
          retM (match r with
                | None => None
                | Some (row', Some err) => Some (bad_row err row', true)
                | Some (row', None) => Some (row', true)
                end)
      end
  end.

Fixpoint read_tags (pollTS : Time) (tags : list ModbusPoint) : M C (option (list Row * Z)) :=
  match tags with
  | [] => retM (Some ([], 0))
  | tag :: tags' =>
      r <~ read_tag pollTS tag ;;
      match r with
      | None => retM None
      | Some (row, counted) =>
          rest <~ read_tags pollTS tags' ;;
          retM (match rest with
                | None => None
                | Some (rows, n) => Some (row :: rows, n + if counted then 1 else 0)
                end)
      end
  end.

Definition is_bad (row : Row) : bool :=
  match row !! "quality" with Some (AString q) => bool_decide (q = "bad") | _ => false end.

Definition bad_count (rows : list Row) : Z :=
  Z.of_nat (length (filter (fun r => is_bad r = true) rows)).

(** [s.cfg.Telemetry]: [None] when it is nil. *)
Context (telemetry : option (Z -> M C (result (list ModbusPoint)))).

(** [Read] up to and including the call of the handler; [None] is a panic. *)
Definition Read (load : LoadConfig) (pollTS : Time) :
    M C (option (list Metrics.MetricCall * ReadProg)) :=
  match telemetry with
  | None => retM (Some ([], Done zero_result (Some "modbus telemetry catalog not configured")))
  | Some ListModbusTags =>
      r <~ ListModbusTags (lc_LoadID load) ;;
      match r with
      | Err e => retM (Some ([], Done zero_result (Some (errorf "load tags" e))))
      | Ok [] => retM (Some ([], Done zero_result None))
      | Ok tags =>
          rs <~ read_tags pollTS tags ;;
          retM (match rs with
                | None => None
                | Some (rows, n) =>
                    let result := mkReadResult n zero_watermark false in
                    Some (Metrics.ObserveBadQuality (lc_Name load) (bad_count rows),
                      Emit (mkBatch columns rows) (fun e => Done result e))
                end)
      end
  end.

(** [Open] up to the calls of the client library: the URL and the timeout it
    is called with. *)
Definition open_config (cfg : SourceConfig) : result (string * Duration) :=
  let param k := default "" (sc_Params cfg !! k) in
  let host := param "host" in
  if bool_decide (host = "") then Err "modbus source requires 'host' param"
  else
    let port := if bool_decide (param "port" = "") then "502" else param "port" in
    let t := Atoi_value (param "timeout_ms") in
    Ok (Url.url_string "tcp" "" "" (host +:+ ":" +:+ port) "" "",
        millis (if t <=? 0 then 2000 else t)).

End Read.
End Modbus.
