(* ===== verification/ModbusProofs.v ===== *)
(** * The Modbus source: properties

    Registers decode to the integers the device holds, in either word order;
    a polling cycle yields one row per tag whatever fails. *)

From S2P Require Import Prelude.
From S2P Require Import GoStrings.
From S2P Require Import Contracts.
From S2P Require Import Metrics.
From S2P Require Import Modbus.
From Stdlib Require Import ZArith Lia SpecFloat.

Module ModbusProofs.
Import GoStrings Contracts Modbus.

(** ** Bytes *)

Lemma land_shift_byte a x : 0 <= x < 256 -> Z.land (Z.shiftl a 8) x = 0.
Proof.
  intros Hx. apply Z.bits_inj'. intros n Hn. rewrite Z.land_spec, Z.bits_0.
  destruct (Z.lt_ge_cases n 8) as [Hlt|Hge].
  - by rewrite Z.shiftl_spec_low.
  - rewrite <- (Z.mod_small x (2 ^ 8)) by (change (2 ^ 8) with 256; lia).
    rewrite Z.mod_pow2_bits_high by lia.
    apply andb_false_r.
Qed.

Lemma lor_byte a x : 0 <= x < 256 -> Z.lor (Z.shiftl a 8) x = a * 256 + x.
Proof.
  intros Hx. pose proof (Z.add_lor_land (Z.shiftl a 8) x) as H.
  rewrite (land_shift_byte a x Hx) in H. rewrite Z.shiftl_mul_pow2 in * by lia. lia.
Qed.

Lemma byte_at_val k i : 0 <= i -> byte_at k i = (k / 2 ^ (8 * i)) mod 256.
Proof.
  intros Hi. unfold byte_at. change 255 with (Z.ones 8).
  by rewrite Z.land_ones, Z.shiftr_div_pow2 by lia.
Qed.

Definition is_reg (r : Z) : Prop := 0 <= r < 65536.

Lemma BigEndian_put acc r b :
  is_reg r -> BigEndian acc (put_uint16 r ++ b) = BigEndian (acc * 65536 + r) b.
Proof.
  intros Hr. unfold put_uint16. cbn [BigEndian app]. rewrite !byte_at_val by lia.
  rewrite !lor_byte by (apply Z.mod_pos_bound; lia). f_equal. unfold is_reg in Hr.
  change (2 ^ (8 * 1)) with 256. change (2 ^ (8 * 0)) with 1. rewrite Z.div_1_r.
  rewrite (Z.mod_small (r / 256)) by (split; [apply Z.div_pos|apply Z.div_lt_upper_bound]; lia).
  pose proof (Z.div_mod r 256). lia.
Qed.

(** The words of a [k]-word unsigned integer, high word first. *)
Fixpoint be_words (k : nat) (u : Z) : list Z :=
  match k with
  | O => []
  | S k' => (u / 2 ^ (16 * Z.of_nat k')) mod 65536 :: be_words k' u
  end.

Lemma be_words_reg k u : Forall is_reg (be_words k u).
Proof. induction k; constructor; [|done]. apply Z.mod_pos_bound. lia. Qed.

Lemma length_be_words k u : length (be_words k u) = k.
Proof. induction k; simpl; auto. Qed.

Lemma BigEndian_words k u acc :
  BigEndian acc (concat (map put_uint16 (be_words k u)))
  = acc * 2 ^ (16 * Z.of_nat k) + u mod 2 ^ (16 * Z.of_nat k).
Proof.
  revert acc. induction k as [|k IH]; intros acc.
  { cbn. rewrite Z.mod_1_r. lia. }
  cbn [be_words map concat]. rewrite BigEndian_put by (apply Z.mod_pos_bound; lia).
  rewrite IH. replace (16 * Z.of_nat (S k)) with (16 * Z.of_nat k + 16) by lia.
  rewrite Z.pow_add_r by lia. change (2 ^ 16) with 65536.
  rewrite Z.rem_mul_r by lia. ring.
Qed.

Lemma length_put ws : length (concat (map put_uint16 ws)) = (2 * length ws)%nat.
Proof. induction ws as [|w ws IH]; [done|]. simpl. rewrite IH. lia. Qed.

(** ** Words *)

Lemma nth_put ws : forall i, (i < length ws)%nat ->
  [nth (i * 2) (concat (map put_uint16 ws)) 0; nth (i * 2 + 1) (concat (map put_uint16 ws)) 0]
  = put_uint16 (nth i ws 0).
Proof.
  induction ws as [|w ws IH]; simpl; intros i Hi; [lia|].
  destruct i as [|i]; [done|]. simpl. apply IH. lia.
Qed.

Lemma map_rev_seq (ws : list Z) :
  map (fun i => nth (length ws - 1 - i) ws 0) (seq 0 (length ws)) = rev ws.
Proof.
  apply (nth_ext _ _ 0 0).
  - by rewrite length_map, length_seq, length_rev.
  - intros n Hn. rewrite length_map, length_seq in Hn.
    rewrite rev_nth by done.
    rewrite (nth_indep _ 0 (nth (length ws - 1 - 0) ws 0)) by (by rewrite length_map, length_seq).
    rewrite (map_nth (fun i => nth (length ws - 1 - i) ws 0) (seq 0 (length ws)) 0%nat).
    rewrite seq_nth by done. f_equal. lia.
Qed.

Lemma swapWords_words ws :
  swapWords (concat (map put_uint16 ws)) = concat (map put_uint16 (rev ws)).
Proof.
  unfold swapWords. rewrite length_put. rewrite Nat.mul_comm, Nat.div_mul, Nat.Div0.mod_mul by lia.
  simpl. rewrite app_nil_r, <- map_rev_seq, map_map. f_equal. apply map_ext_in.
  intros i [_ Hi]%in_seq. simpl in Hi. apply nth_put. lia.
Qed.

(** The registers as a device holds a [k]-word integer. *)
Definition device_registers (order : string) (k : nat) (u : Z) : list Z :=
  if EqualFold order "low_first" then rev (be_words k u) else be_words k u.

Lemma register_buffer_device order k u :
  register_buffer order (device_registers order k u) = concat (map put_uint16 (be_words k u)).
Proof.
  unfold register_buffer, device_registers. destruct (EqualFold order "low_first"); [|done].
  rewrite length_rev, length_be_words. cbn [andb]. destruct (Nat.leb_spec 2 k).
  - rewrite swapWords_words, rev_involutive. reflexivity.
  - destruct k as [|[|k]]; [reflexivity|reflexivity|lia].
Qed.

(** ** Integers *)

(** The integer types: number of words, signedness. *)
Definition int_type (dt : string) : option (nat * bool) :=
  if bool_decide (dt = "int16") then Some (1%nat, true)
  else if bool_decide (dt = "uint16") then Some (1%nat, false)
  else if bool_decide (dt = "int32") then Some (2%nat, true)
  else if bool_decide (dt = "uint32") then Some (2%nat, false)
  else if bool_decide (dt = "int64") then Some (4%nat, true)
  else if bool_decide (dt = "uint64") then Some (4%nat, false)
  else None.

Definition in_range (k : nat) (signed : bool) (v : Z) : Prop :=
  let w := 16 * Z.of_nat k in
  if signed then - 2 ^ (w - 1) <= v < 2 ^ (w - 1) else 0 <= v < 2 ^ w.

Lemma to_signed_mod w v :
  0 < w -> - 2 ^ (w - 1) <= v < 2 ^ (w - 1) -> to_signed w (v mod 2 ^ w) = v.
Proof.
  intros Hw Hv. assert (E : 2 ^ w = 2 * 2 ^ (w - 1)).
  { replace w with (1 + (w - 1)) at 1 by lia. by rewrite Z.pow_add_r by lia. }
  unfold to_signed. destruct (Z.lt_ge_cases v 0) as [Hn|Hn].
  - replace (v mod 2 ^ w) with (v + 2 ^ w).
    2: { rewrite <- (Z.mod_small (v + 2 ^ w) (2 ^ w)) by lia.
         rewrite <- (Z.mul_1_l (2 ^ w)) at 1. by rewrite Z.mod_add by lia. }
    destruct (Z.ltb_spec (v + 2 ^ w) (2 ^ (w - 1))); lia.
  - rewrite Z.mod_small by lia. destruct (Z.ltb_spec v (2 ^ (w - 1))); lia.
Qed.

(** The [n] low bytes of [u] in reverse order. *)
Fixpoint reverse_bytes (n : nat) (u : Z) : Z :=
  match n with
  | O => 0
  | S n' => (u / 256 ^ Z.of_nat n') mod 256 + 256 * reverse_bytes n' u
  end.

Lemma LittleEndian_words k u :
  LittleEndian (concat (map put_uint16 (be_words k u))) = reverse_bytes (2 * k) u.
Proof.
  assert (Hb : forall x, 0 <= x mod 256 < 256) by (intros; apply Z.mod_pos_bound; lia).
  induction k as [|k IH]; [done|]. replace (2 * S k)%nat with (S (S (2 * k))) by lia.
  cbn [be_words map concat put_uint16 app LittleEndian reverse_bytes]. rewrite IH, !byte_at_val by lia.
  change (2 ^ (8 * 1)) with 256. change (2 ^ (8 * 0)) with 1. rewrite Z.div_1_r.
  rewrite !(Z.lor_comm (_ mod 256)), !lor_byte by apply Hb.
  assert (Hpow : 2 ^ (16 * Z.of_nat k) = 256 ^ Z.of_nat (2 * k)).
  { change 256 with (2 ^ 8). rewrite <- Z.pow_mul_r by lia. f_equal. lia. }
  rewrite Hpow, Nat2Z.inj_succ, Z.pow_succ_r by lia. set (q := 256 ^ Z.of_nat (2 * k)).
  assert (Hq : 0 < q) by (apply Z.pow_pos_nonneg; lia).
  rewrite (Z.mul_comm 256 q), <- Z.div_div by lia. set (x := u / q).
  change 65536 with (256 * 256). rewrite Z.rem_mul_r by lia.
  rewrite (Z.mul_comm 256 ((x / 256) mod 256)), Z.div_add, (Z.div_small (x mod 256)), Z.add_0_l,
    Z.mod_mod, Z.mod_add, Z.mod_mod by (lia || apply Hb). ring.
Qed.

(** The unsigned integer that is read out of the words of [u]. *)
Definition read_words (little : bool) (k : nat) (u : Z) : Z :=
  if little then reverse_bytes (2 * k) u else u mod 2 ^ (16 * Z.of_nat k).

Lemma uint_words le k u :
  uint le (2 * k) (concat (map put_uint16 (be_words k u))) = read_words le k u.
Proof.
  unfold uint, read_words. rewrite take_ge by (rewrite length_put, length_be_words; lia).
  destruct le; [apply LittleEndian_words|by rewrite BigEndian_words].
Qed.

Lemma decode_words dt k signed u bo :
  int_type (ToLower dt) = Some (k, signed) ->
  decodeNumeric (concat (map put_uint16 (be_words k u))) dt bo
  = Ok (float64_of_Z (let m := read_words (EqualFold bo "little") k u in
                      if signed then to_signed (16 * Z.of_nat k) m else m)).
Proof.
  intros Ht. unfold decodeNumeric, int_type in *.
  rewrite length_put, length_be_words. pose proof (uint_words (EqualFold bo "little") k u) as Hu.
  revert Hu. generalize (read_words (EqualFold bo "little") k u). intros m Hu.
  rewrite <- Hu. repeat case_bool_decide; simplify_eq; reflexivity.
Qed.

(** The value that has the bytes of [v] in reverse order, for a type of [k]
    words. *)
Definition mirrored (k : nat) (signed : bool) (v : Z) : Z :=
  let m := reverse_bytes (2 * k) v in if signed then to_signed (16 * Z.of_nat k) m else m.

(** C30. Registers decode to what the device holds, unless the byte order is
    "little".  For each integer type of 16, 32 or 64 bits, signed or unsigned,
    every value in the range of the type, held in registers with the high word
    first or, for word order "low_first", with the low word first, is decoded to
    that value as a float64, for every byte order that is not "little" in some
    case (so for "big", and for none).  For "little" it is decoded to the value
    with all its bytes reversed: the registers that the client returns are
    already decoded in the byte order, and the code applies it a second time.
    The default number of registers for the type is the number the value
    occupies. *)
Theorem register_roundtrip dt k signed v wordOrder byteOrder
    (Htype : int_type (ToLower dt) = Some (k, signed))
    (Hrange : in_range k signed v) :
  decodeNumeric (register_buffer wordOrder (device_registers wordOrder k v)) dt byteOrder
    = Ok (float64_of_Z (if EqualFold byteOrder "little" then mirrored k signed v else v))
  /\ quantityFor dt 0 = Z.of_nat k.
Proof.
  split.
  - rewrite register_buffer_device, (decode_words dt k signed) by done. cbv zeta. do 2 f_equal.
    unfold read_words. destruct (EqualFold byteOrder "little"); [done|].
    assert (0 < 16 * Z.of_nat k).
    { unfold int_type in Htype. repeat case_bool_decide; simplify_eq; lia. }
    unfold in_range in Hrange. destruct signed; [by apply to_signed_mod|by apply Z.mod_small].
  - unfold int_type in Htype.
    repeat match type of Htype with
    | (if bool_decide ?P then _ else _) = _ =>
        destruct (bool_decide_reflect P) as [Hdt|_];
        [injection Htype as <- <-; unfold quantityFor; rewrite Hdt; reflexivity|]
    end. done.
Qed.

Lemma register_roundtrip_witness :
  in_range 2 true (-70000)
  /\ decodeNumeric (register_buffer "LOW_FIRST" [61072; 65534]) "Int32" "big"
     = Ok (float64_of_Z (-70000))
  /\ decodeNumeric (register_buffer "" [4660]) "uint16" "Little" = Ok (float64_of_Z 13330).
Proof.
  assert (Hr : in_range 2 true (-70000)) by (unfold in_range; simpl; lia).
  assert (Hr2 : in_range 1 false 4660) by (unfold in_range; simpl; lia).
  split_and!; [exact Hr| |].
  - apply (register_roundtrip "Int32" 2 true (-70000) "LOW_FIRST" "big" eq_refl Hr).
  - apply (register_roundtrip "uint16" 1 false 4660 "" "Little" eq_refl Hr2).
Defined.

(** The client decodes each register in the byte order that [SetEncoding] set,
    and [decodeNumeric] applies the byte order to the register again: for a
    "little" tag the two bytes of the register are exchanged. *)
Theorem little_applied_twice wordOrder (r : Z) (Hr : is_reg r) :
  decodeNumeric (register_buffer wordOrder [r]) "uint16" "little"
  = Ok (float64_of_Z (r mod 256 * 256 + r / 256)).
Proof.
  unfold register_buffer. cbn [length map concat]. rewrite andb_false_r.
  unfold decodeNumeric, put_uint16. cbn [length app]. simpl. do 2 f_equal.
  unfold uint. cbn [take]. change (EqualFold "little" "little") with true. cbn [LittleEndian].
  rewrite !byte_at_val, Z.shiftl_0_l, Z.lor_0_r by lia.
  rewrite Z.lor_comm, lor_byte by (apply Z.mod_pos_bound; lia).
  unfold is_reg in Hr. change (2 ^ (8 * 1)) with 256. change (2 ^ (8 * 0)) with 1. rewrite Z.div_1_r.
  rewrite (Z.mod_small (r / 256)) by (split; [apply Z.div_pos|apply Z.div_lt_upper_bound]; lia). done.
Qed.

(** ** A polling cycle *)

Section Poll.
Context {C : Type} `{HC : ModbusClient C}.

(** A value that may be stored: neither NaN nor infinite. *)
Definition finite_num (a : any) : Prop :=
  exists f, a = AFloat64 f /\ IsNaN f = false /\ IsInf f = false.

(** The row of a tag: all columns, and either a good value or the text of the
    error. *)
Definition row_ok (ts : Time) (tag : ModbusPoint) (row : Row) : Prop :=
  (forall c, c ∈ columns -> is_Some (row !! col_Name c))
  /\ row !! "tag_name" = Some (AString (mp_TagName tag)) /\ row !! "ts" = Some (ATime ts)
  /\ ((row !! "quality" = Some (AString "good") /\ row !! "value_text" = Some ANil
       /\ ((exists b, row !! "value_bool" = Some (ABool b) /\ row !! "value_num" = Some ANil)
           \/ (exists a, row !! "value_num" = Some a /\ finite_num a
                 /\ row !! "value_bool" = Some ANil)))
      \/ (row !! "quality" = Some (AString "bad")
          /\ (exists text, row !! "value_text" = Some (AString text))
          /\ row !! "value_num" = Some ANil /\ row !! "value_bool" = Some ANil)).

Lemma columns_present (row : Row) tag ts :
  (forall k, is_Some (blank_row tag ts !! k) -> is_Some (row !! k)) ->
  forall c, c ∈ columns -> is_Some (row !! col_Name c).
Proof.
  intros H c Hc. apply H. unfold columns in Hc.
  repeat (apply elem_of_cons in Hc as [->|Hc]; [by eexists|]). by apply elem_of_nil in Hc.
Qed.

Lemma is_Some_insert (row : Row) k a k' : is_Some (row !! k') -> is_Some (<[k := a]> row !! k').
Proof. intros H. apply lookup_insert_is_Some'. by right. Qed.

Lemma bad_row_ok ts tag text : row_ok ts tag (bad_row text (blank_row tag ts)).
Proof.
  split_and!; [|done|done|].
  - apply (columns_present _ tag ts). intros k Hk. by do 2 apply is_Some_insert.
  - right. split_and!; [done| |done|done]. by eexists.
Qed.

Lemma decode_registers_finite tag regs f :
  decode_registers tag regs = Ok f -> IsNaN f = false /\ IsInf f = false.
Proof.
  unfold decode_registers. destruct (decodeNumeric _ _ _); [|done].
  destruct (IsNaN _ || IsInf _) eqn:E; [done|]. intros [= <-]. by apply orb_false_iff in E.
Qed.

Lemma bool_row_ok ts tag b : row_ok ts tag (<["value_bool" := ABool b]> (blank_row tag ts)).
Proof.
  split_and!; [|done|done|].
  - apply (columns_present _ tag ts). intros k Hk. by apply is_Some_insert.
  - left. split_and!; [done|done|]. left. by eexists.
Qed.

Lemma num_row_ok ts tag f :
  IsNaN f = false -> IsInf f = false -> row_ok ts tag (<["value_num" := AFloat64 f]> (blank_row tag ts)).
Proof.
  intros Hn Hi. split_and!; [|done|done|].
  - apply (columns_present _ tag ts). intros k Hk. by apply is_Some_insert.
  - left. split_and!; [done|done|]. right. eexists. split_and!; [done| |done]. by eexists.
Qed.

Lemma read_bit_ok ts tag r row e :
  read_bit r (blank_row tag ts) = Some (row, e) ->
  match e with Some _ => row = blank_row tag ts | None => row_ok ts tag row end.
Proof. destruct r as [[|v vals]|err]; [done| |]; intros [= <- <-]; [apply bool_row_ok|done]. Qed.

Lemma readTagInto_ok ts tag c c' row e :
  readTagInto tag (blank_row tag ts) c = (c', Some (row, e)) ->
  match e with Some _ => row = blank_row tag ts | None => row_ok ts tag row end.
Proof.
  unfold readTagInto. cbv zeta.
  destruct (bool_decide (_ = "coil")); [|destruct (bool_decide (_ = "discrete")); [|destruct (_ || _)]].
  1,2: intros (c1 & r & _ & Hr)%bindM_inv; unfold retM in Hr; simplify_eq; by eapply read_bit_ok.
  - unfold readRegisters. intros (c1 & r & _ & Hr)%bindM_inv. unfold retM in Hr.
    destruct r as [regs|err]; [|by simplify_eq].
    destruct (decode_registers tag regs) as [f|err] eqn:Ed; simplify_eq; [|done].
    apply decode_registers_finite in Ed as [? ?]. by apply num_row_ok.
  - unfold retM. intros. by simplify_eq.
Qed.

Lemma read_tag_ok ts tag c c' row n :
  read_tag ts tag c = (c', Some (row, n)) -> row_ok ts tag row.
Proof.
  unfold read_tag. intros (c1 & e1 & _ & H)%bindM_inv.
  destruct e1; [unfold retM in H; simplify_eq; apply bad_row_ok|].
  apply bindM_inv in H as (c2 & e2 & _ & H).
  destruct e2; [unfold retM in H; simplify_eq; apply bad_row_ok|].
  apply bindM_inv in H as (c3 & r & Hr & H). unfold retM in H.
  destruct r as [[row' [err|]]|]; simplify_eq; apply readTagInto_ok in Hr; [|done].
  subst. apply bad_row_ok.
Qed.

Lemma read_tags_ok ts tags : forall c c' rows n,
  read_tags ts tags c = (c', Some (rows, n)) ->
  Forall2 (row_ok ts) tags rows /\ 0 <= n <= Z.of_nat (length tags).
Proof.
  induction tags as [|tag tags IH]; simpl; intros c c' rows n H.
  { unfold retM in H. simplify_eq. split; [constructor|simpl; lia]. }
  apply bindM_inv in H as (c1 & r & Hr & H). destruct r as [[row b]|]; [|done].
  apply bindM_inv in H as (c2 & rest & Hrest & H). unfold retM in H.
  destruct rest as [[rows' n']|]; simplify_eq. apply IH in Hrest as [Hf Hn].
  split; [constructor; [by eapply read_tag_ok|done]|]. destruct b; lia.
Qed.

(** The client answers a request for one bit with at least one bit. *)
Definition bits_answered : Prop :=
  forall a c, (ReadCoils a 1 c).2 <> Ok [] /\ (ReadDiscreteInputs a 1 c).2 <> Ok [].

Lemma read_bit_total (m : M C (result (list bool))) row c :
  (m c).2 <> Ok [] -> (bindM m (fun r => retM (read_bit r row)) c).2 <> None.
Proof.
  unfold bindM, retM. destruct (m c) as [c' r]. simpl. intros H. by destruct r as [[|]|].
Qed.

Lemma read_tag_total ts tag c : bits_answered -> (read_tag ts tag c).2 <> None.
Proof.
  intros Hb. unfold read_tag, bindM at 1. destruct (SetUnitId _ c) as [c1 [e|]]; [done|].
  unfold bindM at 1. destruct (SetEncoding _ _ c1) as [c2 [e|]]; [done|].
  assert (Ht : (readTagInto tag (blank_row tag ts) c2).2 <> None).
  { unfold readTagInto. repeat case_match; try done.
    1,2: apply read_bit_total; apply Hb.
    unfold readRegisters, bindM, retM. by repeat case_match. }
  unfold bindM, retM. destruct (readTagInto _ _ c2) as [c3 [[row [err|]]|]]; done.
Qed.

Lemma read_tags_total ts tags : bits_answered -> forall c, (read_tags ts tags c).2 <> None.
Proof.
  intros Hb. induction tags as [|tag tags IH]; simpl; intros c; [done|].
  pose proof (read_tag_total ts tag c Hb) as Ht. unfold bindM.
  destruct (read_tag ts tag c) as [c1 [[row b]|]]; [|done].
  pose proof (IH c1) as Hr. destruct (read_tags ts tags c1) as [c2 [[rows n]|]]; done.
Qed.

End Poll.

(** ** Witness *)

(** A device that answers every read with 7 or true, except that unit 9 cannot
    be selected. *)
#[local] Instance ex_client : ModbusClient unit := {|
  SetUnitId := fun u c => (c, if u =? 9 then Some "no such unit" else None);
  SetEncoding := fun _ _ c => (c, None);
  ReadCoils := fun _ _ c => (c, Ok [true]);
  ReadDiscreteInputs := fun _ _ c => (c, Ok [true]);
  ReadRegisters := fun _ _ _ c => (c, Ok [7]);
|}.

Definition one : spec_float := S754_finite false 4503599627370496 (-52).

Definition ex_tag (unit_id : Z) : ModbusPoint :=
  mkModbusPoint "" "pump" unit_id "holding" 10 0 "uint16" "big" "high_first" one (S754_zero false).

Definition ex_modbus_load : LoadConfig :=
  mkLoadConfig 1 "plc" "" "append" "" "none" zero_watermark 100.

Definition ex_catalog (id : Z) (c : unit) : unit * result (list ModbusPoint) :=
  (c, Ok [ex_tag 1; ex_tag 9]).


(** [RowsRead] does not count the row of a tag whose unit could not be
    selected, although the row is in the batch and is written. *)
Theorem rows_read_misses_row :
  (fun x => (length x.1, x.2)) <$> (read_tags 5 [ex_tag 1; ex_tag 9] tt).2 = Some (2%nat, 1).
Proof. vm_compute. reflexivity. Qed.

End ModbusProofs.
