(* ===== verification/SqlSource.v ===== *)
(** * The SQL sources (internal/sources/sqlserver, internal/sources/postgres)

    Query building, watermarks, value normalisation and the batching loop of
    the two SQL sources.  The database is a parameter: what a query returns. *)

From S2P Require Import Prelude.
From S2P Require Import GoStrings.
From S2P Require Import Url.
From S2P Require Import Sqlident.
From S2P Require Import Contracts.
From Stdlib Require Import ZArith Lia Ascii SpecFloat.

Module SqlSource.
Import GoStrings Sqlident Contracts Url.

(** ** The database *)

(** One column of [rows.ColumnTypes()]: name, type name, nullable. *)
Record ColType := mkColType { ct_Name : string; ct_DatabaseTypeName : string; ct_Nullable : bool }.

(** What a query returns: the column types, the rows as [Scan] yields them, and
    [rows.Err()] at the end. *)
Record Cursor := mkCursor {
  cur_types : result (list ColType);
  cur_rows : list (result (list any));
  cur_err : option error;
}.

Class SqlDB (D : Type) := {
  QueryContext : string -> list any -> M D (result Cursor);
  (** [QueryRowContext(q).Scan(&t)] of a [sql.NullTime], of a [sql.NullString] *)
  query_time : string -> M D (result (option Time));
  query_string : string -> M D (result (option string));
}.

(** ** The batching loop *)

Definition is_nil {A} (l : list A) : bool := match l with [] => true | _ => false end.

Section Stream.
(** Value normalisation, wrapping of scan and iteration errors. *)
Context (normalize : any -> string -> any) (scan_err iter_err : error -> error).
Context (columns : list Column) (batchSize : Z) (newWM : Watermark).

(** [row[c.Name] = normalizeValue(holders[i], c.DataType)] over the columns. *)
Definition row_of (values : list any) : Row :=
  foldl (fun row cv => <[col_Name cv.1 := normalize cv.2 (col_DataType cv.1)]> row) ∅
    (zip columns values).

Definition finish (rowsRead : Z) : ReadProg := Done (mkReadResult rowsRead newWM false) None.

(** The handler's error ends the read with the result as it is so far. *)
Definition emit (rows : list Row) (k : ReadProg) : ReadProg :=
  Emit (mkBatch columns rows)
    (fun e => match e with Some err => Done zero_result (Some err) | None => k end).

Fixpoint stream (rows : list (result (list any))) (err : option error) (pend : list Row)
    (rowsRead : Z) : ReadProg :=
  match rows with
  | [] =>
      match err with
      | Some e => Done zero_result (Some (iter_err e))
      | None => if is_nil pend then finish rowsRead else emit pend (finish rowsRead)
      end
  | Err e :: _ => Done zero_result (Some (scan_err e))
  | Ok values :: rest =>
      let pend' := pend ++ [row_of values] in
      if batchSize <=? Z.of_nat (length pend')
      then emit pend' (stream rest err [] (rowsRead + 1))
      else stream rest err pend' (rowsRead + 1)
  end.
End Stream.

Definition effective_batch (n : Z) : Z := if n <=? 0 then 1000 else n.

(** The first run of a delta load seeds the watermark and reads nothing. *)
Definition first_delta_run (load : LoadConfig) : bool :=
  bool_decide (lc_Mode load = LoadModeDelta)
  && negb (bool_decide (lc_WatermarkColumn load = ""))
  && negb (bool_decide (lc_WatermarkType load = WatermarkNone))
  && bool_decide (wm_Value (lc_LastWatermark load) = "").

Definition seeded (upper : Watermark) : ReadProg := Done (mkReadResult 0 upper true) None.
Definition failed (e : error) : ReadProg := Done zero_result (Some e).

(** The columns of a cursor, with the canonical type of each. *)
Definition columns_of (canonical : string -> string) (types : list ColType) : list Column :=
  map (fun ct => mkColumn (ct_Name ct) (canonical (ct_DatabaseTypeName ct)) (ct_Nullable ct)) types.

(** A query to run: text, arguments, and the watermark to store afterwards. *)
Record Query := mkQuery { q_text : string; q_args : list any; q_newWM : Watermark }.

(** [normalizeValue] on the types the two sources treat alike. *)
Section Values.
(** [strconv.FormatFloat(x, 'f', -1, 64)] *)
Context (FormatFloat : spec_float -> string).

Definition normalize_decimal (v : any) : any :=
  match v with
  | ABytes x => AString x
  | AString x => AString x
  | AFloat64 x => AString (FormatFloat x)
  | AInt I64 x => AString (fmt_d x)
  | _ => v
  end.

Definition normalize_string (v : any) : any :=
  match v with ABytes b => AString b | _ => v end.
End Values.

Definition is_upper (s : string) (l : list string) : bool := bool_decide (ToUpper s ∈ l).

Definition param (p : gmap string string) (k : string) : string := default "" (p !! k).

(** ** sqlserver *)

Module SqlServer.
Section Source.
Context {U : UnicodeTables} {D : Type} `{HD : SqlDB D}.
Context (FormatFloat : spec_float -> string).
(** [t.UTC().Format(time.RFC3339Nano)] *)
Context (FormatTime : Time -> string).

Definition quoteObject (name : string) : result string := QuoteMSSQLQualified name.

Definition canonicalType (dbType : string) : string :=
  if is_upper dbType ["BIT"] then "bool"
  else if is_upper dbType ["TINYINT"; "SMALLINT"; "INT"] then "int32"
  else if is_upper dbType ["BIGINT"] then "int64"
  else if is_upper dbType ["REAL"] then "float32"
  else if is_upper dbType ["FLOAT"] then "float64"
  else if is_upper dbType ["DECIMAL"; "NUMERIC"; "MONEY"; "SMALLMONEY"] then "decimal"
  else if is_upper dbType
    ["DATE"; "DATETIME"; "DATETIME2"; "SMALLDATETIME"; "DATETIMEOFFSET"; "TIME"] then "datetime"
  else if is_upper dbType ["BINARY"; "VARBINARY"; "IMAGE"] then "bytes"
  else if is_upper dbType ["UNIQUEIDENTIFIER"] then "guid"
  else "string".

(** [%0nX] of a byte slice. *)
Fixpoint hexX (b : list ascii) : string :=
  match b with
  | [] => ""
  | c :: b' =>
      String (hex_digit (byte_Z c / 16)) (String (hex_digit (byte_Z c mod 16)) (hexX b'))
  end.

Definition formatMSSQLGUID (b : string) : result string :=
  match String.list_ascii_of_string b with
  | [b0; b1; b2; b3; b4; b5; b6; b7; b8; b9; b10; b11; b12; b13; b14; b15] =>
      Ok (hexX [b3; b2; b1; b0] +:+ "-" +:+ hexX [b5; b4] +:+ "-" +:+ hexX [b7; b6]
          +:+ "-" +:+ hexX [b8; b9] +:+ "-" +:+ hexX [b10; b11; b12; b13; b14; b15])
  | l => Err ("uniqueidentifier: expected 16 bytes, got " +:+ fmt_d (Z.of_nat (length l)))
  end.

Definition normalizeValue (v : any) (canonical : string) : any :=
  match v with
  | ANil => ANil
  | _ =>
      if bool_decide (canonical = "decimal") then normalize_decimal FormatFloat v
      else if bool_decide (canonical = "string") then normalize_string v
      else if bool_decide (canonical = "guid") then
        match v with
        | ABytes b => match formatMSSQLGUID b with Ok s => AString s | Err _ => AString b end
        | _ => v
        end
      else v
  end.

(** [obj] is the quoted object name. *)
Definition currentMaxWatermark (obj col wmType : string) : M D (result Watermark) :=
  match Validate col with
  | Some e => retM (Err (errorf "watermark column" e))
  | None =>
      let quoted := QuoteMSSQL col in
      if bool_decide (wmType = WatermarkDatetime) then
        r <~ query_time ("SELECT MAX(" +:+ quoted +:+ ") FROM " +:+ obj) ;;
        retM (match r with
              | Err e => Err e
              | Ok None => Ok (mkWatermark wmType "")
              | Ok (Some t) => Ok (mkWatermark wmType (FormatTime t))
              end)
      else if bool_decide (wmType = WatermarkNumeric) then
        r <~ query_string ("SELECT CONVERT(varchar(40), MAX(" +:+ quoted +:+ ")) FROM " +:+ obj) ;;
        retM (match r with
              | Err e => Err e
              | Ok None => Ok (mkWatermark wmType "")
              | Ok (Some s) => Ok (mkWatermark wmType (TrimSpace s))
              end)
      else
        r <~ query_string ("SELECT CONVERT(varchar(400), MAX(" +:+ quoted +:+ ")) FROM " +:+ obj) ;;
        retM (match r with Err e => Err e | Ok s => Ok (mkWatermark wmType (default "" s)) end)
  end.

Definition buildQuery (load : LoadConfig) : M D (result Query) :=
  match quoteObject (lc_ObjectName load) with
  | Err e => retM (Err e)
  | Ok obj =>
      if bool_decide (lc_Mode load = LoadModeAppend) || bool_decide (lc_Mode load = LoadModeReplace)
      then retM (Ok (mkQuery ("SELECT * FROM " +:+ obj) [] (mkWatermark WatermarkNone "")))
      else if bool_decide (lc_WatermarkColumn load = "")
              || bool_decide (lc_WatermarkType load = WatermarkNone)
      then retM (Err "delta load requires watermark column and type")
      else match Validate (lc_WatermarkColumn load) with
      | Some e => retM (Err (errorf "watermark column" e))
      | None =>
          let wmCol := QuoteMSSQL (lc_WatermarkColumn load) in
          r <~ currentMaxWatermark obj (lc_WatermarkColumn load) (lc_WatermarkType load) ;;
          retM (match r with
                | Err e => Err e
                | Ok upper =>
                    Ok (mkQuery
                      ("SELECT * FROM " +:+ obj +:+ " WHERE " +:+ wmCol +:+ " > @p1 AND " +:+ wmCol
                       +:+ " <= @p2 ORDER BY " +:+ wmCol)
                      [AString (wm_Value (lc_LastWatermark load)); AString (wm_Value upper)] upper)
                end)
      end
  end.

Definition Read (load : LoadConfig) : M D ReadProg :=
  if first_delta_run load then
    match quoteObject (lc_ObjectName load) with
    | Err e => retM (failed e)
    | Ok obj =>
        r <~ currentMaxWatermark obj (lc_WatermarkColumn load) (lc_WatermarkType load) ;;
        retM (match r with
              | Err e => failed (errorf "initialize watermark" e)
              | Ok upper => seeded upper
              end)
    end
  else
    r <~ buildQuery load ;;
    match r with
    | Err e => retM (failed e)
    | Ok q =>
        c <~ QueryContext (q_text q) (q_args q) ;;
        retM (match c with
              | Err e => failed (errorf "query source" e)
              | Ok cur =>
                  match cur_types cur with
                  | Err e => failed e
                  | Ok types =>
                      stream normalizeValue id id (columns_of canonicalType types)
                        (effective_batch (lc_BatchSize load)) (q_newWM q)
                        (cur_rows cur) (cur_err cur) [] 0
                  end
              end)
    end.

Definition buildDSN (p : gmap string string) : result string :=
  let server := param p "server" in
  let database := param p "database" in
  if bool_decide (server = "") || bool_decide (database = "")
  then Err "sqlserver source requires 'server' and 'database' params"
  else
    let port := if bool_decide (param p "port" = "") then "1433" else param p "port" in
    let opt k name := if bool_decide (param p k = "") then [] else [(name, param p k)] in
    let q := opt "trustservercertificate" "TrustServerCertificate"
             ++ [("database", database)] ++ opt "encrypt" "encrypt" in
    Ok (url_string "sqlserver" (param p "user") (param p "password") (server +:+ ":" +:+ port) ""
          (encode_query q)).

End Source.
End SqlServer.

(** ** postgres *)

Module Postgres.
Section Source.
Context {U : UnicodeTables} {D : Type} `{HD : SqlDB D}.
Context (FormatFloat : spec_float -> string) (FormatTime : Time -> string).
(** [time.Parse(time.RFC3339Nano, _)] *)
Context (ParseTime : string -> result Time).

Definition mapDriverType (dbType : string) : string :=
  if is_upper dbType ["INT8"; "BIGINT"] then "int64"
  else if is_upper dbType ["INT4"; "INTEGER"; "INT2"; "SMALLINT"] then "int32"
  else if is_upper dbType ["FLOAT4"; "REAL"] then "float32"
  else if is_upper dbType ["FLOAT8"; "DOUBLE PRECISION"] then "float64"
  else if is_upper dbType ["NUMERIC"; "DECIMAL"; "MONEY"] then "decimal"
  else if is_upper dbType ["BOOL"; "BOOLEAN"] then "bool"
  else if is_upper dbType ["TIMESTAMP"; "TIMESTAMPTZ"; "DATE"; "TIME"; "TIMETZ"] then "datetime"
  else if is_upper dbType ["BYTEA"] then "bytes"
  else "string".

Definition normalizeValue (v : any) (canonical : string) : any :=
  match v with
  | ANil => ANil
  | _ =>
      if bool_decide (canonical = "decimal") then normalize_decimal FormatFloat v
      else if bool_decide (canonical = "string") then normalize_string v
      else v
  end.

Definition parseWatermark (w : Watermark) : result any :=
  if bool_decide (wm_Type w = WatermarkDatetime) then
    match ParseTime (wm_Value w) with Ok t => Ok (ATime t) | Err e => Err e end
  else Ok (AString (wm_Value w)).

(** [obj] is the object name as configured. *)
Definition currentMaxWatermark (obj col wmType : string) : M D (result Watermark) :=
  match Validate col with
  | Some e => retM (Err (errorf "watermark column" e))
  | None =>
      match QuotePostgresQualified obj with
      | Err e => retM (Err e)
      | Ok quotedObj =>
          let quotedCol := QuotePostgres col in
          if bool_decide (wmType = WatermarkDatetime) then
            r <~ query_time ("SELECT MAX(" +:+ quotedCol +:+ ") FROM " +:+ quotedObj) ;;
            retM (match r with
                  | Err e => Err e
                  | Ok None => Ok (mkWatermark wmType "")
                  | Ok (Some t) => Ok (mkWatermark wmType (FormatTime t))
                  end)
          else if bool_decide (wmType = WatermarkNumeric) then
            r <~ query_string ("SELECT MAX(" +:+ quotedCol +:+ ")::text FROM " +:+ quotedObj) ;;
            retM (match r with
                  | Err e => Err e
                  | Ok None => Ok (mkWatermark wmType "")
                  | Ok (Some s) => Ok (mkWatermark wmType (TrimSpace s))
                  end)
          else
            r <~ query_string ("SELECT MAX(" +:+ quotedCol +:+ ")::text FROM " +:+ quotedObj) ;;
            retM (match r with Err e => Err e | Ok s => Ok (mkWatermark wmType (default "" s)) end)
      end
  end.

Definition buildQuery (load : LoadConfig) : M D (result Query) :=
  match QuotePostgresQualified (lc_ObjectName load) with
  | Err e => retM (Err e)
  | Ok obj =>
      let base := "SELECT * FROM " +:+ obj in
      if bool_decide (lc_Mode load = LoadModeAppend) || bool_decide (lc_Mode load = LoadModeReplace)
      then retM (Ok (mkQuery base [] (mkWatermark WatermarkNone "")))
      else if bool_decide (lc_WatermarkColumn load = "")
              || bool_decide (lc_WatermarkType load = WatermarkNone)
      then retM (Err "delta load requires watermark column and type")
      else match Validate (lc_WatermarkColumn load) with
      | Some e => retM (Err (errorf "watermark column" e))
      | None =>
          let wm := QuotePostgres (lc_WatermarkColumn load) in
          r <~ currentMaxWatermark (lc_ObjectName load) (lc_WatermarkColumn load)
                 (lc_WatermarkType load) ;;
          retM (match r with
                | Err e => Err e
                | Ok upper =>
                    match parseWatermark (lc_LastWatermark load) with
                    | Err e => Err e
                    | Ok last =>
                        match parseWatermark upper with
                        | Err e => Err e
                        | Ok upperArg =>
                            Ok (mkQuery
                              (base +:+ " WHERE " +:+ wm +:+ " > $1 AND " +:+ wm
                               +:+ " <= $2 ORDER BY " +:+ wm +:+ " ASC")
                              [last; upperArg] upper)
                        end
                    end
                end)
      end
  end.

Definition Read (load : LoadConfig) : M D ReadProg :=
  if first_delta_run load then
    r <~ currentMaxWatermark (lc_ObjectName load) (lc_WatermarkColumn load) (lc_WatermarkType load) ;;
    retM (match r with
          | Err e => failed (errorf "initialize watermark" e)
          | Ok upper => seeded upper
          end)
  else
    r <~ buildQuery load ;;
    match r with
    | Err e => retM (failed e)
    | Ok q =>
        c <~ QueryContext (q_text q) (q_args q) ;;
        retM (match c with
              | Err e => failed (errorf "execute source query" e)
              | Ok cur =>
                  match cur_types cur with
                  | Err e => failed (errorf "column types" e)
                  | Ok types =>
                      stream normalizeValue (errorf "scan row") (errorf "iterate rows")
                        (columns_of mapDriverType types) (effective_batch (lc_BatchSize load))
                        (q_newWM q) (cur_rows cur) (cur_err cur) [] 0
                  end
              end)
    end.

Definition buildDSN (p : gmap string string) : result string :=
  let host := param p "host" in
  let database := param p "database" in
  if bool_decide (host = "") || bool_decide (database = "")
  then Err "postgres source requires 'host' and 'database' params"
  else
    let port := if bool_decide (param p "port" = "") then "5432" else param p "port" in
    let or_default k d := if bool_decide (param p k = "") then d else param p k in
    let search := if bool_decide (param p "search_path" = "") then []
                  else [("search_path", param p "search_path")] in
    let q := [("application_name", or_default "application_name" "data-loader")]
             ++ search ++ [("sslmode", or_default "sslmode" "disable")] in
    Ok (url_string "postgres" (param p "user") (param p "password") (host +:+ ":" +:+ port)
          ("/" +:+ database) (encode_query q)).

End Source.
End Postgres.
End SqlSource.
