(* ===== verification/SqlSourceProofs.v ===== *)
(** * The SQL sources: properties

    The batching loop loses no row and respects the batch size; reads abort on
    a handler error; consecutive delta runs read adjacent windows; GUIDs survive
    their encoding. *)

From S2P Require Import Prelude.
From S2P Require Import GoStrings.
From S2P Require Import Url.
From S2P Require Import Sqlident.
From S2P Require Import Contracts.
From S2P Require Import SqlSource.
From Stdlib Require Import ZArith Lia Ascii SpecFloat.

Module SqlSourceProofs.
Import GoStrings Sqlident Contracts SqlSource Url.

(** ** The batching loop *)

Section Stream.
Context (normalize : any -> string -> any) (scan_err iter_err : error -> error).
Context (columns : list Column) (batchSize : Z) (newWM : Watermark).

Abbreviation stream := (stream normalize scan_err iter_err columns batchSize newWM).
Abbreviation row_of := (row_of normalize columns).

Lemma stream_aborts rows err : forall pend n, aborts_on_error (stream rows err pend n).
Proof.
  induction rows as [|[values|e] rows IH]; intros pend n; simpl.
  - destruct err; [done|]. destruct (is_nil pend); [done|]. simpl. split; [|done]. by eexists.
  - destruct (_ <=? _); [|apply IH]. simpl. split; [by eexists|apply IH].
  - done.
Qed.

(** Batch sizes: every batch full except the last one, none empty. *)
Definition sizes_ok (bs : list Batch) : Prop :=
  (forall b, b ∈ bs -> b_Columns b = columns /\ 0 < Z.of_nat (length (b_Rows b)) <= batchSize)
  /\ (forall i b, bs !! i = Some b -> (S i < length bs)%nat -> Z.of_nat (length (b_Rows b)) = batchSize).

Lemma sizes_cons b bs :
  b_Columns b = columns -> Z.of_nat (length (b_Rows b)) = batchSize -> 0 < batchSize ->
  sizes_ok bs -> sizes_ok (b :: bs).
Proof.
  intros Hc Hl Hb [H1 H2]. split.
  - intros b' [->|Hin]%elem_of_cons; [split; [done|lia]|]. by apply H1.
  - intros [|i] b' Hi Hlt; simpl in *; [by simplify_eq|]. apply (H2 i b'); [done|lia].
Qed.

Lemma sizes_last b :
  b_Columns b = columns -> 0 < Z.of_nat (length (b_Rows b)) <= batchSize -> sizes_ok [b].
Proof.
  intros Hc Hl. split.
  - by intros b' ->%list_elem_of_singleton.
  - intros [|i] b' Hi Hlt; simpl in *; [lia|done].
Qed.

Lemma stream_complete vals : 0 < batchSize -> forall pend n,
  Z.of_nat (length pend) < batchSize ->
  let p := stream (Ok <$> vals) None pend n in
  concat (b_Rows <$> batches_of p) = pend ++ (row_of <$> vals)
  /\ sizes_ok (batches_of p)
  /\ outcome_of p = (mkReadResult (n + Z.of_nat (length vals)) newWM false, None).
Proof.
  intros Hb. induction vals as [|v vals IH]; intros pend n Hp; cbv zeta.
  - cbn [fmap list_fmap SqlSource.stream]. rewrite Z.add_0_r, app_nil_r.
    destruct pend as [|r pend]; simpl.
    + split_and!; [done| |done]. split; set_solver.
    + rewrite app_nil_r. split_and!; [done| |done]. apply sizes_last; simpl in *; [done|lia].
  - rewrite !fmap_cons. cbn [SqlSource.stream length]. destruct (Z.leb_spec batchSize
      (Z.of_nat (length (pend ++ [row_of v])))) as [Hle|Hlt].
    + destruct (IH [] (n + 1)) as (H1 & H2 & H3); [simpl; lia|].
      unfold emit. cbn [batches_of outcome_of]. rewrite fmap_cons. cbn [concat b_Rows].
      rewrite H1, H3, <- app_assoc.
      split_and!; [done| |do 2 f_equal; lia].
      apply sizes_cons; simpl; [done| |done|done]. rewrite length_app in Hle |- *. simpl in *. lia.
    + destruct (IH (pend ++ [row_of v]) (n + 1) Hlt) as (H1 & H2 & H3).
      rewrite H1, H3, <- app_assoc. split_and!; [done|done|]. do 2 f_equal. lia.
Qed.

Lemma stream_success rows err : forall pend n r,
  outcome_of (stream rows err pend n) = (r, None) -> err = None /\ exists vals, rows = Ok <$> vals.
Proof.
  induction rows as [|[values|e] rows IH]; intros pend n r; simpl.
  - destruct err; [done|]. intros _. split; [done|]. by exists [].
  - intros H. assert (exists pend' n', outcome_of (stream rows err pend' n') = (r, None)) as (? & ? & H').
    { destruct (_ <=? _); simpl in H; eauto. }
    apply IH in H' as [-> [vals ->]]. split; [done|]. by exists (values :: vals).
  - done.
Qed.

(** C8. The batching loop of the SQL sources delivers the result set.  Against
    a handler that succeeds, whatever the batch size: the loop returns success
    exactly when every row scanned and the iteration ended without an error;
    then the batches hold exactly the rows of the result set in order, each
    batch is full except the last, no batch is empty, and the result carries
    the row count and the watermark; with a failing scan or iteration it
    returns an error and a result without watermark. *)
Theorem batching_complete rows err (Hb : 0 < batchSize) :
  let p := stream rows err [] 0 in
  ((outcome_of p).2 = None <-> err = None /\ exists vals, rows = Ok <$> vals)
  /\ (forall vals, rows = Ok <$> vals -> err = None ->
        concat (b_Rows <$> batches_of p) = row_of <$> vals
        /\ sizes_ok (batches_of p)
        /\ (outcome_of p).1 = mkReadResult (Z.of_nat (length vals)) newWM false)
  /\ ((outcome_of p).2 <> None -> (outcome_of p).1 = zero_result).
Proof.
  cbv zeta. split_and!.
  - split.
    + intros H. destruct (outcome_of _) as [r e] eqn:E. simpl in H. subst. by eapply stream_success.
    + intros [-> [vals ->]]. by destruct (stream_complete vals Hb [] 0) as (_ & _ & ->); [simpl; lia|].
  - intros vals -> ->. destruct (stream_complete vals Hb [] 0) as (H1 & H2 & H3); [simpl; lia|].
    rewrite H3. split_and!; [done|done|done].
  - generalize 0 (@nil Row). induction rows as [|[values|e] rows IH]; intros n pend; simpl.
    + destruct err; [done|]. by destruct (is_nil pend).
    + destruct (_ <=? _); simpl; apply IH.
    + done.
Qed.
End Stream.

Lemma batching_complete_witness :
  exists p, p = stream (fun v _ => v) id id [mkColumn "a" "int64" false] 2 zero_watermark
              [Ok [AInt I64 1]; Ok [AInt I64 2]; Ok [AInt I64 3]] None [] 0
  /\ length (batches_of p) = 2%nat
  /\ (outcome_of p).1 = mkReadResult 3 zero_watermark false.
Proof.
  eexists. split; [reflexivity|]. split; [reflexivity|].
  apply (batching_complete (fun v _ => v) id id [mkColumn "a" "int64" false] 2 zero_watermark
    [Ok [AInt I64 1]; Ok [AInt I64 2]; Ok [AInt I64 3]] None) with (vals := [[AInt I64 1]; [AInt I64 2]; [AInt I64 3]]);
    [lia|reflexivity|reflexivity].
Defined.

(** ** GUIDs *)

(** Reading upper-case hexadecimal digits back. *)
Definition unhex_digit (c : ascii) : option Z :=
  let b := byte_Z c in
  if (48 <=? b) && (b <=? 57) then Some (b - 48)
  else if (65 <=? b) && (b <=? 70) then Some (b - 55) else None.

Definition byte_of (h l : Z) : ascii := ascii_of_N (Z.to_N (16 * h + l)).

Fixpoint unhex (s : string) : option (list ascii) :=
  match s with
  | EmptyString => Some []
  | String _ EmptyString => None
  | String c1 (String c2 s') =>
      h ← unhex_digit c1; l ← unhex_digit c2; rest ← unhex s'; Some (byte_of h l :: rest)
  end.

(** The storage bytes of a GUID in text form: the first three groups are
    stored in little-endian order. *)
Definition parse_guid (s : string) : option string :=
  match mapM unhex (Split s "-") with
  | Some [[a3; a2; a1; a0]; [b1; b0]; [c1; c0]; [d0; d1]; [e0; e1; e2; e3; e4; e5]] =>
      Some (String.string_of_list_ascii
        [a0; a1; a2; a3; b0; b1; c0; c1; d0; d1; e0; e1; e2; e3; e4; e5])
  | _ => None
  end.

Lemma all_ascii (P : ascii -> bool) :
  forallb (fun n => P (ascii_of_nat n)) (seq 0 256) = true -> forall c, P c = true.
Proof.
  intros H c. rewrite forallb_forall in H. rewrite <- (ascii_nat_embedding c). apply H, in_seq.
  pose proof (nat_ascii_bounded c). lia.
Qed.

Definition hex_byte_ok (c : ascii) : bool :=
  bool_decide (unhex_digit (hex_digit (byte_Z c / 16)) = Some (byte_Z c / 16))
  && bool_decide (unhex_digit (hex_digit (byte_Z c mod 16)) = Some (byte_Z c mod 16))
  && bool_decide (byte_of (byte_Z c / 16) (byte_Z c mod 16) = c)
  && is_alnum (hex_digit (byte_Z c / 16)) && is_alnum (hex_digit (byte_Z c mod 16)).

Lemma hex_byte_ok_all : forallb (fun n => hex_byte_ok (ascii_of_nat n)) (seq 0 256) = true.
Proof. vm_compute. reflexivity. Qed.

(** A byte survives its two digits, and no digit is a hyphen or a delimiter. *)
Lemma hex_byte c :
  unhex_digit (hex_digit (byte_Z c / 16)) = Some (byte_Z c / 16)
  /\ unhex_digit (hex_digit (byte_Z c mod 16)) = Some (byte_Z c mod 16)
  /\ byte_of (byte_Z c / 16) (byte_Z c mod 16) = c
  /\ is_alnum (hex_digit (byte_Z c / 16)) = true /\ is_alnum (hex_digit (byte_Z c mod 16)) = true.
Proof.
  pose proof (all_ascii hex_byte_ok hex_byte_ok_all c) as H. unfold hex_byte_ok in H.
  rewrite !andb_true_iff, !bool_decide_eq_true in H. naive_solver.
Qed.

Lemma unhex_hexX l : unhex (SqlServer.hexX l) = Some l.
Proof.
  induction l as [|c l IH]; [done|]. destruct (hex_byte c) as (H1 & H2 & H3 & _).
  cbn [SqlServer.hexX unhex]. rewrite H1, H2, IH. cbn. by rewrite H3.
Qed.

Lemma alnum_ne c d : is_alnum c = true -> is_alnum d = false -> Ascii.eqb c d = false.
Proof. intros Hc Hd. destruct (Ascii.eqb_spec c d); congruence. Qed.

Lemma hexX_no_dash l : has_char "-" (SqlServer.hexX l) = false.
Proof.
  induction l as [|c l IH]; [done|]. destruct (hex_byte c) as (_ & _ & _ & H4 & H5). simpl.
  by rewrite !(alnum_ne _ "-") by done.
Qed.

Lemma Split_dash_hex l s :
  Split (SqlServer.hexX l +:+ "-" +:+ s) "-" = SqlServer.hexX l :: Split s "-".
Proof. apply Split_app_sep, hexX_no_dash. Qed.

Lemma string_list_id s : String.string_of_list_ascii (String.list_ascii_of_string s) = s.
Proof. apply String.string_of_list_ascii_of_string. Qed.

(** C39. A uniqueidentifier survives its text form.  The 16 storage bytes of
    SQL Server, with three groups in little-endian order, are rendered in such
    a way that reading the text back gives the same 16 bytes, so distinct GUIDs
    never become equal; any other length is an error and not a wrong text. *)
Theorem guid_roundtrip b :
  if (String.length b =? 16)%nat
  then exists s, SqlServer.formatMSSQLGUID b = Ok s /\ parse_guid s = Some b
  else exists e, SqlServer.formatMSSQLGUID b = Err e.
Proof.
  assert (Hl : length (String.list_ascii_of_string b) = String.length b)
    by (induction b; simpl; auto).
  rewrite <- Hl. unfold SqlServer.formatMSSQLGUID, parse_guid.
  pose proof (string_list_id b) as Hb. clear Hl.
  destruct (String.list_ascii_of_string b) as [|? [|? [|? [|? [|? [|? [|? [|? [|? [|? [|? [|? [|? [|? [|? [|?
    [|? ?]]]]]]]]]]]]]]]]]; simpl Nat.eqb; try (eexists; reflexivity).
  eexists. split; [reflexivity|].
  rewrite !Split_dash_hex, Split_id by apply hexX_no_dash.
  cbn [mapM]. rewrite !unhex_hexX, <- Hb. reflexivity.
Qed.

(** ** Reads *)

Section Reads.
Context {U : UnicodeTables} {D : Type} `{HD : SqlDB D}.
Context (FormatFloat : spec_float -> string) (FormatTime : Time -> string).
Context (ParseTime : string -> result Time).

(** Both SQL sources honour the handler contract that the runner relies
    on: on every path of [Read], when the handler returns an error the read
    stops with that error and emits nothing more. *)
Theorem sql_reads_abort load (d : D) :
  aborts_on_error (SqlServer.Read FormatFloat FormatTime load d).2
  /\ aborts_on_error (Postgres.Read FormatFloat FormatTime ParseTime load d).2.
Proof.
  split.
  - unfold SqlServer.Read, bindM, retM. repeat case_match; simplify_eq; simpl; try done.
    all: apply stream_aborts.
  - unfold Postgres.Read, bindM, retM. repeat case_match; simplify_eq; simpl; try done.
    all: apply stream_aborts.
Qed.

(** ** Delta runs *)

(** A delta load with a numeric watermark that has been seeded. *)
Definition numeric_delta (load : LoadConfig) : Prop :=
  lc_Mode load = LoadModeDelta /\ lc_WatermarkType load = WatermarkNumeric
  /\ lc_WatermarkColumn load <> "" /\ wm_Value (lc_LastWatermark load) <> ""
  /\ wm_Type (lc_LastWatermark load) = WatermarkNumeric.

(** A successful read of it: one query for the maximum, one for the window up
    to it, whose rows are delivered. *)
Definition windowed (maxq winq : string) (norm : any -> string -> any) (canon : string -> string)
    (load : LoadConfig) (d : D) (p : ReadProg) (v : string) : Prop :=
  exists d1 s d2 cur types vals,
    query_string maxq d = (d1, Ok s) /\ v = default "" (TrimSpace <$> s)
    /\ QueryContext winq [AString (wm_Value (lc_LastWatermark load)); AString v] d1 = (d2, Ok cur)
    /\ cur_types cur = Ok types /\ cur_rows cur = Ok <$> vals /\ cur_err cur = None
    /\ concat (b_Rows <$> batches_of p) = row_of norm (columns_of canon types) <$> vals.

Definition ss_max (obj col : string) : string :=
  "SELECT CONVERT(varchar(40), MAX(" +:+ QuoteMSSQL col +:+ ")) FROM " +:+ obj.
Definition ss_window (obj col : string) : string :=
  "SELECT * FROM " +:+ obj +:+ " WHERE " +:+ QuoteMSSQL col +:+ " > @p1 AND " +:+ QuoteMSSQL col
  +:+ " <= @p2 ORDER BY " +:+ QuoteMSSQL col.
Definition pg_max (obj col : string) : string :=
  "SELECT MAX(" +:+ QuotePostgres col +:+ ")::text FROM " +:+ obj.
Definition pg_window (obj col : string) : string :=
  ("SELECT * FROM " +:+ obj) +:+ " WHERE " +:+ QuotePostgres col +:+ " > $1 AND "
  +:+ QuotePostgres col +:+ " <= $2 ORDER BY " +:+ QuotePostgres col +:+ " ASC".

Lemma effective_batch_pos n : 0 < effective_batch n.
Proof. unfold effective_batch. destruct (Z.leb_spec n 0); lia. Qed.

Lemma stream_window norm scan_err iter_err cols b wm rows err r :
  0 < b -> outcome_of (stream norm scan_err iter_err cols b wm rows err [] 0) = (r, None) ->
  exists vals, rows = Ok <$> vals /\ err = None /\ rr_NewWatermark r = wm
    /\ concat (b_Rows <$> batches_of (stream norm scan_err iter_err cols b wm rows err [] 0))
       = row_of norm cols <$> vals.
Proof.
  intros Hb H. pose proof H as [-> [vals ->]]%stream_success. exists vals.
  destruct (stream_complete norm scan_err iter_err cols b wm vals Hb [] 0) as (H1 & _ & H3);
    [simpl; lia|]. rewrite H3 in H. simplify_eq. by split_and!.
Qed.

Lemma delta_not_first load : numeric_delta load -> first_delta_run load = false.
Proof.
  intros (_ & _ & _ & Hv & _). unfold first_delta_run.
  rewrite (bool_decide_false (wm_Value _ = "")) by done. apply andb_false_r.
Qed.

Lemma sqlserver_windowed load d p r :
  numeric_delta load -> (SqlServer.Read FormatFloat FormatTime load d).2 = p ->
  outcome_of p = (r, None) ->
  exists obj, QuoteMSSQLQualified (lc_ObjectName load) = Ok obj
    /\ windowed (ss_max obj (lc_WatermarkColumn load)) (ss_window obj (lc_WatermarkColumn load))
         (SqlServer.normalizeValue FormatFloat) SqlServer.canonicalType load d p (wm_Value (rr_NewWatermark r)).
Proof.
  intros Hd <- Hout. pose proof Hd as (Hm & Ht & Hc & Hv & _). revert Hout.
  unfold SqlServer.Read, SqlServer.buildQuery, SqlServer.currentMaxWatermark, SqlServer.quoteObject.
  rewrite (delta_not_first load Hd). unfold bindM, retM.
  destruct (QuoteMSSQLQualified _) as [obj|e] eqn:Eo; [|done].
  rewrite Hm, Ht. rewrite (bool_decide_false (lc_WatermarkColumn load = "")) by done. simpl.
  destruct (Validate _); [done|].
  fold (ss_max obj (lc_WatermarkColumn load)). fold (ss_window obj (lc_WatermarkColumn load)).
  destruct (query_string _ d) as [d1 [s|e]] eqn:Eq; [|done].
  assert (Hs : match s with Some x => Ok (mkWatermark WatermarkNumeric (TrimSpace x))
    | None => Ok (mkWatermark WatermarkNumeric "") end
    = Ok (mkWatermark WatermarkNumeric (default "" (TrimSpace <$> s)))) by (by destruct s).
  rewrite Hs. simpl. destruct (QueryContext _ _ d1) as [d2 [cur|e]] eqn:Ec; [|done].
  destruct (cur_types cur) as [types|e] eqn:Et; [|done]. simpl. intros Hout.
  apply stream_window in Hout as (vals & Hr & He & Hw & Hrows); [|apply effective_batch_pos].
  exists obj. split; [done|]. rewrite Hw. simpl.
  exists d1, s, d2, cur, types, vals. split_and!; done.
Qed.

Lemma postgres_windowed load d p r :
  numeric_delta load -> (Postgres.Read FormatFloat FormatTime ParseTime load d).2 = p ->
  outcome_of p = (r, None) ->
  exists obj, QuotePostgresQualified (lc_ObjectName load) = Ok obj
    /\ windowed (pg_max obj (lc_WatermarkColumn load)) (pg_window obj (lc_WatermarkColumn load))
         (Postgres.normalizeValue FormatFloat) Postgres.mapDriverType load d p (wm_Value (rr_NewWatermark r)).
Proof.
  intros Hd <- Hout. pose proof Hd as (Hm & Ht & Hc & Hv & Hl). revert Hout.
  unfold Postgres.Read, Postgres.buildQuery, Postgres.currentMaxWatermark.
  rewrite (delta_not_first load Hd). unfold bindM, retM.
  destruct (QuotePostgresQualified _) as [obj|e] eqn:Eo; [|done].
  rewrite Hm, Ht. rewrite (bool_decide_false (lc_WatermarkColumn load = "")) by done. simpl.
  destruct (Validate _); [done|].
  fold (pg_max obj (lc_WatermarkColumn load)). fold (pg_window obj (lc_WatermarkColumn load)).
  destruct (query_string _ d) as [d1 [s|e]] eqn:Eq; [|done].
  assert (Hs : match s with Some x => Ok (mkWatermark WatermarkNumeric (TrimSpace x))
    | None => Ok (mkWatermark WatermarkNumeric "") end
    = Ok (mkWatermark WatermarkNumeric (default "" (TrimSpace <$> s)))) by (by destruct s).
  rewrite Hs. unfold Postgres.parseWatermark. rewrite Hl. simpl.
  destruct (QueryContext _ _ d1) as [d2 [cur|e]] eqn:Ec; [|done].
  destruct (cur_types cur) as [types|e] eqn:Et; [|done]. simpl. intros Hout.
  apply stream_window in Hout as (vals & Hr & He & Hw & Hrows); [|apply effective_batch_pos].
  exists obj. split; [done|]. rewrite Hw. simpl.
  exists d1, s, d2, cur, types, vals. split_and!; done.
Qed.

(** The two dialects. *)
Inductive dialect := SS | PG.

Definition dialect_read (dl : dialect) : LoadConfig -> M D ReadProg :=
  match dl with
  | SS => SqlServer.Read FormatFloat FormatTime
  | PG => Postgres.Read FormatFloat FormatTime ParseTime
  end.
Definition dialect_quote (dl : dialect) : string -> result string :=
  match dl with SS => QuoteMSSQLQualified | PG => QuotePostgresQualified end.
Definition max_query (dl : dialect) : string -> string -> string :=
  match dl with SS => ss_max | PG => pg_max end.
Definition window_query (dl : dialect) : string -> string -> string :=
  match dl with SS => ss_window | PG => pg_window end.
Definition to_row (dl : dialect) (types : list ColType) : list any -> Row :=
  match dl with
  | SS => row_of (SqlServer.normalizeValue FormatFloat) (columns_of SqlServer.canonicalType types)
  | PG => row_of (Postgres.normalizeValue FormatFloat) (columns_of Postgres.mapDriverType types)
  end.

(** The state of the database in which the rows are selected: the one that the
    query for the maximum leaves. *)
Definition select_state (dl : dialect) (obj col : string) (d : D) : D :=
  (query_string (max_query dl obj col) d).1.

Abbreviation table := (list (Z * list any)).

(** The rows of a table with a watermark above [lo] and up to [hi]. *)
Definition window (lo hi : Z) (t : table) : table := filter (fun r => lo < r.1 <= hi) t.

(** A table with a numeric watermark column behind the two queries: the first
    returns the text of the maximum, which is not blank, or NULL when there is
    no row with a watermark; the second returns the window between its
    arguments.  [tbl] are the rows with a watermark.  The state may change in
    any way between queries. *)
Record NumericTable (maxq winq : string) := mkNumericTable {
  tbl : D -> table;
  num : string -> Z;
  tbl_types : list ColType;
  law_max : forall d d' s, query_string maxq d = (d', Ok s) ->
    match s with
    | None => tbl d = []
    | Some x => TrimSpace x <> "" /\ num (TrimSpace x) ∈ (tbl d).*1
                /\ Forall (fun r => r.1 <= num (TrimSpace x)) (tbl d)
    end;
  law_window : forall a b d d' cur types vals,
    QueryContext winq [AString a; AString b] d = (d', Ok cur) ->
    cur_types cur = Ok types -> cur_rows cur = Ok <$> vals -> cur_err cur = None ->
    types = tbl_types /\ vals ≡ₚ (window (num a) (num b) (tbl d)).*2;
}.
Arguments tbl {_ _} _ _.
Arguments num {_ _} _ _.
Arguments tbl_types {_ _} _.

Lemma window_adjacent lo mid hi (t1 t2 : table) :
  lo <= mid <= hi -> filter (fun r => r.1 <= mid) t1 ≡ₚ filter (fun r => r.1 <= mid) t2 ->
  window lo mid t1 ++ window mid hi t2 ≡ₚ window lo hi t2.
Proof.
  intros Hm Ht. assert (E : forall t, window lo mid t = filter (fun r => lo < r.1) (filter (fun r => r.1 <= mid) t)).
  { intros t. unfold window. rewrite list_filter_filter. apply list_filter_iff. intros [n v]. simpl. lia. }
  rewrite E, Ht, <- E. unfold window. clear -Hm. induction t2 as [|[n v] t IH]; [done|].
  rewrite !filter_cons. simpl. repeat case_decide; try lia; try done.
  all: first [by rewrite <- Permutation_middle, IH | by simpl; rewrite IH].
Qed.

Lemma max_covers maxq winq (T : NumericTable maxq winq) d d1 s v :
  query_string maxq d = (d1, Ok s) -> v = default "" (TrimSpace <$> s) -> v <> "" ->
  Forall (fun r => r.1 <= num T v) (tbl T d).
Proof. intros Hm%(law_max _ _ T) -> Hv. destruct s; [by destruct Hm as (_ & _ & ?)|done]. Qed.

Lemma delta_window dl load d r :
  numeric_delta load -> outcome_of (dialect_read dl load d).2 = (r, None) ->
  exists obj s, dialect_quote dl (lc_ObjectName load) = Ok obj
  /\ (query_string (max_query dl obj (lc_WatermarkColumn load)) d).2 = Ok s
  /\ wm_Value (rr_NewWatermark r) = default "" (TrimSpace <$> s)
  /\ forall T : NumericTable (max_query dl obj (lc_WatermarkColumn load))
                             (window_query dl obj (lc_WatermarkColumn load)),
     (wm_Value (rr_NewWatermark r) <> "" ->
        Forall (fun x => x.1 <= num T (wm_Value (rr_NewWatermark r))) (tbl T d))
     /\ concat (b_Rows <$> batches_of (dialect_read dl load d).2)
       ≡ₚ to_row dl (tbl_types T) <$>
            (window (num T (wm_Value (lc_LastWatermark load))) (num T (wm_Value (rr_NewWatermark r)))
               (tbl T (select_state dl obj (lc_WatermarkColumn load) d))).*2.
Proof.
  intros Hd Hout. unfold select_state. destruct dl; simpl in *;
    [edestruct sqlserver_windowed as
      (obj & Ho & d1 & s & d2 & cur & types & vals & Hm & Hv & Hw & Ht & Hr & He & Hb); [done|done|done|]
    |edestruct postgres_windowed as
      (obj & Ho & d1 & s & d2 & cur & types & vals & Hm & Hv & Hw & Ht & Hr & He & Hb); [done|done|done|]];
    exists obj, s; rewrite Hm; (split_and!; [done..|]); intros T; (split; [by eapply max_covers|]);
    destruct (law_window _ _ T _ _ _ _ _ _ _ Hw Ht Hr He) as [-> Hp]; by rewrite Hb, Hp.
Qed.

(** Consecutive delta runs deliver every row exactly once.  For both SQL
    dialects and a numeric watermark, let one run read from the watermark [lo]
    and return [mid], and the next read from [mid] and return [hi]: what the two
    deliver is the rows of the source in the window ([lo], [mid]] at the time of
    the first select and in ([mid], [hi]] at the time of the second; so if the
    watermark does not go back and no row at or below [mid] came or went
    between the selects, the two runs together deliver exactly the rows of the
    window ([lo], [hi]], each once, with rows that were inserted during the
    first run above [mid] left to the second; and no row that was there when
    the second run began is above [hi]. *)
Theorem delta_exactly_once dl load1 load2 d1 d2 r1 r2 obj
    (T : NumericTable (max_query dl obj (lc_WatermarkColumn load1))
                      (window_query dl obj (lc_WatermarkColumn load1)))
    (Hobj : dialect_quote dl (lc_ObjectName load1) = Ok obj)
    (Hsame : lc_ObjectName load2 = lc_ObjectName load1
             /\ lc_WatermarkColumn load2 = lc_WatermarkColumn load1)
    (Hd1 : numeric_delta load1) (Hd2 : numeric_delta load2)
    (Hr1 : outcome_of (dialect_read dl load1 d1).2 = (r1, None))
    (Hr2 : outcome_of (dialect_read dl load2 d2).2 = (r2, None))
    (Hnext : lc_LastWatermark load2 = rr_NewWatermark r1) :
  let lo := num T (wm_Value (lc_LastWatermark load1)) in
  let mid := num T (wm_Value (rr_NewWatermark r1)) in
  let hi := num T (wm_Value (rr_NewWatermark r2)) in
  let rows p := concat (b_Rows <$> batches_of p) in
  let f := to_row dl (tbl_types T) in
  let s1 := select_state dl obj (lc_WatermarkColumn load1) d1 in
  let s2 := select_state dl obj (lc_WatermarkColumn load1) d2 in
  rows (dialect_read dl load1 d1).2 ≡ₚ f <$> (window lo mid (tbl T s1)).*2
  /\ rows (dialect_read dl load2 d2).2 ≡ₚ f <$> (window mid hi (tbl T s2)).*2
  /\ (lo <= mid <= hi ->
      filter (fun r => r.1 <= mid) (tbl T s1) ≡ₚ filter (fun r => r.1 <= mid) (tbl T s2) ->
      rows (dialect_read dl load1 d1).2 ++ rows (dialect_read dl load2 d2).2
        ≡ₚ f <$> (window lo hi (tbl T s2)).*2)
  /\ (wm_Value (rr_NewWatermark r2) <> "" -> Forall (fun x => x.1 <= hi) (tbl T d2)).
Proof.
  destruct Hsame as [Hobj2 Hcol2].
  destruct (delta_window dl load1 d1 r1 Hd1 Hr1) as (obj1 & x1 & Ho1 & _ & _ & H1).
  destruct (delta_window dl load2 d2 r2 Hd2 Hr2) as (obj2 & x2 & Ho2 & _ & _ & H2).
  rewrite Hobj2, Hobj in Ho2. rewrite Hobj in Ho1. simplify_eq. rewrite Hcol2 in H2.
  destruct (H1 T) as (_ & Hp1). destruct (H2 T) as (Hmax & Hp2). rewrite Hnext in Hp2.
  cbv zeta. split_and!; [done|done| |done]. intros Hle Hfil.
  rewrite Hp1, Hp2, <- fmap_app, <- fmap_app. by rewrite (window_adjacent _ _ _ _ _ Hle Hfil).
Qed.

End Reads.
(** ** Witness of the delta runs

    A source table that grows from one row to two. *)

Definition ex_num (s : string) : Z :=
  if bool_decide (s = "1") then 1 else if bool_decide (s = "2") then 2 else 0.
Definition ex_table (grown : bool) : list (Z * list any) :=
  if grown then [(1, [AInt I64 1]); (2, [AInt I64 2])] else [(1, [AInt I64 1])].
Definition ex_types : list ColType := [mkColType "id" "BIGINT" false].

#[local] Instance ex_db : SqlDB bool := {|
  QueryContext := fun q args d =>
    (d, match args with
        | [AString a; AString b] =>
            Ok (mkCursor (Ok ex_types) (Ok <$> (window (ex_num a) (ex_num b) (ex_table d)).*2) None)
        | _ => Err "arguments"
        end);
  query_time := fun _ d => (d, Ok None);
  query_string := fun _ d => (d, Ok (Some (if d then "2" else "1")));
|}.

Lemma Ok_inj (l1 l2 : list (list any)) :
  (Ok <$> l1 : list (result (list any))) = Ok <$> l2 -> l1 = l2.
Proof. revert l2. induction l1 as [|x l1 IH]; intros [|y l2] H; simplify_eq/=; f_equal; auto. Qed.

Definition ex_numeric maxq winq : NumericTable (D := bool) maxq winq.
Proof.
  refine (mkNumericTable _ _ ex_table ex_num ex_types _ _).
  - intros d d' s [= <- <-]. destruct d; simpl.
    + split; [vm_compute; discriminate|]. split; [right; left|]. repeat constructor; simpl; vm_compute; discriminate.
    + split; [vm_compute; discriminate|]. split; [left|]. repeat constructor; simpl; vm_compute; discriminate.
  - intros a b d d' cur types vals H Ht Hr _. simpl in H. simplify_eq. simpl in *.
    apply Ok_inj in Hr. simplify_eq. done.
Defined.

Definition ex_delta (last : string) : LoadConfig :=
  mkLoadConfig 1 "orders" "dbo.orders" "delta" "id" "numeric" (mkWatermark "numeric" last) 10.

Definition ex_read (last : string) (d : bool) : ReadProg :=
  (dialect_read (U := ascii_tables) (fun _ => "") (fun _ => "") (fun _ => Err "") SS (ex_delta last) d).2.

Lemma ex_delta_ok last : last <> "" -> numeric_delta (ex_delta last).
Proof. intros H. repeat split; try discriminate. exact H. Defined.

Lemma delta_exactly_once_witness :
  length (concat (b_Rows <$> batches_of (ex_read "0" false))) = 1%nat
  /\ concat (b_Rows <$> batches_of (ex_read "0" false))
       ≡ₚ to_row (fun _ => "") SS ex_types <$> (window 0 1 (ex_table false)).*2
  /\ concat (b_Rows <$> batches_of (ex_read "1" true))
       ≡ₚ to_row (fun _ => "") SS ex_types <$> (window 1 2 (ex_table true)).*2.
Proof.
  split; [vm_compute; reflexivity|].
  destruct (delta_exactly_once (U := ascii_tables) (fun _ => "") (fun _ => "") (fun _ => Err "")
    SS (ex_delta "0") (ex_delta "1") false true
    (mkReadResult 1 (mkWatermark "numeric" "1") false) (mkReadResult 1 (mkWatermark "numeric" "2") false)
    "[dbo].[orders]" (ex_numeric _ _)) as (H1 & H2 & _).
  - vm_compute; reflexivity.
  - split; reflexivity.
  - apply ex_delta_ok; discriminate.
  - apply ex_delta_ok; discriminate.
  - vm_compute; reflexivity.
  - vm_compute; reflexivity.
  - reflexivity.
  - split; [exact H1|exact H2].
Defined.

End SqlSourceProofs.
