(* ===== verification/DsnProofs.v ===== *)
(** * Connection strings: properties

    What a driver reads out of the connection strings of the SQL sources, for
    any parameters: a reader of URLs that is independent of the code that
    writes them, and the round trip. *)

From S2P Require Import Prelude.
From S2P Require Import GoStrings.
From S2P Require Import Url.
From S2P Require Import Sqlident.
From S2P Require Import Contracts.
From S2P Require Import SqlSource.
From S2P Require Import SqlSourceProofs.
From Stdlib Require Import ZArith Lia Ascii.

Module DsnProofs.
Import GoStrings SqlSource Url SqlSourceProofs.

(** ** Reading a URL

    As [url.Parse] and [url.ParseQuery] take it apart: the query from the first
    question mark, the path from the first slash after the scheme, the
    credentials before the last at sign of the authority, their colon the first
    one; percent escapes are undone in each part on its own, and in the query a
    plus sign is a space.  A number sign would start a fragment. *)

(** Undoing the escapes. *)
Fixpoint unescape (plus_space : bool) (s : string) : option string :=
  match s with
  | EmptyString => Some EmptyString
  | String c s1 =>
      if Ascii.eqb c "%" then
        match s1 with
        | String c1 (String c2 s2) =>
            h ← unhex_digit c1; l ← unhex_digit c2; rest ← unescape plus_space s2;
            Some (String (byte_of h l) rest)
        | _ => None
        end
      else rest ← unescape plus_space s1;
           Some (String (if plus_space && Ascii.eqb c "+" then " "%char else c) rest)
  end.

(** [s] before and after the first [c]. *)
Fixpoint cut (c : ascii) (s : string) : option (string * string) :=
  match s with
  | EmptyString => None
  | String x s' =>
      if Ascii.eqb x c then Some ("", s')
      else ab ← cut c s'; Some (String x ab.1, ab.2)
  end.

(** [s] before and after the last [c]. *)
Fixpoint cut_last (c : ascii) (s : string) : option (string * string) :=
  match s with
  | EmptyString => None
  | String x s' =>
      match cut_last c s' with
      | Some ab => Some (String x ab.1, ab.2)
      | None => if Ascii.eqb x c then Some ("", s') else None
      end
  end.

(** User and password, host and port, path, and the query in its order. *)
Record URL := mkURL {
  u_scheme : string;
  u_user : option (string * option string);
  u_host : string;
  u_path : string;
  u_query : list (string * string);
}.

Definition read_pair (s : string) : option (string * string) :=
  '(k, v) ← cut "=" s; k' ← unescape true k; v' ← unescape true v; Some (k', v').

Definition read_user (s : string) : option (string * option string) :=
  match cut ":" s with
  | None => u ← unescape false s; Some (u, None)
  | Some (u, p) => u' ← unescape false u; p' ← unescape false p; Some (u', Some p')
  end.

Definition read_authority (s : string) : option (option (string * option string) * string) :=
  match cut_last "@" s with
  | None => h ← unescape false s; Some (None, h)
  | Some (ui, h) => u ← read_user ui; h' ← unescape false h; Some (Some u, h')
  end.

Definition read_url (s : string) : option URL :=
  if has_char "#" s then None else
  '(scheme, s1) ← cut ":" s; s2 ← CutPrefix "//" s1; '(main, query) ← cut "?" s2;
  let '(authority, path) := match cut "/" main with
                            | Some (a, b) => (a, String "/" b)
                            | None => (main, "") end in
  '(user, host) ← read_authority authority;
  path' ← unescape false path;
  kvs ← mapM read_pair (Split query "&");
  Some (mkURL scheme user host path' kvs).

(** ** Escapes *)

(** A property of all characters, by evaluation. *)
Lemma all_chars (f : ascii -> bool) :
  forallb (fun n => f (ascii_of_nat n)) (seq 0 256) = true -> forall c, f c = true.
Proof. intros H c. apply (all_ascii _ H c). Qed.

Definition plain_unlike (d : ascii) (m : encoding) (c : ascii) : bool :=
  negb (plain m c && Ascii.eqb c d).

Lemma plain_percent m c : plain m c = true -> Ascii.eqb c "%" = false.
Proof.
  intros H. assert (Ha : forall c, plain_unlike "%" m c = true)
    by (destruct m; apply all_chars; vm_compute; reflexivity).
  specialize (Ha c). unfold plain_unlike in Ha. rewrite H in Ha. by apply negb_true_iff in Ha.
Qed.

Lemma unescape_pct b c rest s :
  unescape b s = Some rest -> unescape b (pct c +:+ s) = Some (String c rest).
Proof.
  intros H. destruct (hex_byte c) as (H1 & H2 & H3 & _). unfold pct.
  rewrite !str_app_cons_l, str_app_nil_l. cbn [unescape].
  rewrite Ascii.eqb_refl, H1, H2, H. cbn. by rewrite H3.
Qed.

Lemma unescape_escape m s :
  m <> encodeQueryComponent -> unescape false (escape m s) = Some s.
Proof.
  intros Hm. induction s as [|c s IH]; [done|]. cbn [escape]. destruct (plain m c) eqn:Ep.
  - cbn [unescape]. by rewrite (plain_percent m), IH.
  - destruct m; try done; by apply unescape_pct.
Qed.

Lemma plain_query_plus c : plain encodeQueryComponent c = true -> Ascii.eqb c "+" = false.
Proof.
  intros H. assert (Ha : forall c, plain_unlike "+" encodeQueryComponent c = true)
    by (apply all_chars; vm_compute; reflexivity).
  specialize (Ha c). unfold plain_unlike in Ha. rewrite H in Ha. by apply negb_true_iff in Ha.
Qed.

Lemma unescape_query s : unescape true (escape encodeQueryComponent s) = Some s.
Proof.
  induction s as [|c s IH]; [done|]. cbn [escape]. destruct (plain encodeQueryComponent c) eqn:Ep.
  - cbn [unescape]. by rewrite (plain_percent _ _ Ep), IH, (plain_query_plus _ Ep).
  - destruct (Ascii.eqb_spec c " ") as [->|]; [|by apply unescape_pct].
    cbn [unescape]. by rewrite IH.
Qed.

(** A character that is not a letter or digit, no percent sign, and not plain in
    the encoding does not occur in what is escaped. *)
Definition delimits (m : encoding) (d : ascii) : bool :=
  negb (is_alnum d) && negb (Ascii.eqb "%" d) && negb (plain m d)
  && match m with encodeQueryComponent => negb (Ascii.eqb "+" d) | _ => true end.

Lemma escape_no m d s : delimits m d = true -> has_char d (escape m s) = false.
Proof.
  unfold delimits. rewrite !andb_true_iff, !negb_true_iff. intros [[[Hd Hpc] Hp] Hq].
  assert (Hpct : forall c, has_char d (pct c) = false).
  { intros c. destruct (hex_byte c) as (_ & _ & _ & H4 & H5). unfold pct. cbn [has_char].
    by rewrite Hpc, !(alnum_ne _ d). }
  induction s as [|c s IH]; [done|]. cbn [escape]. destruct (plain m c) eqn:Ep.
  - cbn [has_char]. rewrite IH. destruct (Ascii.eqb_spec c d); [congruence|done].
  - destruct m; rewrite ?has_char_app, ?Hpct, ?IH; try done.
    destruct (Ascii.eqb c " "); [|by rewrite has_char_app, Hpct, IH].
    cbn [has_char]. rewrite IH. apply negb_true_iff in Hq. by rewrite Hq.
Qed.

(** ** Cutting *)

Lemma cut_app c a b : has_char c a = false -> cut c (a +:+ String c b) = Some (a, b).
Proof.
  induction a as [|x a IH]; intros Ha.
  - rewrite str_app_nil_l. simpl. by rewrite Ascii.eqb_refl.
  - simpl in Ha. apply orb_false_iff in Ha as [Hx Ha]. rewrite str_app_cons_l. simpl.
    by rewrite Hx, IH.
Qed.

Lemma cut_none c a : has_char c a = false -> cut c a = None.
Proof.
  induction a as [|x a IH]; [done|]. simpl. intros [-> Ha]%orb_false_iff. by rewrite IH.
Qed.

Lemma cut_last_none c a : has_char c a = false -> cut_last c a = None.
Proof.
  induction a as [|x a IH]; [done|]. simpl. intros [Hx Ha]%orb_false_iff. by rewrite IH, Hx.
Qed.

Lemma cut_last_app c a b : has_char c b = false -> cut_last c (a +:+ String c b) = Some (a, b).
Proof.
  intros Hb. induction a as [|x a IH].
  - rewrite str_app_nil_l. simpl. by rewrite cut_last_none, Ascii.eqb_refl.
  - rewrite str_app_cons_l. simpl. by rewrite IH.
Qed.

(** ** The parts *)

(** The credentials that a URL is given. *)
Definition login (user password : string) : option (string * option string) :=
  if bool_decide (user = "") then None
  else Some (user, if bool_decide (password = "") then None else Some password).

Lemma read_user_escape user :
  read_user (escape encodeUserPassword user) = Some (user, None).
Proof. unfold read_user. by rewrite cut_none, unescape_escape by (done || by apply escape_no). Qed.

Lemma read_user_password user password :
  read_user (escape encodeUserPassword user +:+ ":" +:+ escape encodeUserPassword password)
  = Some (user, Some password).
Proof.
  unfold read_user. rewrite str_char, (cut_app ":" (escape encodeUserPassword user)) by by apply escape_no.
  by rewrite !unescape_escape.
Qed.

Lemma read_authority_spec user password host :
  read_authority (userinfo user password +:+ escape encodeHost host)
  = Some (login user password, host).
Proof.
  assert (Hh : has_char "@" (escape encodeHost host) = false) by by apply escape_no.
  unfold read_authority, userinfo, login. case_bool_decide.
  { by rewrite str_app_nil_l, cut_last_none, unescape_escape. }
  rewrite !str_app_assoc, (str_char "@"), <- str_app_assoc, (cut_last_app "@") by done.
  case_bool_decide; [rewrite str_app_nil_r, read_user_escape|rewrite read_user_password];
    by rewrite unescape_escape.
Qed.

Lemma authority_no user password host d :
  d ∈ ["/"; "?"; "#"]%char -> has_char d (userinfo user password +:+ escape encodeHost host) = false.
Proof.
  intros Hd.
  assert (delimits encodeUserPassword d = true /\ delimits encodeHost d = true
          /\ has_char d ":" = false /\ has_char d "@" = false) as (H1 & H2 & H3 & H4).
  { repeat (apply elem_of_cons in Hd as [->|Hd]; [by vm_compute|]). by apply elem_of_nil in Hd. }
  unfold userinfo. repeat case_bool_decide;
    rewrite ?has_char_app, ?(escape_no encodeHost), ?(escape_no encodeUserPassword), ?H3, ?H4 by done; done.
Qed.

Definition pair_text (kv : string * string) : string :=
  escape encodeQueryComponent kv.1 +:+ "=" +:+ escape encodeQueryComponent kv.2.

Lemma pair_text_no kv d : d ∈ ["&"; "#"]%char -> has_char d (pair_text kv) = false.
Proof.
  intros Hd. assert (delimits encodeQueryComponent d = true /\ has_char d "=" = false) as [H1 H2].
  { repeat (apply elem_of_cons in Hd as [->|Hd]; [by vm_compute|]). by apply elem_of_nil in Hd. }
  unfold pair_text. by rewrite !has_char_app, !escape_no, H2.
Qed.

Lemma read_pair_text kv : read_pair (pair_text kv) = Some kv.
Proof.
  unfold read_pair, pair_text. rewrite str_char, (cut_app "=" (escape _ _)) by by apply escape_no. simpl.
  rewrite !unescape_query. by destruct kv.
Qed.

Lemma read_query kvs :
  kvs <> [] -> mapM read_pair (Split (encode_query kvs) "&") = Some kvs.
Proof.
  intros Hne. unfold encode_query. change (fun kv => _) with pair_text. rewrite Split_Join.
  - clear Hne. induction kvs as [|kv kvs IH]; [done|]. cbn [map mapM]. by rewrite read_pair_text, IH.
  - by destruct kvs.
  - apply Forall_map, Forall_true. intros kv. apply pair_text_no. by left.
Qed.

Lemma query_no_hash kvs : has_char "#" (encode_query kvs) = false.
Proof.
  unfold encode_query. change (fun kv => _) with pair_text. induction kvs as [|kv kvs IH]; [done|].
  cbn [map Join]. assert (Hk : has_char "#" (pair_text kv) = false) by (apply pair_text_no; by right; left).
  destruct (map pair_text kvs); [done|]. by rewrite !has_char_app, Hk, IH.
Qed.

(** ** The round trip *)

(** A URL that is written is read as its parts. *)
Lemma read_url_string scheme user password host path kvs :
  has_char ":" scheme = false -> has_char "#" scheme = false ->
  path = "" \/ (exists d, path = "/" +:+ d) -> kvs <> [] ->
  read_url (url_string scheme user password host path (encode_query kvs))
  = Some (mkURL scheme (login user password) host path kvs).
Proof.
  intros Hs1 Hs2 Hpath Hk. unfold read_url, url_string.
  assert (Hq : encode_query kvs <> "").
  { intros Hq. pose proof (read_query kvs Hk) as H. rewrite Hq in H. by vm_compute in H. }
  rewrite bool_decide_false by done.
  set (auth := userinfo user password +:+ escape encodeHost host).
  set (main := auth +:+ escape encodePath path).
  assert (Hauth : forall d, d ∈ ["/"; "?"; "#"]%char -> has_char d auth = false)
    by (intros; by apply authority_no).
  assert (Hmain : forall d, d ∈ ["?"; "#"]%char -> has_char d main = false).
  { intros d Hd. unfold main. rewrite has_char_app, Hauth by set_solver.
    apply escape_no. repeat (apply elem_of_cons in Hd as [->|Hd]; [by vm_compute|]). by apply elem_of_nil in Hd. }
  assert (Hall : scheme +:+ "://" +:+ userinfo user password +:+ escape encodeHost host
    +:+ escape encodePath path +:+ "?" +:+ encode_query kvs
    = scheme +:+ String ":" ("//" +:+ (main +:+ String "?" (encode_query kvs)))).
  { unfold main, auth. by rewrite !str_app_assoc. }
  rewrite Hall, has_char_app, Hs2. cbn [has_char]. rewrite !has_char_app, Hmain by set_solver.
  cbn [has_char]. rewrite query_no_hash. cbn [orb Ascii.eqb Bool.eqb].
  rewrite cut_app by done. cbn [mbind option_bind]. rewrite CutPrefix_app. cbn [mbind option_bind].
  rewrite cut_app by (apply Hmain; set_solver). cbn [mbind option_bind].
  assert (Hcut : match cut "/" main with Some (a, b) => (a, String "/" b) | None => (main, "") end
                 = (auth, escape encodePath path)).
  { unfold main. destruct Hpath as [->|[d ->]].
    - change (escape encodePath "") with "". rewrite str_app_nil_r, cut_none; [done|]. apply Hauth. set_solver.
    - change (escape encodePath ("/" +:+ d)) with (String "/" (escape encodePath d)).
      rewrite cut_app; [done|]. apply Hauth. set_solver. }
  rewrite Hcut. unfold auth. rewrite read_authority_spec. cbn [mbind option_bind].
  rewrite unescape_escape by done. cbn [mbind option_bind]. by rewrite read_query.
Qed.

(** The value of a parameter, or what stands for it when it is missing or
    empty. *)
Definition given (p : gmap string string) (k d : string) : string :=
  match p !! k with None => d | Some v => if bool_decide (v = "") then d else v end.

Lemma param_given p k d : (if bool_decide (param p k = "") then d else param p k) = given p k d.
Proof. unfold param, given. by destruct (p !! k). Qed.

(** What the server is told in the query. *)
Definition sqlserver_query (p : gmap string string) (kv : string * string) : Prop :=
  kv = ("database", given p "database" "")
  \/ (kv = ("encrypt", given p "encrypt" "") /\ kv.2 <> "")
  \/ (kv = ("TrustServerCertificate", given p "trustservercertificate" "") /\ kv.2 <> "").

Definition postgres_query (p : gmap string string) (kv : string * string) : Prop :=
  kv = ("sslmode", given p "sslmode" "disable")
  \/ kv = ("application_name", given p "application_name" "data-loader")
  \/ (kv = ("search_path", given p "search_path" "") /\ kv.2 <> "").

(** What [buildDSN] made of the parameters: an error when [host] or the database
    is missing; else a URL that reads as them. *)
Definition dsn_for (scheme host port path : string) (query : string * string -> Prop)
    (p : gmap string string) (r : result string) : Prop :=
  match r with
  | Err _ => given p host "" = "" \/ given p "database" "" = ""
  | Ok dsn => given p host "" <> "" /\ given p "database" "" <> ""
      /\ exists kvs,
        read_url dsn = Some (mkURL scheme (login (given p "user" "") (given p "password" ""))
                               (given p host "" +:+ ":" +:+ given p "port" port) path kvs)
        /\ NoDup kvs.*1 /\ forall kv, kv ∈ kvs <-> query kv
  end.

Lemma param_given_nil p k : param p k = given p k "".
Proof. rewrite <- param_given. by case_bool_decide. Qed.

Lemma opt_pairs p k name (kv : string * string) :
  kv ∈ (if bool_decide (param p k = "") then [] else [(name, param p k)])
  <-> kv = (name, given p k "") /\ kv.2 <> "".
Proof.
  rewrite param_given_nil. case_bool_decide as H.
  - rewrite elem_of_nil. split; [done|]. intros [-> Hne]. simpl in Hne. congruence.
  - rewrite list_elem_of_singleton. split; [by intros ->|by intros [-> _]].
Qed.


(** Credentials that look like parts of a URL. *)
Definition ex_hostile : gmap string string :=
  {[ "server" := "db"; "database" := "erp"; "user" := "sa@evil/x"; "password" := "p:?#%&=+ " ]}.

Example hostile_credentials :
  SqlServer.buildDSN ex_hostile
    = Ok "sqlserver://sa%40evil%2Fx:p%3A%3F%23%25&=+%20@db:1433?database=erp"
  /\ read_url "sqlserver://sa%40evil%2Fx:p%3A%3F%23%25&=+%20@db:1433?database=erp"
    = Some (mkURL "sqlserver" (Some ("sa@evil/x", Some "p:?#%&=+ ")) "db:1433" "" [("database", "erp")]).
Proof. split; vm_compute; reflexivity. Qed.

End DsnProofs.
