(* ===== verification/Repository.v ===== *)
(** * The metadata repository (internal/metadata: repository.go, telemetry.go)

    Watermarks, run rows, pruning and the fingerprint of the metadata.  The
    statements that gorm runs are a parameter ([Gorm]). *)

From S2P Require Import Prelude.
From S2P Require Import GoStrings.
From S2P Require Import Contracts.
From S2P Require Import Models.
From S2P Require Import Runner.
From S2P Require Import Scheduler.
From Stdlib Require Import ZArith Lia Ascii.

Module Repository.
Import GoStrings Contracts Metadata.

(** A row of the tag count queries. *)
Record tagFP := mkTagFP { tf_LoadID : Z; tf_Enabled : Z; tf_Total : Z }.

(** The statements, one per chain of gorm calls.  [Transaction] is
    [db.Transaction], [DB] is [db.DB()]; [ctx_err] and [ctx_wait] are [ctx.Err()]
    and the wait for the pause or the end of the context. *)
Class Gorm (G : Type) := {
  Transaction : M G (option error) -> M G (option error);
  First_watermark : Z -> M G (result (option WatermarkRow));
  Create_watermark : WatermarkRow -> M G (option error);
  Save_watermark : WatermarkRow -> M G (option error);
  Update_watermark : Z -> (WatermarkRow -> WatermarkRow) -> M G (option error);
  Create_run : LoadRun -> M G (result Z);
  Save_run : LoadRun -> M G (option error);
  (** update the rows that meet the condition; [None]: an expression of the
      statement overflows on the row *)
  Update_runs : (LoadRun -> bool) -> (LoadRun -> option LoadRun) -> M G (result Z);
  Create_log : LogEntry -> M G (option error);
  (** [DELETE TOP (n) FROM table WHERE condition] and [RowsAffected] *)
  Delete_logs : (LogEntry -> bool) -> Z -> M G (result Z);
  Delete_runs : (LoadRun -> bool) -> Z -> M G (result Z);
  (** loads that are not deleted, joined with their source, that meet the
      condition *)
  Find_loads : (Load -> Source -> bool) -> M G (result (list Load));
  (** one load that is not deleted, by its id *)
  First_load : Z -> M G (result Load);
  Scan_sources : M G (result (list Source));
  Scan_loads : M G (result (list Load));
  (** [SELECT ... GROUP BY key]: a row for each key, from the rows that have it *)
  Group_modbus_tags : (ModbusTag -> Z) -> (Z -> list ModbusTag -> tagFP) -> M G (result (list tagFP));
  Group_opcua_nodes : (OPCUANode -> Z) -> (Z -> list OPCUANode -> tagFP) -> M G (result (list tagFP));
  (** the rows that meet the condition, by ascending id *)
  Find_modbus_tags : (ModbusTag -> bool) -> M G (result (list ModbusTag));
  Find_opcua_nodes : (OPCUANode -> bool) -> M G (result (list OPCUANode));
  DB : M G (option error);
  now : M G Time;
  NewString : M G string;
  ctx_err : M G (option error);
  ctx_wait : M G (option error);
}.

Section Repository.
Context {G : Type} `{HG : Gorm G}.

(** The condition of the query: a disabled or deleted source stops its loads. *)
Definition enabled (l : Load) (s : Source) : bool :=
  ld_IsEnabled l && src_IsEnabled s && negb (src_Deleted s).

Definition ListEnabledLoads : M G (result (list Load)) := Find_loads enabled.

Definition GetLoad (id : Z) : M G (result Load) := First_load id.

(** ** Watermarks *)

Definition GetWatermark (loadID : Z) : M G (result (option WatermarkRow)) := First_watermark loadID.

(** The body of the transaction. *)
Definition upsert_tx (loadID : Z) (newValue : string) : M G (option error) :=
  r <~ First_watermark loadID ;;
  match r with
  | Err e => retM (Some e)
  | Ok None =>
      t <~ now ;;
      Create_watermark (mkWatermarkRow loadID newValue t "" None "")
  | Ok (Some existing) =>
      t <~ now ;;
      Save_watermark (mkWatermarkRow (wr_LoadID existing) newValue t (wr_Value existing)
                        (wr_ResetAt existing) (wr_ResetReason existing))
  end.

Definition UpsertWatermark (loadID : Z) (newValue : string) : M G (option error) :=
  Transaction (upsert_tx loadID newValue).

Definition ResetWatermark (loadID : Z) (reason : string) : M G (option error) :=
  t <~ now ;;
  Update_watermark loadID (fun w =>
    mkWatermarkRow (wr_LoadID w) "" t (wr_Value w) (Some t) reason).

(** ** Runs *)

Definition StartRun (loadID : Z) (watermarkStart : string) : M G (result LoadRun) :=
  u <~ NewString ;;
  t <~ now ;;
  let run id := mkLoadRun id u loadID "running" t None 0 0 watermarkStart "" "" 0 in
  r <~ Create_run (run 0) ;;
  retM (match r with Err e => Err e | Ok id => Ok (run id) end).

Definition millisecond : Z := 1000000.

(** [d.Milliseconds()] *)
Definition Milliseconds (d : Duration) : Z := Z.quot d millisecond.

Definition finished (run : LoadRun) (status : string) (rr rw : Z) (we msg : string) (t : Time) :
    LoadRun :=
  mkLoadRun (run_ID run) (run_RunUUID run) (run_LoadID run) status (run_StartedAt run) (Some t)
    rr rw (run_WatermarkStart run) we msg (Milliseconds (t - run_StartedAt run)).

Definition FinishRun (run : LoadRun) (status : string) (rowsRead rowsWritten : Z)
    (watermarkEnd errMsg : string) : M G (option error) :=
  t <~ now ;;
  Save_run (finished run status rowsRead rowsWritten watermarkEnd errMsg t).

(** [DATEDIFF(millisecond, a, b)]: the number of boundaries crossed, an [int]
    of SQL Server; [None]: the statement fails with an overflow. *)
Definition DATEDIFF_ms (a b : Time) : option Z :=
  let n := b / millisecond - a / millisecond in
  if (-2147483648 <=? n) && (n <=? 2147483647) then Some n else None.

Definition is_running (run : LoadRun) : bool := bool_decide (run_Status run = "running").

Definition aborted (reason : string) (t : Time) (run : LoadRun) : option LoadRun :=
  match DATEDIFF_ms (run_StartedAt run) t with
  | None => None
  | Some ms =>
      Some (mkLoadRun (run_ID run) (run_RunUUID run) (run_LoadID run) "aborted" (run_StartedAt run)
        (Some t) (run_RowsRead run) (run_RowsWritten run) (run_WatermarkStart run)
        (run_WatermarkEnd run) reason ms)
  end.

Definition AbortRunningRuns (reason0 : string) : M G (result Z) :=
  t <~ now ;;
  let reason := if bool_decide (reason0 = "") then "aborted" else reason0 in
  Update_runs is_running (aborted reason t).

(** ** Logs *)

Definition Log (e : LogEntry) : M G (option error) :=
  if IsZero (le_CreatedAt e) then
    t <~ now ;;
    Create_log (mkLogEntry t (le_Level e) (le_RunUUID e) (le_LoadID e) (le_SourceID e)
                  (le_Category e) (le_Message e) (le_Details e))
  else Create_log e.

(** ** Pruning *)

(** The loop of [pruneInBatches]; [None] when the fuel is used up. *)
Fixpoint prune_loop (del : Z -> M G (result Z)) (pause : Duration) (batchSize : Z) (fuel : nat)
    (totalDeleted : Z) : M G (option (Z * option error)) :=
  match fuel with
  | O => retM None
  | S fuel' =>
      e <~ ctx_err ;;
      match e with
      | Some err => retM (Some (totalDeleted, Some err))
      | None =>
          r <~ del batchSize ;;
          match r with
          | Err err => retM (Some (totalDeleted, Some err))
          | Ok n =>
              let total := totalDeleted + n in
              if n <? batchSize then retM (Some (total, None))
              else if 0 <? pause then
                w <~ ctx_wait ;;
                match w with
                | Some err => retM (Some (total, Some err))
                | None => prune_loop del pause batchSize fuel' total
                end
              else prune_loop del pause batchSize fuel' total
          end
      end
  end.

Definition pruneInBatches (fuel : nat) (del : Z -> M G (result Z)) (batchSize : Z)
    (pause : Duration) : M G (option (Z * option error)) :=
  e <~ DB ;;
  match e with
  | Some err => retM (Some (0, Some err))
  | None => prune_loop del pause (if batchSize <=? 0 then 5000 else batchSize) fuel 0
  end.

(** [created_at < @p2] *)
Definition log_where (cutoff : Time) (e : LogEntry) : bool := le_CreatedAt e <? cutoff.

Definition PruneLogEntries (fuel : nat) (cutoff : Time) (batchSize : Z) (pause : Duration) :
    M G (option (Z * option error)) :=
  pruneInBatches fuel (Delete_logs (log_where cutoff)) batchSize pause.

(** [started_at < @p2 AND status IN ('success', 'failed', 'aborted')] *)
Definition run_where (cutoff : Time) (r : LoadRun) : bool :=
  (run_StartedAt r <? cutoff) && bool_decide (run_Status r ∈ ["success"; "failed"; "aborted"]).

Definition PruneLoadRuns (fuel : nat) (cutoff : Time) (batchSize : Z) (pause : Duration) :
    M G (option (Z * option error)) :=
  pruneInBatches fuel (Delete_runs (run_where cutoff)) batchSize pause.

(** ** The fingerprint *)

Definition fmt_v (b : bool) : string := if b then "true" else "false".

Definition nl : string := String (char 10) "".

(** The fields of a line, which [Fprintf] separates by bars. *)
Definition source_fields (s : Source) : list string :=
  [fmt_d (src_ID s); src_Kind s; src_ParamsJSON s; fmt_v (src_IsEnabled s)].

Definition load_fields (l : Load) : list string :=
  [fmt_d (ld_ID l); fmt_d (ld_SourceID l); ld_CronExpression l; ld_Mode l;
   ld_WatermarkColumn l; ld_WatermarkType l; ld_ObjectName l; ld_TargetSchema l;
   ld_TargetTable l; fmt_d (ld_BatchSize l); fmt_v (ld_AutoCreateTable l); fmt_v (ld_IsEnabled l)].

Definition tag_fields (t : tagFP) : list string :=
  [fmt_d (tf_LoadID t); fmt_d (tf_Enabled t); fmt_d (tf_Total t)].

Definition line (fields : list string) : string := Join fields "|" +:+ nl.

Definition lines (l : list (list string)) : string := Join (map line l) "".

Definition by_key {A} (key : A -> Z) (a b : A) : Prop := key a <= key b.
#[export] Instance by_key_dec {A} (key : A -> Z) a b : Decision (by_key key a b).
Proof. unfold by_key. apply _. Defined.

Definition sort_by {A} (key : A -> Z) (l : list A) : list A := merge_sort (by_key key) l.

Definition fingerprint_text (sources : list Source) (loads : list Load)
    (modbus opcua : list tagFP) : string :=
  ("SOURCES:" +:+ nl) +:+ lines (map source_fields sources)
  +:+ ("LOADS:" +:+ nl) +:+ lines (map load_fields loads)
  +:+ ("MODBUS:" +:+ nl) +:+ lines (map tag_fields modbus)
  +:+ ("OPCUA:" +:+ nl) +:+ lines (map tag_fields opcua).

(** [SUM(CASE WHEN is_enabled = 1 THEN 1 ELSE 0 END)] and [COUNT( * )] *)
Definition count_points {A} (enabled : A -> bool) (loadID : Z) (rows : list A) : tagFP :=
  mkTagFP loadID (foldr (fun x n => (if enabled x then 1 else 0) + n) 0 rows)
    (Z.of_nat (length rows)).

(** [hex(sha256(_))] *)
Context (digest : string -> string).

Definition MetadataFingerprint : M G (result string) :=
  r1 <~ Scan_sources ;;
  match r1 with
  | Err e => retM (Err (errorf "fingerprint sources" e))
  | Ok sources =>
      r2 <~ Scan_loads ;;
      match r2 with
      | Err e => retM (Err (errorf "fingerprint loads" e))
      | Ok loads =>
          r3 <~ Group_modbus_tags mt_LoadID (count_points mt_IsEnabled) ;;
          match r3 with
          | Err e => retM (Err (errorf "fingerprint modbus tags" e))
          | Ok modbus =>
              r4 <~ Group_opcua_nodes on_LoadID (count_points on_IsEnabled) ;;
              match r4 with
              | Err e => retM (Err (errorf "fingerprint opcua nodes" e))
              | Ok opcua =>
                  retM (Ok (digest (fingerprint_text (sort_by src_ID sources) (sort_by ld_ID loads)
                    (sort_by tf_LoadID modbus) (sort_by tf_LoadID opcua))))
              end
          end
      end
  end.

(** ** telemetry.go *)

Definition listModbusTagRows (loadID : Z) : M G (result (list ModbusTag)) :=
  Find_modbus_tags (fun t => (mt_LoadID t =? loadID) && mt_IsEnabled t).

Definition listOPCUANodeRows (loadID : Z) : M G (result (list OPCUANode)) :=
  Find_opcua_nodes (fun n => (on_LoadID n =? loadID) && on_IsEnabled n).

Definition modbus_point (t : ModbusTag) : ModbusPoint :=
  mkModbusPoint (mt_CorrelationID t) (mt_TagName t) (mt_UnitID t) (mt_RegisterType t) (mt_Address t)
    (mt_Quantity t) (mt_DataType t) (mt_ByteOrder t) (mt_WordOrder t) (mt_Scale t) (mt_Offset t).

Definition ListModbusTags (loadID : Z) : M G (result (list ModbusPoint)) :=
  r <~ listModbusTagRows loadID ;;
  retM (match r with Err e => Err e | Ok tags => Ok (map modbus_point tags) end).

Definition opcua_point (n : OPCUANode) : OPCUAPoint :=
  mkOPCUAPoint (on_TagName n) (on_NodeID n) (on_Scale n) (on_Offset n).

Definition ListOPCUANodes (loadID : Z) : M G (result (list OPCUAPoint)) :=
  r <~ listOPCUANodeRows loadID ;;
  retM (match r with Err e => Err e | Ok nodes => Ok (map opcua_point nodes) end).

(** The repository is the telemetry catalog of the sources. *)
#[export] Instance Repository_catalog : TelemetryCatalog G := {|
  Contracts.ListModbusTags := ListModbusTags;
  Contracts.ListOPCUANodes := ListOPCUANodes;
|}.

(** The repository as the store of the runner and the repository of the
    scheduler. *)
#[export] Instance Repository_store : Runner.RunStore G := {|
  Runner.GetWatermark := GetWatermark;
  Runner.UpsertWatermark := UpsertWatermark;
  Runner.StartRun := StartRun;
  Runner.FinishRun := FinishRun;
|}.

#[export] Instance Repository_aborter : Scheduler.RunAborter G := {|
  Scheduler.AbortRunningRuns := AbortRunningRuns;
  Scheduler.ListEnabledLoads := ListEnabledLoads;
  Scheduler.MetadataFingerprint := MetadataFingerprint;
|}.

End Repository.
End Repository.
