(* ===== verification/RepositoryProofs.v ===== *)
(** * The metadata repository: properties

    [GormSpec] is what the repository relies on from gorm and the database.
    The repository is then a run store for the runner; run rows follow their
    life cycle; pruning ends and removes exactly what it may; every change of
    the metadata changes the text that is fingerprinted. *)

From S2P Require Import Prelude.
From S2P Require Import GoStrings.
From S2P Require Import Contracts.
From S2P Require Import Models.
From S2P Require Import Runner.
From S2P Require Import RunnerProofs.
From S2P Require Import Repository.
From Stdlib Require Import ZArith Lia Ascii.

Module RepositoryProofs.
Import GoStrings Contracts Metadata Repository.

(** The rows that are terminal and old enough to be pruned: neither running nor
    in an unknown status. *)
Definition prunable (cutoff : Time) (run : LoadRun) : Prop :=
  run_StartedAt run < cutoff /\ run_Status run ∈ ["success"; "failed"; "aborted"].
#[export] Instance prunable_dec cutoff run : Decision (prunable cutoff run).
Proof. unfold prunable. apply _. Defined.

(** The log entries that are old enough. *)
Definition expired (cutoff : Time) (e : LogEntry) : Prop := le_CreatedAt e < cutoff.
#[export] Instance expired_dec cutoff e : Decision (expired cutoff e).
Proof. unfold expired. apply _. Defined.

Abbreviation Wms := (gmap Z WatermarkRow).
Abbreviation Runs := (gmap Z LoadRun).
Abbreviation Logs := (gmap Z LogEntry).

(** The tables that the repository changes. *)
Record View := mkView { v_wms : Wms; v_runs : Runs; v_logs : Logs }.

(** The rows of a table that satisfy [P]. *)
Definition count_of {A} (P : A -> Prop) `{forall x, Decision (P x)} (m : gmap Z A) : Z :=
  Z.of_nat (size (filter (fun kv => P kv.2) m)).

(** [DELETE TOP (n)] of the rows of [m] with [P]: what it leaves, and the
    number it returns. *)
Definition deletes {A} (P : A -> Prop) `{forall x, Decision (P x)} (n : Z) (m m' : gmap Z A)
    (r : result Z) : Prop :=
  m' ⊆ m /\ (forall id x, m !! id = Some x -> ~ P x -> m' !! id = Some x)
  /\ forall k, 0 < n -> r = Ok k -> k = Z.min n (count_of P m) /\ count_of P m' = count_of P m - k.

Lemma count_of_iff {A} (P Q : A -> Prop) `{!forall x, Decision (P x)} `{!forall x, Decision (Q x)} m :
  (forall x, P x <-> Q x) -> count_of P m = count_of Q m.
Proof.
  intros HPQ. unfold count_of. f_equal. f_equal. apply map_filter_ext. intros i x _. apply HPQ.
Qed.

Lemma deletes_iff {A} (P Q : A -> Prop) `{!forall x, Decision (P x)} `{!forall x, Decision (Q x)} n m m' r :
  (forall x, P x <-> Q x) -> deletes P n m m' r -> deletes Q n m m' r.
Proof.
  intros HPQ (H1 & H2 & H3). split_and!; [done|intros id x Hx Hn; apply H2; [done|by rewrite HPQ]|].
  intros k Hn Hr. rewrite <- !(count_of_iff P Q) by done. by apply H3.
Qed.

(** What the repository relies on.  A statement that returns an error may have
    taken effect, but never partly; a transaction that returns no error has the
    effect of its body, and one that returns an error has none of it or, when
    the body succeeded, possibly all. *)
Class GormSpec (G : Type) `{Gorm G} := {
  gview : G -> View;
  law_tx : forall body g g' e, Transaction body g = (g', e) ->
    (e = None -> exists g1, body g = (g1, None) /\ gview g' = gview g1)
    /\ (gview g' = gview g \/ exists g1, body g = (g1, None) /\ gview g' = gview g1);
  law_First : forall id g g' r, First_watermark id g = (g', r) ->
    gview g' = gview g /\ forall o, r = Ok o -> o = v_wms (gview g) !! id;
  law_key : forall g, map_Forall (fun id w => wr_LoadID w = id) (v_wms (gview g));
  law_Create_wm : forall w g g' e, Create_watermark w g = (g', e) ->
    v_runs (gview g') = v_runs (gview g)
    /\ (e = None -> v_wms (gview g') = <[wr_LoadID w := w]> (v_wms (gview g)));
  law_Save_wm : forall w g g' e, Save_watermark w g = (g', e) ->
    v_runs (gview g') = v_runs (gview g)
    /\ (e = None -> v_wms (gview g') = <[wr_LoadID w := w]> (v_wms (gview g)));
  law_Create_run : forall run g g' r, Create_run run g = (g', r) ->
    v_wms (gview g') = v_wms (gview g)
    /\ match r with
       | Ok id => v_runs (gview g) !! id = None
           /\ exists run', run' = mkLoadRun id (run_RunUUID run) (run_LoadID run) (run_Status run)
                (run_StartedAt run) (run_FinishedAt run) (run_RowsRead run) (run_RowsWritten run)
                (run_WatermarkStart run) (run_WatermarkEnd run) (run_ErrorMessage run)
                (run_DurationMs run)
              /\ v_runs (gview g') = <[id := run']> (v_runs (gview g))
       | Err _ => True
       end;
  law_Save_run : forall run g g' e, Save_run run g = (g', e) ->
    v_wms (gview g') = v_wms (gview g)
    /\ (e = None -> v_runs (gview g') = <[run_ID run := run]> (v_runs (gview g)));
  law_Update_runs : forall p f g g' r, Update_runs p f g = (g', r) ->
    v_wms (gview g') = v_wms (gview g)
    /\ (forall n, r = Ok n ->
         (forall id, v_runs (gview g') !! id
            = (x ← v_runs (gview g) !! id; if p x then f x else Some x))
         /\ map_Forall (fun _ x => p x = true -> is_Some (f x)) (v_runs (gview g))
         /\ n = Z.of_nat (size (filter (fun kv => p kv.2 = true) (v_runs (gview g)))))
    /\ (forall id x, v_runs (gview g) !! id = Some x -> p x = true -> f x = None ->
         v_runs (gview g') = v_runs (gview g));
  law_Delete_runs : forall p n g g' r, Delete_runs p n g = (g', r) ->
    v_wms (gview g') = v_wms (gview g) /\ v_logs (gview g') = v_logs (gview g)
    /\ deletes (fun x => p x = true) n (v_runs (gview g)) (v_runs (gview g')) r;
  law_Delete_logs : forall p n g g' r, Delete_logs p n g = (g', r) ->
    v_wms (gview g') = v_wms (gview g) /\ v_runs (gview g') = v_runs (gview g)
    /\ deletes (fun x => p x = true) n (v_logs (gview g)) (v_logs (gview g')) r;
  law_Create_log : forall e g g' r, Create_log e g = (g', r) ->
    v_wms (gview g') = v_wms (gview g) /\ v_runs (gview g') = v_runs (gview g)
    /\ (r = None -> exists id, v_logs (gview g) !! id = None
          /\ v_logs (gview g') = <[id := e]> (v_logs (gview g)));
  law_logs_kept :
    (forall w g, v_logs (gview (Create_watermark w g).1) = v_logs (gview g))
    /\ (forall w g, v_logs (gview (Save_watermark w g).1) = v_logs (gview g))
    /\ (forall run g, v_logs (gview (Create_run run g).1) = v_logs (gview g))
    /\ (forall run g, v_logs (gview (Save_run run g).1) = v_logs (gview g))
    /\ (forall p f g, v_logs (gview (Update_runs p f g).1) = v_logs (gview g));
  law_DB : forall g, gview (DB g).1 = gview g;
  law_now : forall g, gview (now g).1 = gview g;
  law_uuid : forall g, gview (NewString g).1 = gview g;
  law_ctx : forall g, gview (ctx_err g).1 = gview g /\ gview (ctx_wait g).1 = gview g;
}.

(** The metadata that is fingerprinted, by id: sources and loads that are not
    deleted, tags and nodes. *)
Record Catalog := mkCatalog {
  c_sources : gmap Z Source;
  c_loads : gmap Z Load;
  c_tags : gmap Z ModbusTag;
  c_nodes : gmap Z OPCUANode;
}.

Definition rows_of {A} (m : gmap Z A) : list A := (map_to_list m).*2.

(** [GROUP BY key] *)
Definition groups {A} (key : A -> Z) (agg : Z -> list A -> tagFP) (rows : list A) : list tagFP :=
  (fun k => agg k (filter (fun x => key x = k) rows)) <$> remove_dups (key <$> rows).

(** What the queries of the fingerprint return; the order of rows is not
    relied on. *)
Class CatalogSpec (G : Type) `{Gorm G} := {
  catalog : G -> Catalog;
  law_Scan_sources : forall g g' r, Scan_sources g = (g', r) ->
    catalog g' = catalog g /\ forall l, r = Ok l -> l ≡ₚ rows_of (c_sources (catalog g));
  law_Scan_loads : forall g g' r, Scan_loads g = (g', r) ->
    catalog g' = catalog g /\ forall l, r = Ok l -> l ≡ₚ rows_of (c_loads (catalog g));
  law_Group_tags : forall key agg g g' r, Group_modbus_tags key agg g = (g', r) ->
    catalog g' = catalog g
    /\ forall l, r = Ok l -> exists rows, rows ≡ₚ rows_of (c_tags (catalog g)) /\ l ≡ₚ groups key agg rows;
  law_Group_nodes : forall key agg g g' r, Group_opcua_nodes key agg g = (g', r) ->
    catalog g' = catalog g
    /\ forall l, r = Ok l -> exists rows, rows ≡ₚ rows_of (c_nodes (catalog g)) /\ l ≡ₚ groups key agg rows;
}.

Section Proofs.
Context {G : Type} `{HG : Gorm G} `{HS : !GormSpec G}.

Lemma now_view g g' t : now g = (g', t) -> gview g' = gview g.
Proof. intros H. pose proof (law_now g) as Hn. by rewrite H in Hn. Qed.

Lemma uuid_view g g' t : NewString g = (g', t) -> gview g' = gview g.
Proof. intros H. pose proof (law_uuid g) as Hn. by rewrite H in Hn. Qed.

Lemma save_wm_logs w g g' e : Save_watermark w g = (g', e) -> v_logs (gview g') = v_logs (gview g).
Proof. intros H. pose proof (proj1 (proj2 law_logs_kept) w g) as Hl. by rewrite H in Hl. Qed.

Lemma create_wm_logs w g g' e : Create_watermark w g = (g', e) -> v_logs (gview g') = v_logs (gview g).
Proof. intros H. pose proof (proj1 law_logs_kept w g) as Hl. by rewrite H in Hl. Qed.

(** ** The run store *)

Definition wm_of (g : G) (id : Z) : option string := wr_Value <$> v_wms (gview g) !! id.

(** The row that an upsert leaves. *)
Definition upserted (id : Z) (v : string) (old : option WatermarkRow) (w : WatermarkRow) : Prop :=
  wr_LoadID w = id /\ wr_Value w = v
  /\ wr_PreviousValue w = match old with Some o => wr_Value o | None => "" end.

Definition did_upsert (id : Z) (v : string) (g g' : G) : Prop :=
  exists w, upserted id v (v_wms (gview g) !! id) w
    /\ gview g' = mkView (<[id := w]> (v_wms (gview g))) (v_runs (gview g)) (v_logs (gview g)).

Lemma upsert_tx_spec id v g g1 : upsert_tx id v g = (g1, None) -> did_upsert id v g g1.
Proof.
  unfold upsert_tx. intros (g2 & r & Hf & Hb)%bindM_inv. apply law_First in Hf as [Hf Ho].
  destruct r as [[old|]|err]; [| |done].
  - apply bindM_inv in Hb as (g3 & t & Hn%now_view & Hb).
    pose proof (save_wm_logs _ _ _ _ Hb) as Hl. apply law_Save_wm in Hb as [Hr Hw].
    specialize (Ho _ eq_refl). specialize (Hw eq_refl). simpl in Hw.
    assert (Hk : wr_LoadID old = id) by (by apply (law_key g)).
    exists (mkWatermarkRow (wr_LoadID old) v t (wr_Value old) (wr_ResetAt old) (wr_ResetReason old)).
    rewrite <- Ho. split; [done|]. rewrite Hk in Hw at 1. rewrite <- Hf, <- Hn, <- Hr, <- Hl, <- Hw.
    by destruct (gview g1).
  - apply bindM_inv in Hb as (g3 & t & Hn%now_view & Hb).
    pose proof (create_wm_logs _ _ _ _ Hb) as Hl. apply law_Create_wm in Hb as [Hr Hw].
    specialize (Ho _ eq_refl). specialize (Hw eq_refl). simpl in Hw.
    exists (mkWatermarkRow id v t "" None "").
    rewrite <- Ho. split; [done|]. rewrite <- Hf, <- Hn, <- Hr, <- Hl, <- Hw. by destruct (gview g1).
Qed.

Lemma UpsertWatermark_spec id v g g' e :
  UpsertWatermark id v g = (g', e) ->
  (e = None -> did_upsert id v g g') /\ (gview g' = gview g \/ did_upsert id v g g').
Proof.
  assert (Hd : forall g1, upsert_tx id v g = (g1, None) -> gview g' = gview g1 -> did_upsert id v g g').
  { intros g1 Hb Hv. apply upsert_tx_spec in Hb as (w & Hw & Hv1). exists w. by rewrite Hv. }
  intros [Hok Hor]%law_tx. split.
  - intros He. destruct (Hok He) as (g1 & ? & ?). eauto.
  - destruct Hor as [?|(g1 & ? & ?)]; eauto.
Qed.

Lemma did_upsert_wm id v g g' : did_upsert id v g g' ->
  wm_of g' id = Some v /\ forall i, i <> id -> wm_of g' i = wm_of g i.
Proof.
  intros (w & (_ & Hv & _) & Hg). unfold wm_of. rewrite Hg. simpl. rewrite lookup_insert_eq.
  split; [by rewrite <- Hv|]. intros i Hi. by rewrite lookup_insert_ne.
Qed.

#[local] Obligation Tactic := idtac.

(** The repository meets the store contract of the runner. *)
#[export] Program Instance Repository_store_spec : RunnerProofs.RunStoreSpec G := {|
  RunnerProofs.wm_view := wm_of;
|}.
Next Obligation.
  intros id g g' r H. apply law_First in H as [Hv Ho]. unfold wm_of. rewrite Hv. split; [done|].
  intros o ->. by rewrite <- (Ho o).
Qed.
Next Obligation.
  intros id v g g' e H. apply UpsertWatermark_spec in H as [Hok [Hv|Hd]]; split_and!.
  - intros i _. unfold wm_of. by rewrite Hv.
  - intros He. by apply (did_upsert_wm id v g g'), Hok.
  - left. unfold wm_of. by rewrite Hv.
  - by apply did_upsert_wm in Hd as [_ ?].
  - intros He. by apply (did_upsert_wm id v g g'), Hok.
  - right. by apply did_upsert_wm in Hd as [? _].
Qed.
Next Obligation.
  intros id v g g' r H i. simpl in H. unfold StartRun in H.
  apply bindM_inv in H as (g1 & u & Hu%uuid_view & H). apply bindM_inv in H as (g2 & t & Ht%now_view & H).
  apply bindM_inv in H as (g3 & r3 & Hc & H). unfold retM in H. simplify_eq.
  apply law_Create_run in Hc as [Hw _]. unfold wm_of. by rewrite Hw, Ht, Hu.
Qed.
Next Obligation.
  intros run st rr rw we msg g g' e H i. simpl in H. unfold FinishRun in H.
  apply bindM_inv in H as (g1 & t & Ht%now_view & H). apply law_Save_run in H as [Hw _].
  unfold wm_of. by rewrite Hw, Ht.
Qed.

(** Storing a watermark never loses the one before.  [UpsertWatermark]
    without an error leaves exactly one changed row, the load's, with the new
    value and the previous value kept beside it (empty when there was none);
    with an error either the same has happened or nothing has, and no run row
    and no other load is touched in any case. *)
Theorem upsert_keeps_previous id v g :
  let '(g', e) := UpsertWatermark id v g in
  (e = None -> did_upsert id v g g') /\ (gview g' = gview g \/ did_upsert id v g g').
Proof. destruct (UpsertWatermark id v g) eqn:E. by apply UpsertWatermark_spec. Qed.

(** ** Run rows *)

(** The row [r] of a run that has ended: what identifies it and how it started
    is as in [run], the rest is what the end brought. *)
Record ended (run r : LoadRun) (status : string) (rowsRead rowsWritten : Z)
    (watermarkEnd message : string) (finish duration : Z) : Prop := {
  en_ID : run_ID r = run_ID run;
  en_UUID : run_RunUUID r = run_RunUUID run;
  en_Load : run_LoadID r = run_LoadID run;
  en_Started : run_StartedAt r = run_StartedAt run;
  en_WatermarkStart : run_WatermarkStart r = run_WatermarkStart run;
  en_Status : run_Status r = status;
  en_Finished : run_FinishedAt r = Some finish;
  en_RowsRead : run_RowsRead r = rowsRead;
  en_RowsWritten : run_RowsWritten r = rowsWritten;
  en_WatermarkEnd : run_WatermarkEnd r = watermarkEnd;
  en_Message : run_ErrorMessage r = message;
  en_Duration : run_DurationMs r = duration;
}.

(** What [AbortRunningRuns] makes of a row at the time [t]; the duration is the
    number of millisecond boundaries since the start, and fits an [int]. *)
Definition abort_row (why : string) (t : Time) (run r : LoadRun) : Prop :=
  if bool_decide (run_Status run = "running")
  then let ms := t / 1000000 - run_StartedAt run / 1000000 in
       ended run r "aborted" (run_RowsRead run) (run_RowsWritten run) (run_WatermarkEnd run) why t ms
       /\ -2 ^ 31 <= ms < 2 ^ 31
  else r = run.

Lemma aborted_row why t run r :
  (if is_running run then aborted why t run else Some run) = Some r -> abort_row why t run r.
Proof.
  unfold is_running, abort_row, aborted, DATEDIFF_ms, millisecond. case_bool_decide; [|by intros [= ->]].
  destruct (_ && _) eqn:E; [|done]. intros [= <-]. apply andb_true_iff in E as [E1 E2].
  apply Z.leb_le in E1, E2. split; [by constructor|lia].
Qed.

Lemma StartRun_spec loadID wmStart g g1 run :
  StartRun loadID wmStart g = (g1, Ok run) ->
  v_runs (gview g) !! run_ID run = None
  /\ v_runs (gview g1) = <[run_ID run := run]> (v_runs (gview g))
  /\ run_StartedAt run = (now (NewString g).1).2 /\ run_RunUUID run = (NewString g).2
  /\ run_LoadID run = loadID /\ run_Status run = "running" /\ run_WatermarkStart run = wmStart
  /\ run_FinishedAt run = None.
Proof.
  unfold StartRun. intros H. apply bindM_inv in H as (g2 & u & Hu & H).
  apply bindM_inv in H as (g3 & t & Ht & H). apply bindM_inv in H as (g4 & r & Hc & H).
  unfold retM in H. destruct r as [id|]; simplify_eq. rewrite Hu. simpl. rewrite Ht.
  apply law_Create_run in Hc as (_ & Hnew & run' & -> & Hr). simpl in *.
  apply uuid_view in Hu. apply now_view in Ht. rewrite Ht, Hu in *. by split_and!.
Qed.

Lemma AbortRunningRuns_spec reason g g' n :
  AbortRunningRuns reason g = (g', Ok n) ->
  let why := if bool_decide (reason = "") then "aborted" else reason in
  (forall id, match v_runs (gview g) !! id, v_runs (gview g') !! id with
              | Some run, Some r => abort_row why (now g).2 run r
              | None, None => True
              | _, _ => False
              end)
  /\ n = Z.of_nat (size (filter (fun kv => run_Status kv.2 = "running") (v_runs (gview g)))).
Proof.
  unfold AbortRunningRuns. intros (g1 & t & Ht & H)%bindM_inv. rewrite Ht. simpl.
  apply now_view in Ht. apply law_Update_runs in H as (_ & Hu & _).
  destruct (Hu n eq_refl) as (Hrows & Hall & ->). rewrite Ht in *. split.
  - intros id. rewrite Hrows. destruct (v_runs (gview g) !! id) as [run|] eqn:E; [|done]. simpl.
    destruct (is_running run) eqn:Er; [destruct (Hall id run E Er) as [r Hr]; rewrite Hr|];
      apply aborted_row; by rewrite Er.
  - f_equal. f_equal. apply map_filter_ext. intros id run _. unfold is_running. simpl.
    by rewrite bool_decide_eq_true.
Qed.

(** C25. A run row follows its life cycle.  [StartRun] adds one row, with a new
    id and UUID, the time of the clock as its start, in status "running" and
    with the watermark the run starts from, and returns it.  [FinishRun] on that
    row, whatever statements ran in between, leaves it with the final status,
    counts, watermark and message, the identity and the start it had, the time
    of the clock as its end and the milliseconds between the two as its
    duration, and touches no other row.  After [AbortRunningRuns] without an
    error the rows that were in status "running" are "aborted", at the time of
    the clock, with the reason ("aborted" when it is empty) and the milliseconds
    since the start, all others are as before, and the number that is returned is
    the number of rows that changed. *)
Theorem run_lifecycle loadID wmStart reason g g1 run h h' a a' n
    status rr rw we msg
    (Hstart : StartRun loadID wmStart g = (g1, Ok run))
    (Hfinish : FinishRun run status rr rw we msg h = (h', None))
    (Habort : AbortRunningRuns reason a = (a', Ok n)) :
  (v_runs (gview g) !! run_ID run = None
   /\ v_runs (gview g1) = <[run_ID run := run]> (v_runs (gview g))
   /\ run_StartedAt run = (now (NewString g).1).2 /\ run_RunUUID run = (NewString g).2
   /\ run_LoadID run = loadID /\ run_Status run = "running" /\ run_WatermarkStart run = wmStart
   /\ run_FinishedAt run = None)
  /\ (exists r, v_runs (gview h') = <[run_ID run := r]> (v_runs (gview h))
        /\ ended run r status rr rw we msg (now h).2 (((now h).2 - run_StartedAt run) ÷ 1000000))
  /\ (let why := if bool_decide (reason = "") then "aborted" else reason in
      (forall id, match v_runs (gview a) !! id, v_runs (gview a') !! id with
                  | Some old, Some r => abort_row why (now a).2 old r
                  | None, None => True
                  | _, _ => False
                  end)
      /\ n = Z.of_nat (size (filter (fun kv => run_Status kv.2 = "running") (v_runs (gview a))))).
Proof.
  split; [by apply StartRun_spec|]. split; [|by apply AbortRunningRuns_spec].
  unfold FinishRun in Hfinish. apply bindM_inv in Hfinish as (h1 & t & Ht & Hf). rewrite Ht. simpl.
  apply now_view in Ht. apply law_Save_run in Hf as [_ Hs]. specialize (Hs eq_refl).
  eexists. split; [rewrite <- Ht; exact Hs|]. by constructor.
Qed.

(** A row that has been "running" for more than 2^31 milliseconds, some 24 days,
    makes the update fail as a whole: no row is aborted. *)
Theorem abort_overflow reason g id run g' r :
  v_runs (gview g) !! id = Some run -> run_Status run = "running" ->
  2 ^ 31 <= (now g).2 / 1000000 - run_StartedAt run / 1000000 ->
  AbortRunningRuns reason g = (g', r) ->
  is_ok r = false /\ v_runs (gview g') = v_runs (gview g).
Proof.
  unfold AbortRunningRuns. intros Hrun Hst Hold (g1 & t & Ht & H)%bindM_inv. rewrite Ht in Hold.
  simpl in Hold. apply now_view in Ht. rewrite <- Ht in Hrun |- *. apply law_Update_runs in H as (_ & Hu & Hov).
  set (why := if bool_decide (reason = "") then "aborted" else reason) in *.
  assert (Hr : is_running run = true) by (unfold is_running; by apply bool_decide_eq_true).
  assert (Hf : aborted why t run = None).
  { unfold aborted, DATEDIFF_ms, millisecond. destruct (_ && _) eqn:E; [|done].
    apply andb_true_iff in E as [_ E]. apply Z.leb_le in E. lia. }
  split; [|by eapply Hov].
  destruct r as [n|]; [|done]. destruct (Hu n eq_refl) as (_ & Hall & _).
  destruct (Hall id run Hrun Hr) as [x Hx]. congruence.
Qed.

(** ** Pruning *)

Lemma ctx_err_view g g' e : ctx_err g = (g', e) -> gview g' = gview g.
Proof. intros H. destruct (law_ctx g) as [Hc _]. by rewrite H in Hc. Qed.
Lemma ctx_wait_view g g' e : ctx_wait g = (g', e) -> gview g' = gview g.
Proof. intros H. destruct (law_ctx g) as [_ Hc]. by rewrite H in Hc. Qed.
Lemma DB_view g g' e : DB g = (g', e) -> gview g' = gview g.
Proof. intros H. pose proof (law_DB g) as Hc. by rewrite H in Hc. Qed.

(** Pruning of the table [tab], whose rows with [P] may go; [frame] is the
    rest of the database. *)
Section Table.
Context {A X : Type} (tab : View -> gmap Z A) (frame : View -> X).
Context (P : A -> Prop) `{HP : forall x, Decision (P x)}.
Context (del : Z -> M G (result Z)).
Hypothesis Hdel : forall n g g' r, del n g = (g', r) ->
  frame (gview g') = frame (gview g) /\ deletes P n (tab (gview g)) (tab (gview g')) r.

(** What pruning may do: it removes rows of the table, and only such rows. *)
Definition only_pruned (g g' : G) : Prop :=
  frame (gview g') = frame (gview g) /\ tab (gview g') ⊆ tab (gview g)
  /\ (forall id x, tab (gview g) !! id = Some x -> ~ P x -> tab (gview g') !! id = Some x).

Definition left_over (g : G) : Z := count_of P (tab (gview g)).

Lemma only_pruned_refl g g' : gview g' = gview g -> only_pruned g g'.
Proof. unfold only_pruned. intros ->. done. Qed.

Lemma only_pruned_trans g1 g2 g3 : only_pruned g1 g2 -> only_pruned g2 g3 -> only_pruned g1 g3.
Proof.
  intros (H1 & H2 & H3) (H4 & H5 & H6). split_and!; [congruence|by etrans|eauto].
Qed.

Lemma left_over_view g g' : gview g' = gview g -> left_over g' = left_over g.
Proof. unfold left_over. by intros ->. Qed.

(** The result of a pruning that started at [g] with [total] rows deleted. *)
Definition pruned (total : Z) (g g' : G) (total' : Z) (e : option error) : Prop :=
  only_pruned g g' /\ (e = None -> left_over g' = 0 /\ total' = total + left_over g).

Lemma prune_loop_spec pause batch : 0 < batch -> forall fuel total g,
  left_over g < Z.of_nat fuel ->
  exists g' total' e,
    prune_loop del pause batch fuel total g = (g', Some (total', e)) /\ pruned total g g' total' e.
Proof.
  intros Hb. induction fuel as [|fuel IH]; intros total g Hf; [unfold left_over, count_of in Hf; lia|].
  cbn [prune_loop]. unfold bindM at 1. destruct (ctx_err g) as [g1 e1] eqn:E1.
  apply ctx_err_view in E1. destruct e1 as [err|].
  { exists g1, total, (Some err). split; [done|]. split; [by apply only_pruned_refl|done]. }
  unfold bindM at 1. destruct (del batch g1) as [g2 r] eqn:E2.
  apply Hdel in E2 as (H1 & H2 & H3 & H4).
  assert (Hop : only_pruned g g2) by (eapply only_pruned_trans; [by apply only_pruned_refl|done]).
  destruct r as [k|err]; [|exists g2, total, (Some err); by split].
  destruct (H4 k Hb eq_refl) as [Hk Hc]. fold (left_over g1) (left_over g2) in Hk, Hc.
  rewrite (left_over_view g g1 E1) in Hk, Hc.
  assert (Hpos : 0 <= left_over g) by (unfold left_over, count_of; lia).
  destruct (Z.ltb_spec k batch) as [Hlt|Hge].
  { exists g2, (total + k), None. split; [done|]. split; [done|]. intros _. lia. }
  assert (Hnext : forall g3, gview g3 = gview g2 -> exists g' total' e,
    prune_loop del pause batch fuel (total + k) g3 = (g', Some (total', e))
    /\ pruned total g g' total' e).
  { intros g3 Hg3. apply left_over_view in Hg3 as Hc3.
    destruct (IH (total + k) g3) as (g' & total' & e & Hr & Ho & He); [lia|].
    exists g', total', e. split; [done|]. split.
    - eapply only_pruned_trans; [exact Hop|]. eapply only_pruned_trans; [by apply only_pruned_refl|done].
    - intros H. destruct (He H) as [? ->]. split; [done|]. lia. }
  destruct (0 <? pause); [|by apply Hnext].
  unfold bindM at 1. destruct (ctx_wait g2) as [g3 w] eqn:E3. apply ctx_wait_view in E3.
  destruct w as [err|]; [|by apply Hnext].
  exists g3, (total + k), (Some err). split; [done|]. split; [|done].
  eapply only_pruned_trans; [exact Hop|by apply only_pruned_refl].
Qed.

Lemma pruneInBatches_spec fuel batchSize pause g :
  left_over g < Z.of_nat fuel ->
  exists g' total e,
    pruneInBatches fuel del batchSize pause g = (g', Some (total, e)) /\ pruned 0 g g' total e.
Proof.
  intros Hf. unfold pruneInBatches, bindM at 1. destruct (DB g) as [g1 e1] eqn:E1. apply DB_view in E1.
  destruct e1 as [err|].
  { exists g1, 0, (Some err). split; [done|]. split; [by apply only_pruned_refl|done]. }
  rewrite <- (left_over_view g g1 E1) in Hf.
  destruct (prune_loop_spec pause (if batchSize <=? 0 then 5000 else batchSize)) with
    (fuel := fuel) (total := 0) (g := g1) as (g' & total & e & H1 & H2 & H3);
    [destruct (Z.leb_spec batchSize 0); lia|done|].
  exists g', total, e. split; [done|]. split.
  - eapply only_pruned_trans; [by apply only_pruned_refl|done].
  - intros He. rewrite <- (left_over_view g g1 E1). by apply H3.
Qed.
End Table.

(** The two tables that are pruned, each with the rest of the database. *)
Definition runs_frame (v : View) := (v_wms v, v_logs v).
Definition logs_frame (v : View) := (v_wms v, v_runs v).

Definition runs_pruned (cutoff : Time) := pruned v_runs runs_frame (prunable cutoff) 0.
Definition logs_pruned (cutoff : Time) := pruned v_logs logs_frame (expired cutoff) 0.

Definition prunable_count (cutoff : Time) (g : G) : Z := left_over v_runs (prunable cutoff) g.
Definition expired_count (cutoff : Time) (g : G) : Z := left_over v_logs (expired cutoff) g.

Lemma PruneLoadRuns_spec fuel cutoff batchSize pause g :
  prunable_count cutoff g < Z.of_nat fuel ->
  exists g' total e,
    PruneLoadRuns fuel cutoff batchSize pause g = (g', Some (total, e))
    /\ runs_pruned cutoff g g' total e.
Proof.
  apply pruneInBatches_spec. intros n g1 g2 r H. apply law_Delete_runs in H as (H1 & H2 & H3).
  split; [unfold runs_frame; by rewrite H1, H2|]. revert H3. apply deletes_iff. intros x.
  unfold run_where, prunable. by rewrite andb_true_iff, Z.ltb_lt, bool_decide_eq_true.
Qed.

Lemma PruneLogEntries_spec fuel cutoff batchSize pause g :
  expired_count cutoff g < Z.of_nat fuel ->
  exists g' total e,
    PruneLogEntries fuel cutoff batchSize pause g = (g', Some (total, e))
    /\ logs_pruned cutoff g g' total e.
Proof.
  apply pruneInBatches_spec. intros n g1 g2 r H. apply law_Delete_logs in H as (H1 & H2 & H3).
  split; [unfold logs_frame; by rewrite H1, H2|]. revert H3. apply deletes_iff. intros x.
  unfold log_where, expired. by rewrite Z.ltb_lt.
Qed.

(** C26. Pruning ends and is exact.  One iteration more than there are rows to
    prune is always enough, whatever the batch size and pause; run rows that are
    running or that started at or after the cutoff, log entries from the cutoff
    on, and every other table are never touched, also when a statement fails or
    the context ends; and without an error every row that could be pruned is gone
    and the number returned is the number of them. *)
Theorem prune_exact fuel cutoff batchSize pause g
    (Hfuel : prunable_count cutoff g < Z.of_nat fuel /\ expired_count cutoff g < Z.of_nat fuel) :
  (exists g' total e,
     PruneLoadRuns fuel cutoff batchSize pause g = (g', Some (total, e))
     /\ only_pruned v_runs runs_frame (prunable cutoff) g g'
     /\ (e = None -> prunable_count cutoff g' = 0 /\ total = prunable_count cutoff g))
  /\ (exists g' total e,
     PruneLogEntries fuel cutoff batchSize pause g = (g', Some (total, e))
     /\ only_pruned v_logs logs_frame (expired cutoff) g g'
     /\ (e = None -> expired_count cutoff g' = 0 /\ total = expired_count cutoff g)).
Proof.
  destruct Hfuel as [Hr Hl]. split.
  - destruct (PruneLoadRuns_spec fuel cutoff batchSize pause g Hr) as (g' & total & e & H1 & H2 & H3).
    by exists g', total, e.
  - destruct (PruneLogEntries_spec fuel cutoff batchSize pause g Hl) as (g' & total & e & H1 & H2 & H3).
    by exists g', total, e.
Qed.

End Proofs.

(** ** The fingerprint text *)

Lemma has_char_Join c d fields :
  c <> d -> Forall (fun f => has_char c f = false) fields ->
  has_char c (Join fields (String d "")) = false.
Proof.
  intros Hne Hf. induction Hf as [|f fields Hc Hf IH]; [done|]. destruct fields as [|f2 fields]; [done|].
  change (Join (f :: f2 :: fields) (String d "")) with (f +:+ String d "" +:+ Join (f2 :: fields) (String d "")).
  rewrite !has_char_app, Hc, IH. simpl. destruct (Ascii.eqb_spec d c); [congruence|done].
Qed.

(** Decimal numbers hold neither bars nor newlines. *)
Definition separator (c : ascii) : Prop := c = "|"%char \/ c = char 10.

Lemma pretty_N_char_sep c x : separator c -> Ascii.eqb (pretty_N_char x) c = false.
Proof. intros [-> | ->]; unfold pretty_N_char; by repeat case_match. Qed.

Lemma pretty_N_go_sep c x : separator c -> forall s, has_char c (pretty_N_go x s) = has_char c s.
Proof.
  intros Hc. induction (N.lt_wf_0 x) as [x _ IH]; intros s.
  assert (x = 0 \/ 0 < x)%N as [->|Hx] by lia; [by rewrite pretty_N_go_0|].
  rewrite pretty_N_go_step by done. rewrite IH by (by apply N.div_lt). simpl.
  by rewrite pretty_N_char_sep.
Qed.

Lemma fmt_d_sep c z : separator c -> has_char c (fmt_d z) = false.
Proof.
  intros Hc. unfold fmt_d, pretty, pretty_Z.
  assert (Hn : forall p, has_char c (pretty (Npos p)) = false).
  { intros p. unfold pretty, pretty_N. rewrite decide_False by done. by rewrite pretty_N_go_sep. }
  destruct z as [|p|p].
  - by destruct Hc as [-> | ->].
  - apply Hn.
  - rewrite has_char_app. change (pretty p) with (pretty (Npos p)). rewrite Hn.
    by destruct Hc as [-> | ->].
Qed.

Lemma fmt_v_sep c b : separator c -> has_char c (fmt_v b) = false.
Proof. by intros [-> | ->]; destruct b. Qed.

(** A text field without bars and newlines. *)
Definition clean (s : string) : Prop := has_char "|" s = false /\ has_char (char 10) s = false.

Lemma clean_sep c s : clean s -> separator c -> has_char c s = false.
Proof. intros [H1 H2] [-> | ->]; done. Qed.

Definition clean_source (s : Source) : Prop := clean (src_Kind s) /\ clean (src_ParamsJSON s).
Definition clean_load (l : Load) : Prop :=
  Forall clean [ld_CronExpression l; ld_Mode l; ld_WatermarkColumn l; ld_WatermarkType l;
    ld_ObjectName l; ld_TargetSchema l; ld_TargetTable l].

(** The fields of a line: at least two, without separators. *)
Definition good_fields (fs : list string) : Prop :=
  (2 <= length fs)%nat /\ forall c, separator c -> Forall (fun f => has_char c f = false) fs.

Lemma good_source s : clean_source s -> good_fields (source_fields s).
Proof.
  intros [H1 H2]. split; [simpl; lia|]. intros c Hc.
  repeat constructor; eauto using fmt_d_sep, fmt_v_sep, clean_sep.
Qed.

Lemma good_load l : clean_load l -> good_fields (load_fields l).
Proof.
  intros H. unfold clean_load in H. rewrite !Forall_cons in H. destruct_and!.
  split; [simpl; lia|]. intros c Hc.
  repeat constructor; eauto using fmt_d_sep, fmt_v_sep, clean_sep.
Qed.

Lemma good_tag t : good_fields (tag_fields t).
Proof. split; [simpl; lia|]. intros c Hc. repeat constructor; eauto using fmt_d_sep. Qed.

(** The text as a list of lines. *)
Lemma Split_lines l rest :
  Forall good_fields l ->
  Split (lines l +:+ rest) (char 10) = map (fun fs => Join fs "|") l ++ Split rest (char 10).
Proof.
  intros Hl. unfold lines. induction Hl as [|fs l [_ Hg] Hl IH]; [done|].
  assert (E : Join (map line (fs :: l)) "" = line fs +:+ Join (map line l) "").
  { destruct l; simpl; [by rewrite str_app_nil_r|done]. }
  rewrite E. unfold line at 1. rewrite !str_app_assoc. unfold nl at 1.
  rewrite str_app_cons_l, str_app_nil_l, Split_app_sep, IH; [done|].
  apply has_char_Join; [done|]. apply Hg. by right.
Qed.

Lemma Split_header h rest :
  has_char (char 10) h = false ->
  Split ((h +:+ nl) +:+ rest) (char 10) = h :: Split rest (char 10).
Proof.
  intros Hh. rewrite str_app_assoc. unfold nl. by rewrite str_app_cons_l, str_app_nil_l, Split_app_sep.
Qed.

Definition text_lines (ss ls ms os : list (list string)) : list string :=
  let j := map (fun fs => Join fs "|") in
  "SOURCES:" :: j ss ++ "LOADS:" :: j ls ++ "MODBUS:" :: j ms ++ "OPCUA:" :: j os.

Lemma Split_text ss ls ms os :
  Forall good_fields ss -> Forall good_fields ls -> Forall good_fields ms -> Forall good_fields os ->
  Split (("SOURCES:" +:+ nl) +:+ lines ss +:+ ("LOADS:" +:+ nl) +:+ lines ls
         +:+ ("MODBUS:" +:+ nl) +:+ lines ms +:+ ("OPCUA:" +:+ nl) +:+ lines os) (char 10)
  = text_lines ss ls ms os ++ [""].
Proof.
  intros Hs Hl Hm Ho. rewrite Split_header, Split_lines, Split_header, Split_lines by done.
  rewrite Split_header, Split_lines, Split_header by done.
  rewrite <- (str_app_nil_r (lines os)), Split_lines by done.
  unfold text_lines. simpl. by rewrite <- !app_assoc; simpl; rewrite <- !app_assoc; simpl; rewrite <- !app_assoc.
Qed.

Lemma Join_bar fs : good_fields fs -> has_char "|" (Join fs "|") = true.
Proof.
  intros [Hl _]. destruct fs as [|a [|b fs]]; simpl in Hl; [lia|lia|].
  change (Join (a :: b :: fs) "|") with (a +:+ "|" +:+ Join (b :: fs) "|").
  rewrite !has_char_app. simpl. by rewrite orb_true_r.
Qed.

(** Two sections that end at the same header line are equal, because the lines
    of a section have bars and the header has none. *)
Lemma section_inj (h : string) (a1 a2 : list (list string)) r1 r2 :
  has_char "|" h = false -> Forall good_fields a1 -> Forall good_fields a2 ->
  map (fun fs => Join fs "|") a1 ++ h :: r1 = map (fun fs => Join fs "|") a2 ++ h :: r2 ->
  a1 = a2 /\ r1 = r2.
Proof.
  intros Hh H1. revert a2. induction H1 as [|f1 a1 G1 H1 IH]; intros a2 H2; destruct H2 as [|f2 a2 G2 H2];
    simpl; intros H.
  - by injection H as ->.
  - apply Join_bar in G2. congruence.
  - apply Join_bar in G1. congruence.
  - injection H as Hj H. destruct (IH a2 H2 H) as [-> ->]. split; [|done]. f_equal.
    rewrite <- (Split_Join "|" f1), <- (Split_Join "|" f2).
    + by rewrite Hj.
    + by destruct f2; [destruct G2 as [G2 _]; simpl in G2; lia|].
    + apply G2. by left.
    + by destruct f1; [destruct G1 as [G1 _]; simpl in G1; lia|].
    + apply G1. by left.
Qed.

Lemma sections_end (a1 a2 : list (list string)) :
  Forall good_fields a1 -> Forall good_fields a2 ->
  map (fun fs => Join fs "|") a1 ++ [""] = map (fun fs => Join fs "|") a2 ++ [""] -> a1 = a2.
Proof. intros H1 H2 H. by apply (section_inj "" a1 a2 [] []) in H as [-> _]. Qed.

(** What the fingerprint covers of a source and of a load. *)
Definition source_key (s : Source) := (src_ID s, src_Kind s, src_ParamsJSON s, src_IsEnabled s).
Definition load_key (l : Load) :=
  (ld_ID l, ld_SourceID l, ld_CronExpression l, ld_Mode l, ld_WatermarkColumn l, ld_WatermarkType l,
   ld_ObjectName l, ld_TargetSchema l, ld_TargetTable l,
   (ld_BatchSize l, ld_AutoCreateTable l, ld_IsEnabled l)).

Lemma fmt_d_inj a b : fmt_d a = fmt_d b -> a = b.
Proof. apply (inj (pretty (A := Z))). Qed.

Lemma fmt_v_inj a b : fmt_v a = fmt_v b -> a = b.
Proof. by destruct a, b. Qed.

Lemma map_fields_inj {A K} (fields : A -> list string) (key : A -> K) l1 l2 :
  (forall a b, fields a = fields b -> key a = key b) ->
  map fields l1 = map fields l2 -> map key l1 = map key l2.
Proof.
  intros Hk. revert l2. induction l1 as [|a l1 IH]; intros [|b l2] H; simpl in *; try done.
  injection H as Hab H. f_equal; auto.
Qed.

Lemma source_fields_inj a b : source_fields a = source_fields b -> source_key a = source_key b.
Proof.
  unfold source_fields, source_key. intros [= H1 -> -> H2].
  by rewrite (fmt_d_inj _ _ H1), (fmt_v_inj _ _ H2).
Qed.

Lemma load_fields_inj a b : load_fields a = load_fields b -> load_key a = load_key b.
Proof.
  unfold load_fields, load_key. intros [= H1 H2 -> -> -> -> -> -> -> H3 H4 H5].
  by rewrite (fmt_d_inj _ _ H1), (fmt_d_inj _ _ H2), (fmt_d_inj _ _ H3), (fmt_v_inj _ _ H4),
    (fmt_v_inj _ _ H5).
Qed.

Lemma tag_fields_inj a b : tag_fields a = tag_fields b -> a = b.
Proof.
  destruct a, b. unfold tag_fields. simpl. intros [= H1 H2 H3].
  by rewrite (fmt_d_inj _ _ H1), (fmt_d_inj _ _ H2), (fmt_d_inj _ _ H3).
Qed.

(** The text determines what it covers, as long as the text columns hold no bar
    and no newline. *)
Lemma fingerprint_text_inj s1 s2 l1 l2 m1 m2 o1 o2 :
  Forall clean_source s1 -> Forall clean_source s2 -> Forall clean_load l1 -> Forall clean_load l2 ->
  fingerprint_text s1 l1 m1 o1 = fingerprint_text s2 l2 m2 o2 ->
  map source_key s1 = map source_key s2 /\ map load_key l1 = map load_key l2 /\ m1 = m2 /\ o1 = o2.
Proof.
  intros Hs1 Hs2 Hl1 Hl2 Heq.
  assert (Gs : forall s, Forall clean_source s -> Forall good_fields (map source_fields s))
    by (intros s H; apply Forall_map; eapply Forall_impl; [done|apply good_source]).
  assert (Gl : forall l, Forall clean_load l -> Forall good_fields (map load_fields l))
    by (intros l H; apply Forall_map; eapply Forall_impl; [done|apply good_load]).
  assert (Gt : forall t, Forall good_fields (map tag_fields t))
    by (intros t; apply Forall_map, Forall_forall; intros; apply good_tag).
  apply (f_equal (fun t => Split t (char 10))) in Heq. unfold fingerprint_text in Heq.
  rewrite !Split_text in Heq by auto. apply app_inv_tail in Heq. unfold text_lines in Heq.
  injection Heq as Heq.
  apply section_inj in Heq as [Es Heq]; auto. apply section_inj in Heq as [El Heq]; auto.
  apply section_inj in Heq as [Em Eo]; auto.
  apply (f_equal (fun l => l ++ [""])), sections_end in Eo; auto.
  split_and!.
  - by eapply map_fields_inj, Es; apply source_fields_inj.
  - by eapply map_fields_inj, El; apply load_fields_inj.
  - apply (map_fields_inj _ id) in Em; [by rewrite !map_id in Em|apply tag_fields_inj].
  - apply (map_fields_inj _ id) in Eo; [by rewrite !map_id in Eo|apply tag_fields_inj].
Qed.

(** With a bar in a column two different states have the same text. *)
Theorem fingerprint_collision :
  let src kind params := mkSource 1 "erp" kind "" params true false in
  fingerprint_text [src "a|b" "c"] [] [] [] = fingerprint_text [src "a" "b|c"] [] [] []
  /\ source_key (src "a|b" "c") <> source_key (src "a" "b|c").
Proof. split; [vm_compute; reflexivity|discriminate]. Qed.

End RepositoryProofs.
