(* ===== verification/RepositoryInstances.v ===== *)
(** * The repository at concrete inputs

    A metadata store in memory that meets [RepositoryProofs.GormSpec], and the
    repository's theorems applied to it. *)

From S2P Require Import Prelude.
From S2P Require Import GoStrings.
From S2P Require Import Contracts.
From S2P Require Import Models.
From S2P Require Import Repository.
From S2P Require Import RepositoryProofs.
From Stdlib Require Import ZArith Lia Ascii.

Module RepositoryInstances.
Import GoStrings Contracts Metadata Repository RepositoryProofs.

#[local] Obligation Tactic := idtac.

Record Mem := mkMem {
  m_wms : gmap Z WatermarkRow;
  m_runs : gmap Z LoadRun;
  m_logs : gmap Z LogEntry;
  m_catalog : Catalog;
  m_clock : Time;
}.

Definition with_key (id : Z) (w : WatermarkRow) : WatermarkRow :=
  mkWatermarkRow id (wr_Value w) (wr_UpdatedAt w) (wr_PreviousValue w) (wr_ResetAt w) (wr_ResetReason w).

Definition mem_view (g : Mem) : View :=
  mkView (map_imap (fun id w => Some (with_key id w)) (m_wms g)) (m_runs g) (m_logs g).

Definition with_id (id : Z) (r : LoadRun) : LoadRun :=
  mkLoadRun id (run_RunUUID r) (run_LoadID r) (run_Status r) (run_StartedAt r) (run_FinishedAt r)
    (run_RowsRead r) (run_RowsWritten r) (run_WatermarkStart r) (run_WatermarkEnd r)
    (run_ErrorMessage r) (run_DurationMs r).

(** Delete up to [k] rows with [P]. *)
Fixpoint delete_some {A} (P : A -> Prop) `{forall x, Decision (P x)} (k : nat) (m : gmap Z A) : gmap Z A :=
  match k with
  | O => m
  | S k' =>
      match map_to_list (filter (fun kv => P kv.2) m) with
      | [] => m
      | (id, _) :: _ => delete_some P k' (delete id m)
      end
  end.

(** [DELETE TOP (n)] *)
Definition delete_top {A} (P : A -> Prop) `{forall x, Decision (P x)} (n : Z) (m : gmap Z A) :
    gmap Z A * result Z :=
  let m' := delete_some P (Z.to_nat n) m in (m', Ok (count_of P m - count_of P m')).

#[export] Instance mem_gorm : Gorm Mem := {|
  Transaction := fun body g =>
    let '(g1, e) := body g in match e with None => (g1, None) | Some err => (g, Some err) end;
  First_watermark := fun id g => (g, Ok (v_wms (mem_view g) !! id));
  Create_watermark := fun w g => (mkMem (<[wr_LoadID w := w]> (m_wms g)) (m_runs g) (m_logs g) (m_catalog g) (m_clock g), None);
  Save_watermark := fun w g => (mkMem (<[wr_LoadID w := w]> (m_wms g)) (m_runs g) (m_logs g) (m_catalog g) (m_clock g), None);
  Update_watermark := fun id f g => (mkMem (alter f id (m_wms g)) (m_runs g) (m_logs g) (m_catalog g) (m_clock g), None);
  Create_run := fun r g =>
    let id := fresh (dom (m_runs g)) in
    (mkMem (m_wms g) (<[id := with_id id r]> (m_runs g)) (m_logs g) (m_catalog g) (m_clock g), Ok id);
  Save_run := fun r g => (mkMem (m_wms g) (<[run_ID r := r]> (m_runs g)) (m_logs g) (m_catalog g) (m_clock g), None);
  Update_runs := fun p f g =>
    if bool_decide (map_Forall (fun _ x => p x = true -> is_Some (f x)) (m_runs g)) then
      (mkMem (m_wms g) (omap (fun x => if p x then f x else Some x) (m_runs g)) (m_logs g) (m_catalog g)
         (m_clock g),
       Ok (Z.of_nat (size (filter (fun kv => p kv.2 = true) (m_runs g)))))
    else (g, Err "The datediff function resulted in an overflow");
  Create_log := fun e g =>
    (mkMem (m_wms g) (m_runs g) (<[fresh (dom (m_logs g)) := e]> (m_logs g)) (m_catalog g) (m_clock g), None);
  Delete_logs := fun p n g =>
    let '(m, r) := delete_top (fun x => p x = true) n (m_logs g) in (mkMem (m_wms g) (m_runs g) m (m_catalog g) (m_clock g), r);
  Delete_runs := fun p n g =>
    let '(m, r) := delete_top (fun x => p x = true) n (m_runs g) in (mkMem (m_wms g) m (m_logs g) (m_catalog g) (m_clock g), r);
  Find_loads := fun _ g => (g, Ok []);
  First_load := fun _ g => (g, Err "record not found");
  Scan_sources := fun g => (g, Ok (rows_of (c_sources (m_catalog g))));
  Scan_loads := fun g => (g, Ok (rows_of (c_loads (m_catalog g))));
  Group_modbus_tags := fun key agg g => (g, Ok (groups key agg (rows_of (c_tags (m_catalog g)))));
  Group_opcua_nodes := fun key agg g => (g, Ok (groups key agg (rows_of (c_nodes (m_catalog g)))));
  Find_modbus_tags := fun _ g => (g, Ok []);
  Find_opcua_nodes := fun _ g => (g, Ok []);
  DB := fun g => (g, None);
  now := fun g => (mkMem (m_wms g) (m_runs g) (m_logs g) (m_catalog g) (m_clock g + 1), m_clock g);
  NewString := fun g => (g, "uuid");
  ctx_err := fun g => (g, None);
  ctx_wait := fun g => (g, None);
|}.

Section DeleteTop.
Context {A : Type} (P : A -> Prop) `{HP : forall x, Decision (P x)}.

Lemma delete_some_subset k : forall m,
  delete_some P k m ⊆ m
  /\ forall id x, m !! id = Some x -> ~ P x -> delete_some P k m !! id = Some x.
Proof.
  induction k as [|k IH]; intros m; simpl; [done|].
  destruct (map_to_list (filter _ m)) as [|[id r] l] eqn:E; [done|].
  assert (Hr : (id, r) ∈ map_to_list (filter (fun kv => P kv.2) m)) by (rewrite E; by left).
  apply elem_of_map_to_list, map_lookup_filter_Some in Hr as [Hm Hp]. simpl in Hp.
  destruct (IH (delete id m)) as [H1 H2]. split.
  - etrans; [exact H1|apply delete_subseteq].
  - intros i x Hi Hn. apply H2; [|done]. rewrite lookup_delete_ne; [done|]. intros ->. congruence.
Qed.

Lemma delete_some_count k : forall m,
  (size (filter (fun kv => P kv.2) (delete_some P k m)) = size (filter (fun kv => P kv.2) m) - k)%nat.
Proof.
  induction k as [|k IH]; intros m; simpl; [lia|].
  destruct (map_to_list (filter _ m)) as [|[id r] l] eqn:E.
  - apply map_to_list_empty_iff in E. rewrite E, map_size_empty. done.
  - rewrite IH, map_filter_delete.
    assert (Hr : (id, r) ∈ map_to_list (filter (fun kv => P kv.2) m)) by (rewrite E; by left).
    apply elem_of_map_to_list in Hr. rewrite map_size_delete_Some by (by eexists). lia.
Qed.

Lemma delete_top_deletes n m m' r : delete_top P n m = (m', r) -> deletes P n m m' r.
Proof.
  unfold delete_top. intros [= <- <-]. destruct (delete_some_subset (Z.to_nat n) m) as [H1 H2].
  split_and!; [done|done|]. intros k Hn [= <-]. unfold count_of. rewrite delete_some_count. lia.
Qed.
End DeleteTop.

Lemma mem_view_insert w g :
  mem_view (mkMem (<[wr_LoadID w := w]> (m_wms g)) (m_runs g) (m_logs g) (m_catalog g) (m_clock g))
  = mkView (<[wr_LoadID w := w]> (v_wms (mem_view g))) (m_runs g) (m_logs g).
Proof.
  unfold mem_view. simpl. f_equal. apply map_eq. intros i. rewrite map_lookup_imap.
  destruct (decide (i = wr_LoadID w)) as [->|Hne].
  - rewrite !lookup_insert_eq. simpl. by destruct w.
  - by rewrite !lookup_insert_ne, map_lookup_imap by done.
Qed.

#[export] Program Instance mem_gorm_spec : GormSpec Mem := {| gview := mem_view |}.
Next Obligation.
  intros body g g' e H. simpl in H. destruct (body g) as [g1 [err|]]; simplify_eq; split; eauto; done.
Qed.
Next Obligation. intros id g g' r [= <- <-]. split; [done|]. by intros o [= <-]. Qed.
Next Obligation.
  intros g id w. simpl. rewrite map_lookup_imap. intros (w0 & _ & [= <-])%bind_Some. done.
Qed.
Next Obligation. intros w g g' e [= <- <-]. split; [done|]. intros _. by rewrite mem_view_insert. Qed.
Next Obligation. intros w g g' e [= <- <-]. split; [done|]. intros _. by rewrite mem_view_insert. Qed.
Next Obligation.
  intros run g g' r [= <- <-]. split; [done|]. simpl. split.
  - apply not_elem_of_dom, is_fresh.
  - eexists. split; [reflexivity|done].
Qed.
Next Obligation. intros run g g' e [= <- <-]. done. Qed.
Next Obligation.
  intros p f g g' r H. simpl in H. case_bool_decide as Hall; simplify_eq; split_and!; try done.
  - intros n [= <-]. split_and!; [|done|done]. intros id. simpl. by rewrite lookup_omap.
  - intros id x Hx Hp Hf. destruct (Hall id x Hx Hp) as [y Hy]. congruence.
Qed.
Next Obligation.
  intros p n g g' r [= <- <-]. split_and!; [done|done|]. by apply delete_top_deletes.
Qed.
Next Obligation.
  intros p n g g' r [= <- <-]. split_and!; [done|done|]. by apply delete_top_deletes.
Qed.
Next Obligation.
  intros e g g' r [= <- <-]. split_and!; [done|done|]. intros _. exists (fresh (dom (m_logs g))).
  split; [apply not_elem_of_dom, is_fresh|done].
Qed.
Next Obligation.
  split_and!; try done. intros p f g. simpl. by case_bool_decide.
Qed.
Next Obligation. done. Qed.
Next Obligation. done. Qed.
Next Obligation. done. Qed.
Next Obligation. done. Qed.

#[export] Program Instance mem_catalog_spec : CatalogSpec Mem := {| catalog := m_catalog |}.
Next Obligation. intros g g' r [= <- <-]. split; [done|]. by intros l [= <-]. Qed.
Next Obligation. intros g g' r [= <- <-]. split; [done|]. by intros l [= <-]. Qed.
Next Obligation. intros key agg g g' r [= <- <-]. split; [done|]. intros l [= <-]. by exists (rows_of (c_tags (m_catalog g))). Qed.
Next Obligation. intros key agg g g' r [= <- <-]. split; [done|]. intros l [= <-]. by exists (rows_of (c_nodes (m_catalog g))). Qed.

(** ** Witnesses *)

Definition no_catalog : Catalog := mkCatalog ∅ ∅ ∅ ∅.

Definition ex_mem : Mem := mkMem {[ 3 := mkWatermarkRow 3 "7" 0 "" None "" ]} ∅ ∅ no_catalog 100.

Lemma upsert_keeps_previous_witness :
  exists w, upserted 3 "8" (Some (mkWatermarkRow 3 "7" 0 "" None "")) w
    /\ v_wms (gview (UpsertWatermark 3 "8" ex_mem).1) !! 3 = Some w.
Proof.
  pose proof (upsert_keeps_previous 3 "8" ex_mem) as H.
  destruct (UpsertWatermark 3 "8" ex_mem) as [g' e] eqn:E.
  assert (He : e = None) by (vm_compute in E; by injection E).
  destruct H as [H _]. destruct (H He) as (w & Hw & Hv). exists w. split; [exact Hw|].
  cbn [fst]. rewrite Hv. apply lookup_insert_eq.
Defined.

Definition ex_start := StartRun 3 "7" ex_mem.
Definition ex_run : LoadRun := match ex_start.2 with Ok r => r | Err _ => with_id 0 (mkLoadRun 0 "" 0 "" 0 None 0 0 "" "" "" 0) end.

(** A run is started; it finishes, or another process aborts it. *)
Lemma run_lifecycle_witness :
  run_Status ex_run = "running" /\ run_StartedAt ex_run = 100
  /\ (exists r, m_runs (FinishRun ex_run "success" 5 4 "8" "" ex_start.1).1 !! run_ID ex_run = Some r
        /\ run_RowsRead r = 5 /\ run_RowsWritten r = 4 /\ run_FinishedAt r = Some 101)
  /\ exists r, m_runs (AbortRunningRuns "stop" ex_start.1).1 !! run_ID ex_run = Some r
        /\ run_Status r = "aborted" /\ run_ErrorMessage r = "stop".
Proof.
  assert (H1 : StartRun 3 "7" ex_mem = (ex_start.1, Ok ex_run)) by (vm_compute; reflexivity).
  assert (H2 : FinishRun ex_run "success" 5 4 "8" "" ex_start.1
    = ((FinishRun ex_run "success" 5 4 "8" "" ex_start.1).1, None)) by (vm_compute; reflexivity).
  assert (H3 : AbortRunningRuns "stop" ex_start.1
    = ((AbortRunningRuns "stop" ex_start.1).1, Ok 1)) by (vm_compute; reflexivity).
  destruct (run_lifecycle 3 "7" "stop" ex_mem ex_start.1 ex_run ex_start.1 _ ex_start.1 _ 1
    "success" 5 4 "8" "" H1 H2 H3) as ((_ & _ & Hst & _ & _ & Hs & _) & (r & Hv & Hr) & (Ha & _)).
  split; [exact Hs|]. split; [exact Hst|]. split.
  - exists r. change (m_runs ?g) with (v_runs (gview g)). rewrite Hv. split; [apply lookup_insert_eq|].
    destruct Hr as [_ _ _ _ _ _ Hf Hrr Hrw _ _ _]. split_and!; [exact Hrr|exact Hrw|exact Hf].
  - specialize (Ha (run_ID ex_run)).
    change (v_runs (gview ?g)) with (m_runs g) in Ha.
    destruct (m_runs ex_start.1 !! run_ID ex_run) as [old|] eqn:Eo; [|vm_compute in Eo; discriminate].
    destruct (m_runs (AbortRunningRuns "stop" ex_start.1).1 !! run_ID ex_run) as [r'|] eqn:Er; [|done].
    exists r'. split; [reflexivity|]. unfold abort_row in Ha.
    assert (Hold : run_Status old = "running") by (vm_compute in Eo; by injection Eo as <-).
    rewrite (bool_decide_true _ Hold) in Ha. destruct Ha as [[_ _ _ _ _ He _ _ _ _ Hm _] _]. split; [exact He|exact Hm].
Defined.

Definition ex_old_run (id : Z) (status : string) : LoadRun :=
  mkLoadRun id "u" 3 status 10 None 0 0 "" "" "" 0.

Definition ex_prune : Mem :=
  mkMem ∅ {[ 1 := ex_old_run 1 "success"; 2 := ex_old_run 2 "failed"; 4 := ex_old_run 4 "running" ]} ∅ no_catalog 100.

(** Three iterations in batches of one remove the two finished runs. *)
Lemma prune_exact_witness :
  prunable_count 50 ex_prune < 3
  /\ exists g' total e,
       PruneLoadRuns 3 50 1 0 ex_prune = (g', Some (total, e))
       /\ m_runs g' !! 4 = Some (ex_old_run 4 "running").
Proof.
  assert (Hf : prunable_count 50 ex_prune < Z.of_nat 3 /\ expired_count 50 ex_prune < Z.of_nat 3)
    by (split; vm_compute; reflexivity).
  split; [exact (proj1 Hf)|].
  destruct (prune_exact 3 50 1 0 ex_prune Hf) as [(g' & total & e & H1 & (_ & _ & Hk) & _) _].
  exists g', total, e. split; [exact H1|]. apply Hk; [reflexivity|].
  intros [_ Hs]. repeat (apply elem_of_cons in Hs as [Hs|Hs]; [discriminate|]). by apply elem_of_nil in Hs.
Defined.

End RepositoryInstances.
