(* ===== verification/FingerprintProofs.v ===== *)
(** * The metadata fingerprint and the reload

    [MetadataFingerprint] over the rows that its queries return, and what a
    [Reload] that finds the fingerprint unchanged says about the metadata. *)

From S2P Require Import Prelude.
From S2P Require Import GoStrings.
From S2P Require Import Contracts.
From S2P Require Import Models.
From S2P Require Import Runstate.
From S2P Require Import Scheduler.
From S2P Require Import SchedulerProofs.
From S2P Require Import SchedulerInstances.
From S2P Require Import Repository.
From S2P Require Import RepositoryProofs.
From S2P Require Import RepositoryInstances.
From Stdlib Require Import ZArith Lia.

Module FingerprintProofs.
Import GoStrings Contracts Metadata Repository RepositoryProofs.

(** Rows are kept under their ids, and the text columns hold no bar and no
    newline. *)
Record clean_catalog (c : Catalog) : Prop := {
  cc_source_ids : map_Forall (fun id s => src_ID s = id) (c_sources c);
  cc_load_ids : map_Forall (fun id l => ld_ID l = id) (c_loads c);
  cc_sources : map_Forall (fun _ s => clean_source s) (c_sources c);
  cc_loads : map_Forall (fun _ l => clean_load l) (c_loads c);
}.

(** The points of a load, and how many of them are enabled. *)
Definition points {A} (load : A -> Z) (rows : list A) (id : Z) : list A :=
  filter (fun x => load x = id) rows.
Definition point_counts {A} (load : A -> Z) (enabled : A -> bool) (rows : list A) (id : Z) : Z * Z :=
  (Z.of_nat (length (filter (fun x => enabled x = true) (points load rows id))),
   Z.of_nat (length (points load rows id))).

(** The catalogs agree in what the fingerprint covers: the sources in id, kind,
    parameters and enabled flag; the loads in id, source, schedule, mode,
    watermark, object, target, batch size and flags; and each load's tags and
    nodes in their numbers. *)
Record same_catalog (c1 c2 : Catalog) : Prop := {
  sc_sources : source_key <$> c_sources c1 = source_key <$> c_sources c2;
  sc_loads : load_key <$> c_loads c1 = load_key <$> c_loads c2;
  sc_tags : forall id, point_counts mt_LoadID mt_IsEnabled (rows_of (c_tags c1)) id
                     = point_counts mt_LoadID mt_IsEnabled (rows_of (c_tags c2)) id;
  sc_nodes : forall id, point_counts on_LoadID on_IsEnabled (rows_of (c_nodes c1)) id
                      = point_counts on_LoadID on_IsEnabled (rows_of (c_nodes c2)) id;
}.

(** ** Rows *)

Lemma elem_of_rows {A} (m : gmap Z A) x : x ∈ rows_of m <-> exists id, m !! id = Some x.
Proof.
  unfold rows_of. rewrite list_elem_of_fmap. split.
  - intros ([id y] & -> & H%elem_of_map_to_list). by exists id.
  - intros [id H%elem_of_map_to_list]. by exists (id, x).
Qed.

Lemma rows_Forall {A} (P : A -> Prop) (m : gmap Z A) l :
  map_Forall (fun _ => P) m -> l ≡ₚ rows_of m -> Forall P l.
Proof.
  intros Hm Hl. rewrite Hl. apply Forall_forall. intros x [id Hx]%elem_of_rows. by eapply Hm.
Qed.

Lemma sort_by_perm {A} (key : A -> Z) l : sort_by key l ≡ₚ l.
Proof. apply merge_sort_Permutation. Qed.

(** Tables whose rows have the same keys, the id among them. *)
Lemma keyed_rows {A K} (key : A -> K) (id_of : A -> Z) (kid : K -> Z) (m1 m2 : gmap Z A) l1 l2 :
  (forall x, kid (key x) = id_of x) ->
  map_Forall (fun id x => id_of x = id) m1 -> map_Forall (fun id x => id_of x = id) m2 ->
  l1 ≡ₚ rows_of m1 -> l2 ≡ₚ rows_of m2 -> map key l1 = map key l2 -> key <$> m1 = key <$> m2.
Proof.
  intros Hkid H1 H2 P1 P2 Heq.
  assert (Hsub : forall ma mb la lb,
    map_Forall (fun id x => id_of x = id) ma -> map_Forall (fun id x => id_of x = id) mb ->
    la ≡ₚ rows_of ma -> lb ≡ₚ rows_of mb -> map key la = map key lb ->
    forall id k, (key <$> ma) !! id = Some k -> (key <$> mb) !! id = Some k).
  { intros ma mb la lb Ha Hb Pa Pb E id k. rewrite !lookup_fmap. intros (x & Hx & ->)%fmap_Some.
    assert (Hin : key x ∈ map key lb).
    { rewrite <- E. apply list_elem_of_fmap. exists x. split; [done|].
      rewrite Pa. apply elem_of_rows. by exists id. }
    apply list_elem_of_fmap in Hin as (y & Hk & Hy). rewrite Pb in Hy.
    apply elem_of_rows in Hy as [id' Hy].
    assert (id' = id) as ->.
    { rewrite <- (Ha id x Hx), <- (Hb id' y Hy), <- !Hkid. by rewrite Hk. }
    rewrite Hy. simpl. by rewrite Hk. }
  apply map_eq. intros id. apply option_eq. intros k. split; by eapply Hsub.
Qed.

(** ** Counts *)

Section Counts.
Context {A : Type} (load : A -> Z) (enabled : A -> bool).

Lemma count_points_counts id rows :
  count_points enabled id (points load rows id)
  = mkTagFP id (point_counts load enabled rows id).1 (point_counts load enabled rows id).2.
Proof.
  unfold count_points, point_counts. simpl. f_equal.
  induction (points load rows id) as [|x l IH]; [done|]. simpl. rewrite filter_cons, IH.
  destruct (enabled x) eqn:Ex; [rewrite decide_True by done; simpl; lia|].
  rewrite decide_False by done. lia.
Qed.

Lemma elem_of_groups t rows :
  t ∈ groups load (count_points enabled) rows
  <-> exists id, id ∈ (load <$> rows)
        /\ t = mkTagFP id (point_counts load enabled rows id).1 (point_counts load enabled rows id).2.
Proof.
  unfold groups. rewrite list_elem_of_fmap. split.
  - intros (id & -> & Hid). rewrite elem_of_remove_dups in Hid. exists id. split; [done|]. apply count_points_counts.
  - intros (id & Hid & ->). exists id. rewrite elem_of_remove_dups. split; [|done].
    symmetry. apply count_points_counts.
Qed.

Lemma no_points rows id : (id ∉ load <$> rows) -> point_counts load enabled rows id = (0, 0).
Proof.
  intros Hid. unfold point_counts. assert (points load rows id = []) as ->; [|done].
  destruct (points load rows id) as [|x l] eqn:E; [done|].
  assert (Hx : x ∈ points load rows id) by (rewrite E; left). unfold points in Hx.
  apply list_elem_of_filter in Hx as [<- Hx]. by exfalso; apply Hid, list_elem_of_fmap_2.
Qed.

Lemma point_counts_perm rows rows' id :
  rows ≡ₚ rows' -> point_counts load enabled rows id = point_counts load enabled rows' id.
Proof. intros H. unfold point_counts, points. by rewrite H. Qed.

(** Equal groups: equal numbers for every load. *)
Lemma groups_counts l1 l2 rows1 rows2 t1 t2 :
  rows1 ≡ₚ t1 -> rows2 ≡ₚ t2 ->
  l1 ≡ₚ groups load (count_points enabled) rows1 -> l2 ≡ₚ groups load (count_points enabled) rows2 ->
  sort_by tf_LoadID l1 = sort_by tf_LoadID l2 ->
  forall id, point_counts load enabled t1 id = point_counts load enabled t2 id.
Proof.
  intros P1 P2 G1 G2 E id. rewrite <- (point_counts_perm rows1 t1 id P1), <- (point_counts_perm rows2 t2 id P2).
  assert (Hg : forall t, t ∈ groups load (count_points enabled) rows1
                     <-> t ∈ groups load (count_points enabled) rows2).
  { assert (P : groups load (count_points enabled) rows1 ≡ₚ groups load (count_points enabled) rows2)
      by (by rewrite <- G1, <- (sort_by_perm tf_LoadID l1), E, sort_by_perm). intros t. by rewrite P. }
  setoid_rewrite elem_of_groups in Hg.
  destruct (decide (id ∈ (load <$> rows1))) as [Hid|Hni].
  - destruct (proj1 (Hg _) (ex_intro _ id (conj Hid eq_refl))) as (id' & _ & [= -> E1 E2]).
    by apply injective_projections.
  - destruct (decide (id ∈ (load <$> rows2))) as [Hid|Hni']; [|by rewrite !no_points].
    destruct (proj2 (Hg _) (ex_intro _ id (conj Hid eq_refl))) as (id' & Hin & [= -> _ _]). done.
Qed.
End Counts.

(** ** The fingerprint *)

Section Fingerprint.
Context {G : Type} `{HG : Gorm G} `{HC : !CatalogSpec G}.
Context (digest : string -> string).

(** What was hashed. *)
Definition hashed (g : G) (f : string) : Prop :=
  exists s l m o rows_m rows_o,
    s ≡ₚ rows_of (c_sources (catalog g)) /\ l ≡ₚ rows_of (c_loads (catalog g))
    /\ rows_m ≡ₚ rows_of (c_tags (catalog g)) /\ rows_o ≡ₚ rows_of (c_nodes (catalog g))
    /\ m ≡ₚ groups mt_LoadID (count_points mt_IsEnabled) rows_m
    /\ o ≡ₚ groups on_LoadID (count_points on_IsEnabled) rows_o
    /\ f = digest (fingerprint_text (sort_by src_ID s) (sort_by ld_ID l)
                     (sort_by tf_LoadID m) (sort_by tf_LoadID o)).

Lemma MetadataFingerprint_hashed g g' f :
  MetadataFingerprint digest g = (g', Ok f) -> hashed g f.
Proof.
  unfold MetadataFingerprint. intros H.
  apply bindM_inv in H as (g1 & r1 & H1 & H). apply law_Scan_sources in H1 as [E1 L1].
  destruct r1 as [s|]; [|done]. specialize (L1 _ eq_refl).
  apply bindM_inv in H as (g2 & r2 & H2 & H). apply law_Scan_loads in H2 as [E2 L2].
  destruct r2 as [l|]; [|done]. specialize (L2 _ eq_refl).
  apply bindM_inv in H as (g3 & r3 & H3 & H). apply law_Group_tags in H3 as [E3 L3].
  destruct r3 as [m|]; [|done]. destruct (L3 _ eq_refl) as (rm & Pm & Gm).
  apply bindM_inv in H as (g4 & r4 & H4 & H). apply law_Group_nodes in H4 as [E4 L4].
  destruct r4 as [o|]; [|done]. destruct (L4 _ eq_refl) as (ro & Po & Go).
  unfold retM in H. simplify_eq. rewrite E3, E2, E1 in Po. rewrite E2, E1 in Pm. rewrite E1 in L2.
  exists s, l, m, o, rm, ro. split_and!; done.
Qed.

Lemma hashed_same g1 g2 f :
  Inj (=) (=) digest -> clean_catalog (catalog g1) -> clean_catalog (catalog g2) ->
  hashed g1 f -> hashed g2 f -> same_catalog (catalog g1) (catalog g2).
Proof.
  intros Hinj [I1 J1 S1 K1] [I2 J2 S2 K2]
    (s1 & l1 & m1 & o1 & rm1 & ro1 & Ps1 & Pl1 & Pm1 & Po1 & Gm1 & Go1 & ->)
    (s2 & l2 & m2 & o2 & rm2 & ro2 & Ps2 & Pl2 & Pm2 & Po2 & Gm2 & Go2 & Heq).
  assert (Hs : forall s m, map_Forall (fun _ x => clean_source x) m -> s ≡ₚ rows_of m ->
    Forall clean_source (sort_by src_ID s)).
  { intros s m Hm Hp. rewrite sort_by_perm. by eapply rows_Forall. }
  assert (Hl : forall l m, map_Forall (fun _ x => clean_load x) m -> l ≡ₚ rows_of m ->
    Forall clean_load (sort_by ld_ID l)).
  { intros l m Hm Hp. rewrite sort_by_perm. by eapply rows_Forall. }
  apply Hinj, fingerprint_text_inj in Heq as (Es & El & Em & Eo); [|by eauto..].
  split.
  - eapply (keyed_rows source_key src_ID (fun k => k.1.1.1)); [done|done|done| | |exact Es];
      by rewrite sort_by_perm.
  - eapply (keyed_rows load_key ld_ID (fun k => k.1.1.1.1.1.1.1.1.1)); [done|done|done| | |exact El];
      by rewrite sort_by_perm.
  - by eapply groups_counts.
  - by eapply groups_counts.
Qed.

(** ** Reload *)

Context {C : Type} `{HCron : Scheduler.Cron C}.
Context (order : forall A, gmap Z A -> list (Z * A)).

#[local] Existing Instance Repository_aborter.
Local Abbreviation State := (@Scheduler.State C G).
Local Abbreviation Reload := (Scheduler.Reload (HR := Repository_aborter digest) order).

(** A reload without an error has stored the fingerprint that it computed. *)
Lemma Reload_fingerprint (s s' : State) :
  Reload s = (s', None) ->
  exists g, MetadataFingerprint digest (Scheduler.s_repo s) = (g, Ok (Scheduler.s_fingerprint s')).
Proof.
  unfold Scheduler.Reload. intros (s1 & r & H1 & H)%bindM_inv.
  unfold Scheduler.on_repo in H1. simpl in H1.
  destruct (MetadataFingerprint digest (Scheduler.s_repo s)) as [g r1] eqn:Ef. simplify_eq. exists g.
  destruct r as [fp|]; [|done]. case_bool_decide as Hfp; [by simplify_eq|].
  apply bindM_inv in H as (s2 & r2 & _ & H). destruct r2 as [desired|]; [|done].
  simplify_eq. unfold Scheduler.reconcile. by case_match; case_match.
Qed.

(** C38. A reload that does nothing has missed nothing.  Let the scheduler keep
    the fingerprint of an earlier state of the metadata.  When a [Reload] in a
    later state returns no error and leaves the fingerprint as it was, which is
    when it takes no look at the loads, the two states agree in every source's
    id, kind, parameters and enabled flag, in every load's id, source, schedule,
    mode, watermark column and type, object, target, batch size and flags, and
    in the number of tags and nodes, all and enabled, of every load.  The text
    columns are assumed to hold no bar and no newline, and the digest to have no
    collisions.  Names and descriptions are not covered. *)
Theorem reload_misses_nothing g0 g0' (s s' : State)
    (Hdigest : Inj (=) (=) digest)
    (Hkept : MetadataFingerprint digest g0 = (g0', Ok (Scheduler.s_fingerprint s)))
    (Hclean0 : clean_catalog (catalog g0)) (Hclean : clean_catalog (catalog (Scheduler.s_repo s)))
    (Hreload : Reload s = (s', None)) (Hsame : Scheduler.s_fingerprint s' = Scheduler.s_fingerprint s) :
  same_catalog (catalog g0) (catalog (Scheduler.s_repo s)).
Proof.
  apply Reload_fingerprint in Hreload as [g Hg]. rewrite Hsame in Hg.
  apply MetadataFingerprint_hashed in Hkept, Hg. by eapply hashed_same.
Qed.

End Fingerprint.

(** The name of a load is not fingerprinted, although runs are labelled with
    it: after a renaming the scheduler goes on with the old name. *)
Theorem fingerprint_ignores_name l name ss ls ms os :
  let renamed := mkLoad (ld_ID l) (ld_SourceID l) (ld_Source l) name (ld_ObjectName l)
    (ld_TargetSchema l) (ld_TargetTable l) (ld_Mode l) (ld_WatermarkColumn l) (ld_WatermarkType l)
    (ld_BatchSize l) (ld_AutoCreateTable l) (ld_CronExpression l) (ld_IsEnabled l) (ld_Deleted l) in
  fingerprint_text ss (l :: ls) ms os = fingerprint_text ss (renamed :: ls) ms os.
Proof. reflexivity. Qed.

(** ** Witness

    A source and a load with two tags; between the two states the load was
    renamed. *)

#[local] Existing Instance RepositoryInstances.mem_gorm.
#[local] Existing Instance RepositoryInstances.mem_catalog_spec.
#[local] Existing Instance SchedulerInstances.mem_cron.

Definition ex_catalog (name : string) : Catalog :=
  mkCatalog
    {[ 1 := mkSource 1 "plc" "modbus" "" "{}" true false ]}
    {[ 7 := mkLoad 7 1 (mkSource 0 "" "" "" "" false false) name "" "dbo" "tags" "append" "" "none" 100 true "* * * * *" true false ]}
    {[ 1 := mkModbusTag 1 7 "" "a" 1 "holding" 0 1 "int16" "big" "high_first" (SpecFloat.S754_zero false) (SpecFloat.S754_zero false) true;
       2 := mkModbusTag 2 7 "" "b" 1 "holding" 1 1 "int16" "big" "high_first" (SpecFloat.S754_zero false) (SpecFloat.S754_zero false) false ]}
    ∅.

Definition ex_metadata (name : string) : RepositoryInstances.Mem :=
  RepositoryInstances.mkMem ∅ ∅ ∅ (ex_catalog name) 0.

Definition ex_fp : string :=
  match (MetadataFingerprint id (ex_metadata "tags")).2 with Ok f => f | Err _ => "" end.

Definition ex_sched : @Scheduler.State SchedulerInstances.MemCron RepositoryInstances.Mem :=
  Scheduler.mkState (SchedulerInstances.mkMemCron ∅ 1) (ex_metadata "renamed") (Runstate.New 0) ∅ ∅ ex_fp.

Lemma ex_catalog_clean name : clean_catalog (ex_catalog name).
Proof.
  split; simpl; apply map_Forall_singleton; [done|done| |]; simpl.
  - repeat split; vm_compute; reflexivity.
  - repeat constructor; vm_compute; reflexivity.
Qed.

Lemma id_digest_inj : Inj (=) (=) (@id string).
Proof. by intros x y. Qed.

Lemma reload_misses_nothing_witness :
  Scheduler.Reload (HR := Repository_aborter id) SchedulerInstances.in_order ex_sched = (ex_sched, None)
  /\ ex_catalog "tags" <> ex_catalog "renamed"
  /\ same_catalog (ex_catalog "tags") (ex_catalog "renamed").
Proof.
  assert (Hr : Scheduler.Reload (HR := Repository_aborter id) SchedulerInstances.in_order ex_sched
    = (ex_sched, None)) by (vm_compute; reflexivity).
  split; [exact Hr|]. split; [vm_compute; discriminate|].
  change (same_catalog (catalog (ex_metadata "tags")) (catalog (Scheduler.s_repo ex_sched))).
  apply (reload_misses_nothing id SchedulerInstances.in_order (ex_metadata "tags") (ex_metadata "tags")
    ex_sched ex_sched id_digest_inj); [vm_compute; reflexivity|apply ex_catalog_clean|apply ex_catalog_clean|exact Hr|reflexivity].
Defined.

End FingerprintProofs.
