(* ===== verification/Opcua.v ===== *)
(** * The OPC UA source (internal/sources/opcua)

    A polling cycle reads all nodes of a load with one request and walks nodes
    and response in lockstep.  The OPC UA client library is a parameter: its
    node ids, its status codes and the read service. *)

From S2P Require Import Prelude.
From S2P Require Import GoStrings.
From S2P Require Import Contracts.
From S2P Require Import Metrics.
From S2P Require Import Modbus.
From Stdlib Require Import ZArith Lia SpecFloat.

Module Opcua.
Import GoStrings Contracts.

(** [ua.DataValue]: the fields the source reads.  [dv_Value] is [None] when
    the pointer to the variant is nil, and otherwise the value in it. *)
Record DataValue := mkDataValue {
  dv_Status : Z;
  dv_Value : option any;
  dv_SourceTimestamp : Time;
  dv_ServerTimestamp : Time;
}.

(** What the source uses of the client library; a response is a list of
    pointers to data values. *)
Class UAClient (C : Type) := {
  NodeID : Type;
  ParseNodeID : string -> result NodeID;
  StatusOK : Z;
  StatusBad : Z;
  StatusUncertain : Z;
  StatusError : Z -> string;
  ReadNodes : list NodeID -> M C (result (list (option DataValue)));
}.

(** ** Options of the client *)

Inductive Option :=
  | SecurityPolicy (uri : string)
  | SecurityModeString (mode : string)
  | AuthAnonymous
  | AuthUsername (user pass : string)
  | SessionTimeout (d : Duration)
  | RequestTimeout (d : Duration).

Definition valueOr (m : gmap string string) (k def : string) : string :=
  match m !! k with
  | Some v => if bool_decide (v <> "") then v else def
  | None => def
  end.

(** policyURI: the default of the switch is the policy None. *)
Definition policyURI (short : string) : string :=
  let s := ToLower short in
  "http://opcfoundation.org/UA/SecurityPolicy#" +:+
  (if bool_decide (s = "none") then "None"
   else if bool_decide (s = "basic128rsa15") then "Basic128Rsa15"
   else if bool_decide (s = "basic256") then "Basic256"
   else if bool_decide (s = "basic256sha256") then "Basic256Sha256"
   else if bool_decide (s = "aes128_sha256_rsaoaep") then "Aes128_Sha256_RsaOaep"
   else if bool_decide (s = "aes256_sha256_rsapss") then "Aes256_Sha256_RsaPss"
   else "None").

(** [if v, ok := p[k]; ok && v != "" { if ms, err := strconv.Atoi(v); ... }] *)
Definition timeout_option (p : gmap string string) (k : string) (mk : Duration -> Option) : list Option :=
  match p !! k with
  | Some v =>
      if bool_decide (v <> "") then
        match Atoi v with Some ms => [mk (millis ms)] | None => [] end
      else []
  | None => []
  end.

Definition buildClientOptions (p : gmap string string) : result (list Option) :=
  let policy := valueOr p "security_policy" "None" in
  let mode := valueOr p "security_mode" "None" in
  let opts := [SecurityPolicy (policyURI policy); SecurityModeString mode] in
  let timeouts := timeout_option p "session_timeout_ms" SessionTimeout
                  ++ timeout_option p "request_timeout_ms" RequestTimeout in
  let auth := ToLower (valueOr p "auth" "anonymous") in
  if bool_decide (auth = "anonymous") then Ok (opts ++ [AuthAnonymous] ++ timeouts)
  else if bool_decide (auth = "username") then
    let user := default "" (p !! "username") in
    let pass := default "" (p !! "password") in
    if bool_decide (user = "") then Err "auth=username requires 'username' param"
    else Ok (opts ++ [AuthUsername user pass] ++ timeouts)
  else Err ("unsupported auth type " +:+ fmt_q (default "" (p !! "auth"))).

(** [Open] up to the calls of the client library: the endpoint and the
    options it is called with. *)
Definition open_config (cfg : SourceConfig) : result (string * list Option) :=
  let endpoint := default "" (sc_Params cfg !! "endpoint") in
  if bool_decide (endpoint = "") then
    Err "opcua source requires 'endpoint' param, e.g. opc.tcp://host:4840"
  else match buildClientOptions (sc_Params cfg) with
       | Err e => Err (errorf "build opcua options" e)
       | Ok opts => Ok (endpoint, opts)
       end.

(** ** Rows *)

Section Read.
Context {C : Type} `{HC : UAClient C}.
(** [t.UTC().Format(time.RFC3339Nano)] *)
Context (FormatTime : Time -> string).
(** [fmt.Sprintf] with the verb v. *)
Context (Sprintf_v : any -> string).

Definition columns : list Column := [
  mkColumn "tag_name" "string" false;
  mkColumn "node_id" "string" false;
  mkColumn "ts" "datetime" false;
  mkColumn "value_num" "float64" true;
  mkColumn "value_bool" "bool" true;
  mkColumn "value_text" "string" true;
  mkColumn "quality" "string" false].

Definition badRow (n : OPCUAPoint) (ts : Time) (msg : string) : Row := {[
  "tag_name" := AString (op_TagName n);
  "node_id" := AString (op_NodeID n);
  "ts" := ATime ts;
  "value_num" := ANil;
  "value_bool" := ANil;
  "value_text" := AString msg;
  "quality" := AString "bad"]}.

Definition qualityFromStatus (s : Z) : string :=
  if s =? StatusOK then "good"
  else if s =? StatusBad then "bad"
  else if s =? StatusUncertain then "uncertain"
  else "good".

Definition pickTimestamp (dv : option DataValue) (fallback : Time) : Time :=
  match dv with
  | None => fallback
  | Some d =>
      if negb (IsZero (dv_SourceTimestamp d)) then dv_SourceTimestamp d
      else if negb (IsZero (dv_ServerTimestamp d)) then dv_ServerTimestamp d
      else fallback
  end.

(** [x*scale + offset], without a fused multiply-add. *)
Definition scaled (x scale offset : spec_float) : any :=
  AFloat64 (Modbus.float64_add (Modbus.float64_mul x scale) offset).

(** [row["quality"] = "bad"; row["value_text"] = "null value"] *)
Definition null_value (row : Row) : Row :=
  <["value_text" := AString "null value"]> (<["quality" := AString "bad"]> row).

Definition assignValue (row : Row) (v : any) (scale offset : spec_float) : Row :=
  match v with
  | ANil => null_value row
  | ABool x => <["value_bool" := ABool x]> row
  | AString x => <["value_text" := AString x]> row
  | AFloat32 x => <["value_num" := scaled (Modbus.widen x) scale offset]> row
  | AFloat64 x => <["value_num" := scaled x scale offset]> row
  | AInt _ x => <["value_num" := scaled (Modbus.float64_of_Z x) scale offset]> row
  | ATime x => <["value_text" := AString (FormatTime x)]> row
  | _ => <["value_text" := AString (Sprintf_v v)]> row
  end.

(** The row of a node whose data value the response has. *)
Definition value_row (n : OPCUAPoint) (dv : DataValue) (pollTS : Time) : Row :=
  let row : Row := {[
    "tag_name" := AString (op_TagName n);
    "node_id" := AString (op_NodeID n);
    "ts" := ATime (pickTimestamp (Some dv) pollTS);
    "value_num" := ANil;
    "value_bool" := ANil;
    "value_text" := ANil;
    "quality" := AString (qualityFromStatus (dv_Status dv))]} in
  if negb (dv_Status dv =? StatusOK) then
    <["value_text" := AString (StatusError (dv_Status dv))]> row
  else match dv_Value dv with
       | Some v => assignValue row v (op_Scale n) (op_Offset n)
       | None => null_value row
       end.

(** ** A polling cycle *)

(** The loop that builds the request: [parsedIDs] ([None] is nil) and
    [nodesToRead]. *)
Fixpoint parse_nodes (nodes : list OPCUAPoint) : list (option NodeID) * list NodeID :=
  match nodes with
  | [] => ([], [])
  | n :: nodes' =>
      let '(parsedIDs, nodesToRead) := parse_nodes nodes' in
      match ParseNodeID (op_NodeID n) with
      | Err _ => (None :: parsedIDs, nodesToRead)
      | Ok nid => (Some nid :: parsedIDs, nid :: nodesToRead)
      end
  end.

(** The rows appended so far and [result.RowsRead]. *)
Definition Acc : Type := list Row * Z.

(** [rows = append(rows, row); result.RowsRead++] *)
Definition append_row (row : Row) (acc : Acc) : Acc := (acc.1 ++ [row], acc.2 + 1).

(** The loop of a read that failed as a whole. *)
Fixpoint bad_rows (pollTS : Time) (msg : string) (nodes : list OPCUAPoint) (acc : Acc) : Acc :=
  match nodes with
  | [] => acc
  | n :: nodes' => bad_rows pollTS msg nodes' (append_row (badRow n pollTS msg) acc)
  end.

(** The lockstep walk: [resp] is [resp.Results], [None] for a nil response, and
    [respIdx] the next result to use.  [None] as the result is the panic on a
    nil data value. *)
Fixpoint walk (pollTS : Time) (resp : option (list (option DataValue))) (respIdx : nat)
    (nodes : list OPCUAPoint) (parsedIDs : list (option NodeID)) (acc : Acc) : option Acc :=
  match nodes, parsedIDs with
  | n :: nodes', None :: ids' =>
      walk pollTS resp respIdx nodes' ids' (append_row (badRow n pollTS "invalid node id") acc)
  | n :: nodes', Some _ :: ids' =>
      match resp ≫= (.!! respIdx) with
      | None =>
          walk pollTS resp (S respIdx) nodes' ids'
            (append_row (badRow n pollTS "no response for node") acc)
      | Some None => None
      | Some (Some dv) =>
          walk pollTS resp (S respIdx) nodes' ids' (append_row (value_row n dv pollTS) acc)
      end
  | _, _ => Some acc
  end.

(** [emit]: the batch and [result]. *)
Definition emit (batch : Batch) (result : ReadResult) : ReadProg :=
  Emit batch (fun e => match e with Some err => Done result (Some err) | None => Done result None end).

(** The batch of the rows, and a result with [RowsRead] set. *)
Definition emit_rows (acc : Acc) : ReadProg :=
  emit (mkBatch columns acc.1) (mkReadResult acc.2 zero_watermark false).

Context (telemetry : option (Z -> M C (result (list OPCUAPoint)))).

(** [Read] up to and including the call of the handler; [None] is a panic. *)
Definition Read (load : LoadConfig) (pollTS : Time) :
    M C (option (list Metrics.MetricCall * ReadProg)) :=
  match telemetry with
  | None => retM (Some ([], Done zero_result (Some "opcua telemetry catalog not configured")))
  | Some ListOPCUANodes =>
      r <~ ListOPCUANodes (lc_LoadID load) ;;
      match r with
      | Err e => retM (Some ([], Done zero_result (Some (errorf "load nodes" e))))
      | Ok [] => retM (Some ([], Done zero_result None))
      | Ok nodes =>
          let '(parsedIDs, nodesToRead) := parse_nodes nodes in
          let rest (resp : option (list (option DataValue))) :=
            match walk pollTS resp 0 nodes parsedIDs ([], 0) with
            | None => None
            | Some acc =>
                Some (Metrics.ObserveBadQuality (lc_Name load) (Modbus.bad_count acc.1), emit_rows acc)
            end in
          match nodesToRead with
          | [] => retM (rest None)
          | _ =>
              rr <~ ReadNodes nodesToRead ;;
              retM (match rr with
                    | Err e =>
                        let acc := bad_rows pollTS e nodes ([], 0) in
                        Some (Metrics.ObserveBadQuality (lc_Name load) (Z.of_nat (length acc.1)),
                              emit_rows acc)
                    | Ok results => rest (Some results)
                    end)
          end
      end
  end.

End Read.
End Opcua.
