(* ===== verification/OpcuaProofs.v ===== *)
(** * The OPC UA source: properties

    A polling cycle yields one row per node, each built from the data value
    the server returned for that very node. *)

From S2P Require Import Prelude.
From S2P Require Import GoStrings.
From S2P Require Import Contracts.
From S2P Require Import Metrics.
From S2P Require Import Modbus.
From S2P Require Import Opcua.
From Stdlib Require Import ZArith Lia SpecFloat.

Module OpcuaProofs.
Import GoStrings Contracts Opcua.

Section Poll.
Context {C : Type} `{HC : UAClient C}.
Context (FormatTime : Time -> string) (Sprintf_v : any -> string).

Local Abbreviation walk := (walk FormatTime Sprintf_v).
Local Abbreviation value_row := (value_row FormatTime Sprintf_v).
Local Abbreviation Read := (Read FormatTime Sprintf_v).

(** The ids that a request for the nodes contains. *)
Definition node_id (n : OPCUAPoint) : option NodeID :=
  match ParseNodeID (op_NodeID n) with Ok nid => Some nid | Err _ => None end.

Definition valid_ids (nodes : list OPCUAPoint) : list NodeID := omap node_id nodes.

Lemma parse_nodes_spec nodes : parse_nodes nodes = (map node_id nodes, valid_ids nodes).
Proof.
  induction nodes as [|n nodes IH]; [done|]. simpl. rewrite IH. unfold valid_ids, node_id. simpl.
  by destruct (ParseNodeID (op_NodeID n)).
Qed.

(** The accumulators of the loops: the rows, and their number. *)
Definition grown (acc : Acc) (rows : list Row) : Acc :=
  (acc.1 ++ rows, acc.2 + Z.of_nat (length rows)).

Lemma grown_nil acc : grown acc [] = acc.
Proof. destruct acc. unfold grown. simpl. by rewrite app_nil_r, Z.add_0_r. Qed.

Lemma grown_cons acc row rows : grown (append_row row acc) rows = grown acc (row :: rows).
Proof. unfold grown, append_row. simpl. rewrite <- app_assoc. f_equal. lia. Qed.

Lemma bad_rows_grown ts msg nodes : forall acc,
  bad_rows ts msg nodes acc = grown acc (map (fun n => badRow n ts msg) nodes).
Proof.
  induction nodes as [|n nodes IH]; intros acc; simpl; [by rewrite grown_nil|].
  by rewrite IH, grown_cons.
Qed.

(** The row of a node: from its own data value, at the position that the id
    of the node has in the request. *)
Definition node_row (ts : Time) (results : list (option DataValue)) (pos : nat) (n : OPCUAPoint) : Row :=
  match node_id n with
  | None => badRow n ts "invalid node id"
  | Some _ =>
      match results !! pos with
      | Some (Some dv) => value_row n dv ts
      | _ => badRow n ts "no response for node"
      end
  end.

Lemma walk_spec ts results nodes : forall respIdx acc,
  Forall is_Some results ->
  exists rows,
    walk ts (Some results) respIdx nodes (map node_id nodes) acc = Some (grown acc rows)
    /\ length rows = length nodes
    /\ (forall i n, nodes !! i = Some n ->
          rows !! i = Some (node_row ts results (respIdx + length (valid_ids (take i nodes))) n)).
Proof.
  induction nodes as [|n nodes IH]; intros respIdx acc Hr.
  { exists []. rewrite grown_nil. split_and!; [done|done|]. intros i n. by rewrite lookup_nil. }
  cbn [map Opcua.walk]. destruct (node_id n) as [nid|] eqn:En.
  - destruct (IH (S respIdx) (append_row (node_row ts results respIdx n) acc) Hr)
      as (rows & Hw & Hl & Hrows).
    exists (node_row ts results respIdx n :: rows). split_and!; [|simpl; by f_equal|].
    { rewrite <- grown_cons, <- Hw. cbn [mbind option_bind]. unfold node_row. rewrite En.
      destruct (results !! respIdx) as [dv|] eqn:Ed; [|done].
      apply (Forall_lookup_1 _ _ _ _ Hr) in Ed as [d ->]. done. }
    intros [|i] m Hm; simpl in Hm |- *.
    + simplify_eq. by rewrite Nat.add_0_r.
    + unfold valid_ids in *. simpl. rewrite En. simpl. rewrite Nat.add_succ_r. by apply Hrows.
  - destruct (IH respIdx (append_row (badRow n ts "invalid node id") acc) Hr) as (rows & Hw & Hl & Hrows).
    rewrite Hw, grown_cons. eexists. split_and!; [done|simpl; by f_equal|].
    intros [|i] m Hm; simpl in Hm |- *.
    + simplify_eq. unfold node_row. by rewrite En.
    + unfold valid_ids in *. simpl. rewrite En. by apply Hrows.
Qed.

Lemma walk_none ts nodes : forall acc, valid_ids nodes = [] ->
  walk ts None 0 nodes (map node_id nodes) acc
  = Some (grown acc (map (fun n => badRow n ts "invalid node id") nodes)).
Proof.
  unfold valid_ids. induction nodes as [|n nodes IH]; simpl; intros acc H; [by rewrite grown_nil|].
  destruct (node_id n); [done|]. by rewrite IH, grown_cons.
Qed.

Lemma bad_count_bad ts nodes (msg : string) :
  Modbus.bad_count (map (fun n => badRow n ts msg) nodes) = Z.of_nat (length nodes).
Proof.
  unfold Modbus.bad_count. f_equal. induction nodes as [|n nodes IH]; [done|].
  cbn [map]. rewrite filter_cons_True by done. simpl. by f_equal.
Qed.

(** Every row of a node has the seven columns, and names its node. *)
Definition row_of_node (n : OPCUAPoint) (row : Row) : Prop :=
  (forall c, c ∈ columns -> is_Some (row !! col_Name c))
  /\ row !! "tag_name" = Some (AString (op_TagName n))
  /\ row !! "node_id" = Some (AString (op_NodeID n)).

Ltac each_column :=
  intros c Hc; unfold columns in Hc;
  repeat (apply elem_of_cons in Hc as [->|Hc]; [by eexists|]); by apply elem_of_nil in Hc.

Lemma badRow_of_node n ts msg : row_of_node n (badRow n ts msg).
Proof. split_and!; [each_column|done|done]. Qed.

Lemma row_of_node_set n row k a :
  k <> "tag_name" -> k <> "node_id" -> row_of_node n row -> row_of_node n (<[k := a]> row).
Proof.
  intros H1 H2 (Hc & Ht & Hn). split_and!.
  - intros c Hin. apply lookup_insert_is_Some'. right. by apply Hc.
  - by rewrite lookup_insert_ne.
  - by rewrite lookup_insert_ne.
Qed.

Lemma value_row_of_node n dv ts : row_of_node n (value_row n dv ts).
Proof.
  unfold Opcua.value_row. cbv zeta. match goal with |- context [<["value_text" := _]> ?r] => set (row := r) end.
  assert (Hrow : row_of_node n row) by (split_and!; [each_column|done|done]).
  clearbody row. case_match; [by apply row_of_node_set|].
  unfold assignValue, null_value. repeat case_match; by repeat apply row_of_node_set.
Qed.

Lemma node_row_of_node ts results pos n : row_of_node n (node_row ts results pos n).
Proof.
  unfold node_row. repeat case_match; auto using badRow_of_node, value_row_of_node.
Qed.

(** What the server answers to the request for the valid ids; no request is
    sent when there is none. *)
Definition answer (nodes : list OPCUAPoint) (c : C) : result (list (option DataValue)) :=
  match valid_ids nodes with [] => Ok [] | ids => (ReadNodes ids c).2 end.

(** The client library decodes every data value of a response. *)
Definition values_decoded : Prop :=
  forall ids c results, (ReadNodes ids c).2 = Ok results -> Forall is_Some results.

(** Row [i] is built from what the server answered for node [i]. *)
Definition aligned (ts : Time) (nodes : list OPCUAPoint) (c : C) (rows : list Row) : Prop :=
  forall i n, nodes !! i = Some n ->
    rows !! i = Some (match answer nodes c with
                      | Err e => badRow n ts e
                      | Ok results => node_row ts results (length (valid_ids (take i nodes))) n
                      end).

Lemma Read_aligned ListOPCUANodes load ts c nodes c1 :
  values_decoded -> ListOPCUANodes (lc_LoadID load) c = (c1, Ok nodes) -> nodes <> [] ->
  exists rows,
    (Read (Some ListOPCUANodes) load ts c).2
      = Some (Metrics.ObserveBadQuality (lc_Name load) (Modbus.bad_count rows),
              emit_rows (grown ([], 0) rows))
    /\ length rows = length nodes /\ aligned ts nodes c1 rows.
Proof.
  intros Hdecoded Hnodes Hne. unfold aligned.
  unfold Opcua.Read, bindM at 1. rewrite Hnodes. destruct nodes as [|n0 nodes0]; [done|].
  set (nodes := n0 :: nodes0) in *. rewrite parse_nodes_spec. unfold answer.
  destruct (valid_ids nodes) as [|nid ids] eqn:Ev.
  - rewrite walk_none by done. unfold retM. eexists. split_and!; [done|by rewrite length_map|].
    intros i n Hn. rewrite list_lookup_fmap, Hn. simpl. unfold node_row.
    destruct (node_id n) as [nid|] eqn:En; [|done].
    exfalso. assert (Hin : nid ∈ valid_ids nodes).
    { apply list_elem_of_omap. exists n. split; [by eapply list_elem_of_lookup_2|done]. }
    rewrite Ev in Hin. by apply elem_of_nil in Hin.
  - unfold bindM, retM. destruct (ReadNodes (nid :: ids) c1) as [c2 [results|e]] eqn:Er; cbn [fst snd].
    + destruct (walk_spec ts results nodes 0 ([], 0)) as (rows & Hw & Hl & Hi).
      { eapply Hdecoded. by rewrite Er. }
      rewrite Hw. exists rows. by split_and!.
    + exists (map (fun n => badRow n ts e) nodes). rewrite bad_rows_grown. cbn [grown fst app].
      rewrite bad_count_bad, length_map. split_and!; [done|done|].
      intros i n Hn. rewrite list_lookup_fmap, Hn. done.
Qed.

(** C32. A polling cycle attributes values to nodes correctly.  For a load with
    nodes, [Read] never panics and calls the handler exactly once, with one row
    per node in the order of the nodes; it returns what the handler returned,
    with [RowsRead] the number of nodes.  Every row carries the tag name and
    node id of its node.  When the request fails, every row is bad with the
    error; otherwise a node with an invalid id gets a bad row, and each other
    node the row of the result at the position its own id has in the request,
    invalid ids before it not counted, or a bad row when the response is too
    short.  The metric counts exactly the bad rows.  The client library is
    assumed to hand out no nil data value. *)
Theorem lockstep_aligned ListOPCUANodes load ts c nodes c1
    (Hdecoded : values_decoded)
    (Hnodes : ListOPCUANodes (lc_LoadID load) c = (c1, Ok nodes)) (Hne : nodes <> []) :
  exists rows k,
    (Read (Some ListOPCUANodes) load ts c).2
      = Some (Metrics.ObserveBadQuality (lc_Name load) (Modbus.bad_count rows),
              Emit (mkBatch columns rows) k)
    /\ (forall e, k e = Done (mkReadResult (Z.of_nat (length nodes)) zero_watermark false) e)
    /\ Forall2 row_of_node nodes rows
    /\ aligned ts nodes c1 rows.
Proof.
  destruct (Read_aligned ListOPCUANodes load ts c nodes c1) as (rows & Hr & Hl & Hi); [done..|].
  exists rows. eexists. split_and!; [exact Hr|intros [err|]; cbn; by rewrite Hl| |done].
  apply Forall2_same_length_lookup. split; [done|].
  intros i n row Hn Hrow. rewrite (Hi i n Hn) in Hrow. simplify_eq.
  case_match; [apply node_row_of_node|apply badRow_of_node].
Qed.

(** A status that is neither of the three codes the switch names is reported
    as good, although the severity bits of an OPC UA status code are in its two
    most significant bits: every bad code with a sub-code is good. *)
Theorem bad_subcode_is_good s
    (H : s <> StatusOK /\ s <> StatusBad /\ s <> StatusUncertain) :
  qualityFromStatus s = "good".
Proof.
  unfold qualityFromStatus. destruct H as (H1 & H2 & H3).
  by rewrite !(proj2 (Z.eqb_neq _ _)).
Qed.
End Poll.

(** ** Options *)

(** The client authenticates as configured.  When the options
    are built, they contain exactly one authentication option; it is the
    configured user and password when the auth parameter is "username" in any
    case, and then the user is not empty; it is anonymous only when the
    parameter is missing, empty or "anonymous"; every other value is an error. *)
Theorem auth_as_configured p :
  let auth := ToLower (valueOr p "auth" "anonymous") in
  match buildClientOptions p with
  | Ok opts =>
      exists pre post,
        opts = pre ++ [if bool_decide (auth = "username")
                       then AuthUsername (default "" (p !! "username")) (default "" (p !! "password"))
                       else AuthAnonymous] ++ post
        /\ (auth = "anonymous" \/ (auth = "username" /\ default "" (p !! "username") <> ""))
        /\ Forall (fun o => o <> AuthAnonymous /\ forall u w, o <> AuthUsername u w) (pre ++ post)
  | Err _ => auth <> "anonymous" /\ (auth = "username" -> default "" (p !! "username") = "")
  end.
Proof.
  cbv zeta. unfold buildClientOptions. set (auth := ToLower _). clearbody auth. cbv zeta.
  set (touts := timeout_option p "session_timeout_ms" SessionTimeout ++ _).
  assert (Ht : Forall (fun o => o <> AuthAnonymous /\ forall u w, o <> AuthUsername u w) touts).
  { unfold touts, timeout_option. apply Forall_app. split; repeat case_match; repeat constructor; done. }
  clearbody touts. case_bool_decide as Ha; [|case_bool_decide as Hu; [case_bool_decide as Hn|]].
  - exists [SecurityPolicy (policyURI (valueOr p "security_policy" "None"));
            SecurityModeString (valueOr p "security_mode" "None")], touts.
    rewrite bool_decide_eq_false_2 by (subst; discriminate).
    split_and!; [done|by left|]. repeat constructor; done.
  - split; congruence.
  - exists [SecurityPolicy (policyURI (valueOr p "security_policy" "None"));
            SecurityModeString (valueOr p "security_mode" "None")], touts.
    split_and!; [done|by right|]. repeat constructor; done.
  - split; congruence.
Qed.

(** ** Witness *)

(** A server with two readable nodes; an id is valid when it is not empty. *)
#[local] Instance ex_ua : UAClient unit := {|
  NodeID := string;
  ParseNodeID := fun s => if bool_decide (s = "") then Err "bad id" else Ok s;
  StatusOK := 0; StatusBad := 2147483648; StatusUncertain := 1073741824;
  StatusError := fun s => fmt_d s;
  ReadNodes := fun ids c =>
    (c, Ok (map (fun id => Some (mkDataValue 0 (Some (AString id)) 0 0)) ids));
|}.

Definition ex_node (id : string) : OPCUAPoint :=
  mkOPCUAPoint ("tag-" +:+ id) id (S754_zero false) (S754_zero false).

Definition ex_nodes : list OPCUAPoint := [ex_node "a"; ex_node ""; ex_node "b"].

Definition ex_opcua_load : LoadConfig :=
  mkLoadConfig 1 "plc" "" "append" "" "none" zero_watermark 100.

Lemma lockstep_aligned_witness :
  exists rows k,
    (Read (fun _ => "") (fun _ => "") (Some (fun _ c => (c, Ok ex_nodes))) ex_opcua_load 5 tt).2
      = Some (Metrics.ObserveBadQuality "plc" (Modbus.bad_count rows), Emit (mkBatch columns rows) k)
    /\ k None = Done (mkReadResult 3 zero_watermark false) None
    /\ Forall2 row_of_node ex_nodes rows
    /\ rows !! 2%nat = Some (value_row (fun _ => "") (fun _ => "") (ex_node "b")
                         (mkDataValue 0 (Some (AString "b")) 0 0) 5).
Proof.
  destruct (lockstep_aligned (fun _ => "") (fun _ => "") (fun _ c => (c, Ok ex_nodes))
              ex_opcua_load 5 tt ex_nodes tt) as (rows & k & Hr & Hk & Hf & Hi).
  - intros ids c results [= <-]. apply Forall_forall. intros x (id & -> & _)%list_elem_of_fmap. by eexists.
  - reflexivity.
  - discriminate.
  - exists rows, k. split_and!; [exact Hr|exact (Hk None)|exact Hf|].
    rewrite (Hi 2%nat (ex_node "b") eq_refl). reflexivity.
Defined.

(** BadNodeIdUnknown (0x80340000) on a node: the row is marked good. *)
Example node_unknown_good : qualityFromStatus 2150891520 = "good".
Proof. reflexivity. Qed.

End OpcuaProofs.
