(* ===== verification/Logging.v ===== *)
(** * Database logging (internal/logging/dbhandler.go)

    The slog handler that mirrors records into the metadata database: how a
    record becomes a log entry, and the channel between the handlers and the
    worker that persists the entries, as a step relation. *)

From S2P Require Import Prelude.
From S2P Require Import GoStrings.
From S2P Require Import Contracts.
From S2P Require Import Models.
From Stdlib Require Import ZArith Lia SpecFloat.

Module Logging.
Import GoStrings Contracts Metadata.

(** ** slog values

    [VAny text a] is a value of a kind the handler does not name, with the
    text of its [String]; [VLogValuer v] a value whose [LogValue] is [v]. *)
Inductive Value : Type :=
  | VString (s : string)
  | VInt64 (z : Z)
  | VUint64 (z : Z)
  | VFloat64 (f : spec_float) (text : string)
  | VAny (text : string)
  | VLogValuer (v : Value).

Record Attr := mkAttr { a_Key : string; a_Value : Value }.

Record SlogRecord := mkRecord {
  r_Time : Time;
  r_Level : Z;
  r_Message : string;
  r_Attrs : list Attr;
}.

(** [Value.Resolve] calls [LogValue] at most 100 times. *)
Fixpoint resolve_n (n : nat) (v : Value) : Value :=
  match n with
  | O => VAny "LogValue called too many times"
  | S n' => match v with VLogValuer v' => resolve_n n' v' | _ => v end
  end.

Definition Resolve (v : Value) : Value := resolve_n 100 v.

Definition value_String (v : Value) : string :=
  match v with
  | VString s => s
  | VInt64 z | VUint64 z => fmt_d z
  | VFloat64 _ text => text
  | VAny text => text
  | VLogValuer _ => ""
  end.

(** ** Integers of attributes *)

(** [int64(u)] of a uint64. *)
Definition int64_of_uint64 (u : Z) : Z := if u <? 2 ^ 63 then u else u - 2 ^ 64.

(** The integer part of a float; [None] for NaN and the infinities. *)
Definition trunc (f : spec_float) : option Z :=
  match f with
  | S754_zero _ => Some 0
  | S754_finite s m e =>
      let a := if 0 <=? e then Zpos m * 2 ^ e else Zpos m / 2 ^ (- e) in
      Some (if s then - a else a)
  | _ => None
  end.

Section Handler.
(** [int64(f)] of a float that int64 cannot represent; the language leaves
    it to the implementation. *)
Context (int64_overflow : spec_float -> Z).
(** [json.Marshal] of the details; [None] when it fails. *)
Context (Marshal : gmap string Value -> option string).

Definition int64_of_float (f : spec_float) : Z :=
  match trunc f with
  | Some z => if (- 2 ^ 63 <=? z) && (z <? 2 ^ 63) then z else int64_overflow f
  | None => int64_overflow f
  end.

Definition int64FromAttr (v : Value) : Z :=
  match v with
  | VInt64 z => z
  | VUint64 u => int64_of_uint64 u
  | VFloat64 f _ => int64_of_float f
  | _ => 0
  end.

(** slog.LevelDebug is -4, LevelInfo 0, LevelWarn 4. *)
Definition levelString (l : Z) : string :=
  if l <=? -4 then "debug" else if l <=? 0 then "info" else if l <=? 4 then "warn" else "error".

(** ** A handler and its clones *)

Record DBHandler := mkDBHandler { h_attrs : list Attr; h_groups : list string }.

(** [if prefix != "" { a.Key = prefix + "." + a.Key }] *)
Definition prefixed (groups : list string) (a : Attr) : Attr :=
  let prefix := Join groups "." in
  if bool_decide (prefix = "") then a else mkAttr (prefix +:+ "." +:+ a_Key a) (a_Value a).

Definition WithAttrs (h : DBHandler) (attrs : list Attr) : DBHandler :=
  mkDBHandler (h_attrs h ++ map (prefixed (h_groups h)) attrs) (h_groups h).

Definition WithGroup (h : DBHandler) (name : string) : DBHandler :=
  if bool_decide (name = "") then h else mkDBHandler (h_attrs h) (h_groups h ++ [name]).

(** ** From a record to an entry *)

(** [apply]: the entry and the details after one attribute. *)
Definition apply_attr (st : LogEntry * gmap string Value) (a : Attr) : LogEntry * gmap string Value :=
  let '(e, details) := st in
  let v := Resolve (a_Value a) in
  if bool_decide (a_Key a = "run_uuid") then
    (mkLogEntry (le_CreatedAt e) (le_Level e) (value_String v) (le_LoadID e) (le_SourceID e)
       (le_Category e) (le_Message e) (le_Details e), details)
  else if bool_decide (a_Key a = "load_id") then
    let n := int64FromAttr v in
    (if n =? 0 then e else
       mkLogEntry (le_CreatedAt e) (le_Level e) (le_RunUUID e) (Some n) (le_SourceID e)
         (le_Category e) (le_Message e) (le_Details e), details)
  else if bool_decide (a_Key a = "source_id") then
    let n := int64FromAttr v in
    (if n =? 0 then e else
       mkLogEntry (le_CreatedAt e) (le_Level e) (le_RunUUID e) (le_LoadID e) (Some n)
         (le_Category e) (le_Message e) (le_Details e), details)
  else if bool_decide (a_Key a = "category") then
    (mkLogEntry (le_CreatedAt e) (le_Level e) (le_RunUUID e) (le_LoadID e) (le_SourceID e)
       (value_String v) (le_Message e) (le_Details e), details)
  else (e, <[a_Key a := v]> details).

(** The entry that [Handle] builds. *)
Definition build_entry (h : DBHandler) (r : SlogRecord) : LogEntry :=
  let e0 := mkLogEntry (r_Time r) (levelString (r_Level r)) "" None None "" (r_Message r) "" in
  let st := fold_left apply_attr (h_attrs h) (e0, ∅) in
  let '(e, details) := fold_left apply_attr (map (prefixed (h_groups h)) (r_Attrs r)) st in
  if bool_decide (details = ∅) then e
  else match Marshal details with
       | Some b =>
           mkLogEntry (le_CreatedAt e) (le_Level e) (le_RunUUID e) (le_LoadID e) (le_SourceID e)
             (le_Category e) (le_Message e) b
       | None => e
       end.

(** ** The channel

    [sending] are the calls of [Handle] that found the handler open and are
    about to send; [closing] is a call of [Close] between the swap of [closed]
    and [close(ch)]; [panicked] is the crash on a send to a closed channel. *)
Record Shared := mkShared {
  ch : list LogEntry;
  buffer : nat;
  ch_closed : bool;
  closed : bool;
  closing : bool;
  dropped : Z;
  done : bool;
  sending : list LogEntry;
  panicked : bool;
}.

(** [NewDBHandler] *)
Definition new_shared (n : Z) : Shared :=
  mkShared [] (Z.to_nat (if n <=? 0 then 256 else n)) false false false 0 false [] false.

Definition Dropped (s : Shared) : Z := dropped s.

(** What an outside observer sees of a step. *)
Inductive event :=
  | ESkip (e : LogEntry)      (* Handle after Close: not enqueued *)
  | EStart (e : LogEntry)     (* Handle passed the check of closed *)
  | EAccept (e : LogEntry)    (* sent to the channel *)
  | EDrop (e : LogEntry)      (* the buffer was full *)
  | EPanic (e : LogEntry)     (* send on the closed channel *)
  | ESwap                     (* Close: closed.Swap(true) *)
  | EClose                    (* Close: close(ch) *)
  | EWrite (e : LogEntry)     (* the worker calls writer.Log, whose error it ignores *)
  | EDone.                    (* the worker ends *)

(** [if h.state.closed.Load() { return nil }] *)
Definition handle_load (e : LogEntry) (s : Shared) : Shared * event :=
  if closed s then (s, ESkip e)
  else (mkShared (ch s) (buffer s) (ch_closed s) (closed s) (closing s) (dropped s) (done s)
          (e :: sending s) (panicked s), EStart e).

(** [select { case ch <- entry: default: dropped.Add(1) }] *)
Definition handle_send (e : LogEntry) (rest : list LogEntry) (s : Shared) : Shared * event :=
  if ch_closed s then
    (mkShared (ch s) (buffer s) (ch_closed s) (closed s) (closing s) (dropped s) (done s)
       rest true, EPanic e)
  else if (length (ch s) <? buffer s)%nat then
    (mkShared (ch s ++ [e]) (buffer s) (ch_closed s) (closed s) (closing s) (dropped s) (done s)
       rest (panicked s), EAccept e)
  else
    (mkShared (ch s) (buffer s) (ch_closed s) (closed s) (closing s) ((dropped s + 1) mod 2 ^ 64)
       (done s) rest (panicked s), EDrop e).

(** [if !h.state.closed.Swap(true) { close(h.state.ch) }], in two steps. *)
Definition close_swap (s : Shared) : Shared * event :=
  (mkShared (ch s) (buffer s) (ch_closed s) true (closing s || negb (closed s)) (dropped s)
     (done s) (sending s) (panicked s), ESwap).

Definition close_chan (s : Shared) : Shared * event :=
  (mkShared (ch s) (buffer s) true (closed s) false (dropped s) (done s) (sending s)
     (panicked s), EClose).

(** The worker: [for entry := range ch { _ = writer.Log(ctx, entry) }], then
    [close(done)]; [None] while the channel is open and empty. *)
Definition worker (s : Shared) : option (Shared * event) :=
  if done s then None
  else match ch s with
  | e :: rest =>
      Some (mkShared rest (buffer s) (ch_closed s) (closed s) (closing s) (dropped s) (done s)
              (sending s) (panicked s), EWrite e)
  | [] =>
      if ch_closed s then
        Some (mkShared [] (buffer s) (ch_closed s) (closed s) (closing s) (dropped s) true
                (sending s) (panicked s), EDone)
      else None
  end.

Inductive step : Shared -> event -> Shared -> Prop :=
  | step_load e s s' ev : panicked s = false -> handle_load e s = (s', ev) -> step s ev s'
  | step_send e l1 l2 s s' ev :
      panicked s = false -> sending s = l1 ++ e :: l2 ->
      handle_send e (l1 ++ l2) s = (s', ev) -> step s ev s'
  | step_swap s s' ev : panicked s = false -> close_swap s = (s', ev) -> step s ev s'
  | step_close s s' ev :
      panicked s = false -> closing s = true -> close_chan s = (s', ev) -> step s ev s'
  | step_worker s s' ev : panicked s = false -> worker s = Some (s', ev) -> step s ev s'.

Inductive steps : Shared -> list event -> Shared -> Prop :=
  | steps_nil s : steps s [] s
  | steps_snoc s tr s1 ev s2 : steps s tr s1 -> step s1 ev s2 -> steps s (tr ++ [ev]) s2.

(** The whole [Handle] of a record: the base handler first, its error ends it;
    the entry to enqueue otherwise. *)
Definition Handle (base : SlogRecord -> option error) (h : DBHandler) (r : SlogRecord) :
    error + LogEntry :=
  match base r with
  | Some e => inl e
  | None => inr (build_entry h r)
  end.

End Handler.

(** ** The console logger (logger.go) *)

(** [slog.Level] *)
Definition LevelDebug : Z := -4.
Definition LevelInfo : Z := 0.
Definition LevelWarn : Z := 4.
Definition LevelError : Z := 8.

Inductive ConsoleHandler := TextHandler (level : Z) | JSONHandler (level : Z).

Definition New (level format : string) : ConsoleHandler :=
  let l := ToLower level in
  let lvl := if bool_decide (l = "debug") then LevelDebug
             else if bool_decide (l = "warn") then LevelWarn
             else if bool_decide (l = "error") then LevelError
             else LevelInfo in
  if bool_decide (ToLower format = "text") then TextHandler lvl else JSONHandler lvl.

(** [Enabled] of the database handler is the base handler's. *)
Definition Enabled (base : Z -> bool) (level : Z) : bool := base level.

(** A context as far as the logger is concerned: the chain of [context.WithValue]
    with the package's own key type, innermost first; [None] is a nil logger. *)
Definition Context_ (L : Type) : Type := list (option L).

Definition WithContext {L : Type} (ctx : Context_ L) (l : option L) : Context_ L := l :: ctx.

(** [ctx.Value(ctxKey{})] is the innermost value. *)
Definition FromContext {L : Type} (ctx : Context_ L) (slog_default : L) : L :=
  match ctx with
  | Some l :: _ => l
  | _ => slog_default
  end.

(** The logger that was put in last comes out; a nil logger hides the outer
    ones. *)
Lemma context_logger {L : Type} (ctx : Context_ L) l d :
  FromContext (WithContext ctx l) d = default d l.
Proof. by destruct l. Qed.

End Logging.
