(* ===== verification/LoggingProofs.v ===== *)
(** * Database logging: properties

    Entries reach the database in the order in which they were accepted, and
    closing the handler drains them; clones of a handler with attributes and
    groups build the entries that the attributes of the record would give. *)

From S2P Require Import Prelude.
From S2P Require Import GoStrings.
From S2P Require Import Contracts.
From S2P Require Import Models.
From S2P Require Import Logging.
From Stdlib Require Import ZArith Lia SpecFloat.

Module LoggingProofs.
Import GoStrings Contracts Metadata Logging.

(** ** Projections of a trace *)

Definition accepted_of (ev : event) : option LogEntry :=
  match ev with EAccept e => Some e | _ => None end.
Definition written_of (ev : event) : option LogEntry :=
  match ev with EWrite e => Some e | _ => None end.
Definition dropped_of (ev : event) : option LogEntry :=
  match ev with EDrop e => Some e | _ => None end.
Definition started_of (ev : event) : option LogEntry :=
  match ev with EStart e => Some e | _ => None end.

Definition accepted (tr : list event) := omap accepted_of tr.
Definition written (tr : list event) := omap written_of tr.
Definition drops (tr : list event) := omap dropped_of tr.
Definition started (tr : list event) := omap started_of tr.

Lemma omap_snoc {A B} (f : A -> option B) l x :
  omap f (l ++ [x]) = omap f l ++ match f x with Some y => [y] | None => [] end.
Proof. rewrite omap_app. simpl. by destruct (f x). Qed.

(** ** The invariant of the channel *)

Record inv (tr : list event) (s : Shared) : Prop := {
  inv_bound : (length (ch s) <= buffer s)%nat;
  inv_order : accepted tr = written tr ++ ch s;
  inv_drops : dropped s = Z.of_nat (length (drops tr)) mod 2 ^ 64;
  inv_done : done s = true -> ch s = [] /\ ch_closed s = true;
  inv_closed : ch_closed s = true \/ closing s = true -> closed s = true;
  inv_once : closed s = true -> ch_closed s = negb (closing s);
  inv_handled : panicked s = false ->
    started tr ≡ₚ accepted tr ++ drops tr ++ sending s;
}.

Lemma inv_new n : inv [] (new_shared n).
Proof. split; simpl; try done; try lia; by intros []. Qed.

(** The parts of a step that depend on the event only. *)
Lemma trace_snoc tr ev :
  accepted (tr ++ [ev]) = accepted tr ++ match accepted_of ev with Some e => [e] | None => [] end
  /\ written (tr ++ [ev]) = written tr ++ match written_of ev with Some e => [e] | None => [] end
  /\ drops (tr ++ [ev]) = drops tr ++ match dropped_of ev with Some e => [e] | None => [] end
  /\ started (tr ++ [ev]) = started tr ++ match started_of ev with Some e => [e] | None => [] end.
Proof. split_and!; apply omap_snoc. Qed.

Ltac trace_tac tr ev :=
  destruct (trace_snoc tr ev) as (Ha & Hw & Hd & Hs); simpl in Ha, Hw, Hd, Hs;
  rewrite ?app_nil_r in *.

Lemma inv_load tr e s s' ev :
  inv tr s -> handle_load e s = (s', ev) -> inv (tr ++ [ev]) s'.
Proof.
  intros [] H. unfold handle_load in H. destruct (closed s) eqn:Ec; simplify_eq.
  - trace_tac tr (ESkip e). split; rewrite ?Ha, ?Hw, ?Hd, ?Hs, ?Ec; auto.
  - trace_tac tr (EStart e). split; simpl; rewrite ?Ha, ?Hw, ?Hd, ?Hs; auto.
    intros Hp. rewrite (inv_handled0 Hp). solve_Permutation.
Qed.

Lemma inv_send tr e l1 l2 s s' ev :
  inv tr s -> panicked s = false -> sending s = l1 ++ e :: l2 ->
  handle_send e (l1 ++ l2) s = (s', ev) -> inv (tr ++ [ev]) s'.
Proof.
  intros [] Hp Hsend H. specialize (inv_handled0 Hp). rewrite Hsend in inv_handled0.
  unfold handle_send in H. destruct (ch_closed s) eqn:Ec; [|destruct (Nat.ltb_spec (length (ch s)) (buffer s))]; simplify_eq.
  - trace_tac tr (EPanic e). split; simpl; rewrite ?Ha, ?Hw, ?Hd, ?Hs, ?Ec; auto. done.
  - trace_tac tr (EAccept e). split; simpl; rewrite ?Ha, ?Hw, ?Hd, ?Hs, ?Ec; auto.
    + rewrite length_app. simpl. lia.
    + by rewrite inv_order0, app_assoc.
    + intros Hdn. apply inv_done0 in Hdn as [_ ?]. congruence.
    + intros _. rewrite inv_handled0. solve_Permutation.
  - trace_tac tr (EDrop e). split; simpl; rewrite ?Ha, ?Hw, ?Hd, ?Hs, ?Ec; auto.
    + rewrite length_app, Nat2Z.inj_add, inv_drops0. simpl. by rewrite Zplus_mod_idemp_l.
    + intros _. rewrite inv_handled0. solve_Permutation.
Qed.

Lemma inv_swap tr s s' ev : inv tr s -> close_swap s = (s', ev) -> inv (tr ++ [ev]) s'.
Proof.
  intros [] H. unfold close_swap in H. simplify_eq. trace_tac tr ESwap.
  split; simpl; rewrite ?Ha, ?Hw, ?Hd, ?Hs; auto.
  intros _. destruct (closed s) eqn:Ec; simpl.
  - by rewrite orb_false_r, inv_once0.
  - rewrite orb_true_r. simpl. destruct (ch_closed s); [|done]. discriminate inv_closed0. by left.
Qed.

Lemma inv_close tr s s' ev :
  inv tr s -> closing s = true -> close_chan s = (s', ev) -> inv (tr ++ [ev]) s'.
Proof.
  intros [] Hc H. unfold close_chan in H. simplify_eq. trace_tac tr EClose.
  split; simpl; rewrite ?Ha, ?Hw, ?Hd, ?Hs; auto.
  intros Hdn. by apply inv_done0 in Hdn as [? _].
Qed.

Lemma inv_worker tr s s' ev : inv tr s -> worker s = Some (s', ev) -> inv (tr ++ [ev]) s'.
Proof.
  intros [] H. unfold worker in H. destruct (done s) eqn:Edn; [done|].
  destruct (ch s) as [|e rest] eqn:Ech; [destruct (ch_closed s) eqn:Ec; [|done]|]; simplify_eq.
  - trace_tac tr EDone. split; simpl; rewrite ?Ha, ?Hw, ?Hd, ?Hs, ?Ec; auto; try done; try lia.
    by rewrite app_nil_r.
  - trace_tac tr (EWrite e). simpl in *. split; simpl; rewrite ?Ha, ?Hw, ?Hd, ?Hs, ?Edn; auto; try done.
    + lia.
    + by rewrite inv_order0, <- app_assoc.
Qed.

Lemma inv_step tr s s' ev : inv tr s -> step s ev s' -> inv (tr ++ [ev]) s'.
Proof.
  intros Hi Hs. destruct Hs; eauto using inv_load, inv_send, inv_swap, inv_close, inv_worker.
Qed.

Lemma inv_steps n tr s : steps (new_shared n) tr s -> inv tr s.
Proof.
  remember (new_shared n) as s0 eqn:E. intros H. induction H; subst; eauto using inv_new, inv_step.
Qed.

(** ** Draining *)

(** The worker alone, [n] steps. *)
Fixpoint run_worker (n : nat) (s : Shared) : list event * Shared :=
  match n with
  | O => ([], s)
  | S n' =>
      match worker s with
      | Some (s', ev) => let '(tr, s'') := run_worker n' s' in (ev :: tr, s'')
      | None => ([], s)
      end
  end.

Lemma run_worker_S n s :
  run_worker (S n) s =
  match worker s with
  | Some (s', ev) => (ev :: (run_worker n s').1, (run_worker n s').2)
  | None => ([], s)
  end.
Proof. simpl. destruct (worker s) as [[s' ev]|]; [|done]. by destruct (run_worker n s'). Qed.

Lemma run_worker_drains n : forall s,
  ch_closed s = true -> done s = false -> length (ch s) = n ->
  (run_worker (S n) s).1 = map EWrite (ch s) ++ [EDone] /\ done (run_worker (S n) s).2 = true.
Proof.
  induction n as [|n IH]; intros s Hc Hd Hl; destruct (ch s) as [|e rest] eqn:Ech; try done.
  - simpl. unfold worker. rewrite Hd, Ech, Hc. done.
  - rewrite (run_worker_S (S n) s). injection Hl as Hl.
    assert (Hw : exists s1, worker s = Some (s1, EWrite e) /\ ch_closed s1 = true /\ done s1 = false
                   /\ ch s1 = rest).
    { unfold worker. rewrite Hd, Ech. eexists. by split_and!. }
    destruct Hw as (s1 & -> & Hc1 & Hd1 & <-). destruct (IH s1 Hc1 Hd1 Hl) as [IH1 IH2].
    cbn [fst snd map app]. by rewrite IH1.
Qed.

(** C34. No accepted log entry is lost, reordered or duplicated.  In every
    execution of any number of concurrent calls of [Handle] and [Close] with
    the worker: the buffer never exceeds its capacity; the entries the worker
    has written (called [writer.Log] with; the code ignores its error, so a
    failed write counts), followed by the ones in the buffer, are exactly the
    accepted entries in order; until a crash every call that found the handler open is
    accepted, counted as dropped or still sending; [Dropped] is the number of
    dropped entries modulo 2^64; once the worker is done all accepted entries
    are written.  And when the channel is closed, the worker on its own writes
    the buffered entries in order and ends. *)
Theorem log_entries_delivered n tr s (Hrun : steps (new_shared n) tr s) :
  (length (ch s) <= buffer s)%nat
  /\ accepted tr = written tr ++ ch s
  /\ (panicked s = false -> started tr ≡ₚ accepted tr ++ drops tr ++ sending s)
  /\ Dropped s = Z.of_nat (length (drops tr)) mod 2 ^ 64
  /\ (done s = true -> written tr = accepted tr)
  /\ (ch_closed s = true -> done s = false ->
       (run_worker (S (length (ch s))) s).1 = map EWrite (ch s) ++ [EDone]
       /\ done (run_worker (S (length (ch s))) s).2 = true).
Proof.
  apply inv_steps in Hrun as []. split_and!; [done|done|done|done| |].
  - intros Hd. apply inv_done0 in Hd as [Hc _]. by rewrite inv_order0, Hc, app_nil_r.
  - intros Hc Hd. by apply run_worker_drains.
Qed.

(** A call of [Handle] that checked [closed] before [Close] swapped it sends
    on the closed channel, and the program crashes. *)
Theorem handle_close_race n (e : LogEntry) :
  exists s, steps (new_shared n) [EStart e; ESwap; EClose; EPanic e] s /\ panicked s = true.
Proof.
  set (s1 := (handle_load e (new_shared n)).1). set (s2 := (close_swap s1).1).
  set (s3 := (close_chan s2).1). exists (handle_send e [] s3).1. split; [|done].
  apply (steps_snoc _ [EStart e; ESwap; EClose] s3); [|by apply (step_send e [] [])].
  apply (steps_snoc _ [EStart e; ESwap] s2); [|by apply step_close].
  apply (steps_snoc _ [EStart e] s1); [|by apply step_swap].
  apply (steps_snoc _ [] (new_shared n)); [constructor|by apply (step_load e)].
Qed.

(** ** Closing when no call is in flight *)

Lemma quiesced_step s ev s' :
  closed s = true -> sending s = [] -> panicked s = false -> step s ev s' ->
  closed s' = true /\ sending s' = [] /\ panicked s' = false
  /\ accepted_of ev = None /\ dropped_of ev = None.
Proof.
  intros Hc Hs Hp Hstep.
  destruct Hstep as [e s s' ev _ H|e l1 l2 s s' ev _ Hsend H|s s' ev _ H|s s' ev _ _ H|s s' ev _ H].
  - unfold handle_load in H. rewrite Hc in H. by simplify_eq.
  - rewrite Hs in Hsend. by destruct l1.
  - unfold close_swap in H. by simplify_eq.
  - unfold close_chan in H. by simplify_eq.
  - unfold worker in H. repeat case_match; by simplify_eq.
Qed.

(** After a [Close] that met no call of [Handle] in flight, logging is safe:
    however many further calls of [Handle] and [Close] follow, the program does
    not crash, and no entry is accepted or dropped any more. *)
Theorem quiesced_close_safe s tr s'
    (Hclosed : closed s = true) (Hquiet : sending s = []) (Hlive : panicked s = false)
    (Hrun : steps s tr s') :
  panicked s' = false /\ accepted tr = [] /\ drops tr = [].
Proof.
  assert (closed s' = true /\ sending s' = [] /\ panicked s' = false
          /\ accepted tr = [] /\ drops tr = []) as (_ & _ & ? & ? & ?); [|done].
  induction Hrun as [s|s tr s1 ev s2 _ IH Hstep]; [done|].
  destruct (IH Hclosed Hquiet Hlive) as (? & ? & ? & Ha & Hd).
  destruct (quiesced_step s1 ev s2) as (? & ? & ? & Ea & Ed); [done..|].
  destruct (trace_snoc tr ev) as (-> & _ & -> & _). by rewrite Ha, Hd, Ea, Ed.
Qed.

(** ** Attributes and groups *)

Lemma Join_snoc gs (n : string) :
  Join (gs ++ [n]) "." = match gs with [] => n | _ => Join gs "." +:+ "." +:+ n end.
Proof.
  induction gs as [|g gs IH]; [done|].
  change (Join ((g :: gs) ++ [n]) ".") with (Join (g :: (gs ++ [n])) ".").
  destruct gs as [|g' gs]; [done|].
  change (Join (g :: (g' :: gs) ++ [n]) ".") with (g +:+ "." +:+ Join ((g' :: gs) ++ [n]) ".").
  rewrite IH. change (Join (g :: g' :: gs) ".") with (g +:+ "." +:+ Join (g' :: gs) ".").
  by rewrite !str_app_assoc.
Qed.

Lemma str_app_empty (a b : string) : a +:+ b = "" -> a = "" /\ b = "".
Proof. destruct a; [by rewrite str_app_nil_l|done]. Qed.

Lemma Join_empty gs : Forall (fun g => g <> "") gs -> Join gs "." = "" <-> gs = [].
Proof.
  intros Hg. split; [|by intros ->]. destruct gs as [|g gs]; [done|]. inversion_clear Hg.
  destruct gs; [done|]. intros E. apply str_app_empty in E as [? _]. done.
Qed.

(** [a] inside the group [name]. *)
Definition in_group (name : string) (a : Attr) : Attr :=
  mkAttr (name +:+ "." +:+ a_Key a) (a_Value a).

Definition with_attrs (r : SlogRecord) (attrs : list Attr) : SlogRecord :=
  mkRecord (r_Time r) (r_Level r) (r_Message r) attrs.

Lemma prefixed_snoc gs name a :
  Forall (fun g => g <> "") gs -> name <> "" ->
  prefixed (gs ++ [name]) a = prefixed gs (in_group name a).
Proof.
  intros Hg Hn. unfold prefixed, in_group. rewrite Join_snoc. simpl a_Key. simpl a_Value.
  destruct gs as [|g gs].
  - simpl. by rewrite bool_decide_eq_false_2.
  - rewrite (bool_decide_eq_false_2 (Join (g :: gs) "." = "")) by (by rewrite Join_empty).
    rewrite bool_decide_eq_false_2 by (by intros [? [? ?]%str_app_empty]%str_app_empty).
    by rewrite !str_app_assoc.
Qed.

Definition reserved : list string := ["run_uuid"; "load_id"; "source_id"; "category"].

Lemma has_dot_app (a b : string) : has_char (char 46) (a +:+ "." +:+ b) = true.
Proof.
  induction a as [|x a IH]; [done|].
  change (String x a +:+ "." +:+ b) with (String x (a +:+ "." +:+ b)).
  cbn [has_char]. rewrite IH. apply orb_true_r.
Qed.

Lemma prefixed_not_reserved gs a :
  Forall (fun g => g <> "") gs -> gs <> [] -> a_Key (prefixed gs a) ∉ reserved.
Proof.
  intros Hg Hne. unfold prefixed. rewrite bool_decide_eq_false_2 by (by rewrite Join_empty).
  simpl a_Key. intros Hin. pose proof (has_dot_app (Join gs ".") (a_Key a)) as Hd.
  unfold reserved in Hin. repeat (apply elem_of_cons in Hin as [Hin|Hin]; [by rewrite Hin in Hd|]).
  by apply elem_of_nil in Hin.
Qed.

Section Entries.
Context (int64_overflow : spec_float -> Z) (Marshal : gmap string Value -> option string).
Local Abbreviation apply_attr := (apply_attr int64_overflow).
Local Abbreviation build_entry := (build_entry int64_overflow Marshal).

Lemma apply_attr_other st a : a_Key a ∉ reserved -> (apply_attr st a).1 = st.1.
Proof.
  intros Hn. destruct st as [e d]. unfold Logging.apply_attr.
  rewrite !bool_decide_eq_false_2 by (intros E; apply Hn; rewrite E; unfold reserved; set_solver). done.
Qed.

Lemma fold_attrs_other attrs : forall st,
  Forall (fun a => a_Key a ∉ reserved) attrs -> (fold_left apply_attr attrs st).1 = st.1.
Proof.
  induction attrs as [|a attrs IH]; [done|]. intros st Hf. inversion_clear Hf. simpl.
  rewrite IH by done. by apply apply_attr_other.
Qed.

(** The columns of an entry that queries select on. *)
Definition key_fields (e : LogEntry) :=
  (le_CreatedAt e, le_Level e, le_RunUUID e, le_LoadID e, le_SourceID e, le_Category e, le_Message e).

Lemma key_fields_build h r :
  key_fields (build_entry h r)
  = key_fields (fold_left apply_attr (h_attrs h ++ map (prefixed (h_groups h)) (r_Attrs r))
      (mkLogEntry (r_Time r) (levelString (r_Level r)) "" None None "" (r_Message r) "", ∅)).1.
Proof.
  unfold Logging.build_entry. rewrite fold_left_app.
  destruct (fold_left _ (map _ _) _) as [e d]. simpl. by repeat case_match.
Qed.

(** C35. Loggers with context build the right entries.  Logging a record through
    a handler with attributes gives the entry of a record that carries these
    attributes first; through a handler in a group, the entry of a record whose
    attribute keys are prefixed with the group, also for nested groups; and
    attributes of a record logged inside a group never change the run, load,
    source or category of the entry. *)
Theorem handler_context h attrs name r
    (Hgroups : Forall (fun g => g <> "") (h_groups h)) (Hname : name <> "") :
  build_entry (WithAttrs h attrs) r = build_entry h (with_attrs r (attrs ++ r_Attrs r))
  /\ build_entry (WithGroup h name) r = build_entry h (with_attrs r (map (in_group name) (r_Attrs r)))
  /\ Forall (fun g => g <> "") (h_groups (WithGroup h name))
  /\ key_fields (build_entry (WithGroup h name) r)
     = key_fields (build_entry (WithGroup h name) (with_attrs r [])).
Proof.
  assert (Hg' : Forall (fun g => g <> "") (h_groups h ++ [name])).
  { apply Forall_app. split; [done|]. by constructor. }
  assert (Ew : WithGroup h name = mkDBHandler (h_attrs h) (h_groups h ++ [name])).
  { unfold WithGroup. by rewrite bool_decide_eq_false_2. }
  rewrite Ew. split_and!; [| |done|].
  - unfold Logging.build_entry, WithAttrs. simpl. by rewrite map_app, !fold_left_app.
  - unfold Logging.build_entry. simpl. rewrite map_map.
    by erewrite map_ext by (intros a; by apply prefixed_snoc).
  - rewrite !key_fields_build. simpl. rewrite app_nil_r, fold_left_app, fold_attrs_other; [done|].
    apply Forall_fmap, Forall_true. intros a. simpl. apply prefixed_not_reserved; [done|].
    by destruct (h_groups h).
Qed.
End Entries.

(** ** Witnesses *)

Definition ex_entry (m : string) : LogEntry := mkLogEntry 0 "info" "" None None "" m "".

Lemma log_entries_delivered_witness :
  exists s, steps (new_shared 1) [EStart (ex_entry "a"); EAccept (ex_entry "a"); EWrite (ex_entry "a")] s
    /\ accepted [EStart (ex_entry "a"); EAccept (ex_entry "a"); EWrite (ex_entry "a")]
       = [ex_entry "a"] ++ ch s.
Proof.
  set (s1 := (handle_load (ex_entry "a") (new_shared 1)).1).
  set (s2 := (handle_send (ex_entry "a") [] s1).1).
  set (s3 := (default (s2, EDone) (worker s2)).1).
  assert (Hrun : steps (new_shared 1) [EStart (ex_entry "a"); EAccept (ex_entry "a"); EWrite (ex_entry "a")] s3).
  { apply (steps_snoc _ [EStart (ex_entry "a"); EAccept (ex_entry "a")] s2); [|by apply step_worker].
    apply (steps_snoc _ [EStart (ex_entry "a")] s1); [|by apply (step_send (ex_entry "a") [] [])].
    apply (steps_snoc _ [] (new_shared 1)); [constructor|by apply (step_load (ex_entry "a"))]. }
  exists s3. split; [exact Hrun|].
  destruct (log_entries_delivered 1 _ s3 Hrun) as (_ & H & _). exact H.
Defined.

Lemma quiesced_close_safe_witness :
  panicked (close_swap (new_shared 1)).1 = false /\ accepted [ESkip (ex_entry "a")] = [].
Proof.
  set (s := (close_swap (new_shared 1)).1).
  assert (Hrun : steps s [ESkip (ex_entry "a")] s).
  { apply (steps_snoc _ [] s); [constructor|by apply (step_load (ex_entry "a"))]. }
  destruct (quiesced_close_safe s [ESkip (ex_entry "a")] s eq_refl eq_refl eq_refl Hrun) as (Hp & Ha & _).
  split; [exact Hp|exact Ha].
Defined.

Lemma handler_context_witness :
  build_entry (fun _ => 0) (fun _ => None)
    (WithGroup (mkDBHandler [mkAttr "load_id" (VInt64 7)] ["db"]) "conn")
    (mkRecord 1 0 "m" [mkAttr "category" (VString "read")])
  = mkLogEntry 1 "info" "" (Some 7) None "" "m" "".
Proof.
  destruct (handler_context (fun _ => 0) (fun _ => None)
              (mkDBHandler [mkAttr "load_id" (VInt64 7)] ["db"]) [] "conn"
              (mkRecord 1 0 "m" [mkAttr "category" (VString "read")])) as (_ & E & _).
  - constructor; [discriminate|constructor].
  - discriminate.
  - rewrite E. vm_compute. reflexivity.
Defined.

End LoggingProofs.
