(* ===== verification/Seed.v ===== *)
(** * Metadata seeding (internal/seed: seed.go, yaml.go)

    [Apply] brings the metadata in line with a seed file inside one
    transaction.  Decoding the YAML text is not modelled; the statements that
    gorm runs are a parameter ([SeedDB]). *)

From S2P Require Import Prelude.
From S2P Require Import GoStrings.
From S2P Require Import Contracts.
From S2P Require Import Models.
From Stdlib Require Import ZArith Lia SpecFloat.

Module Seed.
Import GoStrings Contracts Metadata.

(** ** The file; a pointer field is an option *)

Record SourceSpec := mkSourceSpec {
  ss_Name : string;
  ss_Kind : string;
  ss_Description : string;
  ss_IsEnabled : option bool;
  ss_Params : gmap string string;
}.

Record LoadSpec := mkLoadSpec {
  ls_Name : string;
  ls_Source : string;
  ls_CronExpression : string;
  ls_Mode : string;
  ls_ObjectName : string;
  ls_WatermarkColumn : string;
  ls_WatermarkType : string;
  ls_TargetSchema : string;
  ls_TargetTable : string;
  ls_BatchSize : Z;
  ls_AutoCreateTable : option bool;
  ls_IsEnabled : option bool;
}.

Record ModbusTagSpec := mkModbusTagSpec {
  ts_Load : string;
  ts_TagName : string;
  ts_CorrelationID : string;
  ts_UnitID : Z;
  ts_RegisterType : string;
  ts_Address : Z;
  ts_Quantity : Z;
  ts_DataType : string;
  ts_ByteOrder : string;
  ts_WordOrder : string;
  ts_Scale : option spec_float;
  ts_Offset : option spec_float;
  ts_IsEnabled : option bool;
}.

Record OPCUANodeSpec := mkOPCUANodeSpec {
  ns_Load : string;
  ns_TagName : string;
  ns_NodeID : string;
  ns_Scale : option spec_float;
  ns_Offset : option spec_float;
  ns_IsEnabled : option bool;
}.

Record File := mkFile {
  f_Sources : list SourceSpec;
  f_Loads : list LoadSpec;
  f_ModbusTags : list ModbusTagSpec;
  f_OPCUANodes : list OPCUANodeSpec;
}.

(** [Load]; [read_file] is [os.ReadFile], [decode] the YAML decoder with
    unknown keys refused. *)
Definition Load_ (read_file : string -> result string) (decode : string -> result File)
    (path : string) : result File :=
  match read_file path with
  | Err e => Err (errorf "read seed file" e)
  | Ok b =>
      match decode b with
      | Err e => Err (errorf "parse seed file" e)
      | Ok f => Ok f
      end
  end.

(** ** The report *)

Inductive Action := ActionCreated | ActionUpdated.

Record Report := mkReport {
  SourcesCreated : list string;
  SourcesUpdated : list string;
  LoadsCreated : list string;
  LoadsUpdated : list string;
  ModbusTags : Z;
  OPCUANodes : Z;
}.

Definition empty_report : Report := mkReport [] [] [] [] 0 0.

Definition recordSource (r : Report) (a : Action) (name : string) : Report :=
  match a with
  | ActionCreated => mkReport (SourcesCreated r ++ [name]) (SourcesUpdated r) (LoadsCreated r)
                       (LoadsUpdated r) (ModbusTags r) (OPCUANodes r)
  | ActionUpdated => mkReport (SourcesCreated r) (SourcesUpdated r ++ [name]) (LoadsCreated r)
                       (LoadsUpdated r) (ModbusTags r) (OPCUANodes r)
  end.

Definition recordLoad (r : Report) (a : Action) (name : string) : Report :=
  match a with
  | ActionCreated => mkReport (SourcesCreated r) (SourcesUpdated r) (LoadsCreated r ++ [name])
                       (LoadsUpdated r) (ModbusTags r) (OPCUANodes r)
  | ActionUpdated => mkReport (SourcesCreated r) (SourcesUpdated r) (LoadsCreated r)
                       (LoadsUpdated r ++ [name]) (ModbusTags r) (OPCUANodes r)
  end.

Definition add_points (r : Report) (tags nodes : Z) : Report :=
  mkReport (SourcesCreated r) (SourcesUpdated r) (LoadsCreated r) (LoadsUpdated r)
    (ModbusTags r + tags) (OPCUANodes r + nodes).

(** ** Helpers *)

Definition boolOr (p : option bool) (def : bool) : bool := default def p.
Definition stringOr (s def : string) : string := if bool_decide (s = "") then def else s.
Definition float64Or (p : option spec_float) (def : spec_float) : spec_float := default def p.

Definition defaultQuantity (t : ModbusTagSpec) : Z :=
  if 0 <? ts_Quantity t then ts_Quantity t
  else
    let dt := ToLower (ts_DataType t) in
    if bool_decide (dt ∈ ["int16"; "uint16"; "bool"]) then 1
    else if bool_decide (dt ∈ ["int32"; "uint32"; "float32"]) then 2
    else if bool_decide (dt ∈ ["int64"; "uint64"; "float64"]) then 4
    else 1.

Definition float_one : spec_float := S754_finite false 4503599627370496 (-52).
Definition float_zero : spec_float := S754_zero false.

(** ** Statements

    [First_*] is [tx.First] by name, [None] for [ErrRecordNotFound]; [Create_*]
    returns the row as it was stored.  [Transaction a body] runs the body, which
    also updates variables of the caller ([a] before it runs). *)
Class SeedDB (G : Type) := {
  Transaction : forall A : Type, A -> M G (A * option error) -> M G (A * option error);
  First_source : string -> M G (result (option Source));
  Create_source : Source -> M G (result Source);
  Save_source : Source -> M G (option error);
  First_load : string -> M G (result (option Load));
  Create_load : Load -> M G (result Load);
  Save_load : Load -> M G (option error);
  Delete_tags : Z -> M G (option error);
  Create_tags : list ModbusTag -> M G (option error);
  Delete_nodes : Z -> M G (option error);
  Create_nodes : list OPCUANode -> M G (option error);
}.

Section Apply.
Context {G : Type} `{HG : SeedDB G}.
(** [json.Marshal] of a parameter map. *)
Context (Marshal : gmap string string -> result string).

(** ** Upserts *)

Definition upsertSource (spec : SourceSpec) : M G (result (Source * Action)) :=
  if bool_decide (ss_Name spec = "") || bool_decide (ss_Kind spec = "")
  then retM (Err "name and kind are required")
  else match Marshal (ss_Params spec) with
  | Err e => retM (Err (errorf "marshal params" e))
  | Ok paramsJSON =>
      r <~ First_source (ss_Name spec) ;;
      match r with
      | Ok None =>
          let s := mkSource 0 (ss_Name spec) (ss_Kind spec) (ss_Description spec) paramsJSON
                     (boolOr (ss_IsEnabled spec) true) false in
          c <~ Create_source s ;;
          retM (match c with Err e => Err e | Ok s' => Ok (s', ActionCreated) end)
      | Err e => retM (Err e)
      | Ok (Some s) =>
          let s' := mkSource (src_ID s) (src_Name s) (ss_Kind spec) (ss_Description spec) paramsJSON
                      (boolOr (ss_IsEnabled spec) (src_IsEnabled s)) (src_Deleted s) in
          e <~ Save_source s' ;;
          retM (match e with Some err => Err err | None => Ok (s', ActionUpdated) end)
      end
  end.

(** A zero [metadata.Source], as in a load whose association is not loaded. *)
Definition zero_source : Source := mkSource 0 "" "" "" "" false false.

Definition upsertLoad (spec : LoadSpec) (sourceID : Z) : M G (result (Load * Action)) :=
  if bool_decide (ls_Name spec = "") then retM (Err "name is required")
  else
    r <~ First_load (ls_Name spec) ;;
    match r with
    | Ok None =>
        let l := mkLoad 0 sourceID zero_source (ls_Name spec) (ls_ObjectName spec)
                   (ls_TargetSchema spec) (ls_TargetTable spec) (ls_Mode spec)
                   (ls_WatermarkColumn spec) (ls_WatermarkType spec) (ls_BatchSize spec)
                   (boolOr (ls_AutoCreateTable spec) true) (ls_CronExpression spec)
                   (boolOr (ls_IsEnabled spec) true) false in
        c <~ Create_load l ;;
        retM (match c with Err e => Err e | Ok l' => Ok (l', ActionCreated) end)
    | Err e => retM (Err e)
    | Ok (Some l) =>
        let l' := mkLoad (ld_ID l) sourceID (ld_Source l) (ld_Name l) (ls_ObjectName spec)
                    (ls_TargetSchema spec) (ls_TargetTable spec) (ls_Mode spec)
                    (ls_WatermarkColumn spec) (ls_WatermarkType spec) (ls_BatchSize spec)
                    (boolOr (ls_AutoCreateTable spec) (ld_AutoCreateTable l)) (ls_CronExpression spec)
                    (boolOr (ls_IsEnabled spec) (ld_IsEnabled l)) (ld_Deleted l) in
        e <~ Save_load l' ;;
        retM (match e with Some err => Err err | None => Ok (l', ActionUpdated) end)
    end.

(** ** Tags and nodes *)

Definition tag_row (loadID : Z) (t : ModbusTagSpec) : ModbusTag :=
  mkModbusTag 0 loadID (ts_CorrelationID t) (ts_TagName t) (ts_UnitID t) (ts_RegisterType t)
    (ts_Address t) (defaultQuantity t) (ts_DataType t) (stringOr (ts_ByteOrder t) "big")
    (stringOr (ts_WordOrder t) "high_first") (float64Or (ts_Scale t) float_one)
    (float64Or (ts_Offset t) float_zero) (boolOr (ts_IsEnabled t) true).

(** The loop that validates the specs and builds the rows. *)
Fixpoint tag_rows (loadID : Z) (specs : list ModbusTagSpec) : result (list ModbusTag) :=
  match specs with
  | [] => Ok []
  | t :: specs' =>
      if bool_decide (ts_TagName t = "") then Err "modbus tag requires tag_name"
      else if bool_decide (ts_RegisterType t = "")
      then Err ("modbus tag " +:+ fmt_q (ts_TagName t) +:+ " requires register_type")
      else if bool_decide (ts_DataType t = "")
      then Err ("modbus tag " +:+ fmt_q (ts_TagName t) +:+ " requires data_type")
      else match tag_rows loadID specs' with
           | Err e => Err e
           | Ok rows => Ok (tag_row loadID t :: rows)
           end
  end.

Definition replaceModbusTags (loadID : Z) (specs : list ModbusTagSpec) : M G (result Z) :=
  e <~ Delete_tags loadID ;;
  match e with
  | Some err => retM (Err err)
  | None =>
      match tag_rows loadID specs with
      | Err err => retM (Err err)
      | Ok [] => retM (Ok 0)
      | Ok rows =>
          e <~ Create_tags rows ;;
          retM (match e with Some err => Err err | None => Ok (Z.of_nat (length rows)) end)
      end
  end.

Definition node_row (loadID : Z) (n : OPCUANodeSpec) : OPCUANode :=
  mkOPCUANode 0 loadID (ns_TagName n) (ns_NodeID n) (float64Or (ns_Scale n) float_one)
    (float64Or (ns_Offset n) float_zero) (boolOr (ns_IsEnabled n) true).

Fixpoint node_rows (loadID : Z) (specs : list OPCUANodeSpec) : result (list OPCUANode) :=
  match specs with
  | [] => Ok []
  | n :: specs' =>
      if bool_decide (ns_TagName n = "") || bool_decide (ns_NodeID n = "")
      then Err "opcua node requires tag_name and node_id"
      else match node_rows loadID specs' with
           | Err e => Err e
           | Ok rows => Ok (node_row loadID n :: rows)
           end
  end.

Definition replaceOPCUANodes (loadID : Z) (specs : list OPCUANodeSpec) : M G (result Z) :=
  e <~ Delete_nodes loadID ;;
  match e with
  | Some err => retM (Err err)
  | None =>
      match node_rows loadID specs with
      | Err err => retM (Err err)
      | Ok [] => retM (Ok 0)
      | Ok rows =>
          e <~ Create_nodes rows ;;
          retM (match e with Some err => Err err | None => Ok (Z.of_nat (length rows)) end)
      end
  end.

(** ** Apply *)

(** [byLoad[t.Load] = append(byLoad[t.Load], t)] for every spec, in order;
    the error names the spec without a load. *)
Fixpoint group {T : Type} (what : string) (load tag : T -> string) (specs : list T)
    (byLoad : gmap string (list T)) : result (gmap string (list T)) :=
  match specs with
  | [] => Ok byLoad
  | t :: specs' =>
      if bool_decide (load t = "")
      then Err (what +:+ " " +:+ fmt_q (tag t) +:+ " missing load reference")
      else group what load tag specs' (<[load t := default [] (byLoad !! load t) ++ [t]]> byLoad)
  end.

(** [for loadName := range byLoad { if !declaredLoads[loadName] { ... } }] *)
Fixpoint undeclared {T : Type} (what : string) (declared : gset string)
    (it : list (string * list T)) : option error :=
  match it with
  | [] => None
  | (name, _) :: it' =>
      if bool_decide (name ∈ declared) then undeclared what declared it'
      else Some (what +:+ " reference undeclared load " +:+ fmt_q name)
  end.

Fixpoint apply_sources (specs : list SourceSpec) (srcByName : gmap string Source) (rep : Report) :
    M G (gmap string Source * Report * option error) :=
  match specs with
  | [] => retM (srcByName, rep, None)
  | spec :: specs' =>
      r <~ upsertSource spec ;;
      match r with
      | Err e => retM (srcByName, rep, Some ("source " +:+ fmt_q (ss_Name spec) +:+ ": " +:+ e))
      | Ok (s, action) =>
          apply_sources specs' (<[ss_Name spec := s]> srcByName)
            (recordSource rep action (ss_Name spec))
      end
  end.

(** The source of a load: from the file, or already in the database. *)
Definition find_source (srcByName : gmap string Source) (spec : LoadSpec) : M G (result Source) :=
  match srcByName !! ls_Source spec with
  | Some s => retM (Ok s)
  | None =>
      r <~ First_source (ls_Source spec) ;;
      retM (match r with
            | Ok None => Err ("load " +:+ fmt_q (ls_Name spec) +:+ " references unknown source "
                              +:+ fmt_q (ls_Source spec))
            | Err e => Err e
            | Ok (Some s) => Ok s
            end)
  end.

(** [if specs, ok := byLoad[name]; ok { n, err := replace(...) }] *)
Definition replace_if {T : Type} (replace : Z -> list T -> M G (result Z)) (specs : option (list T))
    (loadID : Z) : M G (result Z) :=
  match specs with None => retM (Ok 0) | Some l => replace loadID l end.

(** One iteration of the loop over the loads. *)
Definition apply_load (modbusByLoad : gmap string (list ModbusTagSpec))
    (opcuaByLoad : gmap string (list OPCUANodeSpec)) (srcByName : gmap string Source)
    (spec : LoadSpec) (rep : Report) : M G (Report * option error) :=
  let prefix := "load " +:+ fmt_q (ls_Name spec) in
  r <~ find_source srcByName spec ;;
  match r with
  | Err e => retM (rep, Some e)
  | Ok src =>
      r <~ upsertLoad spec (src_ID src) ;;
      match r with
      | Err e => retM (rep, Some (prefix +:+ ": " +:+ e))
      | Ok (l, action) =>
          let rep1 := recordLoad rep action (ls_Name spec) in
          r <~ replace_if replaceModbusTags (modbusByLoad !! ls_Name spec) (ld_ID l) ;;
          match r with
          | Err e => retM (rep1, Some (prefix +:+ " modbus tags: " +:+ e))
          | Ok n =>
              let rep2 := add_points rep1 n 0 in
              r <~ replace_if replaceOPCUANodes (opcuaByLoad !! ls_Name spec) (ld_ID l) ;;
              match r with
              | Err e => retM (rep2, Some (prefix +:+ " opcua nodes: " +:+ e))
              | Ok n => retM (add_points rep2 0 n, None)
              end
          end
      end
  end.

Fixpoint apply_loads (modbusByLoad : gmap string (list ModbusTagSpec))
    (opcuaByLoad : gmap string (list OPCUANodeSpec)) (srcByName : gmap string Source)
    (specs : list LoadSpec) (rep : Report) : M G (Report * option error) :=
  match specs with
  | [] => retM (rep, None)
  | spec :: specs' =>
      do: (rep', e) <~ apply_load modbusByLoad opcuaByLoad srcByName spec rep ;;
      match e with
      | Some err => retM (rep', Some err)
      | None => apply_loads modbusByLoad opcuaByLoad srcByName specs' rep'
      end
  end.

(** The body of the transaction. *)
Definition apply_tx (modbusByLoad : gmap string (list ModbusTagSpec))
    (opcuaByLoad : gmap string (list OPCUANodeSpec)) (f : File) : M G (Report * option error) :=
  do: (srcByName, rep, e) <~ apply_sources (f_Sources f) ∅ empty_report ;;
  match e with
  | Some err => retM (rep, Some err)
  | None => apply_loads modbusByLoad opcuaByLoad srcByName (f_Loads f) rep
  end.

Definition Apply (f : File) : M G (Report * option error) :=
  match group "modbus_tag" ts_Load ts_TagName (f_ModbusTags f) ∅ with
  | Err e => retM (empty_report, Some e)
  | Ok modbusByLoad =>
      match group "opcua_node" ns_Load ns_TagName (f_OPCUANodes f) ∅ with
      | Err e => retM (empty_report, Some e)
      | Ok opcuaByLoad =>
          let declared : gset string := list_to_set (ls_Name <$> f_Loads f) in
          match undeclared "modbus_tags" declared (map_to_list modbusByLoad),
                undeclared "opcua_nodes" declared (map_to_list opcuaByLoad) with
          | Some e, _ => retM (empty_report, Some e)
          | None, Some e => retM (empty_report, Some e)
          | None, None => Transaction _ empty_report (apply_tx modbusByLoad opcuaByLoad f)
          end
      end
  end.

End Apply.
End Seed.
