(* ===== verification/SeedProofs.v ===== *)
(** * Metadata seeding: properties

    [SeedSpec] is what [Apply] relies on from gorm and the database.  A seed
    file is applied completely or not at all, and what it leaves is determined
    by the file and the rows that were there. *)

From S2P Require Import Prelude.
From S2P Require Import GoStrings.
From S2P Require Import Contracts.
From S2P Require Import Models.
From S2P Require Import Seed.
From Stdlib Require Import ZArith Lia SpecFloat.

Module SeedProofs.
Import GoStrings Contracts Metadata Seed.

(** The tables, with live sources and loads by name and the points by load;
    the ids of points are not kept. *)
Record SView := mkSView {
  sv_sources : gmap string Source;
  sv_loads : gmap string Load;
  sv_tags : gmap Z (list ModbusTag);
  sv_nodes : gmap Z (list OPCUANode);
}.

Definition with_sources (v : SView) (m : gmap string Source) : SView :=
  mkSView m (sv_loads v) (sv_tags v) (sv_nodes v).
Definition with_loads (v : SView) (m : gmap string Load) : SView :=
  mkSView (sv_sources v) m (sv_tags v) (sv_nodes v).
Definition with_tags (v : SView) (m : gmap Z (list ModbusTag)) : SView :=
  mkSView (sv_sources v) (sv_loads v) m (sv_nodes v).
Definition with_nodes (v : SView) (m : gmap Z (list OPCUANode)) : SView :=
  mkSView (sv_sources v) (sv_loads v) (sv_tags v) m.

Definition source_id (id : Z) (s : Source) : Source :=
  mkSource id (src_Name s) (src_Kind s) (src_Description s) (src_ParamsJSON s)
    (src_IsEnabled s) (src_Deleted s).
Definition load_id (id : Z) (l : Load) : Load :=
  mkLoad id (ld_SourceID l) (ld_Source l) (ld_Name l) (ld_ObjectName l) (ld_TargetSchema l)
    (ld_TargetTable l) (ld_Mode l) (ld_WatermarkColumn l) (ld_WatermarkType l) (ld_BatchSize l)
    (ld_AutoCreateTable l) (ld_CronExpression l) (ld_IsEnabled l) (ld_Deleted l).

(** Insert rows into a table of points by load. *)
Definition insert_points {P} (load : P -> Z) (rows : list P) (m : gmap Z (list P)) : gmap Z (list P) :=
  fold_left (fun m t => <[load t := default [] (m !! load t) ++ [t]]> m) rows m.

(** What the seeding relies on: a transaction that returns no error has the
    effect of its body, one that returns an error has none of it or, when the
    body succeeded, all; [Create] gives a new id and stores the defaults. *)
Class SeedSpec (G : Type) `{SeedDB G} := {
  sview : G -> SView;
  law_tx : forall A (a : A) body g g' r e, Transaction A a body g = (g', (r, e)) ->
    (e = None -> exists g1, body g = (g1, (r, None)) /\ sview g' = sview g1)
    /\ (sview g' = sview g \/ exists g1 r1, body g = (g1, (r1, None)) /\ sview g' = sview g1);
  law_First_source : forall n g g' r, First_source n g = (g', r) ->
    sview g' = sview g /\ forall o, r = Ok o -> o = sv_sources (sview g) !! n;
  law_First_load : forall n g g' r, First_load n g = (g', r) ->
    sview g' = sview g /\ forall o, r = Ok o -> o = sv_loads (sview g) !! n;
  law_Create_source : forall s g g' s', Create_source s g = (g', Ok s') ->
    exists id, s' = Source_defaults (source_id id s)
      /\ sview g' = with_sources (sview g) (<[src_Name s := s']> (sv_sources (sview g)));
  law_Save_source : forall s g g', Save_source s g = (g', None) ->
    sview g' = with_sources (sview g) (<[src_Name s := s]> (sv_sources (sview g)));
  law_Create_load : forall l g g' l', Create_load l g = (g', Ok l') ->
    exists id, l' = Load_defaults (load_id id l)
      /\ (forall n x, sv_loads (sview g) !! n = Some x -> ld_ID x <> id)
      /\ sview g' = with_loads (sview g) (<[ld_Name l := l']> (sv_loads (sview g)));
  law_Save_load : forall l g g', Save_load l g = (g', None) ->
    sview g' = with_loads (sview g) (<[ld_Name l := l]> (sv_loads (sview g)));
  law_Delete_tags : forall id g g', Delete_tags id g = (g', None) ->
    sview g' = with_tags (sview g) (delete id (sv_tags (sview g)));
  law_Create_tags : forall rows g g', Create_tags rows g = (g', None) ->
    sview g' = with_tags (sview g)
      (insert_points mt_LoadID (map ModbusTag_defaults rows) (sv_tags (sview g)));
  law_Delete_nodes : forall id g g', Delete_nodes id g = (g', None) ->
    sview g' = with_nodes (sview g) (delete id (sv_nodes (sview g)));
  law_Create_nodes : forall rows g g', Create_nodes rows g = (g', None) ->
    sview g' = with_nodes (sview g)
      (insert_points on_LoadID (map OPCUANode_defaults rows) (sv_nodes (sview g)));
}.

(** Names are unique, and ids identify loads. *)
Definition wf_view (v : SView) : Prop :=
  (forall n s, sv_sources v !! n = Some s -> src_Name s = n)
  /\ (forall n l, sv_loads v !! n = Some l -> ld_Name l = n)
  /\ (forall n1 n2 l1 l2, sv_loads v !! n1 = Some l1 -> sv_loads v !! n2 = Some l2 ->
        ld_ID l1 = ld_ID l2 -> n1 = n2).

(** ** What a spec becomes *)

(** A spec's value, or the default when the file has none. *)
Definition filled (def s : string) : string := if bool_decide (s = "") then def else s.
Definition flag (o : option bool) (def : bool) : bool := match o with Some b => b | None => def end.

(** A source that is created is enabled whatever the file says. *)
Definition seeded_source (spec : SourceSpec) (json : string) (old : option Source) (id : Z) : Source :=
  match old with
  | None => mkSource id (ss_Name spec) (ss_Kind spec) (ss_Description spec) json true false
  | Some o => mkSource (src_ID o) (ss_Name spec) (ss_Kind spec) (ss_Description spec) json
                (flag (ss_IsEnabled spec) (src_IsEnabled o)) (src_Deleted o)
  end.

Definition seeded_load (spec : LoadSpec) (sourceID : Z) (old : option Load) (id : Z) : Load :=
  match old with
  | None =>
      mkLoad id sourceID zero_source (ls_Name spec) (ls_ObjectName spec)
        (filled "dbo" (ls_TargetSchema spec)) (ls_TargetTable spec) (ls_Mode spec)
        (ls_WatermarkColumn spec) (filled "none" (ls_WatermarkType spec))
        (if ls_BatchSize spec =? 0 then 1000 else ls_BatchSize spec) true
        (ls_CronExpression spec) true false
  | Some o =>
      mkLoad (ld_ID o) sourceID (ld_Source o) (ls_Name spec) (ls_ObjectName spec)
        (ls_TargetSchema spec) (ls_TargetTable spec) (ls_Mode spec) (ls_WatermarkColumn spec)
        (ls_WatermarkType spec) (ls_BatchSize spec)
        (flag (ls_AutoCreateTable spec) (ld_AutoCreateTable o)) (ls_CronExpression spec)
        (flag (ls_IsEnabled spec) (ld_IsEnabled o)) (ld_Deleted o)
  end.

(** The registers that a data type takes; one when it is not known. *)
Definition type_registers : list (string * Z) :=
  [("int16", 1); ("uint16", 1); ("bool", 1); ("int32", 2); ("uint32", 2); ("float32", 2);
   ("int64", 4); ("uint64", 4); ("float64", 4)].

Definition registers (dataType : string) : Z :=
  default 1 ((fun x => x.2.2) <$> list_find (fun x => x.1 = ToLower dataType) type_registers).

(** A factor: 1.0 when the file has none or gives zero. *)
Definition factor (o : option spec_float) : spec_float :=
  match o with
  | None | Some (S754_zero false) => S754_finite false 4503599627370496 (-52)
  | Some f => f
  end.

(** The row of a tag of the file, column by column.  Like every new row it is
    enabled, whatever the file says. *)
Definition seeded_tag (id : Z) (t : ModbusTagSpec) : ModbusTag := {|
  mt_ID := 0;
  mt_LoadID := id;
  mt_CorrelationID := ts_CorrelationID t;
  mt_TagName := ts_TagName t;
  mt_UnitID := if ts_UnitID t =? 0 then 1 else ts_UnitID t;
  mt_RegisterType := ts_RegisterType t;
  mt_Address := ts_Address t;
  mt_Quantity := if 0 <? ts_Quantity t then ts_Quantity t else registers (ts_DataType t);
  mt_DataType := ts_DataType t;
  mt_ByteOrder := filled "big" (ts_ByteOrder t);
  mt_WordOrder := filled "high_first" (ts_WordOrder t);
  mt_Scale := factor (ts_Scale t);
  mt_Offset := match ts_Offset t with Some f => f | None => S754_zero false end;
  mt_IsEnabled := true;
|}.

Definition seeded_node (id : Z) (n : OPCUANodeSpec) : OPCUANode := {|
  on_ID := 0;
  on_LoadID := id;
  on_TagName := ns_TagName n;
  on_NodeID := ns_NodeID n;
  on_Scale := factor (ns_Scale n);
  on_Offset := match ns_Offset n with Some f => f | None => S754_zero false end;
  on_IsEnabled := true;
|}.

Lemma filled_default def s : default_string def (stringOr s def) = filled def s.
Proof. unfold default_string, stringOr, filled. by repeat case_bool_decide. Qed.

Lemma factor_default o : default_float (S754_finite false 4503599627370496 (-52)) (float64Or o float_one) = factor o.
Proof. by destruct o as [[[]| | |]|]. Qed.

Lemma quantity_default t :
  default_int 1 (defaultQuantity t) = if 0 <? ts_Quantity t then ts_Quantity t else registers (ts_DataType t).
Proof.
  unfold default_int, defaultQuantity. destruct (0 <? ts_Quantity t) eqn:E.
  { apply Z.ltb_lt in E. by rewrite (proj2 (Z.eqb_neq _ _)) by lia. }
  unfold registers, type_registers. generalize (ToLower (ts_DataType t)). intros dt.
  destruct (decide (dt ∈ (fst <$> type_registers))) as [Hin|Hni].
  - unfold type_registers in Hin. simpl in Hin. set_unfold in Hin. naive_solver.
  - unfold type_registers in Hni. simpl in Hni. set_unfold in Hni.
    rewrite !bool_decide_false by set_solver. simpl. repeat (case_decide; [naive_solver|]). done.
Qed.

Lemma tag_row_seeded id t : ModbusTag_defaults (tag_row id t) = seeded_tag id t.
Proof.
  unfold ModbusTag_defaults, tag_row, seeded_tag. simpl.
  by rewrite !filled_default, factor_default, quantity_default.
Qed.

Lemma node_row_seeded id n : OPCUANode_defaults (node_row id n) = seeded_node id n.
Proof. unfold OPCUANode_defaults, node_row, seeded_node. simpl. by rewrite factor_default. Qed.

Definition action_of {A} (old : option A) : Action :=
  match old with Some _ => ActionUpdated | None => ActionCreated end.

Section Proofs.
Context {G : Type} `{HG : SeedDB G} `{HS : !SeedSpec G}.
Context (Marshal : gmap string string -> result string).

Local Abbreviation upsertSource := (upsertSource Marshal).
Local Abbreviation apply_sources := (apply_sources Marshal).

(** ** Sources *)

Lemma upsertSource_spec spec g g' s a :
  wf_view (sview g) -> upsertSource spec g = (g', Ok (s, a)) ->
  let old := sv_sources (sview g) !! ss_Name spec in
  (exists id json, Marshal (ss_Params spec) = Ok json /\ s = seeded_source spec json old id)
  /\ a = action_of old
  /\ sview g' = with_sources (sview g) (<[ss_Name spec := s]> (sv_sources (sview g))).
Proof.
  intros (Hn & _ & _) H. cbv zeta. unfold Seed.upsertSource in H. destruct (_ || _); [done|].
  destruct (Marshal (ss_Params spec)) as [json|] eqn:Em; [|done].
  apply bindM_inv in H as (g1 & r & Hf & H). apply law_First_source in Hf as [Hv Ho].
  destruct r as [[o|]|]; [| |done]; specialize (Ho _ eq_refl); rewrite <- Ho.
  - apply bindM_inv in H as (g2 & e & Hs & H). unfold retM in H. destruct e; simplify_eq.
    apply law_Save_source in Hs. rewrite Hv in Hs. simpl in Hs.
    assert (src_Name o = ss_Name spec) as E by (by apply Hn).
    rewrite E in *. split_and!; [|done|done]. exists 0, json. done.
  - apply bindM_inv in H as (g2 & c & Hc & H). unfold retM in H. destruct c; simplify_eq.
    apply law_Create_source in Hc as (id & -> & Hv'). rewrite Hv in Hv'. simpl in *.
    split_and!; [|done|done]. exists id, json. done.
Qed.

Lemma wf_with_source v n s :
  wf_view v -> src_Name s = n -> wf_view (with_sources v (<[n := s]> (sv_sources v))).
Proof.
  intros (H1 & H2 & H3) Hn. split_and!; [|done|done]. simpl.
  intros m x. destruct (decide (m = n)) as [->|].
  - rewrite lookup_insert_eq. by intros [= <-].
  - rewrite lookup_insert_ne by done. apply H1.
Qed.

Lemma seeded_source_name spec json old id : src_Name (seeded_source spec json old id) = ss_Name spec.
Proof. by destruct old. Qed.

(** After the sources: what is in the table, in the map of the file's sources
    and in the report. *)
Definition sources_done (specs : list SourceSpec) (v v' : SView) : Prop :=
  v' = with_sources v (sv_sources v')
  /\ (forall n, n ∉ ss_Name <$> specs -> sv_sources v' !! n = sv_sources v !! n)
  /\ (forall spec, spec ∈ specs ->
        exists id json, Marshal (ss_Params spec) = Ok json
          /\ sv_sources v' !! ss_Name spec
             = Some (seeded_source spec json (sv_sources v !! ss_Name spec) id)).

Definition names_with {A} (m : gmap string A) (present : bool) (names : list string) : list string :=
  filter (fun n => bool_decide (is_Some (m !! n)) = present) names.

Lemma names_with_insert {A} (m : gmap string A) n x present names :
  n ∉ names -> names_with (<[n := x]> m) present names = names_with m present names.
Proof.
  intros Hn. unfold names_with. induction names as [|k names IH]; [done|].
  apply not_elem_of_cons in Hn as [Hk Hn].
  rewrite !filter_cons. rewrite lookup_insert_ne by done. by rewrite IH.
Qed.

Lemma names_with_cons {A} (m : gmap string A) present n names :
  names_with m present (n :: names)
  = (if Bool.eqb (match m !! n with Some _ => true | None => false end) present then [n] else [])
    ++ names_with m present names.
Proof.
  unfold names_with. rewrite filter_cons.
  destruct (m !! n), present; simpl; by repeat case_decide.
Qed.

Lemma apply_sources_spec specs : forall srcs rep g g' srcs' rep',
  wf_view (sview g) -> NoDup (ss_Name <$> specs) ->
  (forall n s, srcs !! n = Some s -> sv_sources (sview g) !! n = Some s) ->
  (forall n, n ∈ ss_Name <$> specs -> srcs !! n = None) ->
  apply_sources specs srcs rep g = (g', (srcs', rep', None)) ->
  wf_view (sview g') /\ sources_done specs (sview g) (sview g')
  /\ (forall n s, srcs' !! n = Some s -> sv_sources (sview g') !! n = Some s)
  /\ rep' = mkReport
       (SourcesCreated rep ++ names_with (sv_sources (sview g)) false (ss_Name <$> specs))
       (SourcesUpdated rep ++ names_with (sv_sources (sview g)) true (ss_Name <$> specs))
       (LoadsCreated rep) (LoadsUpdated rep) (ModbusTags rep) (OPCUANodes rep).
Proof.
  induction specs as [|spec specs IH]; simpl; intros srcs rep g g' srcs' rep' Hwf Hnd Hsrc Hnew H.
  { unfold retM in H. simplify_eq. split_and!; [done| |done|].
    - split_and!; [by destruct (sview g')|done|]. intros spec Hs. by apply elem_of_nil in Hs.
    - unfold names_with. rewrite !filter_nil, !app_nil_r. by destruct rep'. }
  apply NoDup_cons in Hnd as [Hni Hnd]. apply bindM_inv in H as (g1 & r & Hu & H).
  destruct r as [[s a]|]; [|done]. apply upsertSource_spec in Hu as ((id & json & Hm & Hs) & Ha & Hv); [|done].
  assert (Hsn : src_Name s = ss_Name spec) by (subst s; apply seeded_source_name).
  assert (Hwf1 : wf_view (sview g1)) by (rewrite Hv; by apply wf_with_source).
  apply IH in H as (Hwf' & (Hd1 & Hd2 & Hd3) & Hsrc' & Hrep); [|done|done| |].
  - split_and!; [done| |done|].
    + split_and!.
      * rewrite Hd1 at 1. by rewrite Hv.
      * intros n [Hne Hn]%not_elem_of_cons. rewrite Hd2, Hv by done. simpl. by rewrite lookup_insert_ne.
      * intros sp [->|Hin]%elem_of_cons.
        -- exists id, json. split; [done|]. rewrite Hd2, Hv, <- Hs by done. simpl. by rewrite lookup_insert_eq.
        -- destruct (Hd3 sp Hin) as (id' & json' & Hm' & Hl). exists id', json'. split; [done|].
           rewrite Hl, Hv. simpl. rewrite lookup_insert_ne; [done|].
           intros E. apply Hni. rewrite E. by apply list_elem_of_fmap_2.
    + rewrite Hrep, Hv. cbn [sv_sources with_sources]. rewrite !names_with_insert by done.
      rewrite !names_with_cons, Ha.
      destruct (sv_sources (sview g) !! ss_Name spec) as [o|]; simpl; by rewrite <- ?app_assoc.
  - intros n x. rewrite Hv. simpl. destruct (decide (n = ss_Name spec)) as [->|].
    + by rewrite !lookup_insert_eq.
    + rewrite !lookup_insert_ne by done. apply Hsrc.
  - intros n Hn. rewrite lookup_insert_ne; [|by intros <-]. apply Hnew. by right.
Qed.

(** ** Points *)

Definition points_of {P} (m : gmap Z (list P)) (id : Z) : list P := default [] (m !! id).

Lemma insert_points_same {P} (load : P -> Z) id rows : forall m,
  Forall (fun t => load t = id) rows ->
  forall i, points_of (insert_points load rows m) i
            = if decide (i = id) then points_of m id ++ rows else points_of m i.
Proof.
  induction rows as [|t rows IH]; intros m Hf i.
  { cbn. rewrite app_nil_r. by case_decide; subst. }
  inversion_clear Hf. subst id. unfold insert_points. cbn [fold_left].
  change (points_of (insert_points load rows (<[load t := default [] (m !! load t) ++ [t]]> m)) i
          = if decide (i = load t) then points_of m (load t) ++ t :: rows else points_of m i).
  rewrite IH by done. unfold points_of. case_decide as Hi.
  - rewrite lookup_insert_eq. simpl. by rewrite <- app_assoc.
  - by rewrite lookup_insert_ne by congruence.
Qed.

Lemma points_of_delete {P} (m : gmap Z (list P)) id i :
  points_of (delete id m) i = if decide (i = id) then [] else points_of m i.
Proof.
  unfold points_of. case_decide; [subst; by rewrite lookup_delete_eq|by rewrite lookup_delete_ne].
Qed.

Lemma tag_rows_ok id specs rows : tag_rows id specs = Ok rows -> rows = map (tag_row id) specs.
Proof.
  revert rows. induction specs as [|t specs IH]; simpl; intros rows H; [by simplify_eq|].
  repeat case_bool_decide; try done. destruct (tag_rows id specs); simplify_eq. by rewrite (IH _ eq_refl).
Qed.

Lemma node_rows_ok id specs rows : node_rows id specs = Ok rows -> rows = map (node_row id) specs.
Proof.
  revert rows. induction specs as [|t specs IH]; simpl; intros rows H; [by simplify_eq|].
  destruct (_ || _); try done. destruct (node_rows id specs); simplify_eq. by rewrite (IH _ eq_refl).
Qed.

(** The points of a load after the file's specs for it, if any. *)
Definition seeded_points {S P} (row : Z -> S -> P) (specs : option (list S)) (id : Z)
    (old : list P) : list P :=
  match specs with Some l => map (row id) l | None => old end.

Definition replaced {S P} (row : Z -> S -> P) (specs : option (list S)) (id : Z)
    (m m' : gmap Z (list P)) : Prop :=
  forall i, points_of m' i
            = if decide (i = id) then seeded_points row specs id (points_of m id) else points_of m i.

Lemma replaced_points {S P} (row : Z -> S -> P) (load : P -> Z) specs id (m : gmap Z (list P)) :
  (forall t, load (row id t) = id) ->
  replaced row (Some specs) id m (insert_points load (map (row id) specs) (delete id m)).
Proof.
  intros Hrow i. rewrite insert_points_same with (id := id).
  - rewrite !points_of_delete. case_decide; [|done]. by rewrite decide_True.
  - apply Forall_fmap, Forall_true. done.
Qed.

Lemma replaced_none {S P} (row : Z -> S -> P) id (m : gmap Z (list P)) : replaced row None id m m.
Proof. intros i. simpl. by case_decide; subst. Qed.

Lemma replace_tags_spec specs id g g' n :
  replace_if replaceModbusTags specs id g = (g', Ok n) ->
  exists m', sview g' = with_tags (sview g) m' /\ replaced seeded_tag specs id (sv_tags (sview g)) m'
    /\ n = Z.of_nat (length (default [] specs)).
Proof.
  destruct specs as [specs|]; simpl; intros H.
  2: { unfold retM in H. simplify_eq. exists (sv_tags (sview g')).
       split_and!; [by destruct (sview g')|apply replaced_none|done]. }
  unfold replaceModbusTags in H. apply bindM_inv in H as (g1 & e & Hd & H).
  destruct e; [done|]. apply law_Delete_tags in Hd.
  destruct (tag_rows id specs) as [rows|] eqn:Er; [|done]. apply tag_rows_ok in Er.
  pose proof (replaced_points seeded_tag mt_LoadID specs id (sv_tags (sview g)) (fun _ => eq_refl)) as Hrep.
  eexists. split_and!; [|exact Hrep|].
  - destruct rows as [|r rows]; [unfold retM in H; simplify_eq; by destruct specs|].
    apply bindM_inv in H as (g2 & e & Hc & H). unfold retM in H. destruct e; simplify_eq.
    apply law_Create_tags in Hc. rewrite Hc, Hd, Er, map_map.
    by rewrite (map_ext _ _ (tag_row_seeded id)).
  - assert (Hn : n = Z.of_nat (length rows)).
    { destruct rows as [|r rows]; [unfold retM in H; by simplify_eq|].
      apply bindM_inv in H as (g2 & e & Hc & H). unfold retM in H. by destruct e; simplify_eq. }
    by rewrite Hn, Er, length_map.
Qed.

Lemma replace_nodes_spec specs id g g' n :
  replace_if replaceOPCUANodes specs id g = (g', Ok n) ->
  exists m', sview g' = with_nodes (sview g) m' /\ replaced seeded_node specs id (sv_nodes (sview g)) m'
    /\ n = Z.of_nat (length (default [] specs)).
Proof.
  destruct specs as [specs|]; simpl; intros H.
  2: { unfold retM in H. simplify_eq. exists (sv_nodes (sview g')).
       split_and!; [by destruct (sview g')|apply replaced_none|done]. }
  unfold replaceOPCUANodes in H. apply bindM_inv in H as (g1 & e & Hd & H).
  destruct e; [done|]. apply law_Delete_nodes in Hd.
  destruct (node_rows id specs) as [rows|] eqn:Er; [|done]. apply node_rows_ok in Er.
  pose proof (replaced_points seeded_node on_LoadID specs id (sv_nodes (sview g)) (fun _ => eq_refl)) as Hrep.
  eexists. split_and!; [|exact Hrep|].
  - destruct rows as [|r rows]; [unfold retM in H; simplify_eq; by destruct specs|].
    apply bindM_inv in H as (g2 & e & Hc & H). unfold retM in H. destruct e; simplify_eq.
    apply law_Create_nodes in Hc. rewrite Hc, Hd, Er, map_map.
    by rewrite (map_ext _ _ (node_row_seeded id)).
  - assert (Hn : n = Z.of_nat (length rows)).
    { destruct rows as [|r rows]; [unfold retM in H; by simplify_eq|].
      apply bindM_inv in H as (g2 & e & Hc & H). unfold retM in H. by destruct e; simplify_eq. }
    by rewrite Hn, Er, length_map.
Qed.

(** ** Loads *)

Lemma upsertLoad_spec spec sid g g' l a :
  wf_view (sview g) -> upsertLoad spec sid g = (g', Ok (l, a)) ->
  let old := sv_loads (sview g) !! ls_Name spec in
  (exists id, l = seeded_load spec sid old id
     /\ (old = None -> forall n x, sv_loads (sview g) !! n = Some x -> ld_ID x <> id))
  /\ a = action_of old
  /\ sview g' = with_loads (sview g) (<[ls_Name spec := l]> (sv_loads (sview g))).
Proof.
  intros (_ & Hn & _) H. cbv zeta. unfold upsertLoad in H. destruct (bool_decide _); [done|].
  apply bindM_inv in H as (g1 & r & Hf & H). apply law_First_load in Hf as [Hv Ho].
  destruct r as [[o|]|]; [| |done]; specialize (Ho _ eq_refl); rewrite <- Ho.
  - apply bindM_inv in H as (g2 & e & Hs & H). unfold retM in H. destruct e; simplify_eq.
    apply law_Save_load in Hs. rewrite Hv in Hs. simpl in Hs.
    assert (ld_Name o = ls_Name spec) as E by (by apply Hn).
    rewrite E in *. split_and!; [|done|done]. by exists 0.
  - apply bindM_inv in H as (g2 & c & Hc & H). unfold retM in H. destruct c; simplify_eq.
    apply law_Create_load in Hc as (id & -> & Hfresh & Hv'). rewrite Hv in *. simpl in *.
    split_and!; [|done|done]. exists id. done.
Qed.

Lemma wf_with_load v spec sid id l :
  wf_view v -> l = seeded_load spec sid (sv_loads v !! ls_Name spec) id ->
  (sv_loads v !! ls_Name spec = None -> forall n x, sv_loads v !! n = Some x -> ld_ID x <> id) ->
  wf_view (with_loads v (<[ls_Name spec := l]> (sv_loads v))).
Proof.
  intros (H1 & H2 & H3) Hl Hfresh.
  assert (Hid : forall n x, sv_loads v !! n = Some x -> ld_ID x = ld_ID l -> n = ls_Name spec).
  { intros n x Hx He. destruct (sv_loads v !! ls_Name spec) as [o|] eqn:Eo; subst l; simpl in He.
    - by eapply H3.
    - by eapply Hfresh in Hx. }
  split_and!; [done| |]; cbn [sv_loads with_loads].
  - intros n x. destruct (decide (n = ls_Name spec)) as [->|].
    + rewrite lookup_insert_eq. intros [= <-]. subst l. by destruct (sv_loads v !! _).
    + rewrite lookup_insert_ne by done. apply H2.
  - intros n1 n2 l1 l2.
    destruct (decide (n1 = ls_Name spec)) as [->|Hn1], (decide (n2 = ls_Name spec)) as [->|Hn2];
      rewrite ?lookup_insert_eq, ?lookup_insert_ne by done.
    + done.
    + intros [= <-] Hx He. symmetry. by eapply Hid.
    + intros Hx [= <-] He. by eapply Hid.
    + apply H3.
Qed.

(** One load: its row, its points and the report. *)
Definition load_step (mb : gmap string (list ModbusTagSpec)) (ob : gmap string (list OPCUANodeSpec))
    (spec : LoadSpec) (l : Load) (v v' : SView) : Prop :=
  sv_sources v' = sv_sources v
  /\ sv_loads v' = <[ls_Name spec := l]> (sv_loads v)
  /\ replaced seeded_tag (mb !! ls_Name spec) (ld_ID l) (sv_tags v) (sv_tags v')
  /\ replaced seeded_node (ob !! ls_Name spec) (ld_ID l) (sv_nodes v) (sv_nodes v').

Definition count_for {S} (m : gmap string (list S)) (n : string) : Z :=
  Z.of_nat (length (default [] (m !! n))).

Lemma find_source_spec srcs spec g g' s :
  (forall n x, srcs !! n = Some x -> sv_sources (sview g) !! n = Some x) ->
  find_source srcs spec g = (g', Ok s) ->
  sview g' = sview g /\ sv_sources (sview g) !! ls_Source spec = Some s.
Proof.
  intros Hs H. unfold find_source in H. destruct (srcs !! ls_Source spec) as [x|] eqn:Ex.
  - unfold retM in H. simplify_eq. auto.
  - apply bindM_inv in H as (g1 & r & Hf & H). apply law_First_source in Hf as [Hv Ho].
    unfold retM in H. destruct r as [[x|]|]; simplify_eq. by rewrite <- (Ho _ eq_refl).
Qed.

Lemma apply_load_spec mb ob srcs spec rep g g' rep' :
  wf_view (sview g) ->
  (forall n x, srcs !! n = Some x -> sv_sources (sview g) !! n = Some x) ->
  apply_load mb ob srcs spec rep g = (g', (rep', None)) ->
  exists s l id,
    sv_sources (sview g) !! ls_Source spec = Some s
    /\ l = seeded_load spec (src_ID s) (sv_loads (sview g) !! ls_Name spec) id
    /\ wf_view (sview g') /\ load_step mb ob spec l (sview g) (sview g')
    /\ rep' = add_points (recordLoad rep (action_of (sv_loads (sview g) !! ls_Name spec)) (ls_Name spec))
                (count_for mb (ls_Name spec)) (count_for ob (ls_Name spec)).
Proof.
  intros Hwf Hsrc H. unfold apply_load in H. cbv zeta in H.
  apply bindM_inv in H as (g1 & r & Hf & H). destruct r as [s|]; [|done].
  apply find_source_spec in Hf as [Hv1 Hs]; [|done].
  apply bindM_inv in H as (g2 & r & Hu & H). destruct r as [[l a]|]; [|done].
  apply upsertLoad_spec in Hu as ((id & Hl & Hfresh) & Ha & Hv2); [|by rewrite Hv1]. rewrite Hv1 in *.
  apply bindM_inv in H as (g3 & r & Ht & H). destruct r as [n|]; [|done].
  apply replace_tags_spec in Ht as (m1 & Hv3 & Hm1 & Hn).
  apply bindM_inv in H as (g4 & r & Hnd & H). unfold retM in H. destruct r as [k|]; simplify_eq.
  apply replace_nodes_spec in Hnd as (m2 & Hv4 & Hm2 & Hk).
  rewrite Hv3 in *. rewrite Hv2 in *. simpl in *.
  exists s, (seeded_load spec (src_ID s) (sv_loads (sview g) !! ls_Name spec) id), id.
  split_and!; [done|done| |rewrite Hv4; by split_and!|].
  - rewrite Hv4. eapply (wf_with_load (sview g)) in Hfresh; [|done|done]. exact Hfresh.
  - rewrite Hk. unfold add_points, count_for. simpl. f_equal; lia.
Qed.

(** Adding up over the loads of the file. *)
Definition sum_for {S} (m : gmap string (list S)) (names : list string) : Z :=
  foldr (fun n acc => count_for m n + acc) 0 names.

Definition loads_done (mb : gmap string (list ModbusTagSpec)) (ob : gmap string (list OPCUANodeSpec))
    (specs : list LoadSpec) (v v' : SView) : Prop :=
  sv_sources v' = sv_sources v
  /\ (forall n, n ∉ ls_Name <$> specs -> sv_loads v' !! n = sv_loads v !! n)
  /\ (forall spec, spec ∈ specs ->
        exists s l id,
          sv_sources v' !! ls_Source spec = Some s
          /\ l = seeded_load spec (src_ID s) (sv_loads v !! ls_Name spec) id
          /\ sv_loads v' !! ls_Name spec = Some l
          /\ points_of (sv_tags v') (ld_ID l)
             = seeded_points seeded_tag (mb !! ls_Name spec) (ld_ID l) (points_of (sv_tags v) (ld_ID l))
          /\ points_of (sv_nodes v') (ld_ID l)
             = seeded_points seeded_node (ob !! ls_Name spec) (ld_ID l) (points_of (sv_nodes v) (ld_ID l)))
  /\ (forall i, (forall n l, n ∈ ls_Name <$> specs -> sv_loads v' !! n = Some l -> ld_ID l <> i) ->
        points_of (sv_tags v') i = points_of (sv_tags v) i
        /\ points_of (sv_nodes v') i = points_of (sv_nodes v) i).

(** The points of a load that is not the one of the step. *)
Lemma load_step_other mb ob spec l v v' i :
  load_step mb ob spec l v v' -> i <> ld_ID l ->
  points_of (sv_tags v') i = points_of (sv_tags v) i
  /\ points_of (sv_nodes v') i = points_of (sv_nodes v) i.
Proof. intros (_ & _ & Ht & Hn) Hi. by rewrite (Ht i), (Hn i), !decide_False. Qed.

Lemma load_step_own mb ob spec l v v' :
  load_step mb ob spec l v v' ->
  points_of (sv_tags v') (ld_ID l)
    = seeded_points seeded_tag (mb !! ls_Name spec) (ld_ID l) (points_of (sv_tags v) (ld_ID l))
  /\ points_of (sv_nodes v') (ld_ID l)
    = seeded_points seeded_node (ob !! ls_Name spec) (ld_ID l) (points_of (sv_nodes v) (ld_ID l)).
Proof. intros (_ & _ & Ht & Hn). by rewrite (Ht (ld_ID l)), (Hn (ld_ID l)), !decide_True. Qed.

Lemma loads_done_cons mb ob spec specs s l id v v1 v' :
  ls_Name spec ∉ ls_Name <$> specs -> wf_view v' ->
  sv_sources v !! ls_Source spec = Some s ->
  l = seeded_load spec (src_ID s) (sv_loads v !! ls_Name spec) id ->
  load_step mb ob spec l v v1 -> loads_done mb ob specs v1 v' ->
  loads_done mb ob (spec :: specs) v v'.
Proof.
  intros Hni (_ & _ & Hinj) Hs Hl Hstep (Hd1 & Hd2 & Hd3 & Hd4).
  pose proof Hstep as (Hs1 & Hl1 & _ & _).
  assert (Hown : sv_loads v' !! ls_Name spec = Some l) by (rewrite Hd2, Hl1 by done; by rewrite lookup_insert_eq).
  assert (Hne : forall sp, sp ∈ specs -> ls_Name sp <> ls_Name spec).
  { intros sp Hin E. apply Hni. rewrite <- E. by apply list_elem_of_fmap_2. }
  split_and!.
  - congruence.
  - intros n [Hn1 Hn2]%not_elem_of_cons. rewrite Hd2, Hl1 by done. by rewrite lookup_insert_ne.
  - intros sp [->|Hin]%elem_of_cons.
    + exists s, l, id. rewrite Hd1, Hs1. split_and!; [done..| |].
      all: destruct (load_step_own _ _ _ _ _ _ Hstep) as [Ht Hn];
        destruct (Hd4 (ld_ID l)) as [Ht' Hn']; [|congruence].
      all: intros n x Hin Hx He; apply Hni; by rewrite (Hinj _ _ _ _ Hown Hx).
    + destruct (Hd3 sp Hin) as (s' & l' & id' & Hs' & Hl' & Hx & Ht & Hn).
      assert (Hid : ld_ID l' <> ld_ID l) by (intros He; by eapply Hne, Hinj).
      destruct (load_step_other _ _ _ _ _ _ _ Hstep Hid) as [Et En]. rewrite Et in Ht. rewrite En in Hn.
      exists s', l', id'. split_and!; [done| |done|done|done].
      rewrite Hl', Hl1, lookup_insert_ne; [done|]. by apply not_eq_sym, Hne.
  - intros i Hi. assert (Hid : i <> ld_ID l).
    { apply not_eq_sym. apply (Hi (ls_Name spec)); [by left|done]. }
    destruct (load_step_other _ _ _ _ _ _ _ Hstep Hid) as [<- <-]. apply Hd4.
    intros n x Hn. apply Hi. by right.
Qed.

Lemma apply_loads_spec mb ob srcs specs : forall rep g g' rep',
  wf_view (sview g) -> NoDup (ls_Name <$> specs) ->
  (forall n x, srcs !! n = Some x -> sv_sources (sview g) !! n = Some x) ->
  apply_loads mb ob srcs specs rep g = (g', (rep', None)) ->
  wf_view (sview g') /\ loads_done mb ob specs (sview g) (sview g')
  /\ rep' = mkReport (SourcesCreated rep) (SourcesUpdated rep)
       (LoadsCreated rep ++ names_with (sv_loads (sview g)) false (ls_Name <$> specs))
       (LoadsUpdated rep ++ names_with (sv_loads (sview g)) true (ls_Name <$> specs))
       (ModbusTags rep + sum_for mb (ls_Name <$> specs))
       (OPCUANodes rep + sum_for ob (ls_Name <$> specs)).
Proof.
  induction specs as [|spec specs IH]; simpl; intros rep g g' rep' Hwf Hnd Hsrc H.
  { unfold retM in H. simplify_eq. split_and!; [done| |].
    - split_and!; [done|done| |done]. intros sp Hs. by apply elem_of_nil in Hs.
    - unfold names_with, sum_for. simpl. rewrite !filter_nil, !app_nil_r, !Z.add_0_r. by destruct rep'. }
  apply NoDup_cons in Hnd as [Hni Hnd]. apply bindM_inv in H as (g1 & [rep1 e] & Hl & H).
  destruct e; [done|].
  apply apply_load_spec in Hl as (s & l & id & Hs & Hl & Hwf1 & Hstep & Hrep1); [|done|done].
  pose proof Hstep as (Hs1 & Hl1 & _ & _).
  apply IH in H as (Hwf' & Hd & Hrep); [|done|done|by rewrite Hs1].
  split_and!; [done|by eapply loads_done_cons|].
  rewrite Hrep, Hrep1, Hl1, !names_with_insert, !names_with_cons by done.
  unfold sum_for. simpl. destruct (sv_loads (sview g) !! ls_Name spec); simpl;
    rewrite <- ?app_assoc; simpl; f_equal;
    symmetry; apply Z.add_assoc.
Qed.

(** ** Grouping *)

Definition nonempty {A} (l : list A) : option (list A) := match l with [] => None | _ => Some l end.

(** The specs of the file for a load. *)
Definition specs_for {T} (load : T -> string) (specs : list T) (n : string) : list T :=
  filter (fun t => load t = n) specs.

Lemma nonempty_app_r {A} (l : list A) x : nonempty (l ++ [x]) = Some (l ++ [x]).
Proof. by destruct l. Qed.

Lemma group_spec {T} what (load tag : T -> string) specs : forall m m' pre,
  (forall n, m !! n = nonempty (specs_for load pre n)) ->
  group what load tag specs m = Ok m' ->
  forall n, m' !! n = nonempty (specs_for load (pre ++ specs) n).
Proof.
  induction specs as [|t specs IH]; simpl; intros m m' pre Hm H n.
  { simplify_eq. by rewrite app_nil_r. }
  destruct (bool_decide (load t = "")); [done|]. rewrite cons_middle, app_assoc.
  eapply IH; [|exact H]. intros k. unfold specs_for in *.
  rewrite filter_app, filter_cons, filter_nil. destruct (decide (load t = k)) as [<-|Hk].
  - rewrite lookup_insert_eq, Hm, nonempty_app_r. by destruct (filter _ pre).
  - by rewrite lookup_insert_ne, app_nil_r.
Qed.

Lemma undeclared_spec {T} what declared (it : list (string * list T)) :
  undeclared what declared it = None -> Forall (fun x => x.1 ∈ declared) it.
Proof.
  induction it as [|[n l] it IH]; [constructor|]. simpl. case_bool_decide; [|done].
  intros Hu. by constructor; [|apply IH].
Qed.

(** Every spec belongs to exactly one declared load. *)
Lemma sum_specs {T} (load : T -> string) (specs : list T) names :
  NoDup names -> Forall (fun t => load t ∈ names) specs ->
  foldr (fun n acc => Z.of_nat (length (specs_for load specs n)) + acc) 0 names
  = Z.of_nat (length specs).
Proof.
  intros Hnd. unfold specs_for. induction specs as [|t specs IH]; intros Hf.
  { clear. induction names as [|n names IH]; [done|exact IH]. }
  inversion_clear Hf as [|? ? Ht Hf']. specialize (IH Hf'). simpl length at 2.
  rewrite Nat2Z.inj_succ, <- IH. clear IH Hf'.
  induction names as [|n names IHn]; [by apply elem_of_nil in Ht|].
  apply NoDup_cons in Hnd as [Hni Hnd]. simpl. rewrite filter_cons.
  apply elem_of_cons in Ht as [Ht|Ht].
  - rewrite decide_True by done. simpl.
    assert (E : foldr (fun k acc => Z.of_nat (length (filter (fun t0 => load t0 = k) (t :: specs))) + acc) 0 names
                = foldr (fun k acc => Z.of_nat (length (filter (fun t0 => load t0 = k) specs)) + acc) 0 names).
    { clear -Hni Ht. induction names as [|k names IH]; [done|]. apply not_elem_of_cons in Hni as [Hk Hni].
      simpl. rewrite IH by done. rewrite filter_cons, decide_False by congruence. done. }
    lia.
  - rewrite decide_False by (intros E; apply Hni; by rewrite <- E). rewrite IHn by done. lia.
Qed.

Lemma sum_for_specs {T} (load : T -> string) specs (m : gmap string (list T)) names :
  (forall n, m !! n = nonempty (specs_for load specs n)) ->
  Forall (fun x => x.1 ∈ names) (map_to_list m) -> NoDup names ->
  sum_for m names = Z.of_nat (length specs).
Proof.
  intros Hm Hd Hnd. rewrite <- (sum_specs load specs names Hnd).
  - unfold sum_for, count_for. clear -Hm. induction names as [|n names IH]; [done|]. simpl. rewrite IH, Hm.
    by destruct (specs_for load specs n).
  - apply Forall_forall. intros t Ht. rewrite Forall_forall in Hd.
    assert (Hs : is_Some (m !! load t)).
    { rewrite Hm. assert (Hin : t ∈ specs_for load specs (load t)) by (by apply list_elem_of_filter).
      destruct (specs_for _ _ _); [by apply elem_of_nil in Hin|by eexists]. }
    destruct Hs as [l Hl]. apply (Hd (load t, l)). by apply elem_of_map_to_list.
Qed.

(** ** Apply *)

(** What a file leaves in the tables [v'] that were [v]. *)
Record applied (f : File) (v v' : SView) : Prop := {
  ap_sources_kept : forall n, n ∉ ss_Name <$> f_Sources f -> sv_sources v' !! n = sv_sources v !! n;
  ap_sources : forall spec, spec ∈ f_Sources f ->
    exists id json, Marshal (ss_Params spec) = Ok json
      /\ sv_sources v' !! ss_Name spec
         = Some (seeded_source spec json (sv_sources v !! ss_Name spec) id);
  ap_loads_kept : forall n, n ∉ ls_Name <$> f_Loads f -> sv_loads v' !! n = sv_loads v !! n;
  ap_loads : forall spec, spec ∈ f_Loads f ->
    exists s l id,
      sv_sources v' !! ls_Source spec = Some s
      /\ l = seeded_load spec (src_ID s) (sv_loads v !! ls_Name spec) id
      /\ sv_loads v' !! ls_Name spec = Some l
      /\ points_of (sv_tags v') (ld_ID l)
         = seeded_points seeded_tag (nonempty (specs_for ts_Load (f_ModbusTags f) (ls_Name spec)))
             (ld_ID l) (points_of (sv_tags v) (ld_ID l))
      /\ points_of (sv_nodes v') (ld_ID l)
         = seeded_points seeded_node (nonempty (specs_for ns_Load (f_OPCUANodes f) (ls_Name spec)))
             (ld_ID l) (points_of (sv_nodes v) (ld_ID l));
  ap_points_kept : forall i,
    (forall n l, n ∈ ls_Name <$> f_Loads f -> sv_loads v' !! n = Some l -> ld_ID l <> i) ->
    points_of (sv_tags v') i = points_of (sv_tags v) i
    /\ points_of (sv_nodes v') i = points_of (sv_nodes v) i;
}.

Definition full_report (f : File) (v : SView) : Report :=
  mkReport (names_with (sv_sources v) false (ss_Name <$> f_Sources f))
    (names_with (sv_sources v) true (ss_Name <$> f_Sources f))
    (names_with (sv_loads v) false (ls_Name <$> f_Loads f))
    (names_with (sv_loads v) true (ls_Name <$> f_Loads f))
    (Z.of_nat (length (f_ModbusTags f))) (Z.of_nat (length (f_OPCUANodes f))).

Definition unique_names (f : File) : Prop :=
  NoDup (ss_Name <$> f_Sources f) /\ NoDup (ls_Name <$> f_Loads f).

Lemma apply_tx_spec mb ob f g g' rep :
  wf_view (sview g) -> unique_names f ->
  (forall n, mb !! n = nonempty (specs_for ts_Load (f_ModbusTags f) n)) ->
  (forall n, ob !! n = nonempty (specs_for ns_Load (f_OPCUANodes f) n)) ->
  apply_tx Marshal mb ob f g = (g', (rep, None)) ->
  applied f (sview g) (sview g')
  /\ rep = mkReport (SourcesCreated (full_report f (sview g))) (SourcesUpdated (full_report f (sview g)))
       (LoadsCreated (full_report f (sview g))) (LoadsUpdated (full_report f (sview g)))
       (sum_for mb (ls_Name <$> f_Loads f)) (sum_for ob (ls_Name <$> f_Loads f)).
Proof.
  intros Hwf [Hns Hnl] Hmb Hob H. unfold apply_tx in H.
  apply bindM_inv in H as (g1 & [[srcs rep1] e] & Hs & H). destruct e; [done|].
  apply apply_sources_spec in Hs as (Hwf1 & (Hd1 & Hd2 & Hd3) & Hsrc & Hrep1); [|done|done| |done].
  2: { intros n s. by rewrite lookup_empty. }
  apply apply_loads_spec in H as (Hwf' & (Hl1 & Hl2 & Hl3 & Hl4) & Hrep); [|done|done|done].
  rewrite Hd1 in Hl2, Hl3, Hl4, Hrep. simpl in Hl2, Hl3, Hl4, Hrep. split.
  - split.
    + intros n Hn. rewrite Hl1. by apply Hd2.
    + intros spec Hin. rewrite Hl1. by apply Hd3.
    + done.
    + intros spec Hin. rewrite <- Hmb, <- Hob. by apply Hl3.
    + done.
  - subst rep1. simpl in Hrep. by rewrite Hrep.
Qed.

(** C21. A seed file is applied completely or not at all.  For a file whose
    source and load names are unique: when [Apply] returns no error, every source
    and load of the file is in the database with the columns of its spec (an
    existing row keeps its id and, where the file leaves it open, its flags; a
    new row has the column defaults), each load refers to the source it names,
    the points of every load with points in the file are exactly those of the
    file in order, each column of a point the one of its spec or, where the file
    has none, the default, and each point enabled, everything the file does not name is as before, and the report
    lists exactly what was created and updated and counts all points.  When it
    returns an error, the database is as before, or, if only the commit was
    reported as failed, has all of this; never a part of it. *)
Theorem seed_all_or_nothing f g g' rep e
    (Hwf : wf_view (sview g)) (Hnames : unique_names f)
    (Hrun : Apply Marshal f g = (g', (rep, e))) :
  (e = None -> applied f (sview g) (sview g') /\ rep = full_report f (sview g))
  /\ (e <> None -> sview g' = sview g \/ applied f (sview g) (sview g')).
Proof.
  unfold Apply in Hrun.
  destruct (group _ ts_Load _ _ _) as [mb|] eqn:Emb; [|unfold retM in Hrun; simplify_eq; naive_solver].
  destruct (group _ ns_Load _ _ _) as [ob|] eqn:Eob; [|unfold retM in Hrun; simplify_eq; naive_solver].
  destruct (undeclared _ _ (map_to_list mb)) eqn:Um; [unfold retM in Hrun; simplify_eq; naive_solver|].
  destruct (undeclared _ _ (map_to_list ob)) eqn:Uo; [unfold retM in Hrun; simplify_eq; naive_solver|].
  pose proof (group_spec _ _ _ _ ∅ mb [] (fun n => lookup_empty n) Emb) as Hmb.
  pose proof (group_spec _ _ _ _ ∅ ob [] (fun n => lookup_empty n) Eob) as Hob.
  apply law_tx in Hrun as [Hok Hor]. split.
  - intros He. destruct (Hok He) as (g1 & Hb & Hv). rewrite Hv.
    apply apply_tx_spec in Hb as [Ha Hr]; [|done..]. split; [done|]. rewrite Hr. unfold full_report. simpl.
    apply undeclared_spec in Um, Uo. setoid_rewrite elem_of_list_to_set in Um.
    setoid_rewrite elem_of_list_to_set in Uo.
    rewrite (sum_for_specs ts_Load (f_ModbusTags f)), (sum_for_specs ns_Load (f_OPCUANodes f));
      by destruct Hnames.
  - intros _. destruct Hor as [?|(g1 & r1 & Hb & Hv)]; [by left|right]. rewrite Hv.
    by apply apply_tx_spec in Hb as [Ha _].
Qed.

End Proofs.
End SeedProofs.
