(* ===== verification/SeedInstances.v ===== *)
(** * Seeding at concrete inputs

    A metadata store in memory that meets [SeedProofs.SeedSpec], the theorem
    applied to it, and what the column defaults do to disabled rows. *)

From S2P Require Import Prelude.
From S2P Require Import GoStrings.
From S2P Require Import Contracts.
From S2P Require Import Models.
From S2P Require Import Seed.
From S2P Require Import SeedProofs.
From Stdlib Require Import ZArith Lia SpecFloat.

Module SeedInstances.
Import GoStrings Contracts Metadata Seed SeedProofs.

#[local] Obligation Tactic := idtac.

Definition load_ids (v : SView) : gset Z := list_to_set ((fun kv => ld_ID kv.2) <$> map_to_list (sv_loads v)).

(** An id that no load has. *)
Definition new_id (v : SView) : Z := fresh (load_ids v).

Lemma new_id_fresh v n x : sv_loads v !! n = Some x -> ld_ID x <> new_id v.
Proof.
  intros Hx He. apply (is_fresh (load_ids v)). fold (new_id v). rewrite <- He.
  unfold load_ids. apply elem_of_list_to_set, list_elem_of_fmap. exists (n, x).
  split; [done|]. by apply elem_of_map_to_list.
Qed.

#[export] Instance mem_seed : SeedDB SView := {|
  Transaction := fun A a body v =>
    let '(v1, (r, e)) := body v in match e with None => (v1, (r, None)) | Some err => (v, (r, Some err)) end;
  First_source := fun n v => (v, Ok (sv_sources v !! n));
  Create_source := fun s v =>
    let s' := Source_defaults (source_id (Z.of_nat (size (sv_sources v)) + 1) s) in
    (with_sources v (<[src_Name s := s']> (sv_sources v)), Ok s');
  Save_source := fun s v => (with_sources v (<[src_Name s := s]> (sv_sources v)), None);
  First_load := fun n v => (v, Ok (sv_loads v !! n));
  Create_load := fun l v =>
    let l' := Load_defaults (load_id (new_id v) l) in
    (with_loads v (<[ld_Name l := l']> (sv_loads v)), Ok l');
  Save_load := fun l v => (with_loads v (<[ld_Name l := l]> (sv_loads v)), None);
  Delete_tags := fun id v => (with_tags v (delete id (sv_tags v)), None);
  Create_tags := fun rows v =>
    (with_tags v (insert_points mt_LoadID (map ModbusTag_defaults rows) (sv_tags v)), None);
  Delete_nodes := fun id v => (with_nodes v (delete id (sv_nodes v)), None);
  Create_nodes := fun rows v =>
    (with_nodes v (insert_points on_LoadID (map OPCUANode_defaults rows) (sv_nodes v)), None);
|}.

#[export] Program Instance mem_seed_spec : SeedSpec SView := {| sview := fun v => v |}.
Next Obligation.
  intros A a body g g' r e H. simpl in H. destruct (body g) as [v1 [r1 [err|]]]; simplify_eq.
  - split; [done|by left].
  - split; [intros _; by exists g'|]. right. by exists g', r.
Qed.
Next Obligation. intros n g g' r [= <- <-]. split; [done|]. by intros o [= <-]. Qed.
Next Obligation. intros n g g' r [= <- <-]. split; [done|]. by intros o [= <-]. Qed.
Next Obligation. intros s g g' s' [= <- <-]. by eexists. Qed.
Next Obligation. by intros s g g' [= <-]. Qed.
Next Obligation.
  intros l g g' l' [= <- <-]. exists (new_id g). split_and!; [done| |done].
  intros n x. apply new_id_fresh.
Qed.
Next Obligation. by intros l g g' [= <-]. Qed.
Next Obligation. by intros id g g' [= <-]. Qed.
Next Obligation. by intros rows g g' [= <-]. Qed.
Next Obligation. by intros id g g' [= <-]. Qed.
Next Obligation. by intros rows g g' [= <-]. Qed.

(** ** A file *)

Definition marshal (_ : gmap string string) : result string := Ok "{}".

Definition ex_source (enabled : option bool) : SourceSpec :=
  mkSourceSpec "plc" "modbus" "line 1" enabled ∅.

Definition ex_load : LoadSpec :=
  mkLoadSpec "tags" "plc" "* * * * *" "append" "" "" "" "" "tags" 0 None None.

Definition ex_tag (enabled : option bool) (scale : option spec_float) : ModbusTagSpec :=
  mkModbusTagSpec "tags" "temp" "" 1 "holding" 10 0 "int32" "" "" scale None enabled.

Definition ex_file (enabled : option bool) : File :=
  mkFile [ex_source enabled] [ex_load] [ex_tag enabled None] [].

Definition empty_view : SView := mkSView ∅ ∅ ∅ ∅.

Lemma empty_view_wf : wf_view empty_view.
Proof. split_and!; simpl; [intros n s|intros n l|intros n1 n2 l1 l2]; by rewrite lookup_empty. Qed.

Lemma ex_file_names enabled : unique_names (ex_file enabled).
Proof. split; apply NoDup_singleton. Qed.

Lemma seed_all_or_nothing_witness :
  exists v, Apply marshal (ex_file None) empty_view
              = (v, (mkReport ["plc"] [] ["tags"] [] 1 0, None))
    /\ applied marshal (ex_file None) empty_view v.
Proof.
  destruct (Apply marshal (ex_file None) empty_view) as [v [rep e]] eqn:E.
  destruct (seed_all_or_nothing (HS := mem_seed_spec) marshal (ex_file None) empty_view v rep e
              empty_view_wf (ex_file_names None) E) as [H _].
  assert (He : e = None) by (vm_compute in E; by injection E as _ _ <-).
  destruct (H He) as [Ha Hr]. exists v. subst rep e. split; [reflexivity|exact Ha].
Defined.

(** Applied twice, a file with [is_enabled: false]: the first run creates the
    source enabled, the second disables it; the tag is enabled for ever, since
    it is deleted and created each time. *)
Definition enabled_after (v : SView) : option bool * list bool :=
  (src_IsEnabled <$> sv_sources v !! "plc", mt_IsEnabled <$> concat ((map_to_list (sv_tags v)).*2)).

Theorem disabled_rows_created_enabled :
  let once := (Apply marshal (ex_file (Some false)) empty_view).1 in
  let twice := (Apply marshal (ex_file (Some false)) once).1 in
  enabled_after once = (Some true, [true]) /\ enabled_after twice = (Some false, [true]).
Proof. vm_compute. done. Qed.

(** A failing file reports what was rolled back. *)
Theorem report_after_rollback :
  let f := mkFile [ex_source None] [mkLoadSpec "" "plc" "" "" "" "" "" "" "" 0 None None] [] [] in
  let '(v, (rep, e)) := Apply marshal f empty_view in
  v = empty_view /\ e <> None /\ SourcesCreated rep = ["plc"].
Proof. vm_compute. done. Qed.

End SeedInstances.
