(* ===== verification/Health.v ===== *)
(** * The health server (internal/health/server.go)

    The answers of /healthz, /readyz and /status; the HTTP server is not
    modelled.  A check is a computation that returns its error. *)

From S2P Require Import Prelude.
From S2P Require Import Contracts.
From S2P Require Import Runstate.
From Stdlib Require Import ZArith Lia.

Module Health.
Import Contracts.

Definition StatusOK : Z := 200.
Definition StatusServiceUnavailable : Z := 503.

Section Server.
Context {W : Type}.

Record ReadyCheck := mkReadyCheck {
  rc_Name : string;
  rc_Check : option (M W (option error));
}.

(** [srv_metaDB] is [metaDB.DB()] and the ping of the handle it returns;
    [None] is a nil database. *)
Record Server := mkServer {
  srv_state : Runstate.Registry;
  srv_metaDB : option (M W (option error) * M W (option error));
  srv_sinkDB : option (M W (option error));
  srv_version : string;
  srv_extras : list ReadyCheck;
}.

Definition New (state : Runstate.Registry) (metaDB : option (M W (option error) * M W (option error)))
    (sinkDB : option (M W (option error))) (version : string) (extras : list ReadyCheck) : Server :=
  mkServer state metaDB sinkDB (if bool_decide (version = "") then "dev" else version) extras.

(** The body and the status code while the checks run. *)
Definition Answer : Type := gmap string string * Z.

(** [result[name] = err.Error(); result["status"] = "degraded"; overall = 503] *)
Definition fail_check (name : string) (err : error) (a : Answer) : Answer :=
  (<["status" := "degraded"]> (<[name := err]> a.1), StatusServiceUnavailable).

Definition check_metadata (s : Server) (a : Answer) : M W Answer :=
  match srv_metaDB s with
  | None => retM a
  | Some (db, ping) =>
      e <~ db ;;
      match e with
      | Some err => retM (fail_check "metadata" err a)
      | None =>
          e2 <~ ping ;;
          retM (match e2 with Some err => fail_check "metadata" err a | None => a end)
      end
  end.

Definition check_sink (s : Server) (a : Answer) : M W Answer :=
  match srv_sinkDB s with
  | None => retM a
  | Some ping =>
      e <~ ping ;;
      retM (match e with Some err => fail_check "sink" err a | None => a end)
  end.

Definition extra_name (c : ReadyCheck) : string :=
  if bool_decide (rc_Name c = "") then "extra" else rc_Name c.

Fixpoint check_extras (extras : list ReadyCheck) (a : Answer) : M W Answer :=
  match extras with
  | [] => retM a
  | extra :: rest =>
      let name := extra_name extra in
      match rc_Check extra with
      | None => check_extras rest (<[name := "ok"]> a.1, a.2)
      | Some check =>
          e <~ check ;;
          check_extras rest
            (match e with
             | Some err => fail_check name err a
             | None => (<[name := "ok"]> a.1, a.2)
             end)
      end
  end.

Definition handleReadyz (s : Server) : M W Answer :=
  let result : gmap string string := {["status" := "ok"; "metadata" := "ok"; "sink" := "ok"]} in
  a1 <~ check_metadata s (result, StatusOK) ;;
  a2 <~ check_sink s a1 ;;
  check_extras (srv_extras s) a2.

(** [int64(time.Since(started).Seconds())]: the whole seconds, exact while the
    float64 of [Seconds] does not round up, which holds up to 2^23 seconds at
    least. *)
Definition uptime_seconds (s : Server) (now : Time) : Z :=
  Z.quot (now - Runstate.StartedAt (srv_state s)) 1000000000.

Definition handleHealthz (s : Server) (now : Time) : Z * (string * Z) :=
  (StatusOK, ("ok", uptime_seconds s now)).

(** The body of /status: version, start, uptime, summary and loads; [iter] is
    the iteration order of the registry's map. *)
Definition handleStatus (s : Server) (iter : list (Z * Runstate.LoadState)) (now : Time) :
    Z * (string * Time * Z * Runstate.Summary * list Runstate.LoadState) :=
  let loads := Runstate.Snapshot iter in
  (StatusOK, (srv_version s, Runstate.StartedAt (srv_state s), uptime_seconds s now,
              Runstate.status_summary loads, loads)).

(** ** The checks as a list

    The specification of /readyz: all checks in order, each with its name. *)
Definition then_check (a b : M W (option error)) : M W (option error) :=
  e <~ a ;; match e with Some err => retM (Some err) | None => b end.

Definition pass : M W (option error) := retM None.

Definition meta_check (s : Server) : M W (option error) :=
  match srv_metaDB s with Some (db, ping) => then_check db ping | None => pass end.

Definition sink_check (s : Server) : M W (option error) :=
  match srv_sinkDB s with Some ping => ping | None => pass end.

Definition checks (s : Server) : list (string * M W (option error)) :=
  ("metadata", meta_check s) :: ("sink", sink_check s)
  :: ((fun c => (extra_name c, default pass (rc_Check c))) <$> srv_extras s).

Fixpoint run_checks (cs : list (string * M W (option error))) : M W (list (string * option error)) :=
  match cs with
  | [] => retM []
  | (name, c) :: rest =>
      e <~ c ;;
      os <~ run_checks rest ;;
      retM ((name, e) :: os)
  end.

(** The answer that the outcomes call for. *)
Definition text (e : option error) : string := default "ok" e.

Definition all_passed (os : list (string * option error)) : bool :=
  forallb (fun o => match o.2 with None => true | Some _ => false end) os.

(** ** Lemmas *)

(** One outcome on an answer. *)
Definition record (o : string * option error) (a : Answer) : Answer :=
  match o.2 with Some err => fail_check o.1 err a | None => (<[o.1 := "ok"]> a.1, a.2) end.

Lemma check_extras_run extras : forall a w,
  check_extras extras a w
  = let '(w', os) := run_checks ((fun c => (extra_name c, default pass (rc_Check c))) <$> extras) w in
    (w', fold_left (fun a o => record o a) os a).
Proof.
  induction extras as [|x extras IH]; intros a w; [done|]. rewrite fmap_cons. cbn [check_extras run_checks].
  destruct (rc_Check x) as [c|]; unfold default, id.
  - unfold bindM, retM. destruct (c w) as [w1 e]. rewrite IH.
    destruct (run_checks _ w1) as [w2 os]. by destruct e.
  - rewrite IH. unfold pass, bindM, retM. by destruct (run_checks _ w) as [w2 os].
Qed.

(** A passed check leaves its own "ok". *)
Lemma record_ok_id name (a : Answer) : a.1 !! name = Some "ok" -> record (name, None) a = a.
Proof. intros H. unfold record. simpl. rewrite insert_id by done. by destruct a. Qed.

Definition start_answer : Answer := ({["status" := "ok"; "metadata" := "ok"; "sink" := "ok"]}, StatusOK).

Lemma check_metadata_run s a w : a.1 !! "metadata" = Some "ok" ->
  check_metadata s a w = let '(w1, e) := meta_check s w in (w1, record ("metadata", e) a).
Proof.
  intros Ha. unfold check_metadata, meta_check, then_check, pass, bindM, retM.
  destruct (srv_metaDB s) as [[db ping]|]; [|by rewrite record_ok_id].
  destruct (db w) as [w1 [e|]]; [done|].
  destruct (ping w1) as [w2 [e|]]; [done|by rewrite record_ok_id].
Qed.

Lemma check_sink_run s a w : a.1 !! "sink" = Some "ok" ->
  check_sink s a w = let '(w1, e) := sink_check s w in (w1, record ("sink", e) a).
Proof.
  intros Ha. unfold check_sink, sink_check, pass, bindM, retM.
  destruct (srv_sinkDB s) as [ping|]; [|by rewrite record_ok_id].
  destruct (ping w) as [w1 [e|]]; [done|by rewrite record_ok_id].
Qed.

Lemma handleReadyz_run s w :
  handleReadyz s w
  = let '(w', os) := run_checks (checks s) w in
    (w', fold_left (fun a o => record o a) os start_answer).
Proof.
  unfold handleReadyz, checks. fold start_answer. cbn [run_checks]. unfold bindM, retM.
  rewrite check_metadata_run by done. destruct (meta_check s w) as [w1 e1].
  rewrite check_sink_run by (by destruct e1). destruct (sink_check s w1) as [w2 e2].
  rewrite check_extras_run. by destruct (run_checks _ w2) as [w3 os].
Qed.

Lemma fold_record_code os : forall a,
  (fold_left (fun a o => record o a) os a).2
  = if all_passed os then a.2 else StatusServiceUnavailable.
Proof.
  induction os as [|[n [e|]] os IH]; intros a; [done| |]; simpl; rewrite IH; simpl; [|done].
  by destruct (all_passed os).
Qed.

Lemma fold_record_status os : forall a, "status" ∉ os.*1 ->
  (fold_left (fun a o => record o a) os a).1 !! "status"
  = if all_passed os then a.1 !! "status" else Some "degraded".
Proof.
  induction os as [|[n [e|]] os IH]; intros a Hn; [done| |]; simpl in *;
    apply not_elem_of_cons in Hn as [Hne Hn]; rewrite IH by done; simpl.
  - rewrite lookup_insert_eq. by destruct (all_passed os).
  - by rewrite lookup_insert_ne by done.
Qed.

Lemma fold_record_other os : forall a n, n ∉ os.*1 -> n <> "status" ->
  (fold_left (fun a o => record o a) os a).1 !! n = a.1 !! n.
Proof.
  induction os as [|[k [e|]] os IH]; intros a n Hn Hs; [done| |]; simpl in *;
    apply not_elem_of_cons in Hn as [Hne Hn]; rewrite IH by done; simpl;
    by rewrite !lookup_insert_ne by done.
Qed.

Lemma fold_record_name os : forall a n e,
  NoDup os.*1 -> "status" ∉ os.*1 -> (n, e) ∈ os ->
  (fold_left (fun a o => record o a) os a).1 !! n = Some (text e).
Proof.
  induction os as [|[k ek] os IH]; intros a n e Hnd Hs Hin; [by apply elem_of_nil in Hin|].
  simpl in *. apply NoDup_cons in Hnd as [Hk Hnd]. apply not_elem_of_cons in Hs as [Hks Hs].
  apply elem_of_cons in Hin as [[= -> ->]|Hin]; [|by apply IH].
  rewrite fold_record_other by done. unfold record. simpl. destruct ek; simpl.
  - rewrite lookup_insert_ne by done. by rewrite lookup_insert_eq.
  - by rewrite lookup_insert_eq.
Qed.

Lemma run_checks_names cs : forall w, (run_checks cs w).2.*1 = cs.*1.
Proof.
  induction cs as [|[n c] cs IH]; intros w; [done|]. cbn [run_checks]. unfold bindM, retM.
  destruct (c w) as [w1 e]. specialize (IH w1). destruct (run_checks cs w1) as [w2 os].
  cbn [snd] in *. rewrite !fmap_cons. by f_equal.
Qed.

(** C29. /readyz tells the truth.  For any configuration, all configured checks
    are run in order, a failing one does not hide the others, and the code is 200
    exactly when every check passed and 503 otherwise.  When no extra check is
    named "status", "status" is "ok" or "degraded" accordingly; when moreover the
    names of the checks are distinct, every check is listed with "ok" or its
    error. *)
Theorem readyz_truthful s w :
  let '(w', os) := run_checks (checks s) w in
  let names := (checks s).*1 in
  os.*1 = names
  /\ exists body,
    handleReadyz s w = (w', (body, if all_passed os then StatusOK else StatusServiceUnavailable))
    /\ ("status" ∉ names ->
        body !! "status" = Some (if all_passed os then "ok" else "degraded")
        /\ (NoDup names -> forall n e, (n, e) ∈ os -> body !! n = Some (text e))).
Proof.
  pose proof (run_checks_names (checks s) w) as Hn.
  rewrite handleReadyz_run. destruct (run_checks (checks s) w) as [w' os]. cbn [snd] in Hn.
  rewrite <- Hn. pose proof (fold_record_code os start_answer) as Hc.
  pose proof (fold_record_status os start_answer) as Hst.
  pose proof (fold_record_name os start_answer) as Hnm.
  destruct (fold_left _ os start_answer) as [body code]. simpl in *. subst code.
  split; [done|]. exists body. split; [done|]. intros Hs. split; [|by intros Hnd n e; apply Hnm].
  rewrite Hst by done. by destruct (all_passed os).
Qed.
End Server.
Arguments ReadyCheck : clear implicits.
Arguments Server : clear implicits.

(** ** Witness *)

Definition ex_server (extras : list (ReadyCheck unit)) : Server unit :=
  mkServer (Runstate.New 0) (Some (retM None, retM (Some "db is down"))) (Some (retM None)) "1.0" extras.

Lemma readyz_truthful_witness :
  exists body,
    handleReadyz (ex_server [mkReadyCheck "sources" (Some (retM None))]) tt = (tt, (body, 503))
    /\ body !! "status" = Some "degraded"
    /\ body !! "metadata" = Some "db is down" /\ body !! "sources" = Some "ok".
Proof.
  destruct (readyz_truthful (ex_server [mkReadyCheck "sources" (Some (retM None))]) tt)
    as (_ & body & Hr & Hb).
  destruct Hb as [Hst Hn]; [apply (bool_decide_unpack _); vm_compute; exact I|].
  specialize (Hn ltac:(apply (bool_decide_unpack _); vm_compute; exact I)).
  exists body. split_and!; [exact Hr|exact Hst|apply (Hn _ (Some "db is down")); by left|].
  apply (Hn _ None). by do 2 right; left.
Defined.

(** Also with two checks of one name, of which the later one passes, the code is
    503. *)
Example duplicate_name :
  (handleReadyz (ex_server [mkReadyCheck "a" (Some (retM (Some "x"))); mkReadyCheck "a" (Some (retM None))]) tt).2.2
  = 503.
Proof. vm_compute. reflexivity. Qed.

(** An extra check that is named "status" overwrites the summary: the code is
    503 and the status "ok". *)
Theorem extra_hides_status :
  let '(_, (body, code)) := handleReadyz (ex_server [mkReadyCheck "status" (Some (retM None))]) tt in
  code = 503 /\ body !! "status" = Some "ok".
Proof. vm_compute. done. Qed.

End Health.
