(* ===== verification/HealthServer.v ===== *)
(** * The HTTP side of the health server (internal/health/server.go)

    [Start], [Stop], the routes and [writeJSON] around the handlers of Health.
    Listening, serving and shutting down are calls of the operating system and
    net/http, parameters here; so is the handler of promhttp.  The encoding of
    a body into JSON text is not modelled: a body is the value encoded. *)

From S2P Require Import Prelude.
From S2P Require Import Contracts.
From S2P Require Import Runstate.
From S2P Require Import Health.
From Stdlib Require Import ZArith Lia.

Module HealthServer.
Import Contracts Health.

(** ** Responses *)

(** The maps that the handlers hand to [writeJSON]. *)
Inductive Body :=
  | HealthzBody (status : string) (uptime_seconds : Z)
  | ReadyzBody (result : gmap string string)
  | StatusBody (version go_version : string) (started_at : Time) (uptime_seconds : Z)
      (summary : Runstate.Summary) (loads : list Runstate.LoadState)
  | Text (s : string).

Record Response := mkResponse {
  resp_code : Z;
  resp_header : gmap string string;
  resp_body : Body;
}.

Definition writeJSON (status : Z) (body : Body) : Response :=
  mkResponse status {[ "Content-Type" := "application/json" ]} body.

Inductive Handler := Healthz | Readyz | Status | Metrics.

(** The patterns that [Start] registers; none ends in a slash, so each matches
    its path only. *)
Definition mux : list (string * Handler) :=
  [("/healthz", Healthz); ("/readyz", Readyz); ("/status", Status); ("/metrics", Metrics)].

Definition route (path : string) : option Handler :=
  (fun iph => iph.2.2) <$> list_find (fun ph => ph.1 = path) mux.

Section Http.
Context {W : Type}.

Class Net := {
  (** [net.Listen("tcp", addr)] *)
  Listen : string -> M W (option error);
  (** [go srv.Serve(ln)] on the listener of the address *)
  Serve : string -> M W unit;
  (** [srv.Shutdown(ctx)] *)
  Shutdown : M W (option error);
  (** [promhttp.Handler()] *)
  promhttp : M W Response;
  (** [time.Now()] *)
  now : M W Time;
  (** [runtime.Version()] *)
  runtime_Version : string;
}.

Context `{HN : Net}.
(** The order in which the registry's map yields its entries. *)
Context (iter : Runstate.Registry -> list (Z * Runstate.LoadState)).

(** ** The handlers behind their routes *)

Definition serve_healthz (s : Server W) : M W Response :=
  t <~ now ;;
  let '(code, (status, up)) := handleHealthz s t in
  retM (writeJSON code (HealthzBody status up)).

Definition serve_readyz (s : Server W) : M W Response :=
  do: (result, overall) <~ handleReadyz s ;;
  retM (writeJSON overall (ReadyzBody result)).

Definition serve_status (s : Server W) : M W Response :=
  t <~ now ;;
  let '(code, (version, started, up, summary, loads)) := handleStatus s (iter (srv_state s)) t in
  retM (writeJSON code (StatusBody version runtime_Version started up summary loads)).

(** A request, dispatched by the mux; net/http answers 404 itself. *)
Definition ServeHTTP (s : Server W) (path : string) : M W Response :=
  match route path with
  | Some Healthz => serve_healthz s
  | Some Readyz => serve_readyz s
  | Some Status => serve_status s
  | Some Metrics => promhttp
  | None => retM (mkResponse 404 {[ "Content-Type" := "text/plain; charset=utf-8" ]}
                    (Text "404 page not found"))
  end.

(** ** Start and Stop *)

(** [s.srv]: [None] before [Start]. *)
Definition Srv : Type := option string.

(** [s.srv] is assigned before the listener is there. *)
Definition Start (addr : string) (srv : Srv) : M W (Srv * option error) :=
  e <~ Listen addr ;;
  match e with
  | Some err => retM (Some addr, Some err)
  | None => Serve addr ~;; retM (Some addr, None)
  end.

Definition Stop (srv : Srv) : M W (option error) :=
  match srv with
  | None => retM None
  | Some _ => Shutdown
  end.

(** [Start] reports exactly the errors of listening, and serves exactly when
    there is none; either way a [Stop] after it shuts the server down, and one
    before it does nothing. *)
Lemma start_stop addr srv w :
  let '(w', (srv', e)) := Start addr srv w in
  e = (Listen addr w).2
  /\ w' = (match (Listen addr w).2 with
           | Some _ => (Listen addr w).1
           | None => (Serve addr (Listen addr w).1).1
           end)
  /\ Stop srv' w' = Shutdown w' /\ Stop None w = (w, None).
Proof.
  unfold Start, bindM, retM. destruct (Listen addr w) as [w1 [err|]]; [by split_and!|].
  simpl. destruct (Serve addr w1) as [w2 []]. by split_and!.
Qed.

(** Every answer of the loader's own handlers is JSON; /healthz and /status
    never look at a dependency and answer 200 whatever state it is in. *)
Lemma endpoints_answer s path w :
  let r := (ServeHTTP s path w).2 in
  match route path with
  | Some Healthz | Some Status =>
      resp_code r = StatusOK /\ resp_header r !! "Content-Type" = Some "application/json"
      /\ (ServeHTTP s path w).1 = (now w).1
  | Some Readyz =>
      resp_code r ∈ [StatusOK; StatusServiceUnavailable]
      /\ resp_header r !! "Content-Type" = Some "application/json"
  | Some Metrics => r = (promhttp w).2
  | None => resp_code r = 404
  end.
Proof.
  unfold ServeHTTP. destruct (route path) as [[]|]; [..|done|done].
  - unfold serve_healthz, bindM, retM. by destruct (now w).
  - unfold serve_readyz, bindM, retM. rewrite handleReadyz_run.
    destruct (run_checks (checks s) w) as [w' os]. pose proof (fold_record_code os start_answer) as Hc.
    destruct (fold_left _ os start_answer) as [body code]. simpl in *. rewrite Hc.
    split; [destruct (all_passed os); set_solver|done].
  - unfold serve_status, bindM, retM. by destruct (now w).
Qed.
End Http.
End HealthServer.
