(* ===== verification/Housekeeping.v ===== *)
(** * Housekeeping (internal/housekeeping/housekeeper.go)

    A sweep prunes log entries and run rows by age through the repository;
    concurrent sweeps exclude each other by a flag under a mutex. *)

From S2P Require Import Prelude.
From S2P Require Import Contracts.
From S2P Require Import Models.
From S2P Require Import Repository.
From Stdlib Require Import ZArith Lia.

Module Housekeeping.
Import Contracts Metadata Repository.

Record Config := mkConfig {
  CronExpression : string;
  LogRetentionDays : Z;
  LoadRunRetentionDays : Z;
  BatchSize : Z;
  BatchPause : Duration;
}.

(** The configuration that [New] keeps. *)
Definition New (cfg : Config) : Config :=
  mkConfig (CronExpression cfg) (LogRetentionDays cfg) (LoadRunRetentionDays cfg)
    (if BatchSize cfg <=? 0 then 5000 else BatchSize cfg) (BatchPause cfg).

(** [Start]: the sweep is registered with cron, which runs only when the
    expression was accepted. *)
Definition Start {C : Type} (AddFunc : string -> M C (result Z)) (cron_Start : M C unit)
    (cfg : Config) : M C (option error) :=
  r <~ AddFunc (CronExpression cfg) ;;
  match r with
  | Err e => retM (Some e)
  | Ok _ => cron_Start ~;; retM None
  end.

Definition day : Duration := 24 * 3600 * 1000000000.

(** [t.AddDate(0, 0, -days)] of a UTC time: days have 24 hours there. *)
Definition days_before (t : Time) (days : Z) : Time := t - days * day.

Section Sweep.
Context {G : Type} `{HG : Gorm G}.

(** A pruning that is skipped, or its cutoff and outcome. *)
Definition Outcome : Type := option (Time * (Z * option error)).

(** [if days > 0 { cutoff := ...; prune(ctx, cutoff, ...) }]; the outcome is
    only logged. *)
Definition prune_if (days : Z)
    (prune : Time -> M G (option (Z * option error))) : M G (option Outcome) :=
  if 0 <? days then
    t <~ now ;;
    let cutoff := days_before t days in
    r <~ prune cutoff ;;
    retM (match r with None => None | Some o => Some (Some (cutoff, o)) end)
  else retM (Some None).

(** The work of [execute] between the two critical sections; [None] when the
    fuel of a pruning loop is used up. *)
Definition sweep (fuel : nat) (cfg : Config) : M G (option (Outcome * Outcome)) :=
  r1 <~ prune_if (LogRetentionDays cfg)
          (fun cutoff => PruneLogEntries fuel cutoff (BatchSize cfg) (BatchPause cfg)) ;;
  match r1 with
  | None => retM None
  | Some o1 =>
      r2 <~ prune_if (LoadRunRetentionDays cfg)
              (fun cutoff => PruneLoadRuns fuel cutoff (BatchSize cfg) (BatchPause cfg)) ;;
      retM (match r2 with None => None | Some o2 => Some (o1, o2) end)
  end.

End Sweep.

(** ** Concurrent calls of [execute]

    [active] are the calls that are sweeping. *)
Record HKState := mkHK { hk_running : bool; active : list nat }.

(** The first critical section: whether the call sweeps. *)
Definition execute_enter (running : bool) : bool * bool :=
  if running then (running, false) else (true, true).

(** The deferred critical section. *)
Definition execute_exit : bool := false.

Inductive hk_step : HKState -> HKState -> Prop :=
  | hk_skip s :
      execute_enter (hk_running s) = (hk_running s, false) -> hk_step s s
  | hk_enter s (call : nat) running :
      execute_enter (hk_running s) = (running, true) ->
      hk_step s (mkHK running (call :: active s))
  | hk_exit s l1 call l2 :
      active s = l1 ++ call :: l2 -> hk_step s (mkHK execute_exit (l1 ++ l2)).

Inductive hk_reachable : HKState -> Prop :=
  | hk_init : hk_reachable (mkHK false [])
  | hk_next s s' : hk_reachable s -> hk_step s s' -> hk_reachable s'.

End Housekeeping.
