(* ===== verification/HousekeepingProofs.v ===== *)
(** * Housekeeping: properties

    Sweeps keep what is within the retention, remove the rest, and never run
    at the same time. *)

From S2P Require Import Prelude.
From S2P Require Import GoStrings.
From S2P Require Import Contracts.
From S2P Require Import Models.
From S2P Require Import Repository.
From S2P Require Import RepositoryProofs.
From S2P Require Import RepositoryInstances.
From S2P Require Import Housekeeping.
From Stdlib Require Import ZArith Lia.

Module HousekeepingProofs.
Import Contracts Metadata Repository RepositoryProofs Housekeeping.

Section Sweep.
Context {G : Type} `{HG : Gorm G} `{HS : !GormSpec G}.

(** ** One pruning *)

(** The nanoseconds of a day. *)
Definition ns_per_day : Z := 86400000000000.

(** A pruning of [tab] with the outcome [o]: skipped when the retention is not
    positive, and otherwise with a cutoff that many days before the time that
    the clock shows. *)
Definition outcome_ok {A X} (tab : View -> gmap Z A) (frame : View -> X) (old : Time -> A -> Prop)
    `{forall t x, Decision (old t x)} (days : Z) (g g' : G) (o : Outcome) : Prop :=
  match o with
  | None => days <= 0 /\ gview g' = gview g
  | Some (cutoff, (n, e)) =>
      0 < days /\ cutoff = (now g).2 - days * ns_per_day
      /\ pruned tab frame (old cutoff) 0 g g' n e
  end.

Lemma prune_if_spec {A X} (tab : View -> gmap Z A) (frame : View -> X) (old : Time -> A -> Prop)
    `{forall t x, Decision (old t x)} days (prune : Time -> M G (option (Z * option error))) g :
  (forall cutoff g1, gview g1 = gview g -> exists g' n e,
     prune cutoff g1 = (g', Some (n, e)) /\ pruned tab frame (old cutoff) 0 g1 g' n e) ->
  exists g' o, prune_if days prune g = (g', Some o) /\ outcome_ok tab frame old days g g' o.
Proof.
  intros Hp. unfold prune_if. destruct (Z.ltb_spec 0 days) as [Hd|Hd].
  - unfold bindM at 1. destruct (now g) as [g1 t] eqn:Etick. pose proof (now_view _ _ _ Etick) as Et.
    destruct (Hp (days_before t days) g1 Et) as (g' & n & e & Hr & Hpr).
    unfold bindM. rewrite Hr. exists g', (Some (days_before t days, (n, e))).
    split; [done|]. split_and!; [done|by rewrite Etick|].
    unfold pruned, only_pruned, left_over in *. by rewrite Et in Hpr.
  - exists g, None. by split_and!.
Qed.

Lemma count_le_size {A} (P : A -> Prop) `{forall x, Decision (P x)} (m : gmap Z A) :
  count_of P m <= Z.of_nat (size m).
Proof.
  unfold count_of. pose proof (map_subseteq_size _ _ (map_filter_subseteq (fun kv => P kv.2) m)). lia.
Qed.

Lemma runs_frame_logs (v v' : View) : runs_frame v' = runs_frame v -> v_logs v' = v_logs v /\ v_wms v' = v_wms v.
Proof. unfold runs_frame. by intros [= -> ->]. Qed.
Lemma logs_frame_runs (v v' : View) : logs_frame v' = logs_frame v -> v_runs v' = v_runs v /\ v_wms v' = v_wms v.
Proof. unfold logs_frame. by intros [= -> ->]. Qed.

Lemma outcome_frame {A X} (tab : View -> gmap Z A) (frame : View -> X) (old : Time -> A -> Prop)
    `{forall t x, Decision (old t x)} days g g' o :
  outcome_ok tab frame old days g g' o -> frame (gview g') = frame (gview g).
Proof. destruct o as [[cutoff [n e]]|]; [by intros (_ & _ & (? & _) & _)|]. by intros [_ ->]. Qed.

(** ** What a sweep does to a table *)

(** [m'] are the rows of [m] after a pruning by age at the time [t]: nothing is
    added, rows that are not old [days] days before [t] stay, and when it was
    done without error they are all that is left; with no retention nothing
    changes. *)
Definition retained {A} (old : Time -> A -> Prop) (t : Time) (days : Z) (o : Outcome)
    (m m' : gmap Z A) : Prop :=
  match o with
  | None => days <= 0 /\ m' = m
  | Some (_, (_, e)) =>
      let cutoff := t - days * ns_per_day in
      0 < days /\ m' ⊆ m
      /\ (forall id x, m !! id = Some x -> ~ old cutoff x -> m' !! id = Some x)
      /\ (e = None -> map_Forall (fun _ x => ~ old cutoff x) m')
  end.

Lemma count_zero {A} (P : A -> Prop) `{forall x, Decision (P x)} (m : gmap Z A) :
  count_of P m = 0 -> map_Forall (fun _ x => ~ P x) m.
Proof.
  unfold count_of. intros H0 i x Hx Hp.
  assert (E : filter (fun kv => P kv.2) m = ∅) by (apply map_size_empty_inv; lia).
  assert (Hin : filter (fun kv => P kv.2) m !! i = Some x) by (by apply map_lookup_filter_Some).
  by rewrite E, lookup_empty in Hin.
Qed.

Lemma outcome_retained {A X} (tab : View -> gmap Z A) (frame : View -> X) (old : Time -> A -> Prop)
    `{forall t x, Decision (old t x)} days g g' o :
  outcome_ok tab frame old days g g' o -> retained old (now g).2 days o (tab (gview g)) (tab (gview g')).
Proof.
  destruct o as [[cutoff [n e]]|]; simpl.
  - intros (Hd & -> & (_ & Hsub & Hkeep) & Hall). split_and!; [done|done|done|].
    intros He. apply Hall in He as [H0 _]. exact (count_zero _ _ H0).
  - intros [Hd ->]. done.
Qed.

(** C27. A sweep enforces the retention and nothing else.  With one iteration
    more than there are rows it always ends.  Watermarks are untouched; a table
    whose retention is not positive is untouched; otherwise, with the cutoff as
    many days of 24 hours before the time that the clock shows when the pruning
    of the table begins, no row is added, no log entry from the cutoff on, no
    run that started from the cutoff on and no run that is still running is
    removed, and a pruning that reports no error leaves only such rows.  This
    holds for the run rows also when the pruning of the log entries failed.
    [g1] is the database after the log entries, when the run rows are begun. *)
Theorem sweep_retention fuel cfg g
    (Hfuel : Z.of_nat (size (v_logs (gview g))) < Z.of_nat fuel
             /\ Z.of_nat (size (v_runs (gview g))) < Z.of_nat fuel) :
  let g1 := (prune_if (LogRetentionDays cfg)
    (fun cutoff => PruneLogEntries fuel cutoff (BatchSize cfg) (BatchPause cfg)) g).1 in
  exists g' o1 o2,
    sweep fuel cfg g = (g', Some (o1, o2))
    /\ v_wms (gview g') = v_wms (gview g)
    /\ retained expired (now g).2 (LogRetentionDays cfg) o1 (v_logs (gview g)) (v_logs (gview g'))
    /\ retained prunable (now g1).2 (LoadRunRetentionDays cfg) o2 (v_runs (gview g)) (v_runs (gview g')).
Proof.
  destruct Hfuel as [Hl Hr]. cbv zeta.
  destruct (prune_if_spec v_logs logs_frame expired (LogRetentionDays cfg)
    (fun cutoff => PruneLogEntries fuel cutoff (BatchSize cfg) (BatchPause cfg)) g) as (g1 & o1 & E1 & H1).
  { intros cutoff g1 Hg. apply PruneLogEntries_spec. unfold expired_count, left_over. rewrite Hg.
    pose proof (count_le_size (expired cutoff) (v_logs (gview g))). lia. }
  destruct (logs_frame_runs _ _ (outcome_frame _ _ _ _ _ _ _ H1)) as [Hruns Hw1].
  destruct (prune_if_spec v_runs runs_frame prunable (LoadRunRetentionDays cfg)
    (fun cutoff => PruneLoadRuns fuel cutoff (BatchSize cfg) (BatchPause cfg)) g1) as (g2 & o2 & E2 & H2).
  { intros cutoff g' Hg. apply PruneLoadRuns_spec. unfold prunable_count, left_over. rewrite Hg, Hruns.
    pose proof (count_le_size (prunable cutoff) (v_runs (gview g))). lia. }
  destruct (runs_frame_logs _ _ (outcome_frame _ _ _ _ _ _ _ H2)) as [Hlogs Hw2].
  exists g2, o1, o2. rewrite E1. split_and!.
  - unfold sweep, bindM at 1. rewrite E1. unfold bindM. by rewrite E2.
  - congruence.
  - rewrite Hlogs. by apply outcome_retained in H1.
  - rewrite <- Hruns. by apply outcome_retained in H2.
Qed.
End Sweep.

(** ** Exclusion *)

(** Sweeps never overlap and the flag never sticks.  In every interleaving
    of calls of [execute], by cron or by [RunNow], at most one is sweeping; the
    flag is set exactly while one is, so after a sweep the next call sweeps
    again, and a call during a sweep is skipped. *)
Theorem sweeps_exclusive s (Hreach : hk_reachable s) :
  (length (active s) <= 1)%nat
  /\ (hk_running s = true <-> active s <> [])
  /\ ((execute_enter (hk_running s)).2 = true <-> active s = []).
Proof.
  assert (Hinv : (length (active s) <= 1)%nat /\ (hk_running s = true <-> active s <> [])).
  { induction Hreach as [|s s' _ [IHl IHr] Hstep]; [split; [simpl; lia|by split]|].
    destruct Hstep as [s H|s call running H|s l1 call l2 H].
    - done.
    - unfold execute_enter in H. destruct (hk_running s) eqn:Er; simplify_eq. simpl.
      destruct (active s) as [|c l]; [|exfalso; assert (false = true) by (by apply IHr); done].
      split; [simpl; lia|done].
    - rewrite H, length_app in IHl. simpl in IHl. simpl.
      destruct l1, l2; simpl in *; [|lia..]. split; [lia|by split]. }
  destruct Hinv as [Hl Hr]. split_and!; [done|done|]. unfold execute_enter.
  destruct (hk_running s) eqn:Er; simpl.
  - split; [done|]. intros E. by apply Hr in E.
  - split; [|done]. intros _. destruct (active s); [done|]. assert (false = true) by (by apply Hr). done.
Qed.

(** ** Witnesses *)

Import RepositoryInstances.

Definition ex_hk : Config := New (mkConfig "0 3 * * *" 1 1 0 0).

Definition ex_entry (t : Time) : LogEntry := mkLogEntry t "info" "" None None "" "m" "".

(** Two log entries and two runs, one of each older than a day. *)
Definition ex_store : Mem :=
  mkMem ∅
    {[ 1 := ex_old_run 1 "success"; 4 := ex_old_run 4 "running" ]}
    {[ 1 := ex_entry 5; 2 := ex_entry (day + 50) ]} no_catalog (day + 100).

Lemma sweep_retention_witness :
  exists g' o1 o2,
    sweep 3 ex_hk ex_store = (g', Some (o1, o2))
    /\ m_logs g' !! 2 = Some (ex_entry (day + 50))
    /\ m_runs g' !! 4 = Some (ex_old_run 4 "running").
Proof.
  assert (Hf : Z.of_nat (size (v_logs (gview ex_store))) < Z.of_nat 3
               /\ Z.of_nat (size (v_runs (gview ex_store))) < Z.of_nat 3)
    by (split; vm_compute; reflexivity).
  destruct (sweep_retention 3 ex_hk ex_store Hf) as (g' & o1 & o2 & Hs & _ & H1 & H2).
  exists g', o1, o2. split; [exact Hs|].
  assert (Ho : o1 = Some (100, (1, None)) /\ o2 = Some (101, (1, None))).
  { vm_compute in Hs. injection Hs as _ <- <-. done. }
  destruct Ho as [-> ->]. destruct H1 as (_ & _ & K1 & _), H2 as (_ & _ & K2 & _). split.
  - apply K1; [reflexivity|]. unfold expired. vm_compute. discriminate.
  - apply K2; [reflexivity|]. intros [_ Hst].
    repeat (apply elem_of_cons in Hst as [Hst|Hst]; [discriminate|]). by apply elem_of_nil in Hst.
Defined.

Lemma sweeps_exclusive_witness :
  hk_running (mkHK true [7%nat]) = true /\ (execute_enter true).2 = false.
Proof.
  assert (Hr : hk_reachable (mkHK true [7%nat])).
  { apply (hk_next (mkHK false [])); [constructor|]. by apply (hk_enter (mkHK false []) 7%nat true). }
  destruct (sweeps_exclusive (mkHK true [7%nat]) Hr) as (_ & [_ H] & _).
  split; [apply H; discriminate|reflexivity].
Defined.

End HousekeepingProofs.
