(* ===== verification/Reload.v ===== *)
(** * Metadata reload (internal/reload: coordinator.go, fanout.go)

    [Fanout] reloads a primary target and then runs hooks.  The coordinator
    runs one goroutine per trigger, SIGHUP and ticker; it is a step relation
    over the two goroutines, their one-place channels and the wait group. *)

From stdpp Require Import functions relations.
From S2P Require Import Prelude.
From S2P Require Import Contracts.
From Stdlib Require Import ZArith Lia.
#[local] Open Scope Z_scope.

Module Reload.
Import Contracts.

(** ** Reloading *)

Section Reloaders.
Context {S : Type}.

(** [Reloader]: its only method, on the state it may change. *)
Definition Reloader : Type := M S (option error).

Record Fanout := mkFanout { Primary : Reloader; After : list (option (M S unit)) }.

(** [for _, fn := range f.After]; a nil hook is skipped. *)
Fixpoint run_hooks (fs : list (option (M S unit))) : M S unit :=
  match fs with
  | [] => retM tt
  | None :: fs' => run_hooks fs'
  | Some fn :: fs' => fn ~;; run_hooks fs'
  end.

Definition Fanout_Reload (f : Fanout) : Reloader :=
  err <~ Primary f ;; run_hooks (After f) ~;; retM err.

End Reloaders.

(** ** The coordinator *)

Record Config := mkConfig { Interval : Duration; HandleHUP : bool }.

Inductive Trigger := Sighup | Periodic.

#[export] Instance Trigger_eq_dec : EqDecision Trigger.
Proof. solve_decision. Defined.

(** The goroutine of a trigger. *)
Inductive Loop :=
  | Off                               (** not started by [Start] *)
  | Spawned                           (** before [signal.Notify] or [time.NewTicker] *)
  | Selecting                         (** in [select] *)
  | Reloading                         (** in [doReload] *)
  | Exited.                           (** after [c.wg.Done()] *)

#[export] Instance Loop_eq_dec : EqDecision Loop.
Proof. solve_decision. Defined.

Record Coordinator := mkCoordinator {
  loops : Trigger -> Loop;
  (** whether the channel of the trigger, of capacity one, holds an event *)
  pending : Trigger -> bool;
  wg : Z;
  stop_closed : bool;                 (** [close(c.stopCh)] *)
  stop_returned : bool;               (** [Stop] has returned *)
  reload_errors : list (Trigger * error);  (** logged by [doReload] *)
}.

Definition New : Coordinator := mkCoordinator (fun _ => Off) (fun _ => false) 0 false false [].

(** [c.wg.Add(1); go loop()] *)
Definition spawn (t : Trigger) (c : Coordinator) : Coordinator :=
  mkCoordinator (<[t := Spawned]> (loops c)) (pending c) (wg c + 1)
    (stop_closed c) (stop_returned c) (reload_errors c).

Definition Start (cfg : Config) (c : Coordinator) : Coordinator :=
  let c1 := if HandleHUP cfg then spawn Sighup c else c in
  if 0 <? Interval cfg then spawn Periodic c1 else c1.

(** Any event the loop is subscribed to is put in its channel, unless one is
    there already: neither the runtime's signal delivery nor a ticker blocks. *)
Definition subscribed (l : Loop) : bool :=
  match l with Selecting | Reloading => true | _ => false end.

(** [doReload] returned with [err], which is only logged. *)
Definition doReload_result (t : Trigger) (err : option error) (c : Coordinator) : Coordinator :=
  mkCoordinator (<[t := Selecting]> (loops c)) (pending c) (wg c) (stop_closed c)
    (stop_returned c)
    (match err with None => reload_errors c | Some e => reload_errors c ++ [(t, e)] end).

Inductive coord_step : Coordinator -> Coordinator -> Prop :=
  | c_subscribe t c :
      loops c t = Spawned ->
      coord_step c (mkCoordinator (<[t := Selecting]> (loops c)) (pending c) (wg c)
        (stop_closed c) (stop_returned c) (reload_errors c))
  | c_event t c :
      subscribed (loops c t) = true ->
      coord_step c (mkCoordinator (loops c) (<[t := true]> (pending c)) (wg c)
        (stop_closed c) (stop_returned c) (reload_errors c))
  | c_receive t c :
      loops c t = Selecting -> pending c t = true ->
      coord_step c (mkCoordinator (<[t := Reloading]> (loops c)) (<[t := false]> (pending c)) (wg c)
        (stop_closed c) (stop_returned c) (reload_errors c))
  | c_reloaded t err c :
      loops c t = Reloading -> coord_step c (doReload_result t err c)
  | c_exit t c :
      loops c t = Selecting -> stop_closed c = true ->
      coord_step c (mkCoordinator (<[t := Exited]> (loops c)) (pending c) (wg c - 1)
        (stop_closed c) (stop_returned c) (reload_errors c))
  | c_stop c :
      stop_closed c = false ->
      coord_step c (mkCoordinator (loops c) (pending c) (wg c) true false (reload_errors c))
  | c_stopped c :
      stop_closed c = true -> wg c = 0 ->
      coord_step c (mkCoordinator (loops c) (pending c) (wg c) true true (reload_errors c)).

(** [Start] is called once, before [Stop]. *)
Definition coord_reachable (cfg : Config) : Coordinator -> Prop :=
  rtc coord_step (Start cfg New).

End Reload.
