(* ===== verification/ReloadProofs.v ===== *)
(** * Metadata reload: properties

    The coordinator never loses a trigger and never deadlocks, and nothing
    reloads after [Stop]. *)

From stdpp Require Import functions relations.
From S2P Require Import Prelude.
From S2P Require Import Reload.
From Stdlib Require Import ZArith Lia.
#[local] Open Scope Z_scope.

Module ReloadProofs.
Import Reload.

(** ** The coordinator *)

(** What the goroutine holds of the wait group. *)
Definition held (l : Loop) : Z :=
  match l with Spawned | Selecting | Reloading => 1 | Off | Exited => 0 end.

Definition ended (l : Loop) : Prop := l = Off \/ l = Exited.

Lemma held_ended l : held l = 0 <-> ended l.
Proof. unfold ended. destruct l; simpl; naive_solver. Qed.

Lemma held_range l : 0 <= held l <= 1.
Proof. destruct l; simpl; lia. Qed.

Definition coord_inv (c : Coordinator) : Prop :=
  wg c = held (loops c Sighup) + held (loops c Periodic)
  /\ (stop_returned c = true -> stop_closed c = true /\ wg c = 0)
  /\ (forall t, pending c t = true -> subscribed (loops c t) = true \/ loops c t = Exited)
  /\ (forall t, loops c t = Exited -> stop_closed c = true).

(** The wait group follows one loop. *)
Lemma held_update (f : Trigger -> Loop) t l :
  held (<[t := l]> f Sighup) + held (<[t := l]> f Periodic)
  = held (f Sighup) + held (f Periodic) - held (f t) + held l.
Proof.
  destruct t.
  - rewrite fn_lookup_insert, fn_lookup_insert_ne by done. lia.
  - rewrite fn_lookup_insert, (fn_lookup_insert_ne f Periodic Sighup) by done. lia.
Qed.

(** Case analysis on the trigger of an updated function. *)
Ltac at_trigger t t' :=
  destruct (decide (t = t')) as [<-|];
  [rewrite ?fn_lookup_insert in * | rewrite ?fn_lookup_insert_ne in * by done].

Lemma coord_inv_start cfg : coord_inv (Start cfg New).
Proof.
  unfold Start, spawn. destruct (HandleHUP cfg), (0 <? Interval cfg); split_and!; try done;
    intros []; vm_compute; done.
Qed.

Lemma coord_inv_step c c' : coord_inv c -> coord_step c c' -> coord_inv c'.
Proof.
  intros (Hwg & Hret & Hp & Hex) Hs.
  pose proof (held_range (loops c Sighup)). pose proof (held_range (loops c Periodic)).
  inversion Hs as [t c0 Hl|t c0 Hl|t c0 Hl Hpe|t err c0 Hl|t c0 Hl Hst|c0 Hst|c0 Hst Hz]; subst;
    unfold coord_inv; simpl; try rewrite held_update, Hl; simpl.
  - split_and!; [lia|done|..]; intros t'; at_trigger t t'; naive_solver.
  - split_and!; [lia|done|..|done]. intros t'; at_trigger t t'; naive_solver.
  - split_and!; [lia|done|..]; intros t'; at_trigger t t'; naive_solver.
  - split_and!; [lia|done|..]; intros t'; at_trigger t t'; naive_solver.
  - split_and!; [lia| |..]; [|intros t'; at_trigger t t'; naive_solver..].
    intros [_ Hz]%Hret. destruct t; rewrite Hl in Hwg; simpl in Hwg; lia.
  - split_and!; auto; done.
  - split_and!; auto.
Qed.

Lemma coord_inv_rtc c c' : rtc coord_step c c' -> coord_inv c -> coord_inv c'.
Proof. induction 1; eauto using coord_inv_step. Qed.

Lemma coord_inv_reachable cfg c : coord_reachable cfg c -> coord_inv c.
Proof. intros H. eapply coord_inv_rtc; [exact H|apply coord_inv_start]. Qed.

Lemma returned_ended c t : coord_inv c -> stop_returned c = true -> ended (loops c t).
Proof.
  intros (Hwg & Hret & _) [_ Hz]%Hret. apply held_ended.
  pose proof (held_range (loops c Sighup)). pose proof (held_range (loops c Periodic)).
  destruct t; lia.
Qed.

(** A stopped coordinator does nothing any more. *)
Lemma returned_step c c' :
  coord_inv c -> stop_returned c = true -> coord_step c c' -> c' = c.
Proof.
  intros Hi Hr Hs. pose proof (fun t => returned_ended c t Hi Hr) as He.
  destruct Hi as (_ & Hret & _). destruct (Hret Hr) as [Hst _].
  inversion Hs as [t c0 Hl|t c0 Hl|t c0 Hl Hpe|t err c0 Hl|t c0 Hl Hst'|c0 Hst'|c0 Hst' Hz]; subst;
    try (destruct (He t) as [E|E]; rewrite E in Hl; discriminate).
  - congruence.
  - destruct c. simpl in *. by subst.
Qed.

(** The goroutine of a trigger ends by its own steps once [stopCh] is closed. *)
Lemma drain_loop c t :
  stop_closed c = true ->
  exists c', rtc coord_step c c' /\ ended (loops c' t) /\ stop_closed c' = true
    /\ forall t', t' <> t -> loops c' t' = loops c t'.
Proof.
  intros Hst. assert (Hsel : forall d, stop_closed d = true -> loops d t = Selecting ->
    exists c', rtc coord_step d c' /\ ended (loops c' t) /\ stop_closed c' = true
      /\ forall t', t' <> t -> loops c' t' = loops d t').
  { intros d Hd Hl. eexists. split; [by apply rtc_once, (c_exit t)|]. simpl.
    rewrite fn_lookup_insert. split_and!; [by right|done|]. intros. by rewrite fn_lookup_insert_ne. }
  assert (Hvia : forall d, coord_step c d -> stop_closed d = true -> loops d t = Selecting ->
    (forall t', t' <> t -> loops d t' = loops c t') ->
    exists c', rtc coord_step c c' /\ ended (loops c' t) /\ stop_closed c' = true
      /\ forall t', t' <> t -> loops c' t' = loops c t').
  { intros d Hs Hd Hl Ho. destruct (Hsel d Hd Hl) as (c' & Hr & He & Hc & Hk).
    exists c'. split_and!; [by eapply rtc_l|done|done|]. intros. by rewrite Hk, Ho. }
  destruct (loops c t) eqn:El.
  - exists c. split_and!; [done|by left|done|done].
  - eapply Hvia; [by apply (c_subscribe t)|done|apply fn_lookup_insert|].
    intros. by apply fn_lookup_insert_ne.
  - by apply Hsel.
  - eapply Hvia; [by apply (c_reloaded t None)|done|apply fn_lookup_insert|].
    intros. by apply fn_lookup_insert_ne.
  - exists c. split_and!; [done|by right|done|done].
Qed.

Lemma stop_can_return c :
  coord_inv c -> stop_closed c = true ->
  exists c', rtc coord_step c c' /\ stop_returned c' = true.
Proof.
  intros Hi Hst. destruct (drain_loop c Sighup Hst) as (c1 & R1 & E1 & S1 & _).
  destruct (drain_loop c1 Periodic S1) as (c2 & R2 & E2 & S2 & K2).
  rewrite <- (K2 Sighup) in E1 by done.
  assert (R : rtc coord_step c c2) by (by etransitivity).
  destruct (coord_inv_rtc _ _ R Hi) as (Hwg & _).
  apply held_ended in E1, E2.
  eexists. split; [eapply rtc_r; [exact R|]; apply c_stopped; [done|lia]|done].
Qed.

(** An event in the channel of a trigger stays there until a reload begins. *)
Lemma pending_served c c' t :
  rtc coord_step c c' -> pending c t = true ->
  pending c' t = true
  \/ exists c1 c2, rtc coord_step c c1 /\ coord_step c1 c2 /\ rtc coord_step c2 c'
       /\ loops c1 t = Selecting /\ loops c2 t = Reloading.
Proof.
  induction 1 as [c|c d c' Hs Hr IH]; intros Hp; [by left|].
  assert (Hd : pending d t = true \/ (loops c t = Selecting /\ loops d t = Reloading)).
  { inversion Hs as [t0 c0|t0 c0|t0 c0 Hl Hpe|t0 err c0|t0 c0|c0|c0]; subst; simpl; auto.
    - left. at_trigger t0 t; done.
    - at_trigger t0 t; auto. }
  destruct Hd as [Hd|[H1 H2]].
  - destruct (IH Hd) as [?|(c1 & c2 & Hc & Hs' & Hr' & Hl)]; [by left|].
    right. exists c1, c2. split_and!; [by eapply rtc_l|done|done|apply Hl|apply Hl].
  - right. exists c, d. by split_and!.
Qed.

(** C22. The reload coordinator, with its two goroutines in any interleaving:
    a SIGHUP or a tick received while a reload runs is not lost, it stays in
    the channel until a reload begins after it, and until [Stop] the goroutine
    that owes it is alive; [Stop] can always return; and once it has returned
    no reload is in progress and none ever starts again. *)
Theorem coordinator_lifecycle cfg c (Hreach : coord_reachable cfg c) :
  (forall t, pending c t = true ->
     (stop_closed c = false -> subscribed (loops c t) = true)
     /\ forall c', rtc coord_step c c' ->
          pending c' t = true
          \/ exists c1 c2, rtc coord_step c c1 /\ coord_step c1 c2 /\ rtc coord_step c2 c'
               /\ loops c1 t = Selecting /\ loops c2 t = Reloading)
  /\ (stop_closed c = true -> exists c', rtc coord_step c c' /\ stop_returned c' = true)
  /\ (stop_returned c = true ->
        forall c' t, rtc coord_step c c' -> c' = c /\ ended (loops c' t)).
Proof.
  pose proof (coord_inv_reachable _ _ Hreach) as Hi. split_and!.
  - intros t Hp. split; [|intros c' Hr; by apply pending_served].
    intros Hst. destruct Hi as (_ & _ & Hsub & Hex). destruct (Hsub t Hp) as [?|E]; [done|].
    apply Hex in E. congruence.
  - by apply stop_can_return.
  - intros Hr c' t Hsteps. induction Hsteps as [d|d d1 d2 Hs _ IH].
    + split; [done|by apply returned_ended].
    + assert (d1 = d) as -> by by apply returned_step. by apply IH.
Qed.

(** Both triggers on, a SIGHUP during the reload of another SIGHUP. *)
Definition ex_busy : Coordinator :=
  mkCoordinator (<[Sighup := Reloading]> (<[Sighup := Selecting]> (loops (Start (mkConfig 60 true) New))))
    (<[Sighup := true]> (<[Sighup := false]> (<[Sighup := true]> (fun _ => false)))) 2 false false [].

Lemma ex_busy_reachable : coord_reachable (mkConfig 60 true) ex_busy.
Proof.
  eapply rtc_l; [by apply (c_subscribe Sighup)|].
  eapply rtc_l; [by apply (c_event Sighup)|].
  eapply rtc_l; [by apply (c_receive Sighup)|].
  apply rtc_once. by apply (c_event Sighup).
Qed.

Lemma coordinator_lifecycle_witness :
  coord_reachable (mkConfig 60 true) ex_busy
  /\ pending ex_busy Sighup = true /\ loops ex_busy Sighup = Reloading
  /\ subscribed (loops ex_busy Sighup) = true.
Proof.
  split_and!; [exact ex_busy_reachable|reflexivity|reflexivity|].
  destruct (coordinator_lifecycle _ _ ex_busy_reachable) as (H & _).
  by apply (H Sighup).
Defined.

End ReloadProofs.
