(* ===== verification/Server.v ===== *)
(** * The server (cmd/loader/main.go)

    The wiring of the components: the reload target built from the scheduler
    and the connection pool, and [runServer] with its start-up, its early
    returns, its shutdown and its deferred calls. *)

From S2P Require Import Prelude.
From S2P Require Import GoStrings.
From S2P Require Import Contracts.
From S2P Require Import Models.
From S2P Require Import Config.
From S2P Require Import Pool.
From S2P Require Import Scheduler.
From S2P Require Import Housekeeping.
From S2P Require Import Reload.
From Stdlib Require Import ZArith Lia.

Module Server.
Import Contracts.

(** ** The reload target *)

Section Target.
Context {C R : Type} `{HC : Scheduler.Cron C} `{HR : Scheduler.RunAborter R}.
Context {W : Type} `{HD : Pool.SourceDriver W}.
Context (order : forall A, gmap Z A -> list (Z * A)).

(** The scheduler, the sources, and the pool. *)
Definition App : Type := @Scheduler.State C R * (W * Pool.SourcePool).

Definition sch_Reload : @Reload.Reloader App := fun '(s, x) =>
  let '(s', err) := Scheduler.Reload order s in ((s', x), err).

Definition pool_InvalidateAll : M App unit := fun '(s, (w, p)) =>
  let '(w', p') := Pool.InvalidateAll p w in ((s, (w', p')), tt).

Definition reloadTarget (pooled : bool) : @Reload.Reloader App :=
  if pooled
  then Reload.Fanout_Reload (Reload.mkFanout sch_Reload [Some pool_InvalidateAll])
  else sch_Reload.

End Target.

(** ** runServer *)

(** The calls of [runServer] on the components and the operating system. *)
Inductive Call :=
  | OpenMetadata (dsn : string)
  | NewDBHandler (queue : Z)
  | OpenSink (dsn : string)
  | NewSourcePool (cfg : Pool.PoolConfig)
  | NewEphemeral
  | NewScheduler (shutdownTimeout : Duration)
  | LoadSchedules
  | StartScheduler
  | StartHealth (addr : string) (extras : list string)
  | StartReload (fanout : bool) (cfg : Reload.Config)
  | StartHousekeeping (cfg : Housekeeping.Config)
  | AwaitSignal
  | StopReload
  | StopScheduler
  | StopHousekeeping (wait : Duration)
  | StopHealth (wait : Duration)
  | CloseDBHandler (wait : Duration)
  | CloseSessions
  | CloseSink
  | CancelContext.

(** The calls made, with the error each returned. *)
Definition Trace : Type := list (Call * option error).

(** The calls made so far and the deferred ones, the last deferred first. *)
Record Frame := mkFrame { calls : Trace; deferred : list Call }.

(** A piece of the body: it goes on or returns an exit code. *)
Definition Body : Type := Frame -> Frame * option Z.

Definition andThen (b1 b2 : Body) : Body := fun f =>
  let '(f1, r) := b1 f in match r with Some code => (f1, Some code) | None => b2 f1 end.

Notation "b1 >>> b2" := (andThen b1 b2) (at level 62, right associativity).

(** A call that cannot fail, or whose error is not looked at. *)
Definition call (c : Call) : Body := fun f =>
  (mkFrame (calls f ++ [(c, None)]) (deferred f), None).

Definition defer (c : Call) : Body := fun f => (mkFrame (calls f) (c :: deferred f), None).

Definition when (b : bool) (body : Body) : Body := if b then body else fun f => (f, None).

Definition return_ (code : Z) : Body := fun f => (f, Some code).

Section Run.
Context (env : string -> string).
(** What the fallible calls return. *)
Context (fails : Call -> option error).

(** [if err := c; err != nil { log; return 1 }] *)
Definition try_call (c : Call) : Body := fun f =>
  let f' := mkFrame (calls f ++ [(c, fails c)]) (deferred f) in
  match fails c with Some _ => (f', Some 1) | None => (f', None) end.

(** Housekeeping's configuration from the environment's. *)
Definition housekeeping_config (cfg : Config.AppConfig) : Housekeeping.Config :=
  Housekeeping.mkConfig (Config.HousekeepingCron cfg) (Config.LogRetentionDays cfg)
    (Config.LoadRunRetentionDays cfg) (Config.HousekeepingBatchSize cfg)
    (millis (Config.HousekeepingBatchPauseMs cfg)).

Definition sessions_call (cfg : Config.AppConfig) : Call :=
  if Config.SourcePoolEnabled cfg
  then NewSourcePool (Pool.mkPoolConfig (seconds (Config.SourcePoolIdleSec cfg))
         (seconds (Config.SourcePoolMaxAgeSec cfg)))
  else NewEphemeral.

Definition health_call (cfg : Config.AppConfig) : Call :=
  StartHealth (Config.HealthAddr cfg)
    (if Config.SourcePoolEnabled cfg then ["source_pool"] else []).

Definition reload_call (cfg : Config.AppConfig) : Call :=
  StartReload (Config.SourcePoolEnabled cfg)
    (Reload.mkConfig (seconds (Config.ReloadIntervalSec cfg)) (Config.ReloadOnSIGHUP cfg)).

(** Up to the wait for SIGINT or SIGTERM. *)
Definition startup (cfg : Config.AppConfig) : Body :=
  try_call (OpenMetadata (Config.MetadataDSN cfg))
  >>> call (NewDBHandler 512)
  >>> defer CancelContext
  >>> try_call (OpenSink (Config.SinkDSN cfg))
  >>> defer CloseSink
  >>> call (sessions_call cfg)
  >>> defer CloseSessions
  >>> call (NewScheduler
        (Scheduler.New_shutdownTimeout (seconds (Config.ShutdownTimeoutSec cfg))))
  >>> try_call LoadSchedules
  >>> call StartScheduler
  >>> when (Config.HealthEnabled cfg) (try_call (health_call cfg))
  >>> when (Config.ReloadEnabled cfg) (call (reload_call cfg))
  >>> when (Config.HousekeepingEnabled cfg)
        (try_call (StartHousekeeping (housekeeping_config cfg))).

Definition shutdown (cfg : Config.AppConfig) : Body :=
  when (Config.ReloadEnabled cfg) (call StopReload)
  >>> call StopScheduler
  >>> when (Config.HousekeepingEnabled cfg) (call (StopHousekeeping (seconds 30)))
  >>> when (Config.HealthEnabled cfg) (call (StopHealth (seconds 5)))
  >>> call (CloseDBHandler (seconds 5))
  >>> return_ 0.

(** The deferred calls run after the body; their errors are only logged. *)
Definition run_body (b : Body) : Trace * Z :=
  let '(f, r) := b (mkFrame [] []) in
  (calls f ++ map (fun c => (c, fails c)) (deferred f), default 0 r).

Definition runServer : Trace * Z :=
  match Config.FromEnv env with
  | Err _ => ([], 1)
  | Ok cfg => run_body (startup cfg >>> call AwaitSignal >>> shutdown cfg)
  end.

End Run.
End Server.
