(* ===== verification/ServerProofs.v ===== *)
(** * The server: properties

    Whatever start-up call fails, components start after what they use, stop
    before it, and the sink and the source sessions are closed exactly when
    they were opened; a metadata reload leaves no pooled connection open; and
    the components that a failed start-up leaves running. *)

From stdpp Require Import finite.
From S2P Require Import Prelude.
From S2P Require Import GoStrings.
From S2P Require Import Contracts.
From S2P Require Import Models.
From S2P Require Import Config.
From S2P Require Import Runstate.
From S2P Require Import Pool.
From S2P Require Import PoolProofs.
From S2P Require Import Instances.
From S2P Require Import Scheduler.
From S2P Require Import SchedulerInstances.
From S2P Require Import Reload.
From S2P Require Import Server.
From Stdlib Require Import ZArith Lia.
#[local] Open Scope Z_scope.

Module ServerProofs.
Import Contracts Server.

(** ** Lifecycle *)

Inductive Component := DBLog | Sink | Sessions | Sched | HealthSrv | Reloader | Keeper.

#[export] Instance Component_eq_dec : EqDecision Component.
Proof. solve_decision. Defined.

#[export] Program Instance Component_finite : Finite Component := {|
  enum := [DBLog; Sink; Sessions; Sched; HealthSrv; Reloader; Keeper];
|}.
Next Obligation. by apply (bool_decide_unpack _). Qed.
Next Obligation. intros []; by apply (bool_decide_unpack _). Qed.

Inductive Moment := Up (c : Component) | Wait | Down (c : Component).

#[export] Instance Moment_eq_dec : EqDecision Moment.
Proof. solve_decision. Defined.

(** What a call does to a component; a call that failed starts nothing. *)
Definition moment (e : Call * option error) : option Moment :=
  match e.1, e.2 with
  | NewDBHandler _, None => Some (Up DBLog)
  | OpenSink _, None => Some (Up Sink)
  | NewSourcePool _, None | NewEphemeral, None => Some (Up Sessions)
  | StartScheduler, None => Some (Up Sched)
  | StartHealth _ _, None => Some (Up HealthSrv)
  | StartReload _ _, None => Some (Up Reloader)
  | StartHousekeeping _, None => Some (Up Keeper)
  | AwaitSignal, _ => Some Wait
  | StopReload, _ => Some (Down Reloader)
  | StopScheduler, _ => Some (Down Sched)
  | StopHousekeeping _, _ => Some (Down Keeper)
  | StopHealth _, _ => Some (Down HealthSrv)
  | CloseDBHandler _, _ => Some (Down DBLog)
  | CloseSessions, _ => Some (Down Sessions)
  | CloseSink, _ => Some (Down Sink)
  | _, _ => None
  end.

Definition lifecycle (tr : Trace) : list Moment := omap moment tr.

(** [a] does not happen after [b]. *)
Fixpoint precedes (a b : Moment) (ms : list Moment) : bool :=
  match ms with
  | [] => true
  | m :: ms' => if bool_decide (m = b) then bool_decide (a ∉ ms') else precedes a b ms'
  end.

(** [c] calls [d] while it runs. *)
Definition uses (c d : Component) : bool :=
  match c, d with
  | Sched, (DBLog | Sink | Sessions) => true
  | HealthSrv, (DBLog | Sink | Sessions) => true
  | Reloader, (DBLog | Sched | Sessions) => true
  | Keeper, DBLog => true
  | _, _ => false
  end.

Definition orderly (ms : list Moment) : Prop :=
  NoDup ms
  /\ (forall c, Down c ∈ ms -> Up c ∈ ms /\ precedes (Up c) (Down c) ms = true)
  /\ (forall c d, uses c d = true -> Up c ∈ ms ->
        Up d ∈ ms /\ precedes (Up d) (Up c) ms = true
        /\ (Down c ∈ ms -> precedes (Down c) (Down d) ms = true))
  /\ (Up Sink ∈ ms <-> Down Sink ∈ ms) /\ (Up Sessions ∈ ms <-> Down Sessions ∈ ms).

Definition graceful (ms : list Moment) : Prop :=
  Wait ∈ ms
  /\ forall c, Up c ∈ ms -> Down c ∈ ms /\ precedes (Up c) Wait ms = true
       /\ precedes Wait (Down c) ms = true.

(** The start-up failed: no signal is waited for, and only the deferred calls
    close anything. *)
Definition given_up (ms : list Moment) : Prop :=
  (Wait ∉ ms) /\ forall c, Down c ∈ ms -> c = Sink \/ c = Sessions.

#[export] Instance given_up_dec ms : Decision (given_up ms).
Proof. apply _. Defined.

#[export] Instance orderly_dec ms : Decision (orderly ms).
Proof. apply _. Defined.

#[export] Instance graceful_dec ms : Decision (graceful ms).
Proof. apply _. Defined.

(** The start-up calls that can fail, with the configuration's. *)
Definition fallible (cfg : Config.AppConfig) : list Call :=
  [OpenMetadata (Config.MetadataDSN cfg); OpenSink (Config.SinkDSN cfg); LoadSchedules]
  ++ (if Config.HealthEnabled cfg then [health_call cfg] else [])
  ++ (if Config.HousekeepingEnabled cfg then [StartHousekeeping (housekeeping_config cfg)] else []).

Ltac by_decision := apply (bool_decide_unpack _); vm_compute; exact I.

(** The call of the list that the context says failed. *)
Ltac find_failed :=
  repeat first [by apply Exists_cons_hd; eexists | apply Exists_cons_tl].

Lemma run_cases cfg fails :
  let '(tr, code) := run_body fails (startup fails cfg >>> call AwaitSignal >>> shutdown cfg) in
  orderly (lifecycle tr)
  /\ ((code = 0 /\ graceful (lifecycle tr) /\ Forall (fun c => fails c = None) (fallible cfg))
      \/ (code = 1 /\ given_up (lifecycle tr)
          /\ Exists (fun c => is_Some (fails c)) (fallible cfg))).
Proof.
  destruct cfg as [mdsn sdsn ll lf hk hkc lr rr bs bp he ha re ri rh st sp si sm].
  unfold fallible, run_body, startup, shutdown, andThen, when, call, defer, try_call, return_.
  cbn [Config.MetadataDSN Config.SinkDSN Config.HealthEnabled Config.HousekeepingEnabled
    Config.ReloadEnabled].
  destruct hk, he, re, sp;
    repeat first [match goal with |- context [match fails ?c with _ => _ end] =>
      destruct (fails c) as [?|] eqn:? end; cbn [calls deferred default app map]];
    (split; [by_decision|]);
    first [ by left; split_and!; [done|by_decision|repeat constructor]
          | right; split_and!; [done|by_decision|find_failed] ].
Qed.

(** C19. The life of the server process, whatever the environment holds and
    whichever start-up call fails.  In every case no component starts or stops
    twice, each starts after those it uses, one that is stopped is stopped
    before those it uses, and the sink and the source sessions are closed
    exactly when they were opened.  The process exits with 0 exactly when the
    environment is complete and every start-up call of an enabled component
    succeeds, and then every component that was started has been stopped, after
    the signal.  Otherwise it exits with 1 and never waits for a signal, and
    nothing but the sink and the sessions is stopped: a scheduler that was
    already started is still running when they are closed. *)
Theorem server_lifecycle env fails :
  let '(tr, code) := runServer env fails in
  orderly (lifecycle tr)
  /\ (code = 0 <-> exists cfg, Config.FromEnv env = Ok cfg
                      /\ Forall (fun c => fails c = None) (fallible cfg))
  /\ (code = 0 -> graceful (lifecycle tr))
  /\ (code <> 0 -> code = 1 /\ given_up (lifecycle tr)).
Proof.
  unfold runServer. destruct (Config.FromEnv env) as [cfg|e].
  - pose proof (run_cases cfg fails) as H.
    destruct (run_body _ _) as [tr code]. destruct H as [Ho H]. split; [done|].
    destruct H as [(-> & Hg & Hf)|(-> & Hw & Hf)]; (split_and!; [|done|done]).
    + split; [|done]. intros _. by exists cfg.
    + split; [done|]. intros (cfg' & [= <-] & Hall). exfalso.
      rewrite Exists_exists in Hf. destruct Hf as (c & Hin & [e He]).
      rewrite Forall_forall in Hall. specialize (Hall c Hin). congruence.
  - split_and!; [by_decision| |done|]; [|intros _; split; [done|by_decision]].
    split; [done|]. by intros (cfg & ? & _).
Qed.

(** The port of the health server is taken. *)
Definition ex_env (k : string) : string :=
  if bool_decide (k ∈ ["LOADER_METADATA_DSN"; "LOADER_SINK_DSN"]) then "sqlserver://db" else "".

Definition ex_port_taken (c : Call) : option error :=
  match c with StartHealth _ _ => Some "address already in use" | _ => None end.

(** The early returns after [sch.Start] do not stop the scheduler: it is still
    firing loads while the deferred calls close the source sessions and the
    sink, and the log handler is not flushed, so the error that ended the
    process may never reach the log table. *)
Theorem failed_startup_leaves_running :
  let '(tr, code) := runServer ex_env ex_port_taken in
  code = 1
  /\ lifecycle tr = [Up DBLog; Up Sink; Up Sessions; Up Sched; Down Sessions; Down Sink].
Proof. vm_compute. done. Qed.

(** ** Reload with a connection pool *)

Section Target.
Context {C R : Type} `{HC : Scheduler.Cron C} `{HR : Scheduler.RunAborter R}.
Context {W : Type} `{HD : Pool.SourceDriver W} `{HS : !Pool.SourceDriverSpec W}.
Context (order : forall A, gmap Z A -> list (Z * A)).
Context (digest : string -> string) (idle maxAge : Duration).

(** A lease of an entry without a connection opens one with the parameters it
    is asked for. *)
Lemma obtain_closed cfg now ent (w : W) :
  Pool.e_src ent = None ->
  exists ent', Pool.obtain_entry digest idle maxAge cfg now ent w
    = ((Pool.build_open cfg w).1, (ent', (Pool.build_open cfg w).2)).
Proof.
  intros He. unfold Pool.obtain_entry, bindM, retM. rewrite He. simpl. rewrite He.
  destruct (Pool.build_open cfg w) as [w' [src|e]]; simpl; by eexists.
Qed.

(** C20. The reload target of the server is the scheduler's reload, with its
    effect on the schedule and its error.  With a connection pool, no pooled
    connection is open afterwards, whether the reload changed anything, changed
    nothing or failed, and the next lease of every entry builds and opens a
    source anew, so that changed parameters take effect; without one the
    sources are left alone. *)
Theorem reload_wiring pooled s (w : W) p (Hown : PoolProofs.owners_ok w (Pool.p_entries p)) :
  let '((s', (w', p')), err) := reloadTarget order pooled (s, (w, p)) in
  (s', err) = Scheduler.Reload order s
  /\ (pooled = false -> w' = w /\ p' = p)
  /\ (pooled = true ->
        Pool.conns w' = ∅ /\ Pool.LiveCount p' = 0
        /\ PoolProofs.owners_ok w' (Pool.p_entries p')
        /\ forall id ent cfg now, Pool.p_entries p' !! id = Some ent ->
             exists ent', Pool.obtain_entry digest idle maxAge cfg now ent w'
               = ((Pool.build_open cfg w').1, (ent', (Pool.build_open cfg w').2))).
Proof.
  unfold reloadTarget, Reload.Fanout_Reload, sch_Reload, bindM, retM. simpl.
  destruct pooled; simpl; destruct (Scheduler.Reload order s) as [s' err]; [|done].
  unfold bindM, retM, pool_InvalidateAll.
  destruct (Pool.InvalidateAll p w) as [w' p'] eqn:E. split_and!; [done|done|]. intros _.
  destruct (PoolProofs.InvalidateAll_spec _ _ _ _ Hown E) as (Ho & Hc & Hl).
  destruct (PoolProofs.InvalidateAll_entries _ _ _ _ Hown E) as [_ Hn].
  split_and!; [done|done|done|]. intros id ent cfg now He. by eapply obtain_closed, Hn.
Qed.

End Target.

Import Instances SchedulerInstances.

(** Nothing is scheduled and the pool holds an open connection. *)
Lemma reload_wiring_witness :
  PoolProofs.owners_ok Instances.ex_pool_driver (Pool.p_entries Instances.ex_pool)
  /\ Instances.d_open (reloadTarget SchedulerInstances.in_order true
       (SchedulerInstances.ex_start [], (Instances.ex_pool_driver, Instances.ex_pool))).1.2.1 = ∅.
Proof.
  split; [exact Instances.ex_pool_owners|].
  pose proof (reload_wiring SchedulerInstances.in_order id 60 0 true
    (SchedulerInstances.ex_start []) _ _ Instances.ex_pool_owners) as H.
  destruct (reloadTarget _ _ _) as [[s' [w' p']] err]. destruct H as (_ & _ & H).
  exact (proj1 (H eq_refl)).
Defined.

End ServerProofs.
