(* ===== verification/Registry.v ===== *)
(** * The source registry (internal/sources/registry.go)

    The map of factories that the [init] functions of the source packages
    fill, and [Build].  A source is known here by its package and its
    configuration; what the packages do is in SqlSource, Modbus and Opcua. *)

From S2P Require Import Prelude.
From S2P Require Import Contracts.
From Stdlib Require Import ZArith Lia.

Module Registry.
Import Contracts.

Inductive Package := SqlServer | Postgres | Modbus | Opcua.

#[export] Instance Package_eq_dec : EqDecision Package.
Proof. solve_decision. Defined.

(** The [Source] struct of a package: its configuration, not yet connected. *)
Record Source := mkSource { s_package : Package; s_cfg : SourceConfig }.

Definition SourceFactory : Type := SourceConfig -> result Source.
Abbreviation Factories := (gmap string SourceFactory).

(** [var factories] before the [init] functions run. *)
Definition factories : Factories := ∅.

Definition Register (kind : string) (f : SourceFactory) (fs : Factories) : Factories :=
  <[kind := f]> fs.

Definition Build (fs : Factories) (cfg : SourceConfig) : result Source :=
  match fs !! sc_SourceType cfg with
  | None => Err ("no source registered for kind " +:+ fmt_q (sc_SourceType cfg))
  | Some f => f cfg
  end.

(** The constants [Kind] and [kind] of the packages. *)
Definition SqlServer_Kind : string := "sqlserver".
Definition Postgres_kind : string := "postgres".
Definition Modbus_kind : string := "modbus".
Definition Opcua_kind : string := "opcua".

(** [Kind()] of a source. *)
Definition Kind (p : Package) : string :=
  match p with
  | SqlServer => SqlServer_Kind
  | Postgres => Postgres_kind
  | Modbus => Modbus_kind
  | Opcua => Opcua_kind
  end.

(** [New] of each package. *)
Definition SqlServer_New : SourceFactory := fun cfg => Ok (mkSource SqlServer cfg).
Definition Postgres_New : SourceFactory := fun cfg => Ok (mkSource Postgres cfg).
Definition Modbus_New : SourceFactory := fun cfg => Ok (mkSource Modbus cfg).
Definition Opcua_New : SourceFactory := fun cfg => Ok (mkSource Opcua cfg).

Definition New (p : Package) : SourceFactory :=
  match p with
  | SqlServer => SqlServer_New
  | Postgres => Postgres_New
  | Modbus => Modbus_New
  | Opcua => Opcua_New
  end.

(** [init] of each package. *)
Definition SqlServer_init : Factories -> Factories := Register SqlServer_Kind SqlServer_New.
Definition Postgres_init : Factories -> Factories := Register Postgres_kind Postgres_New.
Definition Modbus_init : Factories -> Factories := Register Modbus_kind Modbus_New.
Definition Opcua_init : Factories -> Factories := Register Opcua_kind Opcua_New.

Definition init (p : Package) : Factories -> Factories :=
  match p with
  | SqlServer => SqlServer_init
  | Postgres => Postgres_init
  | Modbus => Modbus_init
  | Opcua => Opcua_init
  end.

Lemma init_Register p : init p = Register (Kind p) (New p).
Proof. by destruct p. Qed.

Lemma New_eq p cfg : New p cfg = Ok (mkSource p cfg).
Proof. by destruct p. Qed.

(** The [init] functions of the imported packages, run in the order [ps]. *)
Definition inits (ps : list Package) : Factories :=
  foldl (fun fs p => init p fs) factories ps.

Lemma Kind_inj p q : Kind p = Kind q -> p = q.
Proof. by destruct p, q. Qed.

Lemma inits_lookup ps p : p ∈ ps -> inits ps !! Kind p = Some (New p).
Proof.
  unfold inits. induction ps as [|q ps IH] using rev_ind; [by intros ?%not_elem_of_nil|].
  rewrite foldl_app. simpl. rewrite init_Register. unfold Register.
  intros [Hp|Hq%list_elem_of_singleton]%elem_of_app; [|by rewrite Hq, lookup_insert_eq].
  destruct (decide (q = p)) as [->|Hne]; [by rewrite lookup_insert_eq|].
  rewrite lookup_insert_ne; [by apply IH|]. intros E%Kind_inj. done.
Qed.

Lemma inits_other ps k : (forall p, k <> Kind p) -> inits ps !! k = None.
Proof.
  intros Hk. unfold inits. induction ps as [|q ps IH] using rev_ind; [done|].
  rewrite foldl_app. simpl. rewrite init_Register. unfold Register. by rewrite lookup_insert_ne.
Qed.

(** With the four packages of the server imported, in whatever order their
    [init] functions run, [Build] gives every kind its own package's source
    with the configuration unchanged, and refuses every other kind. *)
Theorem build_total ps cfg (Hall : forall p, p ∈ ps) :
  (forall p, sc_SourceType cfg = Kind p -> Build (inits ps) cfg = Ok (mkSource p cfg))
  /\ ((forall p, sc_SourceType cfg <> Kind p) -> is_ok (Build (inits ps) cfg) = false).
Proof.
  unfold Build. split.
  - intros p Hp. rewrite Hp. setoid_rewrite (inits_lookup ps p (Hall p)). apply New_eq.
  - intros Hk. by rewrite inits_other.
Qed.

End Registry.
