(* ===== verification/Telemetry.v ===== *)
(** * Types of telemetry rows

    The rows of a Modbus or OPC UA polling cycle against the columns they are
    declared with, from the source to the values the sink hands to the bulk
    copy. *)

From S2P Require Import Prelude.
From S2P Require Import GoStrings.
From S2P Require Import Sqlident.
From S2P Require Import Contracts.
From S2P Require Import MSSQLSink.
From S2P Require Import Modbus.
From S2P Require Import ModbusProofs.
From S2P Require Import Opcua.
From Stdlib Require Import ZArith Lia SpecFloat.

Module Telemetry.
Import GoStrings Sqlident Contracts MSSQLSink.

(** The canonical type of a Go value. *)
Definition type_of (v : any) : option string :=
  match v with
  | ABool _ => Some "bool"
  | AString _ => Some "string"
  | AFloat64 _ => Some "float64"
  | ATime _ => Some "datetime"
  | _ => None
  end.

(** A value that a column accepts. *)
Definition cell_ok (c : Column) (v : any) : Prop :=
  match v with
  | ANil => col_Nullable c = true
  | _ => type_of v = Some (col_DataType c)
  end.

(** Every column has a value it accepts and there is nothing else. *)
Definition row_ok (cols : list Column) (row : Row) : Prop :=
  dom row = list_to_set (map col_Name cols)
  /\ Forall (fun c => exists v, row !! col_Name c = Some v /\ cell_ok c v) cols.

#[export] Instance cell_ok_dec c v : Decision (cell_ok c v).
Proof. unfold cell_ok. destruct v; apply _. Defined.

(** ** Columns and updates *)

(** Updating a column of a good row with a value it accepts. *)
Lemma row_ok_insert cols row k v :
  row_ok cols row -> k ∈ map col_Name cols ->
  Forall (fun c => col_Name c = k -> cell_ok c v) cols -> row_ok cols (<[k := v]> row).
Proof.
  intros [Hd Hf] Hk Hv. split.
  - rewrite dom_insert_L, Hd. apply set_eq. intros x. rewrite elem_of_union, elem_of_singleton.
    rewrite elem_of_list_to_set. naive_solver.
  - rewrite Forall_forall in *. intros c Hc. destruct (decide (k = col_Name c)) as [->|Hne].
    + rewrite lookup_insert_eq. eauto.
    + rewrite lookup_insert_ne by done. eauto.
Qed.

(** The columns that both sources share, and a value for one of them. *)
Ltac col_update :=
  apply row_ok_insert; [|by apply (bool_decide_unpack _)|by repeat (constructor; [done|])].

Ltac row_start :=
  split; [apply set_eq; intros x; set_solver
         |repeat (apply Forall_cons; split; [eexists; split; [reflexivity|try done]|]);
          try apply Forall_nil_2].

(** ** Modbus *)

Section ModbusRows.
Context {C : Type} `{HC : Modbus.ModbusClient C}.

(** A row whose number, if it has one, is finite. *)
Definition finite_num (row : Row) : Prop :=
  match row !! "value_num" with
  | Some (AFloat64 f) => Modbus.IsNaN f = false /\ Modbus.IsInf f = false
  | _ => True
  end.

Definition modbus_ok (row : Row) : Prop := row_ok Modbus.columns row /\ finite_num row.

Lemma finite_num_insert row k v : k <> "value_num" -> finite_num row -> finite_num (<[k := v]> row).
Proof. intros Hk. unfold finite_num. by rewrite lookup_insert_ne. Qed.

Lemma blank_row_ok tag ts : modbus_ok (Modbus.blank_row tag ts).
Proof.
  split; [|done]. unfold Modbus.blank_row, Modbus.columns. row_start.
  unfold Modbus.nullIfEmpty. by case_bool_decide.
Qed.

Lemma bad_row_typed text row : modbus_ok row -> modbus_ok (Modbus.bad_row text row).
Proof.
  intros [Hr Hf]. unfold Modbus.bad_row. split; [by do 2 col_update|].
  by do 2 (apply finite_num_insert; [done|]).
Qed.

Lemma read_bit_typed r row row' e :
  modbus_ok row -> Modbus.read_bit r row = Some (row', e) -> modbus_ok row'.
Proof.
  intros [Hr Hf]. unfold Modbus.read_bit. destruct r as [[|v vs]|]; intros; simplify_eq; [|done].
  split; [by col_update|by apply finite_num_insert].
Qed.

Lemma readTagInto_typed tag row c c' row' e :
  modbus_ok row -> Modbus.readTagInto tag row c = (c', Some (row', e)) -> modbus_ok row'.
Proof.
  intros Hr. unfold Modbus.readTagInto. repeat case_bool_decide; simpl.
  1,2: intros (c1 & r & _ & Hrun)%bindM_inv; unfold retM in Hrun; simplify_eq; by eapply read_bit_typed.
  1-3: unfold Modbus.readRegisters; intros (c1 & r & _ & Hrun)%bindM_inv;
    destruct r as [regs|]; [|unfold retM in Hrun; by simplify_eq];
    destruct (Modbus.decode_registers tag regs) as [f|] eqn:E; unfold retM in Hrun; simplify_eq; [|done];
    apply ModbusProofs.decode_registers_finite in E; destruct Hr as [Hr _]; split;
    [by col_update|unfold finite_num; by rewrite lookup_insert_eq].
  unfold retM. by intros [= <- <- <-].
Qed.

Lemma read_tag_typed ts tag c c' row n :
  Modbus.read_tag ts tag c = (c', Some (row, n)) -> modbus_ok row.
Proof.
  unfold Modbus.read_tag. pose proof (blank_row_ok tag ts) as Hb.
  intros (c1 & e & _ & H)%bindM_inv.
  destruct e as [err|]; [unfold retM in H; simplify_eq; by apply bad_row_typed|].
  apply bindM_inv in H as (c2 & e2 & _ & H).
  destruct e2 as [err|]; [unfold retM in H; simplify_eq; by apply bad_row_typed|].
  apply bindM_inv in H as (c3 & r & Hr & H). unfold retM in H.
  destruct r as [[row' [err|]]|]; simplify_eq; [apply bad_row_typed|]; by eapply readTagInto_typed.
Qed.

Lemma read_tags_typed ts tags c c' rows n :
  Modbus.read_tags ts tags c = (c', Some (rows, n)) -> Forall modbus_ok rows.
Proof.
  revert c c' rows n. induction tags as [|tag tags IH]; intros c c' rows n; simpl.
  - unfold retM. intros. simplify_eq. constructor.
  - intros (c1 & r & Hr & H)%bindM_inv. destruct r as [[row b]|]; [|unfold retM in H; by simplify_eq].
    apply bindM_inv in H as (c2 & rest & Hrest & H). unfold retM in H.
    destruct rest as [[rs k]|]; simplify_eq. constructor; [by eapply read_tag_typed|by eapply IH].
Qed.

End ModbusRows.

(** ** OPC UA *)

Section OpcuaRows.
Context {C : Type} `{HC : Opcua.UAClient C}.
Context (FormatTime : Time -> string) (Sprintf_v : any -> string).

Lemma badRow_ok n ts msg : row_ok Opcua.columns (Opcua.badRow n ts msg).
Proof. unfold Opcua.badRow, Opcua.columns. row_start. Qed.

Lemma assignValue_ok row v a b :
  row_ok Opcua.columns row -> row_ok Opcua.columns (Opcua.assignValue FormatTime Sprintf_v row v a b).
Proof.
  intros Hr. unfold Opcua.assignValue, Opcua.null_value, Opcua.scaled. destruct v; by repeat col_update.
Qed.

Lemma value_row_ok n dv ts : row_ok Opcua.columns (Opcua.value_row FormatTime Sprintf_v n dv ts).
Proof.
  unfold Opcua.value_row, Opcua.null_value. cbv zeta.
  assert (Hr : forall q t, row_ok Opcua.columns {[
    "tag_name" := AString (op_TagName n); "node_id" := AString (op_NodeID n); "ts" := ATime t;
    "value_num" := ANil; "value_bool" := ANil; "value_text" := ANil; "quality" := AString q]}).
  { intros q t. unfold Opcua.columns. row_start. }
  destruct (negb _); [by col_update|]. destruct (Opcua.dv_Value dv); [by apply assignValue_ok|].
  by do 2 col_update.
Qed.

Lemma append_row_ok row acc :
  row_ok Opcua.columns row -> Forall (row_ok Opcua.columns) acc.1 ->
  Forall (row_ok Opcua.columns) (Opcua.append_row row acc).1.
Proof. intros Hr Ha. apply Forall_app. auto. Qed.

#[local] Hint Resolve append_row_ok badRow_ok value_row_ok : core.

Lemma bad_rows_ok ts msg nodes : forall acc,
  Forall (row_ok Opcua.columns) acc.1 ->
  Forall (row_ok Opcua.columns) (Opcua.bad_rows ts msg nodes acc).1.
Proof. induction nodes; simpl; auto. Qed.

Lemma walk_ok ts resp nodes : forall i ids acc acc',
  Forall (row_ok Opcua.columns) acc.1 ->
  Opcua.walk FormatTime Sprintf_v ts resp i nodes ids acc = Some acc' ->
  Forall (row_ok Opcua.columns) acc'.1.
Proof.
  induction nodes as [|n nodes IH]; intros i [|[id|] ids] acc acc' Ha H; simpl in H; simplify_eq;
    try done.
  - destruct (resp ≫= _) as [[dv|]|]; [|done|]; eauto.
  - eauto.
Qed.

End OpcuaRows.

(** ** In the sink *)

Section Sink.
Context {U : UnicodeTables} (guid_scan : string -> result string).

(** The values of a good row, in column order. *)
Lemma row_values_ok cols row ts :
  Forall (fun c => exists v, row !! col_Name c = Some v /\ cell_ok c v) cols ->
  Forall (fun c => col_DataType c <> "guid") cols ->
  exists vals, row_values guid_scan cols row ts = Ok (vals ++ [ATime ts]) /\ Forall2 cell_ok cols vals.
Proof.
  induction 1 as [|c cols (v & Hl & Hc) _ IH]; intros Hg; [by exists []|].
  apply Forall_cons in Hg as [Hg Hgs]. destruct (IH Hgs) as (vals & Hv & Hf).
  exists (v :: vals). simpl. unfold prepareValue. rewrite bool_decide_false by done.
  rewrite Hl, Hv. simpl. by split; [|constructor].
Qed.

(** Names of lower case letters and underscores are valid. *)
Definition plain_rune (r : Z) : Prop := 97 <= r <= 122 \/ r = 95.

Lemma plain_first r : plain_rune r -> ident_first r = true.
Proof.
  unfold plain_rune, ident_first. intros Hr. rewrite is_L_ascii by lia.
  destruct (Z.eqb_spec r 95); [by rewrite orb_true_r|].
  assert ((97 <=? r) && (r <=? 122) = true) as -> by lia. by rewrite orb_true_r.
Qed.

Lemma plain_rest r : plain_rune r -> ident_rest r = true.
Proof.
  intros Hr%plain_first. unfold ident_first in Hr. unfold ident_rest.
  apply orb_true_iff in Hr as [->| ->]; by rewrite ?orb_true_r.
Qed.

Lemma Validate_plain name rs :
  name <> "" -> runes name = Some rs -> Forall plain_rune rs ->
  (String.length name <= 128)%nat -> (length rs <= 128)%nat -> Validate name = None.
Proof.
  intros Hne Hr Hp Hl Hlr. unfold Validate, MaxIdentLen. rewrite bool_decide_false, Hr by done.
  destruct (128 <? _) eqn:E; [lia|]. destruct rs as [|r rs].
  { destruct name; [done|]. unfold runes in Hr. cbn -[decode_rune] in Hr.
    destruct (decode_rune _) as [[? ?]|]; [|done]. by apply fmap_Some in Hr as (? & _ & ?). }
  apply Forall_cons in Hp as [Hf Hrest]. simpl. rewrite plain_first by done. simpl in Hlr.
  assert (forallb ident_rest rs = true) as ->.
  { apply forallb_forall. intros x Hx%list_elem_of_In. apply plain_rest. by eapply Forall_forall in Hrest. }
  by rewrite (proj2 (Nat.leb_le _ _)) by lia.
Qed.

Ltac valid_name :=
  eapply Validate_plain; [done|reflexivity
    |repeat (apply Forall_cons; split; [unfold plain_rune; vm_compute; intuition discriminate|]);
     apply Forall_nil_2|vm_compute; lia|vm_compute; lia].

Lemma telemetry_names_valid name :
  name ∈ map col_Name (Modbus.columns ++ Opcua.columns) -> Validate name = None.
Proof.
  intros H. simpl in H.
  repeat (apply elem_of_cons in H as [->|H]; [valid_name|]). by apply not_elem_of_nil in H.
Qed.

Lemma columns_valid cols :
  Forall (fun c => Validate (col_Name c) = None) cols ->
  is_ok (column_defs cols) = true /\ validate_columns cols = None.
Proof.
  induction 1 as [|c cols Hc _ [IH1 IH2]]; [done|]. simpl. rewrite Hc, IH2.
  by destruct (column_defs cols).
Qed.

(** What the sink does with a batch: the table can be created with its
    columns, and each row becomes one value per column, of the type of the
    column or NULL where the column allows it, and the load timestamp. *)
Definition storable (cols : list Column) (b : Batch) : Prop :=
  b_Columns b = cols /\ is_ok (column_defs cols) = true /\ validate_columns cols = None
  /\ Forall (fun row => dom row = list_to_set (map col_Name cols)
       /\ forall ts, exists vals, row_values guid_scan cols row ts = Ok (vals ++ [ATime ts])
            /\ Forall2 cell_ok cols vals) (b_Rows b).

Lemma storable_rows cols rows :
  cols = Modbus.columns \/ cols = Opcua.columns ->
  Forall (row_ok cols) rows -> storable cols (mkBatch cols rows).
Proof.
  intros Hc Hr. destruct (columns_valid cols) as [H1 H2].
  { apply Forall_forall. intros c Hin. apply telemetry_names_valid. rewrite map_app, elem_of_app.
    destruct Hc as [->| ->]; [left|right]; by apply list_elem_of_fmap_2. }
  split_and!; [done..|]. eapply Forall_impl; [exact Hr|]. intros row [Hd Hf]. split; [done|].
  intros ts. apply row_values_ok; [done|]. destruct Hc as [->| ->]; by repeat constructor.
Qed.

End Sink.

Section Rows.
Context {U : UnicodeTables} (guid_scan : string -> result string).
Context {C D : Type} `{HC : Modbus.ModbusClient C} `{HD : Opcua.UAClient D}.
Context (FormatTime : Time -> string) (Sprintf_v : any -> string).
Context (tags : option (Z -> M C (result (list ModbusPoint)))).
Context (nodes : option (Z -> M D (result (list OPCUAPoint)))).

Lemma modbus_storable load ts c :
  match (Modbus.Read tags load ts c).2 with
  | Some (_, p) => Forall (fun b => storable guid_scan Modbus.columns b
                                    /\ Forall finite_num (b_Rows b)) (batches_of p)
  | None => True
  end.
Proof.
  destruct (Modbus.Read tags load ts c) as [c' [[ms p]|]] eqn:H; [|done]. simpl.
  unfold Modbus.Read in H. destruct tags as [list_tags|]; [|unfold retM in H; by simplify_eq].
  apply bindM_inv in H as (c1 & r & _ & H).
  destruct r as [[|t ts']|]; [unfold retM in H; by simplify_eq| |unfold retM in H; by simplify_eq].
  apply bindM_inv in H as (c2 & rs & Hrs & H). unfold retM in H.
  destruct rs as [[rows n]|]; simplify_eq. apply read_tags_typed in Hrs. simpl.
  constructor; [|constructor]. split.
  - apply storable_rows; [by left|]. eapply Forall_impl; [exact Hrs|]. by intros row [? _].
  - simpl. eapply Forall_impl; [exact Hrs|]. by intros row [_ ?].
Qed.

Lemma opcua_storable load ts d :
  match (Opcua.Read FormatTime Sprintf_v nodes load ts d).2 with
  | Some (_, p) => Forall (storable guid_scan Opcua.columns) (batches_of p)
  | None => True
  end.
Proof.
  assert (Hemit : forall acc, Forall (row_ok Opcua.columns) acc.1 ->
    Forall (storable guid_scan Opcua.columns) (batches_of (Opcua.emit_rows acc))).
  { intros acc Hr. simpl. constructor; [|constructor]. apply storable_rows; [by right|done]. }
  destruct (Opcua.Read _ _ nodes load ts d) as [d' [[ms p]|]] eqn:H; [|done]. simpl.
  unfold Opcua.Read in H. destruct nodes as [list_nodes|]; [|unfold retM in H; by simplify_eq].
  apply bindM_inv in H as (d1 & r & _ & H).
  destruct r as [[|n ns]|]; [unfold retM in H; by simplify_eq| |unfold retM in H; by simplify_eq].
  destruct (Opcua.parse_nodes (n :: ns)) as [ids req]. destruct req as [|q req].
  - unfold retM in H. destruct (Opcua.walk _ _ _ _ _ _ _ _) eqn:Ew; simplify_eq.
    eapply Hemit, walk_ok; [|exact Ew]. by apply Forall_nil.
  - apply bindM_inv in H as (d2 & rr & _ & H). unfold retM in H. destruct rr as [results|e].
    + destruct (Opcua.walk _ _ _ _ _ _ _ _) eqn:Ew; simplify_eq.
      eapply Hemit, walk_ok; [|exact Ew]. by apply Forall_nil.
    + simplify_eq. apply Hemit, bad_rows_ok. by apply Forall_nil.
Qed.

(** C33. Telemetry rows are well typed up to the table.  Whatever the devices
    answer, every row of a Modbus or OPC UA polling cycle has exactly the
    columns that the source declares; the sink can create the table with these
    columns, and hands each row to the bulk copy as one value per column, of the
    column's type, with NULL only where the column is nullable, followed by the
    load timestamp.  Modbus numbers are finite. *)
Theorem telemetry_rows_typed load ts c d :
  match (Modbus.Read tags load ts c).2 with
  | Some (_, p) => Forall (fun b => storable guid_scan Modbus.columns b
                                    /\ Forall finite_num (b_Rows b)) (batches_of p)
  | None => True
  end
  /\ match (Opcua.Read FormatTime Sprintf_v nodes load ts d).2 with
     | Some (_, p) => Forall (storable guid_scan Opcua.columns) (batches_of p)
     | None => True
     end.
Proof. split; [apply modbus_storable|apply opcua_storable]. Qed.

(** OPC UA does not make the check that Modbus makes: a NaN that a server
    reports is handed on as a good value, which a SQL Server float rejects
    together with the batch. *)
Theorem opcua_passes_nan n t :
  let row := Opcua.value_row FormatTime Sprintf_v n
               (Opcua.mkDataValue Opcua.StatusOK (Some (AFloat64 S754_nan)) t t) t in
  row !! "quality" = Some (AString "good") /\ row !! "value_num" = Some (AFloat64 S754_nan).
Proof.
  unfold Opcua.value_row. simpl. rewrite Z.eqb_refl. simpl. unfold Opcua.qualityFromStatus.
  rewrite Z.eqb_refl. split; [reflexivity|]. unfold Opcua.scaled.
  by destruct (op_Scale n), (op_Offset n).
Qed.


(** Both polls honour the handler's error. *)
Lemma polls_abort load ts c d :
  match (Modbus.Read tags load ts c).2 with Some (_, p) => aborts_on_error p | None => True end
  /\ match (Opcua.Read FormatTime Sprintf_v nodes load ts d).2 with
     | Some (_, p) => aborts_on_error p
     | None => True
     end.
Proof.
  unfold Modbus.Read, Opcua.Read, bindM, retM. split; repeat case_match; simplify_eq/=; try done;
    (split; [intros err; by eexists|done]).
Qed.
End Rows.
End Telemetry.
