(* ===== verification/SourceConn.v ===== *)
(** * Connections of the sources (New, Open, Ping and Close of the packages
    under internal/sources)

    The source objects with the client each of them holds, as a driver for the
    session code of Pool: [Build] goes through the registry, [Open], [Ping] and
    [Close] are those of the object's package.  Dialling and pinging are calls
    of database/sql and the client libraries, parameters here; reading is the
    subject of SqlSource, Modbus and Opcua and may be any function here. *)

From S2P Require Import Prelude.
From S2P Require Import GoStrings.
From S2P Require Import Contracts.
From S2P Require Import Registry.
From S2P Require Import Pool.
From S2P Require Import PoolProofs.
From S2P Require Import SqlSource.
From S2P Require Import Modbus.
From S2P Require Import Opcua.
From Stdlib Require Import ZArith Lia.

Module SourceConn.
Import Contracts.

(** A client object: a [sql.DB], a Modbus client or an OPC UA client, made
    with these arguments. *)
Inductive Client :=
  | SqlDB (driver dsn : string)
  | ModbusClient (url : string) (timeout : Duration)
  | UaClient (endpoint : string) (opts : list Opcua.Option).

(** The client libraries. *)
Class Net (N : Type) := {
  sql_Open : string -> string -> M N (option error);
  mb_NewClient : string -> Duration -> M N (option error);
  ua_NewClient : string -> list Opcua.Option -> M N (option error);
  (** [PingContext] of a database, [Open] or [Connect] of a client *)
  dial : Client -> M N (option error);
  (** the read of the server status node *)
  ua_read_status : Client -> M N (option error);
  client_Close : Client -> M N (option error);
}.

(** The struct of a source.  [o_clients] are all client objects that its [Open]
    ever made, each with whether it is open now: a [sql.DB] is from [sql.Open] on,
    the other clients from a successful connect on, all of them until they are
    closed.  [o_client] is the field [s.db] or [s.client]: the one of them that
    the struct refers to. *)
Record Object := mkObject {
  o_src : Registry.Source;
  o_clients : list (Client * bool);
  o_client : option nat;
}.

Definition held (o : Object) : option (Client * bool) := i ← o_client o; o_clients o !! i.

Section Driver.
Context {N : Type} `{HN : Net N}.

Record World := mkWorld {
  net : N;
  objects : gmap Pool.Src Object;
}.

Definition on_net {A} (m : M N A) : M World A := fun w =>
  let '(n, a) := m (net w) in (mkWorld n (objects w), a).

(** A change of the object [s]. *)
Definition update (s : Pool.Src) (f : Object -> Object) : M World unit := fun w =>
  match objects w !! s with
  | None => (w, tt)
  | Some o => (mkWorld (net w) (<[s := f o]> (objects w)), tt)
  end.

(** A new client object of [s]: its index. *)
Definition new_client (s : Pool.Src) (c : Client) (is_open : bool) : M World nat := fun w =>
  let i := match objects w !! s with None => 0%nat | Some o => length (o_clients o) end in
  let '(w', _) := update s (fun o =>
    mkObject (o_src o) (o_clients o ++ [(c, is_open)]) (o_client o)) w in
  (w', i).

Definition set_open (s : Pool.Src) (i : nat) (is_open : bool) : M World unit :=
  update s (fun o =>
    mkObject (o_src o) (alter (fun c => (c.1, is_open)) i (o_clients o)) (o_client o)).

(** [s.db = db], [s.client = client] *)
Definition assign (s : Pool.Src) (i : nat) : M World unit :=
  update s (fun o => mkObject (o_src o) (o_clients o) (Some i)).

(** [Open] or [Connect] of a client: it is open when the call succeeds. *)
Definition connect (s : Pool.Src) (i : nat) (c : Client) : M World (option error) :=
  e <~ on_net (dial c) ;;
  match e with
  | Some err => retM (Some err)
  | None => set_open s i true ~;; retM None
  end.

Definition close_client (s : Pool.Src) (i : nat) (c : Client) : M World (option error) :=
  e <~ on_net (client_Close c) ;;
  set_open s i false ~;;
  retM e.

(** ** Open of each package *)

Definition SqlServer_Open (s : Pool.Src) (src : Registry.Source) : M World (option error) :=
  match SqlSource.SqlServer.buildDSN (sc_Params (Registry.s_cfg src)) with
  | Err e => retM (Some e)
  | Ok dsn =>
      checkN (errorf "open sqlserver source") (on_net (sql_Open "sqlserver" dsn))
        (db <~ new_client s (SqlDB "sqlserver" dsn) true ;;
         checkN (errorf "ping sqlserver source") (on_net (dial (SqlDB "sqlserver" dsn)))
           (assign s db ~;; retM None))
  end.

Definition Postgres_Open (s : Pool.Src) (src : Registry.Source) : M World (option error) :=
  match SqlSource.Postgres.buildDSN (sc_Params (Registry.s_cfg src)) with
  | Err e => retM (Some e)
  | Ok dsn =>
      checkN (errorf "open postgres source") (on_net (sql_Open "pgx" dsn))
        (db <~ new_client s (SqlDB "pgx" dsn) true ;;
         e <~ on_net (dial (SqlDB "pgx" dsn)) ;;
         match e with
         | Some err =>
             close_client s db (SqlDB "pgx" dsn) ~;; retM (Some (errorf "ping postgres source" err))
         | None => assign s db ~;; retM None
         end)
  end.

Definition Modbus_Open (s : Pool.Src) (src : Registry.Source) : M World (option error) :=
  match Modbus.open_config (Registry.s_cfg src) with
  | Err e => retM (Some e)
  | Ok (url, timeout) =>
      checkN (errorf "build modbus client") (on_net (mb_NewClient url timeout))
        (client <~ new_client s (ModbusClient url timeout) false ;;
         checkN (errorf "open modbus client") (connect s client (ModbusClient url timeout))
           (assign s client ~;; retM None))
  end.

Definition Opcua_Open (s : Pool.Src) (src : Registry.Source) : M World (option error) :=
  match Opcua.open_config (Registry.s_cfg src) with
  | Err e => retM (Some e)
  | Ok (endpoint, opts) =>
      checkN (errorf "new opcua client") (on_net (ua_NewClient endpoint opts))
        (client <~ new_client s (UaClient endpoint opts) false ;;
         checkN (errorf "connect opcua") (connect s client (UaClient endpoint opts))
           (assign s client ~;; retM None))
  end.

Definition package_Open (s : Pool.Src) (src : Registry.Source) : M World (option error) :=
  match Registry.s_package src with
  | Registry.SqlServer => SqlServer_Open s src
  | Registry.Postgres => Postgres_Open s src
  | Registry.Modbus => Modbus_Open s src
  | Registry.Opcua => Opcua_Open s src
  end.

(** ** The methods on objects *)

(** The driver's references are never nil. *)
Definition on_object {A} (s : Pool.Src) (nil : A) (f : Object -> M World A) : M World A := fun w =>
  match objects w !! s with None => (w, nil) | Some o => f o w end.

Definition Open (s : Pool.Src) : M World (option error) :=
  on_object s (Some "nil source") (fun o => package_Open s (o_src o)).

(** sqlserver calls the database without looking whether there is one: the
    panic of a nil database is given as an error. *)
Definition SqlServer_Ping (o : Object) : M World (option error) :=
  match held o with
  | None => retM (Some "runtime error: invalid memory address or nil pointer dereference")
  | Some (c, _) => on_net (dial c)
  end.

Definition Postgres_Ping (o : Object) : M World (option error) :=
  match held o with
  | None => retM (Some "source not open")
  | Some (c, _) => on_net (dial c)
  end.

(** Modbus has no ping. *)
Definition Modbus_Ping (o : Object) : M World (option error) :=
  match held o with
  | None => retM (Some "source not open")
  | Some _ => retM None
  end.

Definition Opcua_Ping (o : Object) : M World (option error) :=
  match held o with
  | None => retM (Some "source not open")
  | Some (c, _) => on_net (ua_read_status c)
  end.

Definition Ping (s : Pool.Src) : M World (option error) :=
  on_object s (Some "nil source") (fun o =>
    match Registry.s_package (o_src o) with
    | Registry.SqlServer => SqlServer_Ping o
    | Registry.Postgres => Postgres_Ping o
    | Registry.Modbus => Modbus_Ping o
    | Registry.Opcua => Opcua_Ping o
    end).

(** [if s.client != nil { return s.client.Close() }; return nil]; a closed
    client stays in the struct. *)
Definition close_held (s : Pool.Src) (o : Object) : M World (option error) :=
  match o_client o with
  | None => retM None
  | Some i =>
      match o_clients o !! i with
      | None => retM None
      | Some (c, _) => close_client s i c
      end
  end.

Definition SqlServer_Close : Pool.Src -> Object -> M World (option error) := close_held.
Definition Postgres_Close : Pool.Src -> Object -> M World (option error) := close_held.
Definition Modbus_Close : Pool.Src -> Object -> M World (option error) := close_held.
Definition Opcua_Close : Pool.Src -> Object -> M World (option error) := close_held.

Definition Close (s : Pool.Src) : M World (option error) :=
  on_object s None (fun o =>
    match Registry.s_package (o_src o) with
    | Registry.SqlServer => SqlServer_Close s o
    | Registry.Postgres => Postgres_Close s o
    | Registry.Modbus => Modbus_Close s o
    | Registry.Opcua => Opcua_Close s o
    end).

(** The packages close alike. *)
Lemma Close_eq s w :
  Close s w = on_object s None (fun o => close_held s o) w.
Proof. unfold Close, on_object. destruct (objects w !! s) as [o|]; [|done]. by destruct (Registry.s_package _). Qed.

(** [sources.Build] with the factories of the imported packages. *)
Definition packages : list Registry.Package :=
  [Registry.Modbus; Registry.Opcua; Registry.Postgres; Registry.SqlServer].

Definition Build (cfg : SourceConfig) : M World (result Pool.Src) := fun w =>
  match Registry.Build (Registry.inits packages) cfg with
  | Err e => (w, Err e)
  | Ok src =>
      let s := fresh (dom (objects w)) in
      (mkWorld (net w) (<[s := mkObject src [] None]> (objects w)), Ok s)
  end.

(** [Read] of the packages, which uses the client and neither closes nor
    replaces it. *)
Context (read : Object -> LoadConfig -> M N ReadProg).

Definition Read (s : Pool.Src) (load : LoadConfig) : M World ReadProg :=
  on_object s (Done zero_result (Some "nil source"))
    (fun o => on_net (read o load)).

#[export] Instance packages_driver : Pool.SourceDriver World := {|
  Pool.Build := Build;
  Pool.Open := Open;
  Pool.Close := Close;
  Pool.Ping := Ping;
  Pool.Read := Read;
|}.

End Driver.
End SourceConn.
