(* ===== verification/SourceConnProofs.v ===== *)
(** * Connections of the sources: properties

    The source packages meet the contract that the sessions are proved
    against, so the theorems of PoolProofs and RunnerProofs hold for them; and
    what a failed [Open] leaves behind. *)

From S2P Require Import Prelude.
From S2P Require Import GoStrings.
From S2P Require Import Contracts.
From S2P Require Import Registry.
From S2P Require Import Pool.
From S2P Require Import PoolProofs.
From S2P Require Import SqlSource.
From S2P Require Import Modbus.
From S2P Require Import Opcua.
From S2P Require Import SourceConn.
From Stdlib Require Import ZArith Lia.

Module SourceConnProofs.
Import Contracts SourceConn.

#[local] Obligation Tactic := idtac.

Section Proofs.
Context {N : Type} `{HN : Net N}.
Context (read : Object -> LoadConfig -> M N ReadProg).

Abbreviation World := (@World N).

#[local] Instance driver : Pool.SourceDriver World := packages_driver read.

Definition has_open (o : Object) : Prop :=
  match held o with Some (_, true) => True | _ => False end.

#[local] Instance has_open_dec o : Decision (has_open o).
Proof. unfold has_open. destruct (held o) as [[c [|]]|]; apply _. Defined.

(** The sources whose client is open. *)
Definition open_sources (w : World) : gset Pool.Src :=
  dom (filter (fun kv => has_open kv.2) (objects w)).

Lemma elem_of_open_sources s w :
  s ∈ open_sources w <-> exists o, objects w !! s = Some o /\ has_open o.
Proof.
  unfold open_sources. rewrite elem_of_dom. unfold is_Some. setoid_rewrite map_lookup_filter_Some.
  naive_solver.
Qed.

Lemma on_net_inv {A} (m : M N A) w w' a : on_net m w = (w', a) -> objects w' = objects w.
Proof. unfold on_net. destruct (m (net w)). by intros [= <- <-]. Qed.

(** The objects are those of [w0], but for [s], which is [o] now. *)
Definition at_object (w0 : World) (s : Pool.Src) (o : Object) (w : World) : Prop :=
  objects w = <[s := o]> (objects w0).

Lemma at_object_init w s o : objects w !! s = Some o -> at_object w s o w.
Proof. intros H. unfold at_object. by rewrite insert_id. Qed.

Lemma at_object_net {A} (m : M N A) w0 s o w w' a :
  on_net m w = (w', a) -> at_object w0 s o w -> at_object w0 s o w'.
Proof. unfold at_object. by intros ->%on_net_inv. Qed.

Lemma at_object_update w0 s o f w w' u :
  update s f w = (w', u) -> at_object w0 s o w -> at_object w0 s (f o) w'.
Proof.
  unfold update, at_object. intros H Hw. rewrite Hw, lookup_insert_eq in H. simplify_eq. simpl.
  by rewrite insert_insert_eq.
Qed.

Lemma at_object_new w0 s o c b w w' i :
  new_client s c b w = (w', i) -> at_object w0 s o w ->
  i = length (o_clients o)
  /\ at_object w0 s (mkObject (o_src o) (o_clients o ++ [(c, b)]) (o_client o)) w'.
Proof.
  unfold new_client. intros H Hw. destruct (update _ _ w) as [w1 u] eqn:E. simplify_eq.
  split; [by rewrite Hw, lookup_insert_eq|]. by eapply at_object_update in E.
Qed.

Lemma at_object_set w0 s src l c b b' k w w' u :
  set_open s (length l) b' w = (w', u) ->
  at_object w0 s (mkObject src (l ++ [(c, b)]) k) w ->
  at_object w0 s (mkObject src (l ++ [(c, b')]) k) w'.
Proof.
  intros H Hw. eapply at_object_update in H; [|exact Hw]. simpl in H.
  rewrite <- (Nat.add_0_r (length l)), alter_app_r in H. exact H.
Qed.

Lemma at_object_assign w0 s o i w w' u :
  assign s i w = (w', u) -> at_object w0 s o w ->
  at_object w0 s (mkObject (o_src o) (o_clients o) (Some i)) w'.
Proof. intros H Hw. by eapply at_object_update in H. Qed.

(** The client of a source: the configured address, with the package's driver. *)
Definition client_for (src : Registry.Source) : result Client :=
  let cfg := Registry.s_cfg src in
  match Registry.s_package src with
  | Registry.SqlServer =>
      match SqlSource.SqlServer.buildDSN (sc_Params cfg) with
      | Ok dsn => Ok (SqlDB "sqlserver" dsn) | Err e => Err e end
  | Registry.Postgres =>
      match SqlSource.Postgres.buildDSN (sc_Params cfg) with
      | Ok dsn => Ok (SqlDB "pgx" dsn) | Err e => Err e end
  | Registry.Modbus =>
      match Modbus.open_config cfg with
      | Ok (url, timeout) => Ok (ModbusClient url timeout) | Err e => Err e end
  | Registry.Opcua =>
      match Opcua.open_config cfg with
      | Ok (endpoint, opts) => Ok (UaClient endpoint opts) | Err e => Err e end
  end.

(** What [Open] of a package did to its object.  On success there is one more
    client, open, and the object refers to it.  On failure the object refers to
    what it did before, and a client that was made is not open, but for the
    database of sqlserver. *)
Definition opened (o : Object) (e : option error) (o' : Object) : Prop :=
  match e with
  | None => exists c, client_for (o_src o) = Ok c
      /\ o' = mkObject (o_src o) (o_clients o ++ [(c, true)]) (Some (length (o_clients o)))
  | Some _ => o' = o
      \/ (exists c, o' = mkObject (o_src o) (o_clients o ++ [(c, false)]) (o_client o))
      \/ Registry.s_package (o_src o) = Registry.SqlServer
         /\ exists dsn, o' = mkObject (o_src o) (o_clients o ++ [(SqlDB "sqlserver" dsn, true)]) (o_client o)
  end.

(** Runs the calls of an [Open] one by one and follows the object. *)
Ltac open_step :=
  match goal with
  | H : checkN _ _ _ _ = _ |- _ => unfold checkN in H
  | H : connect _ _ _ _ = _ |- _ => unfold connect in H
  | H : close_client _ _ _ _ = _ |- _ => unfold close_client in H
  | H : bindM _ _ _ = _ |- _ => apply bindM_inv in H as (? & ? & ? & H)
  | H : retM _ _ = _ |- _ => unfold retM in H; simplify_eq
  | H : on_net _ ?w = _, Hw : at_object _ _ _ ?w |- _ =>
      pose proof (at_object_net _ _ _ _ _ _ _ H Hw); clear H Hw
  | H : new_client _ _ _ ?w = _, Hw : at_object _ _ _ ?w |- _ =>
      destruct (at_object_new _ _ _ _ _ _ _ _ H Hw) as [? ?]; clear H Hw; subst
  | H : set_open _ _ _ ?w = _, Hw : at_object _ _ _ ?w |- _ =>
      pose proof (at_object_set _ _ _ _ _ _ _ _ _ _ _ H Hw); clear H Hw
  | H : assign _ _ ?w = _, Hw : at_object _ _ _ ?w |- _ =>
      pose proof (at_object_assign _ _ _ _ _ _ _ H Hw); clear H Hw; cbn [o_src o_clients o_client] in *
  | H : (match ?x with _ => _ end) _ = _ |- _ => destruct x eqn:?
  end.

Lemma package_Open_spec s o w w' e :
  objects w !! s = Some o -> package_Open s (o_src o) w = (w', e) ->
  exists o', at_object w s o' w' /\ opened o e o'.
Proof.
  intros Hw%at_object_init H.
  unfold package_Open, SqlServer_Open, Postgres_Open, Modbus_Open, Opcua_Open in H.
  unfold opened, client_for.
  repeat open_step; eexists; (split; [eassumption|]); simpl; rewrite ?Heqp, ?Heqr; eauto 6.
Qed.

Lemma Open_spec s w w' e :
  SourceConn.Open s w = (w', e) ->
  match objects w !! s with
  | Some o => exists o', at_object w s o' w' /\ opened o e o'
  | None => w' = w /\ is_Some e
  end.
Proof.
  unfold SourceConn.Open, on_object. destruct (objects w !! s) as [o|] eqn:Hs.
  - by apply package_Open_spec.
  - intros [= <- <-]. split; [done|by eexists].
Qed.

Lemma alter_none {A} (f : A -> A) (l : list A) (i : nat) : l !! i = None -> alter f i l = l.
Proof. revert i. induction l as [|x l IH]; intros [|i]; simpl; [done..|]. intros H. f_equal. by apply IH. Qed.

(** [Close] closes the client that the object refers to. *)
Definition closed (o : Object) : Object :=
  match o_client o with
  | None => o
  | Some i => mkObject (o_src o) (alter (fun c => (c.1, false)) i (o_clients o)) (o_client o)
  end.

Lemma Close_objects s w :
  objects (SourceConn.Close s w).1
  = match objects w !! s with Some o => <[s := closed o]> (objects w) | None => objects w end.
Proof.
  rewrite Close_eq. unfold on_object, close_held, closed.
  destruct (objects w !! s) as [o|] eqn:Hs; [|done]. destruct (o_client o) as [i|] eqn:Hi.
  2: { simpl. by rewrite insert_id. }
  destruct (o_clients o !! i) as [[c b]|] eqn:Hc.
  2: { simpl. rewrite alter_none by done. destruct o. simpl in *. subst. by rewrite insert_id. }
  destruct (close_client s i c w) as [w' e] eqn:E. unfold close_client in E.
  apply bindM_inv in E as (w1 & e1 & E1 & E). apply bindM_inv in E as (w2 & u & E2 & E).
  unfold retM in E. simplify_eq. apply at_object_init in Hs.
  eapply at_object_net in E1; [|exact Hs]. eapply at_object_update in E2; [|exact E1].
  simpl. rewrite E2. by rewrite Hi.
Qed.

Lemma Ping_objects s w : objects (SourceConn.Ping s w).1 = objects w.
Proof.
  unfold SourceConn.Ping, SqlServer_Ping, Postgres_Ping, Modbus_Ping, Opcua_Ping, on_object, retM.
  repeat case_match; simplify_eq/=; try done;
    match goal with |- context [on_net ?m w] => destruct (on_net m w) eqn:E end;
    by apply on_net_inv in E.
Qed.

Lemma Read_objects s cfg w : objects (SourceConn.Read read s cfg w).1 = objects w.
Proof.
  unfold SourceConn.Read, on_object. destruct (objects w !! s) as [o|]; [|done].
  destruct (on_net _ w) eqn:E. by apply on_net_inv in E.
Qed.

(** The client that an object refers to is open after a successful [Open], not
    after a [Close], and as it was after a failed [Open] of a new object. *)
Lemma opened_has_open o o' : opened o None o' -> has_open o'.
Proof. intros (c & _ & ->). unfold has_open, held. simpl. by rewrite list_lookup_middle. Qed.

Lemma closed_not_open o : ~ has_open (closed o).
Proof.
  unfold has_open, held, closed. destruct (o_client o) as [i|] eqn:Hi; simpl; rewrite ?Hi; simpl; [|by intros []].
  rewrite list_lookup_alter_eq. destruct (o_clients o !! i) as [[c b]|]; simpl; by intros [].
Qed.

Lemma open_sources_objects w w' : objects w' = objects w -> open_sources w' = open_sources w.
Proof. unfold open_sources. by intros ->. Qed.

(** The four packages behind the registry are a driver as the sessions expect
    it. *)
#[export] Program Instance packages_driver_spec : Pool.SourceDriverSpec World := {|
  Pool.conns := open_sources;
|}.
Next Obligation.
  intros cfg w w' r. simpl. unfold SourceConn.Build. destruct (Registry.Build _ cfg) as [src|e].
  - intros [= <- <-]. set (s := fresh (dom (objects w))).
    assert (Hs : objects w !! s = None) by apply not_elem_of_dom, is_fresh. split.
    + apply set_eq. intros x. rewrite !elem_of_open_sources. simpl.
      destruct (decide (s = x)) as [<-|]; [|by rewrite lookup_insert_ne].
      rewrite lookup_insert_eq, Hs. split; intros (o & [= <-] & []).
    + intros x [= <-]. rewrite elem_of_open_sources, Hs. by intros (o & ? & _).
  - by intros [= <- <-].
Qed.
Next Obligation.
  intros s w w' e H. simpl in H. apply Open_spec in H.
  destruct (objects w !! s) as [o|]; [|by destruct H as [-> [? ->]]].
  destruct H as (o' & Ho & Hopen). split.
  - apply set_eq. intros x. rewrite !elem_of_difference, !elem_of_open_sources, Ho.
    rewrite not_elem_of_singleton. destruct (decide (s = x)) as [<-|]; [naive_solver|].
    by rewrite lookup_insert_ne.
  - intros ->. rewrite elem_of_open_sources, Ho, lookup_insert_eq. eauto using opened_has_open.
Qed.
Next Obligation.
  intros s w. simpl. pose proof (Close_objects s w) as Ho. apply set_eq. intros x.
  rewrite elem_of_difference, not_elem_of_singleton, !elem_of_open_sources, Ho.
  destruct (objects w !! s) as [o|] eqn:Hs; [|naive_solver].
  destruct (decide (s = x)) as [<-|Hne].
  - rewrite lookup_insert_eq. split; [|by intros [_ []]].
    intros (o' & [= <-] & []%closed_not_open).
  - rewrite lookup_insert_ne by done. naive_solver.
Qed.
Next Obligation. intros s w. apply open_sources_objects, Ping_objects. Qed.
Next Obligation. intros s cfg w. apply open_sources_objects, Read_objects. Qed.

Lemma packages_all p : p ∈ packages.
Proof. unfold packages. destruct p; set_solver. Qed.

Lemma Build_inv cfg (w w' : World) r :
  SourceConn.Build cfg w = (w', r) ->
  match r with
  | Err _ => w' = w
  | Ok s => exists p, Registry.Kind p = sc_SourceType cfg /\ objects w !! s = None
      /\ w' = mkWorld (net w) (<[s := mkObject (Registry.mkSource p cfg) [] None]> (objects w))
  end.
Proof.
  unfold SourceConn.Build, Registry.Build.
  destruct (Registry.inits packages !! sc_SourceType cfg) as [f|] eqn:E; [|by intros [= <- <-]].
  assert (Hp : exists p, Registry.Kind p = sc_SourceType cfg /\ f = Registry.New p).
  { destruct (decide (Exists (fun p => Registry.Kind p = sc_SourceType cfg) packages)) as [Hx|Hx].
    - apply Exists_exists in Hx as (p & Hin & Hk). exists p. split; [done|].
      pose proof (Registry.inits_lookup packages p Hin) as Hl. rewrite Hk in Hl.
      cbv delta [Registry.SourceFactory] in *. congruence.
    - rewrite Registry.inits_other in E; [done|]. intros p Hk. apply Hx, Exists_exists.
      exists p. split; [apply packages_all|done]. }
  destruct Hp as (p & Hk & ->). rewrite Registry.New_eq. intros [= <- <-]. exists p. split_and!; [done| |done].
  apply not_elem_of_dom, is_fresh.
Qed.

(** A new object after [Open], and after the [Close] that follows when it
    failed. *)
Definition new_object (p : Registry.Package) (cfg : SourceConfig) : Object :=
  mkObject (Registry.mkSource p cfg) [] None.

Lemma build_open_inv cfg (w w' : World) r :
  Pool.build_open cfg w = (w', r) ->
  (objects w' = objects w /\ is_ok r = false)
  \/ exists s p o' e, Registry.Kind p = sc_SourceType cfg /\ objects w !! s = None
      /\ opened (new_object p cfg) e o' /\ at_object w s o' w'
      /\ match e with None => r = Ok s | Some err => r = Err err end.
Proof.
  intros H. unfold Pool.build_open in H. apply bindM_inv in H as (w1 & r1 & Hb & H).
  apply Build_inv in Hb. destruct r1 as [s|e]; [|unfold retM in H; simplify_eq; by left].
  destruct Hb as (p & Hk & Hn & ->). apply bindM_inv in H as (w2 & e & Ho & H).
  apply Open_spec in Ho. simpl in Ho. rewrite lookup_insert_eq in Ho. destruct Ho as (o' & Ho & Hop).
  assert (Hat : at_object w s o' w2) by (unfold at_object; rewrite Ho; simpl; by rewrite insert_insert_eq).
  right. exists s, p, o', e. split_and!; [done|done|done| |];
    destruct e as [err|]; try (unfold retM in H; by simplify_eq);
    apply bindM_inv in H as (w3 & e3 & Hcl & H); unfold retM in H; simplify_eq; [|done].
  pose proof (Close_objects s w2) as Hc. simpl in Hcl. rewrite Hcl, Hat, lookup_insert_eq in Hc.
  simpl in Hc. unfold at_object. rewrite Hc, Hat, insert_insert_eq. f_equal.
  destruct Hop as [->|[[c ->]|[_ [dsn ->]]]]; done.
Qed.

(** Building and opening a source touches no object that was there. *)
Lemma build_open_frame cfg (w w' : World) r s o :
  Pool.build_open cfg w = (w', r) -> objects w !! s = Some o -> objects w' !! s = Some o.
Proof.
  intros [[-> _]|(s1 & p & o' & e & _ & Hn & _ & Hat & _)]%build_open_inv Hs; [done|].
  rewrite Hat, lookup_insert_ne; congruence.
Qed.

(** [c], made by the object [s] as its client number [i], is open. *)
Definition client_open (w : World) (s : Pool.Src) (i : nat) (c : Client) : Prop :=
  exists o, objects w !! s = Some o /\ o_clients o !! i = Some (c, true).

Lemma client_open_at w s o w' s' i c :
  objects w !! s = None -> at_object w s o w' ->
  client_open w' s' i c
  <-> client_open w s' i c \/ (s' = s /\ o_clients o !! i = Some (c, true)).
Proof.
  unfold client_open. intros Hn ->. destruct (decide (s = s')) as [<-|].
  - rewrite lookup_insert_eq, Hn. naive_solver.
  - rewrite lookup_insert_ne by done. naive_solver.
Qed.

Lemma lookup_one (c c' : Client) b i : [(c, b)] !! i = Some (c', true) <-> i = 0%nat /\ c' = c /\ b = true.
Proof. destruct i as [|i]; simpl; [|by rewrite lookup_nil; naive_solver]. naive_solver. Qed.

(** C37. Opening a source through the registry, for every kind.  On success
    exactly the new source is connected, it is of the package that its kind
    names, it has the configuration it was asked for, and the client that it
    refers to is the only one that was opened.  On failure (unknown kind,
    missing parameters, refused connection) no source is connected that was not
    before, and every client that was opened on the way has been closed, except
    by sqlserver, whose failed ping leaves the database handle open.  No other
    source object is touched. *)
Theorem source_open_contained cfg (w : World) :
  let '(w', r) := Pool.build_open cfg w in
  (forall s o, objects w !! s = Some o -> objects w' !! s = Some o)
  /\ match r with
     | Ok s => (s ∉ open_sources w) /\ open_sources w' = {[s]} ∪ open_sources w
         /\ exists p c, Registry.Kind p = sc_SourceType cfg
              /\ client_for (Registry.mkSource p cfg) = Ok c
              /\ objects w' !! s = Some (mkObject (Registry.mkSource p cfg) [(c, true)] (Some 0%nat))
              /\ forall s' i c', client_open w' s' i c'
                   <-> client_open w s' i c' \/ (s' = s /\ i = 0%nat /\ c' = c)
     | Err _ => open_sources w' = open_sources w
         /\ ((forall s' i c', client_open w' s' i c' <-> client_open w s' i c')
             \/ sc_SourceType cfg = "sqlserver"
                /\ exists s dsn, forall s' i c', client_open w' s' i c'
                     <-> client_open w s' i c' \/ (s' = s /\ i = 0%nat /\ c' = SqlDB "sqlserver" dsn))
     end.
Proof.
  destruct (Pool.build_open cfg w) as [w' r] eqn:H. split; [by eauto using build_open_frame|].
  pose proof (PoolProofs.build_open_spec _ _ _ _ H) as Hc.
  apply build_open_inv in H as [[Ho Hr]|(s & p & o' & e & Hk & Hn & Hop & Hat & Hr)].
  { destruct r; [done|]. split; [exact Hc|]. left. unfold client_open. by rewrite Ho. }
  pose proof (client_open_at w s o' w') as Hopen. destruct e as [err|]; subst r.
  - split; [exact Hc|]. destruct Hop as [->|[[c ->]|[Hp [dsn ->]]]]; [left..|right].
    + intros s' i c'. rewrite Hopen by done. simpl. rewrite lookup_nil. naive_solver.
    + intros s' i c'. rewrite Hopen by done. simpl. rewrite lookup_one. naive_solver.
    + split; [rewrite <- Hk; cbn in Hp; by rewrite Hp|]. exists s, dsn. intros s' i c'. rewrite Hopen by done.
      simpl. rewrite lookup_one. naive_solver.
  - destruct Hc as [Hs Hc]. destruct Hop as (c & Hcl & ->). split_and!; [exact Hs|exact Hc|].
    exists p, c. split_and!; [done|done|by rewrite Hat, lookup_insert_eq|].
    intros s' i c'. rewrite Hopen by done. simpl. rewrite lookup_one. naive_solver.
Qed.

End Proofs.

(** ** A network in memory *)

(** Nothing answers; every dialled address is recorded. *)
#[export] Instance dead_net : Net (list Client) := {|
  sql_Open := fun _ _ n => (n, None);
  mb_NewClient := fun _ _ n => (n, None);
  ua_NewClient := fun _ _ n => (n, None);
  dial := fun c n => (c :: n, Some "connection refused");
  ua_read_status := fun _ n => (n, None);
  client_Close := fun _ n => (n, None);
|}.

Definition ex_params : gmap string string :=
  {[ "server" := "db"; "host" := "db"; "database" := "erp" ]}.

Definition ex_open (kind : string) : World * result Pool.Src :=
  @Pool.build_open _ (packages_driver (fun _ _ => retM (Done zero_result None)))
    (mkSourceConfig 1 kind "erp" ex_params) (mkWorld [] ∅).

(** The clients that are open in the end. *)
Definition left_open {N} (w : @SourceConn.World N) : list Client :=
  concat ((fun kv => (filter (fun c => c.2 = true) (o_clients kv.2)).*1) <$> map_to_list (objects w)).

(** Each failed attempt to open a sqlserver source leaves a database behind,
    the same attempt on a postgres source does not. *)
Theorem sqlserver_open_leaks :
  left_open (ex_open "postgres").1 = []
  /\ length (left_open (ex_open "sqlserver").1) = 1%nat
  /\ is_ok (ex_open "sqlserver").2 = false.
Proof. vm_compute. done. Qed.

End SourceConnProofs.
