(* ===== verification/System.v ===== *)
(** * The loader put together

    The runner over the source packages: reads go through the registry, the
    session and the connection that [Open] made, and the rows arrive in the
    sink.  [ReadsFrom] is what the runner needs to know of a session: that a
    leased source reads from the database its parameters name.  Both sessions
    discharge it, and with it delta runs are shown to deliver every source row
    exactly once into the target table. *)

From S2P Require Import Prelude.
From S2P Require Import GoStrings.
From S2P Require Import Sqlident.
From S2P Require Import Contracts.
From S2P Require Import Models.
From S2P Require Import Runner.
From S2P Require Import RunnerProofs.
From S2P Require Import Registry.
From S2P Require Import Pool.
From S2P Require Import PoolProofs.
From S2P Require Import PooledSession.
From S2P Require Import SqlSource.
From S2P Require Import SqlSourceProofs.
From S2P Require Import SourceConn.
From S2P Require Import SourceConnProofs.
From Stdlib Require Import ZArith Lia SpecFloat.

Module System.
Import GoStrings Contracts Metadata Runner RunnerProofs SqlSource SqlSourceProofs.

#[local] Obligation Tactic := idtac.

#[local] Arguments tbl {_ _ _ _} _ _.
#[local] Arguments num {_ _ _ _} _ _.
#[local] Arguments tbl_types {_ _ _ _} _.

Section System.
Context {U : Sqlident.UnicodeTables} {N : Type} `{HN : SourceConn.Net N}.
(** The databases behind the clients. *)
Context (sqldb : SourceConn.Client -> SqlDB N).
Context (FormatFloat : spec_float -> string) (FormatTime : Time -> string).
Context (ParseTime : string -> result Time).
(** The reads of modbus and opcua, which honour the handler's error
    ([Telemetry.polls_abort]). *)
Context (poll : SourceConn.Object -> LoadConfig -> M N ReadProg).
Context (Hpoll : forall o load n, aborts_on_error (poll o load n).2).

(** [Read] of the object's package, on its client.  The panic of a database
    that was never opened is given as an error. *)
Definition package_Read (o : SourceConn.Object) (load : LoadConfig) : M N ReadProg :=
  let on_db (read : SqlDB N -> M N ReadProg) : M N ReadProg :=
    match SourceConn.held o with
    | None => retM (failed "runtime error: invalid memory address or nil pointer dereference")
    | Some (c, _) => read (sqldb c)
    end in
  match Registry.s_package (SourceConn.o_src o) with
  | Registry.SqlServer => on_db (fun db => SqlServer.Read (HD := db) FormatFloat FormatTime load)
  | Registry.Postgres => on_db (fun db => Postgres.Read (HD := db) FormatFloat FormatTime ParseTime load)
  | Registry.Modbus | Registry.Opcua => poll o load
  end.

Lemma package_Read_aborts o load n : aborts_on_error (package_Read o load n).2.
Proof.
  unfold package_Read. destruct (Registry.s_package _); [| |apply Hpoll..];
    (destruct (SourceConn.held o) as [[c b]|]; [|done]).
  - exact (proj1 (sql_reads_abort (HD := sqldb c) FormatFloat FormatTime ParseTime load n)).
  - exact (proj2 (sql_reads_abort (HD := sqldb c) FormatFloat FormatTime ParseTime load n)).
Qed.

#[export] Instance sources : Pool.SourceDriver (@SourceConn.World N) :=
  SourceConn.packages_driver package_Read.

Lemma sources_abort s load w : aborts_on_error (Pool.Read s load w).2.
Proof.
  simpl. unfold SourceConn.Read, SourceConn.on_object. destruct (SourceConn.objects w !! s) as [o|]; [|done].
  unfold SourceConn.on_net. pose proof (package_Read_aborts o load (SourceConn.net w)).
  by destruct (package_Read _ _ _).
Qed.

(** ** The client of a SQL source *)

Definition dialect_kind (dl : dialect) : string :=
  match dl with SS => "sqlserver" | PG => "postgres" end.

Definition dialect_package (dl : dialect) : Registry.Package :=
  match dl with SS => Registry.SqlServer | PG => Registry.Postgres end.

(** The client that [Open] makes from the parameters. *)
Definition sql_client (dl : dialect) (params : gmap string string) : result SourceConn.Client :=
  match dl with
  | SS => match SqlServer.buildDSN params with
          | Ok dsn => Ok (SourceConn.SqlDB "sqlserver" dsn) | Err e => Err e end
  | PG => match Postgres.buildDSN params with
          | Ok dsn => Ok (SourceConn.SqlDB "pgx" dsn) | Err e => Err e end
  end.

(** The read of the dialect on the database [c]. *)
Definition read_db (c : SourceConn.Client) (dl : dialect) (load : LoadConfig) (n : N) : ReadProg :=
  (dialect_read (HD := sqldb c) FormatFloat FormatTime ParseTime dl load n).2.

(** A source object of the dialect that [Open] connected. *)
Definition connected (dl : dialect) (params : gmap string string) (o : SourceConn.Object) : Prop :=
  Registry.s_package (SourceConn.o_src o) = dialect_package dl
  /\ exists c, sql_client dl params = Ok c /\ SourceConn.held o = Some (c, true).

(** The read of a connected object. *)
Lemma connected_read dl params o load w s :
  connected dl params o -> SourceConn.objects w !! s = Some o ->
  exists c, sql_client dl params = Ok c
    /\ (Pool.Read s load w).2 = read_db c dl load (SourceConn.net w).
Proof.
  intros (Hp & c & Hc & Ho) Hs. exists c. split; [done|]. simpl.
  unfold SourceConn.Read, SourceConn.on_object. rewrite Hs.
  unfold SourceConn.on_net, package_Read, read_db. rewrite Hp, Ho.
  destruct dl; simpl; by match goal with |- context [let '(_, _) := ?x in _] => destruct x end.
Qed.

(** ** Sessions *)

(** What the runner relies on: a leased SQL source reads from the database
    that its parameters name.  [net_of] is the state of the databases, [sess_ok] is an invariant of the session,
    [cfg_ok] the configurations it supports. *)
Class ReadsFrom (S : Type) `{HSess : SourceSession S} := {
  net_of : S -> N;
  sess_ok : S -> Prop;
  cfg_ok : SourceConfig -> Prop;
  spec_Obtain_ok : forall cfg s, sess_ok s -> cfg_ok cfg -> sess_ok (Obtain cfg s).1;
  spec_read_ok : forall lease load s, sess_ok s -> sess_ok (src_read lease load s).1;
  spec_release_ok : forall lease inv s, sess_ok s -> sess_ok (release lease inv s).1;
  spec_aborts : forall lease load s, aborts_on_error (src_read lease load s).2;
  spec_reads : forall dl cfg s s' lease load,
    sess_ok s -> cfg_ok cfg -> Obtain cfg s = (s', Ok lease) -> sc_SourceType cfg = dialect_kind dl ->
    exists c, sql_client dl (sc_Params cfg) = Ok c
      /\ (src_read lease load s').2 = read_db c dl load (net_of s');
}.

Lemma dialect_package_kind dl p : Registry.Kind p = dialect_kind dl -> p = dialect_package dl.
Proof. by destruct dl, p. Qed.

(** A source that was built and opened is connected. *)
Lemma build_open_connected cfg w w' s :
  Pool.build_open cfg w = (w', Ok s) ->
  (exists p, sc_SourceType cfg = Registry.Kind p)
  /\ exists o, SourceConn.objects w' !! s = Some o
    /\ forall dl, sc_SourceType cfg = dialect_kind dl -> connected dl (sc_Params cfg) o.
Proof.
  intros [[_ Hr]|(s1 & p & o & e & Hk & _ & Hop & Hat & Hr)]%SourceConnProofs.build_open_inv; [done|].
  destruct e; simplify_eq. destruct Hop as (c & Hc & ->).
  split; [by exists p|]. eexists. split; [rewrite Hat; apply lookup_insert_eq|].
  intros dl Hd. rewrite Hd in Hk. apply dialect_package_kind in Hk. split; [done|].
  exists c. split; [|done]. unfold SourceConnProofs.client_for in Hc. simpl in Hc. rewrite Hk in Hc.
  by destruct dl.
Qed.

#[export] Program Instance Ephemeral_reads :
    ReadsFrom (@SourceConn.World N) (HSess := Pool.Ephemeral) := {|
  net_of := SourceConn.net;
  sess_ok := fun _ => True;
  cfg_ok := fun _ => True;
|}.
Next Obligation. done. Qed.
Next Obligation. done. Qed.
Next Obligation. done. Qed.
Next Obligation. intros lease load s. apply sources_abort. Qed.
Next Obligation.
  intros dl cfg s s' lease load _ _ Ho Hk.
  apply build_open_connected in Ho as (_ & o & Hs & Hc). eapply connected_read; eauto.
Qed.

(** ** The pool *)

Section Pooled.
#[local] Existing Instance SourceConnProofs.packages_driver_spec.
Context (digest : string -> string) `{Hdigest : !Inj (=) (=) digest} (now : nat -> Time).
Local Abbreviation PoolState := (@PooledSession.PoolState (@SourceConn.World N)).
Local Abbreviation Src := Pool.Src.

Definition nul_free_cfg (cfg : SourceConfig) : Prop :=
  PoolProofs.nul_free (ToLower (sc_SourceType cfg)) /\ PoolProofs.params_nul_free (sc_Params cfg).

(** The connection of an entry was made for a configuration with the entry's
    fingerprint. *)
Definition entry_ok (w : @SourceConn.World N) (ent : Pool.poolEntry) : Prop :=
  forall s, Pool.e_src ent = Some s -> exists cfg o,
    nul_free_cfg cfg /\ (exists p, sc_SourceType cfg = Registry.Kind p)
    /\ Pool.e_fp ent = Pool.fingerprint digest cfg
    /\ SourceConn.objects w !! s = Some o
    /\ forall dl, sc_SourceType cfg = dialect_kind dl -> connected dl (sc_Params cfg) o.

Definition pool_ok (ps : PoolState) : Prop :=
  PoolProofs.owners_ok (PooledSession.ps_world ps) (Pool.p_entries (PooledSession.ps_pool ps))
  /\ map_Forall (fun _ => entry_ok (PooledSession.ps_world ps)) (Pool.p_entries (PooledSession.ps_pool ps)).

Lemma entry_ok_frame w w' ent :
  (forall s o, Pool.e_src ent = Some s ->
     SourceConn.objects w !! s = Some o -> SourceConn.objects w' !! s = Some o) ->
  entry_ok w ent -> entry_ok w' ent.
Proof.
  intros Hf He s Hs. destruct (He s Hs) as (cfg & o & Hc & Hk & Hfp & Ho & Hd).
  exists cfg, o. split_and!; auto.
Qed.

Lemma find_slot_ok w id es :
  map_Forall (fun _ => entry_ok w) es -> map_Forall (fun _ => entry_ok w) (Pool.find_slot id es).
Proof.
  intros H j ent Hj s Hs. eapply (H j ent); [|done]. by eapply PoolProofs.find_slot_own.
Qed.

(** The objects of the other entries survive closing one. *)
Lemma closeEntry_frame ent w s :
  Pool.e_src ent <> Some s ->
  SourceConn.objects (Pool.closeEntry ent w).1 !! s = SourceConn.objects w !! s.
Proof.
  intros Hne. unfold Pool.closeEntry. destruct (Pool.e_src ent) as [s'|]; [|done].
  unfold bindM, retM. simpl. pose proof (SourceConnProofs.Close_objects s' w) as Hc.
  destruct (SourceConn.Close s' w) as [w1 e]. simpl in *. rewrite Hc.
  repeat case_match; try done. rewrite lookup_insert_ne; [done|]. congruence.
Qed.

(** An entry changes under its lock: the others keep their objects. *)
Lemma entries_update w w' es id ent ent' :
  PoolProofs.owners_ok w es -> map_Forall (fun _ => entry_ok w) es -> es !! id = Some ent ->
  (forall s o, Pool.e_src ent <> Some s ->
     SourceConn.objects w !! s = Some o -> SourceConn.objects w' !! s = Some o) ->
  entry_ok w' ent' -> map_Forall (fun _ => entry_ok w') (<[id := ent']> es).
Proof.
  intros [_ Hu] Hall He Hf He' j ej Hj.
  apply lookup_insert_Some in Hj as [[<- <-]|[Hne Hj]]; [done|].
  apply (entry_ok_frame w); [|by apply (Hall j)]. intros s o Hs. apply Hf. intros Hs'.
  by apply Hne, (Hu id j ent ej s).
Qed.

(** [Obtain] under the lock of the entry. *)
Lemma obtain_ok idle maxAge cfg t ent w w' es ent' r :
  PoolProofs.owners_ok w es -> map_Forall (fun _ => entry_ok w) es ->
  es !! sc_SourceID cfg = Some ent -> nul_free_cfg cfg ->
  Pool.obtain_entry digest idle maxAge cfg t ent w = (w', (ent', r)) ->
  map_Forall (fun _ => entry_ok w') (<[sc_SourceID cfg := ent']> es)
  /\ forall s, r = Ok s -> Pool.e_src ent' = Some s /\ Pool.e_fp ent' = Pool.fingerprint digest cfg.
Proof.
  intros Ho Hall He Hcfg Hob.
  apply PoolProofs.obtain_entry_cases in Hob
    as [(s & -> & Hs & -> & -> & Hre)|(w1 & -> & _ & Hb & Hr)].
  - rewrite insert_id by done. split; [done|]. intros s' [= <-]. split; [done|].
    unfold Pool.reusable in Hre. by case_bool_decide.
  - split.
    + eapply (entries_update w); [done..| |].
      * intros s o Hs Hx. eapply SourceConnProofs.build_open_frame; [done|].
        by rewrite closeEntry_frame.
      * destruct r as [s|e]; [|intros s Hs; by rewrite Hr in Hs]. subst ent'.
        apply build_open_connected in Hb as (Hkind & o & Hs & Hd). intros s' [= <-]. by exists cfg, o.
    + intros s ->. by subst ent'.
Qed.

Lemma kind_lower dl : ToLower (dialect_kind dl) = dialect_kind dl.
Proof. by destruct dl. Qed.

(** Equal fingerprints of SQL configurations: equal kinds and parameters. *)
Lemma fingerprint_sql dl cfg cfg' :
  nul_free_cfg cfg -> nul_free_cfg cfg' -> sc_SourceType cfg = dialect_kind dl ->
  (exists p, sc_SourceType cfg' = Registry.Kind p) ->
  Pool.fingerprint digest cfg' = Pool.fingerprint digest cfg ->
  sc_SourceType cfg' = dialect_kind dl /\ sc_Params cfg' = sc_Params cfg.
Proof.
  intros [Hk Hp] [Hk' Hp'] Hdl [p Hkind] Hfp.
  destruct (PoolProofs.fingerprint_identifies digest cfg' cfg Hdigest Hk' Hk Hp' Hp) as [[Hid _] _].
  destruct (Hid Hfp) as [Hl Hpar]. split; [|done]. rewrite Hdl, Hkind in Hl. rewrite Hkind.
  by destruct p, dl.
Qed.

#[export] Program Instance Pooled_reads : ReadsFrom PoolState (HSess := PooledSession.Pooled digest now) := {|
  net_of := fun ps => SourceConn.net (PooledSession.ps_world ps);
  sess_ok := pool_ok;
  cfg_ok := nul_free_cfg;
|}.
Next Obligation.
  intros cfg ps [Ho He] Hc. simpl. unfold PooledSession.pool_Obtain.
  destruct (PoolProofs.find_slot_is_Some (Pool.p_entries (PooledSession.ps_pool ps)) (sc_SourceID cfg))
    as [ent Hent].
  apply (PoolProofs.find_slot_owners _ _ (sc_SourceID cfg)) in Ho. apply (find_slot_ok _ (sc_SourceID cfg)) in He.
  rewrite Hent. simpl. destruct (Pool.obtain_entry _ _ _ _ _ _ _) as [w' [ent' r]] eqn:Eob.
  split; simpl.
  - eapply PoolProofs.owners_update; [exact Ho|exact Hent|].
    eapply PoolProofs.obtain_entry_owned; [by eapply PoolProofs.owners_own|exact Eob].
  - by eapply obtain_ok in Eob as [? _].
Qed.
Next Obligation.
  intros lease load ps [Ho He]. simpl. unfold PooledSession.pool_read.
  pose proof (Pool.spec_Read lease.2 load (PooledSession.ps_world ps)) as Hc.
  pose proof (SourceConnProofs.Read_objects package_Read lease.2 load (PooledSession.ps_world ps)) as Hobj.
  simpl in Hobj |- *. destruct (SourceConn.Read _ _ _ _) as [w' p] eqn:Er. split; simpl.
  - destruct Ho as [Ho1 Ho2]. split; [|done]. intros s. simpl in Hc. rewrite Er in Hc.
    assert (Pool.conns w' = Pool.conns (PooledSession.ps_world ps)) as -> by exact Hc. apply Ho1.
  - intros j ej Hj. apply (entry_ok_frame (PooledSession.ps_world ps)); [|by apply (He j)].
    intros s o _ Hx. simpl in Hobj. by rewrite Hobj.
Qed.
Next Obligation.
  intros lease inv ps [Ho He]. simpl. unfold PooledSession.pool_release.
  set (es := Pool.p_entries (PooledSession.ps_pool ps)) in *.
  destruct (PoolProofs.find_slot_is_Some es lease.1) as [ent Hent].
  assert (Hdef : default Pool.empty_entry (es !! lease.1) = ent
    /\ forall e, <[lease.1 := e]> es = <[lease.1 := e]> (Pool.find_slot lease.1 es)).
  { unfold Pool.find_slot in *. destruct (es !! lease.1) eqn:E; simpl.
    - rewrite E in Hent. by simplify_eq.
    - rewrite lookup_insert_eq in Hent. simplify_eq. split; [done|]. intros e. by rewrite insert_insert_eq. }
  destruct Hdef as [-> Hins].
  apply (PoolProofs.find_slot_owners _ _ lease.1) in Ho. apply (find_slot_ok _ lease.1) in He.
  destruct (Pool.release_entry _ _ _ _) as [w' ent'] eqn:Er. split; simpl; rewrite Hins.
  - eapply PoolProofs.owners_update; [exact Ho|exact Hent|].
    eapply PoolProofs.release_entry_owned; [by eapply PoolProofs.owners_own|exact Er].
  - eapply (entries_update (PooledSession.ps_world ps)); [exact Ho|exact He|exact Hent|..];
      unfold Pool.release_entry in Er; destruct inv.
    + intros s o Hs Hx. pose proof (closeEntry_frame ent (PooledSession.ps_world ps) s Hs) as Hf.
      rewrite Er in Hf. simpl in Hf. by rewrite Hf.
    + intros s o _ Hx. unfold retM in Er. by simplify_eq.
    + apply PoolProofs.closeEntry_spec in Er as [Hn _]. intros s Hs. by rewrite Hn in Hs.
    + unfold retM in Er. simplify_eq. exact (He _ _ Hent).
Qed.
Next Obligation.
  intros lease load ps. simpl. unfold PooledSession.pool_read.
  pose proof (sources_abort lease.2 load (PooledSession.ps_world ps)) as Ha. simpl in Ha |- *.
  by destruct (SourceConn.Read _ _ _ _).
Qed.
Next Obligation.
  intros dl cfg ps ps' lease load [Ho He] Hc Hob Hk. simpl in *. unfold PooledSession.pool_Obtain in Hob.
  destruct (PoolProofs.find_slot_is_Some (Pool.p_entries (PooledSession.ps_pool ps)) (sc_SourceID cfg))
    as [ent Hent].
  apply (PoolProofs.find_slot_owners _ _ (sc_SourceID cfg)) in Ho. apply (find_slot_ok _ (sc_SourceID cfg)) in He.
  rewrite Hent in Hob. simpl in Hob. destruct (Pool.obtain_entry _ _ _ _ _ _ _) as [w' [ent' r]] eqn:Eob.
  destruct r as [s|e]; simplify_eq.
  eapply obtain_ok in Eob as [Hall Hent']; [|done..]. destruct (Hent' s eq_refl) as [Hs Hfp].
  destruct (Hall (sc_SourceID cfg) ent' (lookup_insert_eq _ _ _) s Hs)
    as (cfg' & o & Hc' & Hp & Hfp' & Hobj & Hd).
  rewrite Hfp in Hfp'. destruct (fingerprint_sql dl cfg cfg' Hc Hc' Hk Hp) as [Hk' Hpar]; [done|].
  specialize (Hd dl Hk'). rewrite Hpar in Hd.
  destruct (connected_read dl (sc_Params cfg) o load w' s Hd Hobj) as (c & Hcl & Hread).
  exists c. split; [done|]. unfold PooledSession.pool_read. simpl. simpl in Hread. rewrite <- Hread.
  by destruct (SourceConn.Read _ _ _ _).
Qed.
End Pooled.

(** ** Delta runs *)

Section Delta.
Context {SK ST S : Type} `{HSpec : SinkSpec SK} `{HWm : RunStoreSpec ST} `{HR : ReadsFrom S}.
Context (atomic : option (AtomicReplacer SK)).
Context (ResolveParams : string -> result (gmap string string)).
Context (clk : nat -> Time) (parse_time : string -> option Time).

Local Abbreviation World := (@World SK ST S).
Local Abbreviation Execute := (Execute atomic ResolveParams clk parse_time).

(** A delta load of a SQL source with a numeric watermark; [c] is the database
    that it reads. *)
Record sql_delta_load (dl : dialect) (load : Load) (c : SourceConn.Client) (obj : string) : Prop := {
  sd_kind : src_Kind (ld_Source load) = dialect_kind dl;
  sd_mode : ld_Mode load = LoadModeDelta;
  sd_type : ld_WatermarkType load = WatermarkNumeric;
  sd_column : ld_WatermarkColumn load <> "";
  sd_object : dialect_quote dl (ld_ObjectName load) = Ok obj;
  sd_client : exists params, ResolveParams (src_ParamsJSON (ld_Source load)) = Ok params
                /\ sql_client dl params = Ok c /\ cfg_ok (source_config load params);
}.

Lemma sql_force_append dl load c obj : sql_delta_load dl load c obj -> force_append load = load.
Proof. intros [Hk _ _ _ _ _]. unfold force_append. rewrite Hk. by destruct dl. Qed.

Section Run.
Context (dl : dialect) (load : Load) (c : SourceConn.Client) (obj : string).
Context (Hload : sql_delta_load dl load c obj).
(** The table that the load reads, with its watermark column. *)
Context (T : NumericTable (HD := sqldb c) (max_query dl obj (ld_WatermarkColumn load))
               (window_query dl obj (ld_WatermarkColumn load))).
Local Abbreviation t := (target_of load).
Local Abbreviation id := (ld_ID load).

(** The rows of the batches. *)
Definition rows_of (bs : list Batch) : list Row := concat (b_Rows <$> bs).

(** A run leaves the session in order. *)
Lemma run_sess_ok (w w' : World) err :
  sess_ok (w_sess w) -> Execute load w = (w', err) -> sess_ok (w_sess w').
Proof.
  intros Hs HE. pose proof (sql_force_append _ _ _ _ Hload) as Hfa.
  destruct Hload as [_ _ _ _ _ (params & Hpar & _ & Hcok)].
  apply Execute_sess in HE as [->|(params' & cfg & Hpar' & -> & Ho)]; [done|].
  rewrite Hfa, Hpar in Hpar'. injection Hpar' as <-. rewrite Hfa in Ho.
  pose proof (spec_Obtain_ok _ _ Hs Hcok) as Hs1.
  destruct Ho as [(e & Ho)|(lease & s1 & s2 & inv & Ho & Hr & ->)]; rewrite Ho in Hs1; [done|].
  apply spec_release_ok. destruct Hr as [->|(lc & ->)]; [done|by apply spec_read_ok].
Qed.

(** The state of the source in which a run from the world [w] asks for the
    maximum, and the one in which it then selects its rows. *)
Definition asked (w : World) : N :=
  match ResolveParams (src_ParamsJSON (ld_Source load)) with
  | Ok params => net_of (Obtain (source_config load params) (w_sess w)).1
  | Err _ => net_of (w_sess w)
  end.

Definition selected (w : World) : N :=
  select_state (HD := sqldb c) dl obj (ld_WatermarkColumn load) (asked w).

(** A run brought the window from [v] to [v']: the rows of the source between
    them, as the source was when they were selected, were appended to the
    target with the stamp [ts]. *)
Definition brought (w w' : World) (v v' : string) (ts : Time) (bs : list Batch) : Prop :=
  (exists rows, stamp_all ts bs = Some rows /\ rows_in (w_sink w') t = rows_in (w_sink w) t ++ rows)
  /\ rows_of bs ≡ₚ to_row FormatFloat dl (tbl_types T) <$>
       (window (num T v) (num T v') (tbl T (selected w))).*2.

(** One run from the watermark [v]: it left the watermark, or it brought the
    window to [v'], which it stored; and without an error it is the second,
    unless the source had no row when the run asked for the maximum. *)
Lemma delta_run (w w' : World) v err :
  sink_ok (w_sink w) -> sess_ok (w_sess w) -> wm id w = Some v -> v <> "" ->
  Execute load w = (w', err) ->
  (wm id w' = Some v /\ (err = None -> tbl T (asked w) = []))
  \/ exists v' n bs, v' <> "" /\ brought w w' v v' (clk n) bs /\ wm id w' = Some v'.
Proof.
  intros Hok Hs Hv Hne HE. pose proof (sql_force_append _ _ _ _ Hload) as Hfa.
  unfold brought, selected, asked.
  destruct Hload as [Hk Hm Ht Hcol Hobj (params & Hpar & Hcl & Hcok)].
  apply (Execute_plain (HSpec := HSpec) ResolveParams clk parse_time atomic spec_aborts) in HE
    as [[He Hsame]|(params' & lease & ss & p & r & n & Hpar' & Ho & Hp & Hout & Hdel & _ & Hor & Hwm)];
    [left; by rewrite Hsame| |by rewrite Hfa, Hm|done].
  rewrite Hfa in *. rewrite Hpar in Hpar'. injection Hpar' as <-. rewrite Hv, Ht in Hp. simpl in Hp.
  set (lc := load_config load (mkWatermark WatermarkNumeric v)) in *.
  destruct (spec_reads dl _ _ _ _ lc Hs Hcok Ho Hk) as (c' & Hc' & Hread).
  simpl in Hc'. rewrite Hcl in Hc'. injection Hc' as <-. rewrite Hread in Hp.
  assert (Hd : numeric_delta lc) by (by repeat split).
  rewrite Hp in Hout. unfold read_db in Hout.
  destruct (delta_window _ _ _ dl lc _ r Hd Hout) as (obj' & x & Hobj' & Hmax & Hx & Hwin).
  simpl in Hobj', Hmax, Hwin. rewrite Hobj in Hobj'. injection Hobj' as <-.
  destruct (Hwin T) as (_ & Hrows). destruct Hdel as (_ & _ & Hrs). rewrite Hpar, Ho.
  assert (Hstored : wm_Value (rr_NewWatermark r) <> "" -> wm id w' = Some (wm_Value (rr_NewWatermark r)) ->
    exists v' n bs, v' <> "" /\ brought w w' v v' (clk n) bs /\ wm id w' = Some v').
  { intros Hne' Hw'. exists (wm_Value (rr_NewWatermark r)), n, (batches_of p). split; [done|]. split; [|done]. split; [done|].
    unfold rows_of, selected, asked. rewrite Hpar, Ho, Hp. exact Hrows. }
  unfold brought, selected, asked in Hstored. rewrite Hpar, Ho in Hstored.
  destruct Hor as [Hsame|(_ & Hne' & Hw')]; [|right; by apply Hstored].
  destruct (decide (wm_Value (rr_NewWatermark r) = "")) as [Hemp|Hne'].
  - left. rewrite Hsame. split; [done|]. intros _. simpl.
    destruct (query_string _ _) as [d1 q] eqn:Eq. simpl in Hmax. subst q.
    apply (law_max _ _ T) in Eq. destruct x as [x|]; [|done]. destruct Eq as [Hx' _].
    rewrite Hx in Hemp. by simpl in Hemp.
  - destruct err as [e|]; [left; by rewrite Hsame|right]. by apply Hstored, Hwm.
Qed.

(** The sink and the session are in order after every run, and the target has
    only grown. *)
Lemma run_keeps (w w' : World) err :
  sink_ok (w_sink w) -> sess_ok (w_sess w) -> Execute load w = (w', err) ->
  sink_ok (w_sink w') /\ sess_ok (w_sess w')
  /\ exists more, rows_in (w_sink w') t = rows_in (w_sink w) t ++ more.
Proof.
  intros Hok Hs HE. pose proof (run_sess_ok _ _ _ Hs HE).
  apply (Execute_grows (HSpec := HSpec) ResolveParams clk parse_time atomic) in HE as [? ?]; [done| |done].
  rewrite (sql_force_append _ _ _ _ Hload). by destruct Hload as [_ -> _ _ _ _].
Qed.

(** The target follows the source: since the world [w0], whose watermark was
    [v0], the rows [more] were appended to the target.  They are, up to [R],
    what [loads] brought with their stamps: the rows of the source in the
    window from [v0] to the watermark [v], each once, the source being in the
    state [s]. *)
Definition synced (R : list srow -> list srow -> Prop)
    (w0 : World) (v0 : string) (w : World) (v : string) (s : N) : Prop :=
  wm id w = Some v /\ v <> "" /\ num T v0 <= num T v
  /\ sink_ok (w_sink w) /\ sess_ok (w_sess w)
  /\ exists (loads : list (Time * list Batch)) rows more,
     Forall2 (fun l rs => stamp_all l.1 l.2 = Some rs) loads rows
     /\ rows_in (w_sink w) t = rows_in (w_sink w0) t ++ more /\ R (concat rows) more
     /\ rows_of (concat (snd <$> loads))
        ≡ₚ to_row FormatFloat dl (tbl_types T) <$> (window (num T v0) (num T v) (tbl T s)).*2.

(** Exactly those rows were appended. *)
Definition caught_up := synced (=).

(** At least those rows were appended, in that order. *)
Definition covered := synced sublist.

Lemma window_empty v (tb : list (Z * list any)) : window v v tb = [].
Proof.
  unfold window. induction tb as [|x tb IH]; [done|]. rewrite filter_cons, IH.
  case_decide; [lia|done].
Qed.

(** The source did not go back: no row at or below the watermark [v] came or
    went from the state [s] to [s']. *)
Definition settled (v : string) (s s' : N) : Prop :=
  filter (fun r => r.1 <= num T v) (tbl T s) ≡ₚ filter (fun r => r.1 <= num T v) (tbl T s').

Section Synced.
Context (R : list srow -> list srow -> Prop).
Context (Rnil : R [] []) (Rapp : forall a b c, R a b -> R (a ++ c) (b ++ c)).

Lemma synced_start w v s :
  wm id w = Some v -> v <> "" -> sink_ok (w_sink w) -> sess_ok (w_sess w) -> synced R w v w v s.
Proof.
  intros Hv Hne Hok Hs. split_and!; [done|done|lia|done|done|]. exists [], [], [].
  rewrite window_empty. split_and!; try done. by rewrite app_nil_r.
Qed.

Lemma synced_other w0 v0 w w' v s :
  synced R w0 v0 w v s -> wm id w' = wm id w -> rows_in (w_sink w') t = rows_in (w_sink w) t ->
  sink_ok (w_sink w') -> sess_ok (w_sess w') -> synced R w0 v0 w' v s.
Proof.
  intros (Hv0 & Hne & Hle & _ & _ & loads & rows & more & Hst & Hin & Hre & Hrows) Hv Hr Hok Hs.
  split_and!; [by rewrite Hv|done..|]. exists loads, rows, more. by rewrite Hr.
Qed.

Lemma synced_brought w0 v0 w w' v v' s n bs :
  synced R w0 v0 w v s -> brought w w' v v' (clk n) bs -> wm id w' = Some v' -> v' <> "" ->
  num T v <= num T v' -> settled v s (selected w) -> sink_ok (w_sink w') -> sess_ok (w_sess w') ->
  synced R w0 v0 w' v' (selected w).
Proof.
  intros (Hv & Hne & Hle & _ & _ & loads & rows & more & Hst & Hin & Hre & Hrows)
    [(rs & Hst' & Hin') Hrows'] Hv' Hne' Hle' Hset Hok Hs.
  split_and!; [done|done|lia|done|done|].
  exists (loads ++ [(clk n, bs)]), (rows ++ [rs]), (more ++ rs). split_and!.
  - apply Forall2_app; [done|]. by constructor.
  - by rewrite Hin', Hin, <- app_assoc.
  - rewrite concat_app. simpl. rewrite app_nil_r. by apply Rapp.
  - rewrite fmap_app, concat_app. simpl. rewrite app_nil_r. unfold rows_of in *.
    rewrite fmap_app, concat_app, Hrows, Hrows', <- fmap_app, <- fmap_app.
    by rewrite (window_adjacent _ _ _ _ _ (conj Hle Hle') Hset).
Qed.

(** A settled change of the source leaves the window up to the watermark. *)
Lemma synced_settled w0 v0 w v s s' :
  synced R w0 v0 w v s -> settled v s s' -> synced R w0 v0 w v s'.
Proof.
  intros (Hv & Hne & Hle & Hok & Hs & loads & rows & more & Hst & Hin & Hre & Hrows) Hset.
  split_and!; [done..|]. exists loads, rows, more. split_and!; [done..|]. rewrite Hrows.
  rewrite <- (window_adjacent _ _ _ _ _ (conj Hle (Z.le_refl _)) Hset).
  by rewrite window_empty, app_nil_r.
Qed.
End Synced.

Lemma caught_up_run w0 v0 (w w' : World) v v' s :
  caught_up w0 v0 w v s -> Execute load w = (w', None) -> wm id w' = Some v' ->
  tbl T (asked w) <> [] -> num T v <= num T v' -> settled v s (selected w) ->
  caught_up w0 v0 w' v' (selected w).
Proof.
  intros Hup HE Hv' Hfull Hle Hset. pose proof Hup as (Hv & Hne & _ & Hok & Hs & _).
  destruct (run_keeps _ _ _ Hok Hs HE) as (Hok' & Hs' & _).
  destruct (delta_run w w' v _ Hok Hs Hv Hne HE) as [[_ Hempty]|(v1 & n & bs & Hne' & Hb & Hwm)];
    [by specialize (Hempty eq_refl)|].
  rewrite Hwm in Hv'. injection Hv' as <-.
  eapply (synced_brought (=)); eauto. by intros a b x ->.
Qed.

(** A run that leaves the watermark may have appended rows. *)
Lemma covered_stay w0 v0 (w w' : World) v s err :
  covered w0 v0 w v s -> Execute load w = (w', err) -> wm id w' = Some v -> covered w0 v0 w' v s.
Proof.
  intros (Hv & Hne & Hle & Hok & Hs & loads & rows & more & Hst & Hin & Hre & Hrows) HE Hv'.
  destruct (run_keeps _ _ _ Hok Hs HE) as (Hok' & Hs' & more' & Hin').
  split_and!; [done..|]. exists loads, rows, (more ++ more'). split_and!; try done.
  - by rewrite Hin', Hin, app_assoc.
  - by apply sublist_inserts_r.
Qed.

Lemma covered_move w0 v0 (w w' : World) v v' s err :
  covered w0 v0 w v s -> Execute load w = (w', err) -> wm id w' = Some v' ->
  num T v <= num T v' -> settled v s (selected w) -> covered w0 v0 w' v' (selected w).
Proof.
  intros Hup HE Hv' Hle Hset. pose proof Hup as (Hv & Hne & _ & Hok & Hs & _).
  destruct (run_keeps _ _ _ Hok Hs HE) as (Hok' & Hs' & _).
  assert (Hstay : wm id w' = Some v -> covered w0 v0 w' v' (selected w)).
  { intros Hsame. rewrite Hsame in Hv'. injection Hv' as <-.
    eapply synced_settled; [|done]. by eapply covered_stay. }
  destruct (delta_run w w' v _ Hok Hs Hv Hne HE)
    as [[? _]|(v1 & n & bs & Hne' & Hb & Hwm)]; [auto|].
  rewrite Hwm in Hv'. injection Hv' as <-.
  eapply (synced_brought sublist); eauto. intros a b x Hab. by apply sublist_app.
Qed.

(** A history of the load from the world [w0]: successful runs, each finding
    some row in the source when it asks for the maximum, and between them
    anything that leaves the load's watermark and target alone, such as the runs
    of other loads and whatever happens to the source.  [v] is the watermark and
    [s] the state of the source in which the last run selected.  A run never
    moves the watermark back and, from the state in which the run before it
    selected, no source row at or below the watermark came or went. *)
Inductive history (w0 : World) (v0 : string) : World -> string -> N -> Prop :=
  | hist_start s :
      wm id w0 = Some v0 -> v0 <> "" -> sink_ok (w_sink w0) -> sess_ok (w_sess w0) ->
      history w0 v0 w0 v0 s
  | hist_other w w' v s :
      history w0 v0 w v s -> wm id w' = wm id w ->
      rows_in (w_sink w') t = rows_in (w_sink w) t -> sink_ok (w_sink w') -> sess_ok (w_sess w') ->
      history w0 v0 w' v s
  | hist_run w w' v v' s :
      history w0 v0 w v s -> Execute load w = (w', None) -> wm id w' = Some v' ->
      tbl T (asked w) <> [] -> num T v <= num T v' -> settled v s (selected w) ->
      history w0 v0 w' v' (selected w).

(** C3. Delta loads deliver every source row exactly once, end to end.  For a
    delta load of a SQL source with a numeric watermark that has been seeded,
    over either session (a connection per run, or the pool), any sink and store
    that meet their contracts, and any number of successful runs, each of which
    found at least one row in the source when it asked for the maximum, with
    anything in between that leaves the load's watermark and target alone: as
    long as the watermark does not go back and no source row at or below it
    comes or goes, the rows appended to the target since the start are exactly
    the rows of the source in the window from the first watermark to the stored
    one, each once, stamped by the run that brought it; whatever connections
    were opened, reused or replaced on the way.  Over the pool this holds for
    fingerprints without collisions: the digest is injective, and kind and
    parameters of the configurations hold no NUL byte. *)
Theorem runs_deliver_exactly_once w0 v0 w v s (Hh : history w0 v0 w v s) :
  caught_up w0 v0 w v s.
Proof.
  induction Hh as [s Hv Hne Hok Hs|w w' v s _ IH Hv Hr Hok Hs|w w' v v' s _ IH HE Hv Hfull Hle Hset].
  - by apply synced_start.
  - by eapply synced_other.
  - by eapply caught_up_run.
Qed.

(** A history with failures: runs that return any error, at any point, and
    anything else in between.  The watermark may stay where it is, whatever the
    run wrote; when a run moves it, no source row at or below the old one has
    come or gone. *)
Inductive attempts (w0 : World) (v0 : string) : World -> string -> N -> Prop :=
  | att_start s :
      wm id w0 = Some v0 -> v0 <> "" -> sink_ok (w_sink w0) -> sess_ok (w_sess w0) ->
      attempts w0 v0 w0 v0 s
  | att_other w w' v s :
      attempts w0 v0 w v s -> wm id w' = wm id w ->
      rows_in (w_sink w') t = rows_in (w_sink w) t -> sink_ok (w_sink w') -> sess_ok (w_sess w') ->
      attempts w0 v0 w' v s
  | att_stay w w' v s err :
      attempts w0 v0 w v s -> Execute load w = (w', err) -> wm id w' = Some v ->
      attempts w0 v0 w' v s
  | att_move w w' v v' s err :
      attempts w0 v0 w v s -> Execute load w = (w', err) -> wm id w' = Some v' ->
      num T v <= num T v' -> settled v s (selected w) ->
      attempts w0 v0 w' v' (selected w).

(** C4. Delta loads never lose a row when runs fail.  Over any history of runs
    of a SQL delta load with a numeric, seeded watermark, over either session,
    each of which may fail anywhere (the store, the session, the source, the
    sink in the middle of a batch, the update of the watermark or of the run
    row) or find the source empty, with anything in between that leaves the
    load's watermark and target alone: as long as a run that moves the watermark
    does not move it back and no source row at or below it came or went, every
    row of the source in the window from the first watermark to the stored one
    is in the target, among the rows that the runs appended and in the order in
    which they brought them.  Rows of failed runs may be there as well, and
    nothing that was in the target has gone.  Over the pool this holds for
    fingerprints without collisions: the digest is injective, and kind and
    parameters of the configurations hold no NUL byte. *)
Theorem attempts_never_lose_rows w0 v0 w v s (Hh : attempts w0 v0 w v s) :
  covered w0 v0 w v s.
Proof.
  induction Hh as [s Hv Hne Hok Hs|w w' v s _ IH Hv Hr Hok Hs|w w' v s err _ IH HE Hv
    |w w' v v' s err _ IH HE Hv Hle Hset].
  - by apply synced_start.
  - by eapply synced_other.
  - by eapply covered_stay.
  - by eapply covered_move.
Qed.
End Run.
End Delta.
End System.
End System.
