(* ===== verification/SystemInstances.v ===== *)
(** * The loader in memory

    Two delta runs of the whole loader over in-memory servers: the source
    packages behind the pool, the SQL Server sink and the metadata repository,
    each the model of the code and not a stand-in; only the database servers
    and the network are made up. *)

From S2P Require Import Prelude.
From S2P Require Import GoStrings.
From S2P Require Import Sqlident.
From S2P Require Import Contracts.
From S2P Require Import Models.
From S2P Require Import Runstate.
From S2P Require Import Runner.
From S2P Require Import RunnerProofs.
From S2P Require Import MSSQLSink.
From S2P Require Import MSSQLSinkProofs.
From S2P Require Import MemServer.
From S2P Require Import Pool.
From S2P Require Import PoolProofs.
From S2P Require Import PooledSession.
From S2P Require Import Instances.
From S2P Require Import SqlSource.
From S2P Require Import SqlSourceProofs.
From S2P Require Import Repository.
From S2P Require Import RepositoryProofs.
From S2P Require Import RepositoryInstances.
From S2P Require Import Registry.
From S2P Require Import SourceConn.
From S2P Require Import SourceConnProofs.
From S2P Require Import System.
From Stdlib Require Import ZArith Lia.

Module SystemInstances.
Import GoStrings Contracts Metadata Runner RunnerProofs SqlSource SqlSourceProofs System.

#[local] Existing Instance Sqlident.ascii_tables.
#[local] Existing Instance MemServer.mem_server.
#[local] Existing Instance MemServer.mem_server_spec.
#[local] Existing Instance RepositoryInstances.mem_gorm.
#[local] Existing Instance RepositoryInstances.mem_gorm_spec.

(** ** The source

    A network on which every address answers; the state is whether the table
    has grown, which happens while the first select runs. *)

#[local] Instance live_net : SourceConn.Net bool := {|
  SourceConn.sql_Open := fun _ _ n => (n, None);
  SourceConn.mb_NewClient := fun _ _ n => (n, None);
  SourceConn.ua_NewClient := fun _ _ n => (n, None);
  SourceConn.dial := fun _ n => (n, None);
  SourceConn.ua_read_status := fun _ n => (n, None);
  SourceConn.client_Close := fun _ n => (n, None);
|}.

Definition growing_db : SqlDB bool := {|
  QueryContext := fun q args d =>
    (true, match args with
           | [AString a; AString b] =>
               Ok (mkCursor (Ok ex_types) (Ok <$> (window (ex_num a) (ex_num b) (ex_table d)).*2) None)
           | _ => Err "arguments"
           end);
  query_time := fun _ d => (d, Ok None);
  query_string := fun _ d => (d, Ok (Some (if d then "2" else "1")));
|}.

Definition growing_table maxq winq : NumericTable (HD := growing_db) maxq winq.
Proof.
  refine (mkNumericTable (HD := growing_db) maxq winq ex_table ex_num ex_types _ _).
  - intros d d' s [= <- <-]. destruct d; simpl.
    + split; [vm_compute; discriminate|]. split; [right; left|]. repeat constructor; simpl; vm_compute; discriminate.
    + split; [vm_compute; discriminate|]. split; [left|]. repeat constructor; simpl; vm_compute; discriminate.
  - intros a b d d' cur types vals H Ht Hr _. simpl in H. simplify_eq. simpl in *.
    apply Ok_inj in Hr. simplify_eq. done.
Defined.

(** One database behind every client; no value is formatted or parsed. *)
Definition dbs (_ : SourceConn.Client) : SqlDB bool := growing_db.
Definition ff (_ : SpecFloat.spec_float) : string := "".
Definition ft (_ : Time) : string := "".
Definition pt (_ : string) : result Time := Err "".

Definition no_poll (o : SourceConn.Object) (load : LoadConfig) : M bool ReadProg :=
  retM (Done zero_result None).

Lemma no_poll_aborts o load n : aborts_on_error (no_poll o load n).2.
Proof. done. Qed.

#[local] Instance ex_sources : Pool.SourceDriver (@SourceConn.World bool) :=
  System.sources dbs ff ft pt no_poll.

Definition ex_now (n : nat) : Time := Z.of_nat n.

#[local] Instance ex_session : SourceSession (@PooledSession.PoolState (@SourceConn.World bool)) :=
  PooledSession.Pooled id ex_now.

(** ** The world *)

Definition ex_params : gmap string string := {[ "server" := "db"; "database" := "erp" ]}.

Definition ex_delta_load : Load :=
  mkLoad 3 1 (mkSource 1 "erp" "sqlserver" "" "{}" true false) "orders" "dbo.orders"
    "dbo" "orders" "delta" "id" "numeric" 1000 true "*/5 * * * *" true false.

#[local] Instance ex_sink_ops : SinkOps MemServer.Server := MSSQLSink.MSSQLSink_ops Instances.no_guid.
#[local] Instance ex_replacer : AtomicReplacer MemServer.Server := MSSQLSink.MSSQLSink_replacer.
#[local] Instance ex_spec : SinkSpec MemServer.Server := MSSQLSinkProofs.MSSQLSink_spec Instances.no_guid.

#[local] Instance ex_store : RunStore RepositoryInstances.Mem := Repository.Repository_store.

Abbreviation FullWorld :=
  (@World MemServer.Server RepositoryInstances.Mem (@PooledSession.PoolState (@SourceConn.World bool))).

Definition full_world : FullWorld :=
  mkWorld (MemServer.ex_server [])
    (RepositoryInstances.mkMem {[ 3 := mkWatermarkRow 3 "0" 0 "" None "" ]} ∅ ∅
       RepositoryInstances.no_catalog 50)
    (PooledSession.mkPoolState (SourceConn.mkWorld false ∅)
       (Pool.NewSourcePool (Pool.mkPoolConfig 0 0)) 0)
    (Runstate.New 0) [] 0.

Definition ex_clk (n : nat) : Time := 1000 + Z.of_nat n.

Definition full_run (w : FullWorld) : FullWorld * option error :=
  Execute (Some ex_replacer) (fun _ => Ok ex_params) ex_clk
    (fun _ => None) ex_delta_load w.

Definition world1 : FullWorld := (full_run full_world).1.
Definition world2 : FullWorld := (full_run world1).1.

(** The two runs as the theorem needs them. *)

Lemma id_inj : Inj (=) (=) (@id string).
Proof. by intros x y. Qed.

#[local] Instance ex_reads : System.ReadsFrom dbs ff ft pt (@PooledSession.PoolState (@SourceConn.World bool)) :=
  System.Pooled_reads dbs ff ft pt no_poll
    no_poll_aborts id ex_now (Hdigest := id_inj).

Definition ex_client : SourceConn.Client :=
  SourceConn.SqlDB "sqlserver" "sqlserver://db:1433?database=erp".

Lemma ex_load_ok : System.sql_delta_load dbs ff ft pt (fun _ => Ok ex_params) SS ex_delta_load ex_client "[dbo].[orders]".
Proof.
  split; try reflexivity; [discriminate|].
  exists ex_params. split_and!; [reflexivity|vm_compute; reflexivity|].
  split; [vm_compute; reflexivity|]. apply map_Forall_insert_2; [by split|].
  apply map_Forall_singleton. by split.
Qed.

#[local] Instance ex_store_spec : RunStoreSpec RepositoryInstances.Mem :=
  RepositoryProofs.Repository_store_spec.

Lemma full_world_ok : System.sess_ok dbs ff ft pt (w_sess full_world).
Proof.
  split; [|apply map_Forall_empty]. split.
  - intros s. simpl. split.
    + rewrite SourceConnProofs.elem_of_open_sources. by intros (o & Ho & _).
    + by intros (id & ent & Hid & _).
  - by intros i j ei ej s Hi.
Qed.

Definition ex_history : FullWorld -> string -> bool -> Prop :=
  System.history dbs ff ft pt (Some ex_replacer) (fun _ => Ok ex_params) ex_clk (fun _ => None)
    SS ex_delta_load ex_client "[dbo].[orders]" (growing_table _ _) full_world "0".

Definition ex_selected : FullWorld -> bool :=
  System.selected dbs ff ft pt (fun _ => Ok ex_params) SS ex_delta_load ex_client "[dbo].[orders]".

(** The table held one row and the watermark was 0: after two runs, the second
    on the connection that the first one left in the pool, the two source rows
    have arrived, once each. *)
Lemma runs_deliver_exactly_once_witness :
  length (rows_in (w_sink world2) MemServer.ex_target) = 3%nat
  /\ System.caught_up dbs ff ft pt SS ex_delta_load ex_client "[dbo].[orders]" (growing_table _ _)
       full_world "0" world2 "2" true.
Proof.
  split; [vm_compute; reflexivity|].
  apply (System.runs_deliver_exactly_once dbs ff ft pt
    (Some ex_replacer) (fun _ => Ok ex_params) ex_clk (fun _ => None)
    SS ex_delta_load ex_client "[dbo].[orders]" ex_load_ok (growing_table _ _)
    full_world "0" world2 "2" true).
  assert (S0 : ex_selected full_world = false) by (vm_compute; reflexivity).
  assert (S1 : ex_selected world1 = true) by (vm_compute; reflexivity).
  refine (eq_rect _ (ex_history world2 "2") _ _ S1).
  apply (System.hist_run _ _ _ _ _ _ _ _ _ _ _ _ _ _ _ world1 world2 "1" "2" false).
  - refine (eq_rect _ (ex_history world1 "1") _ _ S0).
    apply (System.hist_run _ _ _ _ _ _ _ _ _ _ _ _ _ _ _ full_world world1 "0" "1" false).
    + apply System.hist_start; [reflexivity|discriminate|reflexivity|exact full_world_ok].
    + vm_compute. reflexivity.
    + vm_compute. reflexivity.
    + vm_compute. discriminate.
    + vm_compute. discriminate.
    + vm_compute. reflexivity.
  - vm_compute. reflexivity.
  - vm_compute. reflexivity.
  - vm_compute. discriminate.
  - vm_compute. discriminate.
  - vm_compute. reflexivity.
Defined.

(** The same loader when the server refuses the first bulk insert: the run
    fails and leaves the watermark at 0; the next one brings both rows. *)
Definition faulty_world : FullWorld :=
  mkWorld (MemServer.ex_server [None; None; None; Some "connection reset"])
    (w_store full_world) (w_sess full_world) (w_state full_world) [] 0.

Definition failed_world : FullWorld := (full_run faulty_world).1.
Definition retried_world : FullWorld := (full_run failed_world).1.

Lemma attempts_never_lose_rows_witness :
  is_Some (full_run faulty_world).2
  /\ length (rows_in (w_sink retried_world) MemServer.ex_target) = 3%nat
  /\ System.covered dbs ff ft pt SS ex_delta_load ex_client "[dbo].[orders]" (growing_table _ _)
       faulty_world "0" retried_world "2" true.
Proof.
  split_and!; [vm_compute; by eexists|vm_compute; reflexivity|].
  apply (System.attempts_never_lose_rows dbs ff ft pt
    (Some ex_replacer) (fun _ => Ok ex_params) ex_clk (fun _ => None)
    SS ex_delta_load ex_client "[dbo].[orders]" ex_load_ok (growing_table _ _)
    faulty_world "0" retried_world "2" true).
  assert (S1 : ex_selected failed_world = true) by (vm_compute; reflexivity).
  refine (eq_rect _ (System.attempts dbs ff ft pt (Some ex_replacer) (fun _ => Ok ex_params) ex_clk
    (fun _ => None) SS ex_delta_load ex_client "[dbo].[orders]" (growing_table _ _) faulty_world "0"
    retried_world "2") _ _ S1).
  apply (System.att_move _ _ _ _ _ _ _ _ _ _ _ _ _ _ _ failed_world retried_world "0" "2" false
    (full_run failed_world).2).
  - apply (System.att_stay _ _ _ _ _ _ _ _ _ _ _ _ _ _ _ faulty_world failed_world "0" false
      (full_run faulty_world).2).
    + apply System.att_start; [reflexivity|discriminate|reflexivity|exact full_world_ok].
    + vm_compute. reflexivity.
    + vm_compute. reflexivity.
  - vm_compute. reflexivity.
  - vm_compute. reflexivity.
  - vm_compute. discriminate.
  - vm_compute. reflexivity.
Defined.

(** The first run as steps of the pool: it leaves one connection behind. *)
Lemma pooled_run_steps_witness :
  Pool.LiveCount (PooledSession.ps_pool (w_sess world1)) = 1
  /\ exists cs, PooledSession.run_calls 1 cs
     /\ Pool.acts id (5 * Pool.minute) 0 0%nat cs
       (PooledSession.state_of (w_sess full_world) ∅ ∅) (PooledSession.state_of (w_sess world1) ∅ ∅).
Proof.
  split; [vm_compute; reflexivity|].
  exact (proj1 (proj2 (PooledSession.pooled_run_steps id ex_now (Some ex_replacer) (fun _ => Ok ex_params)
    ex_clk (fun _ => None) (5 * Pool.minute) 0 0%nat ex_delta_load full_world ∅ ∅
    ltac:(split; reflexivity) (lookup_empty _) (lookup_empty _)))).
Defined.
End SystemInstances.
