(* ===== verification/SinkConn.v ===== *)
(** * The connection of the sink (NewMSSQLSink, Open, Ping and Close of
    internal/sink/mssql.go), over the client libraries of SourceConn. *)

From S2P Require Import Prelude.
From S2P Require Import Contracts.
From S2P Require Import SourceConn.
From Stdlib Require Import ZArith Lia.

Module SinkConn.
Import Contracts SourceConn.

(** [k_db] is [s.db] with whether it is open, [k_orphans] the databases that
    were opened and that the sink does not refer to. *)
Record Sink := mkSink {
  k_dsn : string;
  k_db : option (Client * bool);
  k_orphans : list Client;
}.

Definition NewMSSQLSink (dsn : string) : Sink := mkSink dsn None [].

Section Conn.
Context {N : Type} `{HN : Net N}.

Definition Open (s : Sink) : M N (Sink * option error) :=
  e <~ sql_Open "sqlserver" (k_dsn s) ;;
  match e with
  | Some err => retM (s, Some (errorf "open sink" err))
  | None =>
      let db := SqlDB "sqlserver" (k_dsn s) in
      e <~ dial db ;;
      match e with
      | Some err =>
          retM (mkSink (k_dsn s) (k_db s) (db :: k_orphans s), Some (errorf "ping sink" err))
      | None => retM (mkSink (k_dsn s) (Some (db, true)) (k_orphans s), None)
      end
  end.

(** The panic of a nil database is given as an error. *)
Definition Ping (s : Sink) : M N (option error) :=
  match k_db s with
  | None => retM (Some "runtime error: invalid memory address or nil pointer dereference")
  | Some (db, _) => dial db
  end.

Definition Close (s : Sink) : M N (Sink * option error) :=
  match k_db s with
  | None => retM (s, None)
  | Some (db, _) =>
      e <~ client_Close db ;; retM (mkSink (k_dsn s) (Some (db, false)) (k_orphans s), e)
  end.

(** The life of the sink in [runServer]: opened once and closed if that
    succeeded.  Its database is open in between, to the configured address, and
    only then. *)
Theorem sink_conn_lifecycle dsn (n n1 : N) s1 e
    (Hopen : Open (NewMSSQLSink dsn) n = (n1, (s1, e))) :
  match e with
  | None => k_db s1 = Some (SqlDB "sqlserver" dsn, true) /\ k_orphans s1 = []
      /\ forall n2 n3 s3 e3, Close s1 n2 = (n3, (s3, e3)) ->
           k_db s3 = Some (SqlDB "sqlserver" dsn, false) /\ k_orphans s3 = []
  | Some _ => k_db s1 = None
  end.
Proof.
  unfold Open in Hopen. apply bindM_inv in Hopen as (n2 & e1 & _ & H).
  destruct e1 as [err|]; [unfold retM in H; by simplify_eq|].
  apply bindM_inv in H as (n3 & e2 & _ & H). destruct e2; unfold retM in H; simplify_eq; simpl; [done|].
  split_and!; [done..|]. intros n4 n5 s3 e3 Hc. unfold Close in Hc. simpl in Hc.
  apply bindM_inv in Hc as (n6 & e6 & _ & Hc). unfold retM in Hc. by simplify_eq.
Qed.

End Conn.
End SinkConn.
