(* ===== verification/Migrate.v ===== *)
(** * Schema migrations (internal/migrate, cmd/loader/migrate.go)

    The goose provider and the database are parameters; the model is the
    runner around them, the baseline stamp, and the [migrate] command. *)

From S2P Require Import Prelude.
From S2P Require Import GoStrings.
From S2P Require Import Contracts.
From Stdlib Require Import ZArith Lia.

Module Migrate.
Import GoStrings Contracts.

(** One entry of [Provider.Status]. *)
Record MigrationStatus := mkMigrationStatus {
  st_Version : Z;
  st_Path : string;
  st_Applied : bool;
}.

(** The database and goose: a count over INFORMATION_SCHEMA.TABLES, and the
    methods of [goose.Provider]. *)
Class Goose (G : Type) := {
  count_dbo_tables : string -> M G (result Z);
  NewProvider : M G (option error);
  goose_Up : M G (option error);
  goose_Down : M G (option error);
  GetDBVersion : M G (result Z);
  goose_Status : M G (result (list MigrationStatus));
  ApplyVersion : Z -> bool -> M G (option error);
}.

Definition baselineVersion : Z := 1.

Section Runner.
Context {G : Type} `{HG : Goose G}.

Definition tableExists (name : string) : M G (result bool) :=
  r <~ count_dbo_tables name ;;
  retM (match r with
        | Err e => Err (errorf ("detect table " +:+ name) e)
        | Ok n => Ok (0 <? n)
        end).

Definition baselineIfNeeded : M G (option error) :=
  r <~ tableExists "meta_sources" ;;
  match r with
  | Err e => retM (Some e)
  | Ok false => retM None
  | Ok true =>
      checkN id NewProvider (
        v <~ GetDBVersion ;;
        match v with
        | Err e => retM (Some (errorf "read goose version" e))
        | Ok version =>
            if baselineVersion <=? version then retM None
            else checkN (errorf ("stamp baseline version " +:+ fmt_d baselineVersion))
                   (ApplyVersion baselineVersion true) (retM None)
        end)
  end.

Definition Up : M G (option error) :=
  checkN id baselineIfNeeded
    (checkN (errorf "migrate provider") NewProvider
       (checkN (errorf "migrate up") goose_Up (retM None))).

Definition Down : M G (option error) :=
  checkN (errorf "migrate provider") NewProvider
    (checkN (errorf "migrate down") goose_Down (retM None)).

Definition newline : string := String (char 10) "".

(** The loop that builds the summary. *)
Fixpoint status_lines (results : list MigrationStatus) : string :=
  match results with
  | [] => ""
  | res :: rest =>
      newline +:+ "  " +:+ fmt_d (st_Version res) +:+ " " +:+ st_Path res +:+ " ["
      +:+ (if st_Applied res then "applied" else "pending") +:+ "]" +:+ status_lines rest
  end.

(** [(version, detail, err)] *)
Definition Status : M G (Z * string * option error) :=
  e <~ NewProvider ;;
  match e with
  | Some err => retM (0, "", Some (errorf "migrate provider" err))
  | None =>
      r <~ GetDBVersion ;;
      match r with
      | Err err => retM (0, "", Some (errorf "migrate status" err))
      | Ok version =>
          r2 <~ goose_Status ;;
          retM (match r2 with
                | Err err => (version, "", Some (errorf "migrate status list" err))
                | Ok results =>
                    (version,
                     "version=" +:+ fmt_d version +:+ " migrations="
                       +:+ fmt_d (Z.of_nat (length results)) +:+ status_lines results,
                     None)
                end)
      end
  end.

(** ** The command *)

(** The exit code and the line that is printed, to stdout or to stderr. *)
Inductive Output := Stdout (s : string) | Stderr (s : string) | Logged (s : string).

(** [sql_open] is [sql.Open]; [ping] is the ping of the handle. *)
Definition runMigrate (env : string -> string) (sql_open : string -> option error)
    (ping : M G (option error)) (args : list string) : M G (Z * Output) :=
  match args with
  | [] => retM (2, Stderr "usage: loader migrate <up|down|status>")
  | arg :: _ =>
      let cmd := ToLower arg in
      let dsn := env "LOADER_METADATA_DSN" in
      if bool_decide (dsn = "") then retM (1, Stderr "LOADER_METADATA_DSN is required")
      else match sql_open dsn with
      | Some err => retM (1, Stderr (errorf "open metadata db" err))
      | None =>
          e <~ ping ;;
          match e with
          | Some err => retM (1, Stderr (errorf "ping metadata db" err))
          | None =>
              if bool_decide (cmd = "up") then
                e <~ Up ;;
                match e with
                | Some err => retM (1, Stderr (errorf "migrate up" err))
                | None =>
                    r <~ Status ;;
                    retM (match r with
                          | (_, _, Some _) => (0, Logged "migrate up complete")
                          | (_, detail, None) =>
                              (0, Stdout ("migrate up complete" +:+ newline +:+ detail))
                          end)
                end
              else if bool_decide (cmd = "down") then
                e <~ Down ;;
                retM (match e with
                      | Some err => (1, Stderr (errorf "migrate down" err))
                      | None => (0, Stdout "migrate down complete")
                      end)
              else if bool_decide (cmd = "status") then
                r <~ Status ;;
                retM (match r with
                      | (_, _, Some err) => (1, Stderr (errorf "migrate status" err))
                      | (_, detail, None) => (0, Stdout detail)
                      end)
              else retM (2, Stderr ("unknown migrate command " +:+ fmt_q cmd
                                    +:+ " (want up|down|status)"))
          end
      end
  end.

End Runner.
End Migrate.
