(* ===== verification/MigrateProofs.v ===== *)
(** * Schema migrations: properties

    [Up] applies exactly the pending migrations, in version order, and never
    one twice, also on a database that predates goose. *)

From S2P Require Import Prelude.
From S2P Require Import GoStrings.
From S2P Require Import Contracts.
From S2P Require Import Migrate.
From Stdlib Require Import ZArith Lia Sorted.

Module MigrateProofs.
Import Contracts Migrate.

(** What a provider records: the versions applied, in order, and those that
    are still to be applied. *)
Definition max_version (applied : list Z) : Z := foldr Z.max 0 applied.

Definition pending (sources applied : list Z) : list Z :=
  filter (fun v => v ∉ applied) sources.

(** The documented behaviour of goose's provider with its default options:
    [GetDBVersion] is the highest recorded version; [ApplyVersion] runs one
    migration that is not applied yet and records it, or fails and records
    nothing; [Up] runs the pending migrations in version order and stops at the
    first that fails; the embedded migrations have distinct positive versions. *)
Class GooseSpec (G : Type) `{Goose G} := {
  applied : G -> list Z;
  dbo_tables : G -> gset string;
  sources : list Z;
  sources_sorted : StronglySorted Z.lt sources;
  sources_positive : Forall (fun v => 0 < v) sources;
  law_count : forall n g g' r, count_dbo_tables n g = (g', r) ->
    applied g' = applied g /\ forall k, r = Ok k -> 0 < k <-> n ∈ dbo_tables g;
  law_NewProvider : forall g, applied (NewProvider g).1 = applied g;
  law_GetDBVersion : forall g g' r, GetDBVersion g = (g', r) ->
    applied g' = applied g /\ forall v, r = Ok v -> v = max_version (applied g);
  law_ApplyVersion : forall v g g' e, ApplyVersion v true g = (g', e) ->
    match e with
    | Some _ => applied g' = applied g
    | None => v ∈ pending sources (applied g) /\ applied g' = applied g ++ [v]
    end;
  law_Up : forall g g' e, goose_Up g = (g', e) ->
    exists vs, applied g' = applied g ++ vs /\ vs `prefix_of` pending sources (applied g)
      /\ (e = None -> vs = pending sources (applied g));
}.

#[local] Obligation Tactic := idtac.

Section Proofs.
Context {G : Type} `{HG : Goose G} `{HS : !GooseSpec G}.

Lemma max_version_ge l v : v ∈ l -> v <= max_version l.
Proof.
  induction l as [|x l IH]; [by intros ?%not_elem_of_nil|].
  cbn. intros [->|Hv%IH]%elem_of_cons; unfold max_version in *; lia.
Qed.

Lemma filter_all {A} (P : A -> Prop) `{!forall x, Decision (P x)} (l : list A) :
  Forall P l -> filter P l = l.
Proof. induction 1; [done|]. rewrite filter_cons_True by done. by f_equal. Qed.

(** A database at version 0 has applied nothing, so 1 is the first pending
    version. *)
Lemma baseline_first l :
  max_version l < baselineVersion -> baselineVersion ∈ pending sources l ->
  exists rest, pending sources l = baselineVersion :: rest /\ pending sources (l ++ [baselineVersion]) = rest.
Proof.
  intros Hm Hin. pose proof sources_sorted as Hs. pose proof sources_positive as Hp.
  assert (Hall : Forall (fun v => v ∉ l) sources).
  { eapply Forall_impl; [exact Hp|]. intros v Hv Hl%max_version_ge. unfold baselineVersion in *.
    simpl in *. lia. }
  unfold pending in *. rewrite (filter_all _ sources Hall) in Hin |- *.
  destruct Hs as [|v rest Hs Hlt]; [by apply not_elem_of_nil in Hin|].
  assert (v = baselineVersion) as ->.
  { apply elem_of_cons in Hin as [<-|Hin]; [done|]. eapply Forall_forall in Hlt; [|exact Hin].
    apply Forall_inv in Hp. unfold baselineVersion in *. lia. }
  exists rest. split; [done|].
  rewrite filter_cons_False by set_solver. apply filter_all.
  apply Forall_inv_tail in Hall. apply Forall_forall. intros v Hv.
  eapply Forall_forall in Hall; [|exact Hv].
  eapply Forall_forall in Hlt; [|exact Hv]. rewrite not_elem_of_app, list_elem_of_singleton.
  split; [done|]. simpl in *. lia.
Qed.

(** The stamp is a first step of the pending migrations. *)
Lemma baselineIfNeeded_spec g g' e :
  baselineIfNeeded g = (g', e) ->
  exists vs, applied g' = applied g ++ vs
    /\ pending sources (applied g) = vs ++ pending sources (applied g').
Proof.
  assert (Hnil : forall g1, applied g1 = applied g -> exists vs, applied g1 = applied g ++ vs
    /\ pending sources (applied g) = vs ++ pending sources (applied g1)).
  { intros g1 ->. exists []. by rewrite app_nil_r. }
  unfold baselineIfNeeded, tableExists. intros (g1 & r & H1 & H)%bindM_inv.
  apply bindM_inv in H1 as (g0 & c & Hc & H1). unfold retM in H1. simplify_eq.
  apply law_count in Hc as [Ha _].
  destruct c as [n|]; [destruct (0 <? n)|]; cbn in H; [|unfold retM in H; simplify_eq; by apply Hnil..].
  unfold checkN in H. apply bindM_inv in H as (g2 & e2 & H2 & H).
  pose proof (law_NewProvider g1) as Hp. rewrite H2 in Hp. simpl in Hp.
  destruct e2; [unfold retM in H; simplify_eq; apply Hnil; congruence|].
  apply bindM_inv in H as (g3 & v & H3 & H). apply law_GetDBVersion in H3 as [Hv Hm].
  destruct v as [v|]; [|unfold retM in H; simplify_eq; apply Hnil; congruence].
  specialize (Hm v eq_refl). destruct (baselineVersion <=? v) eqn:E;
    [unfold retM in H; simplify_eq; apply Hnil; congruence|].
  apply bindM_inv in H as (g4 & e4 & H4 & H). apply law_ApplyVersion in H4.
  destruct e4; [unfold retM in H; simplify_eq; apply Hnil; congruence|]. destruct H4 as [Hin H4].
  unfold retM in H. simplify_eq. exists [baselineVersion].
  assert (E3 : applied g3 = applied g) by congruence. rewrite E3 in *.
  destruct (baseline_first (applied g)) as (rest & -> & Hr); [|done|].
  - assert (E2 : applied g2 = applied g) by congruence. rewrite E2 in E. by apply Z.leb_gt.
  - split; [done|]. by rewrite H4, Hr.
Qed.

(** What is recorded, on failures too, is a first part of the pending
    migrations; on success it is all of them. *)
Lemma up_applies_pending g g' e :
  Up g = (g', e) ->
  exists vs, applied g' = applied g ++ vs
    /\ vs `prefix_of` pending sources (applied g)
    /\ (e = None -> vs = pending sources (applied g)).
Proof.
  intros E. unfold Up, checkN in E.
  apply bindM_inv in E as (g1 & e1 & H1 & H).
  apply baselineIfNeeded_spec in H1 as (vs & Ha & Hpend).
  assert (Hstop : forall g2, applied g2 = applied g1 -> exists vs', applied g2 = applied g ++ vs'
    /\ vs' `prefix_of` pending sources (applied g)).
  { intros g2 ->. exists vs. split; [done|]. rewrite Hpend. by eexists. }
  destruct e1 as [err|]; [unfold retM in H; simplify_eq; naive_solver|].
  apply bindM_inv in H as (g2 & e2 & H2 & H).
  pose proof (law_NewProvider g1) as Hp. rewrite H2 in Hp. simpl in Hp.
  destruct e2 as [err|]; [unfold retM in H; simplify_eq; naive_solver|].
  apply bindM_inv in H as (g3 & e3 & H3 & H). apply law_Up in H3 as (vs3 & Ha3 & Hpre & Hall).
  rewrite Hp in *.
  assert (Hg : applied g3 = applied g ++ vs ++ vs3) by by rewrite Ha3, Ha, app_assoc.
  assert (g' = g3) as -> by (destruct e3; unfold retM in H; by simplify_eq).
  exists (vs ++ vs3). rewrite Hpend. split_and!; [done|by apply prefix_app|].
  intros ->. destruct e3; unfold retM in H; simplify_eq. by rewrite Hall.
Qed.

End Proofs.

(** ** The calls made of goose

    Any provider, with the calls that change the database written down: the
    stamp with its outcome, and [Up]. *)
Inductive Call := CApply (v : Z) (up : bool) (e : option error) | CUp (e : option error).

Section Recording.
Context {G : Type} `{HG : Goose G} `{HS : !GooseSpec G}.

(** [m], and what its outcome adds to the calls. *)
Definition noted {A} (c : A -> list Call) (m : M G A) : M (G * list Call) A := fun s =>
  let '(g', x) := m s.1 in ((g', s.2 ++ c x), x).

Definition quiet {A} (_ : A) : list Call := [].

#[export] Instance recording : Goose (G * list Call) := {|
  count_dbo_tables := fun n => noted quiet (count_dbo_tables n);
  NewProvider := noted quiet NewProvider;
  goose_Up := noted (fun e => [CUp e]) goose_Up;
  goose_Down := noted quiet goose_Down;
  GetDBVersion := noted quiet GetDBVersion;
  goose_Status := noted quiet goose_Status;
  ApplyVersion := fun v up => noted (fun e => [CApply v up e]) (ApplyVersion v up);
|}.

Lemma noted_inv {A} (c : A -> list Call) m s s' (x : A) :
  noted c m s = (s', x) -> m s.1 = (s'.1, x) /\ s'.2 = s.2 ++ c x.
Proof. unfold noted. destruct (m s.1) as [g' y]. by intros [= <- <-]. Qed.

#[export] Program Instance recording_spec : GooseSpec (G * list Call) := {|
  applied := fun s => applied s.1; dbo_tables := fun s => dbo_tables s.1; sources := sources;
|}.
Next Obligation. exact sources_sorted. Qed.
Next Obligation. exact sources_positive. Qed.
Next Obligation. intros n s s' r [H _]%noted_inv. by apply law_count in H. Qed.
Next Obligation.
  intros s. destruct (NewProvider s) as [s' e] eqn:E. apply noted_inv in E as [E _].
  simpl. pose proof (law_NewProvider s.1) as H. by rewrite E in H.
Qed.
Next Obligation. intros s s' r [H _]%noted_inv. by apply law_GetDBVersion in H. Qed.
Next Obligation. intros v s s' e [H _]%noted_inv. by apply law_ApplyVersion in H. Qed.
Next Obligation. intros s s' e [H _]%noted_inv. by apply law_Up in H. Qed.

(** A database of the time before goose: it has the tables of the loader, and
    goose has recorded no version. *)
Definition legacy (g : G) : bool :=
  bool_decide ("meta_sources" ∈ dbo_tables g) && (max_version (applied g) <? 1).

Definition stamps (g : G) : list Call := if legacy g then [CApply 1 true None] else [].

(** The stamp is asked for on a legacy database and on no other; without an
    error it has been made. *)
Lemma baseline_calls g s e :
  baselineIfNeeded (g, []) = (s, e) ->
  match e with
  | None => s.2 = stamps g
  | Some _ => s.2 = [] \/ legacy g = true /\ exists err, s.2 = [CApply 1 true (Some err)]
  end.
Proof.
  unfold baselineIfNeeded, tableExists, stamps, legacy. intros (s1 & r & H1 & H)%bindM_inv.
  apply bindM_inv in H1 as (s0 & c & [Hc T1]%noted_inv & H1). unfold retM in H1. simplify_eq.
  simpl in Hc, T1. apply law_count in Hc as [Ha Hn].
  destruct c as [n|]; [specialize (Hn n eq_refl)|unfold retM in H; simplify_eq; by left].
  destruct (0 <? n) eqn:En; cbn in H; rewrite ?Z.ltb_lt, ?Z.ltb_ge in En.
  2: { unfold retM in H. simplify_eq. rewrite bool_decide_false by (rewrite <- Hn; lia). done. }
  rewrite bool_decide_true by by apply Hn. simpl.
  unfold checkN in H. apply bindM_inv in H as (s2 & e2 & H2 & H).
  change (NewProvider s1 = (s2, e2)) in H2.
  pose proof (law_NewProvider s1) as Hp. rewrite H2 in Hp. simpl in Hp.
  apply noted_inv in H2 as [_ T2]. rewrite T1 in T2. unfold quiet in T2. simpl in T2.
  destruct e2; [unfold retM in H; simplify_eq; by left|].
  apply bindM_inv in H as (s3 & v & [H3 T3]%noted_inv & H). apply law_GetDBVersion in H3 as [_ Hm].
  rewrite T2 in T3. simpl in T3.
  destruct v as [v|]; [|unfold retM in H; simplify_eq; by left].
  specialize (Hm v eq_refl). rewrite Hp, Ha in Hm. subst v. unfold baselineVersion in H.
  destruct (1 <=? max_version (applied g)) eqn:E.
  { unfold retM in H. simplify_eq. rewrite T3. apply Z.leb_le in E.
    by rewrite (proj2 (Z.ltb_ge _ _)) by lia. }
  apply Z.leb_gt in E. rewrite (proj2 (Z.ltb_lt _ _)) by lia.
  apply bindM_inv in H as (s4 & e4 & [_ T4]%noted_inv & H). rewrite T3 in T4.
  destruct e4; unfold retM in H; simplify_eq; [right|]; simpl in *; eauto.
Qed.

(** C28. [loader migrate up] on any database, with any call failing.  Version 1
    is stamped on a database that has [meta_sources] and no recorded version,
    and on no other: a fresh database and one that goose has migrated are left
    to [Up].  [Up] is called at most once, last, and only after the stamp where
    one is needed has been made; a failed detection, version read or stamp ends
    the command before it.  The command succeeds exactly when [Up] was called
    and succeeded.  The versions recorded are a first part of the pending ones
    in version order, none twice, and all of them on success.  (The stamp is
    [ApplyVersion], which runs the statements of migration 1, as the comment in
    the body of [baselineIfNeeded] says.) *)
Theorem migrate_up_exact g :
  let '((g', calls), e) := Up (g, []) in
  (calls = [] /\ e <> None
   \/ (legacy g = true /\ e <> None /\ exists err, calls = [CApply 1 true (Some err)])
   \/ (calls = stamps g /\ e <> None)
   \/ (exists e', calls = stamps g ++ [CUp e'] /\ (e = None <-> e' = None)))
  /\ exists vs, applied g' = applied g ++ vs
    /\ vs `prefix_of` pending sources (applied g)
    /\ (e = None -> vs = pending sources (applied g)).
Proof.
  destruct (Up (g, [])) as [[g' calls] e] eqn:E. split; [|by apply up_applies_pending in E].
  unfold Up, checkN in E. apply bindM_inv in E as (s1 & e1 & H1%baseline_calls & H).
  destruct e1 as [err|]; [unfold retM in H; simplify_eq; simpl in H1; naive_solver|].
  apply bindM_inv in H as (s2 & e2 & [_ T2]%noted_inv & H). rewrite H1 in T2.
  unfold quiet in T2. rewrite app_nil_r in T2.
  destruct e2 as [err|]; [unfold retM in H; simplify_eq; simpl in T2; naive_solver|].
  apply bindM_inv in H as (s3 & e3 & [_ T3]%noted_inv & H). rewrite T2 in T3.
  do 3 right. exists e3. destruct e3; unfold retM in H; simplify_eq; simpl in T3; naive_solver.
Qed.

End Recording.

(** ** A provider in memory *)

(** The tables, the recorded versions, and a migration that fails. *)
Record MemGoose := mkMemGoose {
  mg_tables : gset string;
  mg_applied : list Z;
  mg_broken : option Z;
}.

Definition mg_sources : list Z := [1; 2].

Definition mg_apply (v : Z) : M MemGoose (option error) := fun g =>
  if bool_decide (v ∈ pending mg_sources (mg_applied g)) && negb (bool_decide (mg_broken g = Some v))
  then (mkMemGoose ({["meta_sources"]} ∪ mg_tables g) (mg_applied g ++ [v]) (mg_broken g), None)
  else (g, Some "migration failed").

Fixpoint mg_run (vs : list Z) : M MemGoose (option error) :=
  match vs with
  | [] => retM None
  | v :: vs' => checkN id (mg_apply v) (mg_run vs')
  end.

#[export] Instance mem_goose : Goose MemGoose := {|
  count_dbo_tables := fun n g => (g, Ok (if bool_decide (n ∈ mg_tables g) then 1 else 0));
  NewProvider := retM None;
  goose_Up := fun g => mg_run (pending mg_sources (mg_applied g)) g;
  goose_Down := fun g => (mkMemGoose (mg_tables g) (take (length (mg_applied g) - 1) (mg_applied g))
    (mg_broken g), None);
  GetDBVersion := fun g => (g, Ok (max_version (mg_applied g)));
  goose_Status := fun g =>
    (g, Ok (map (fun v => mkMigrationStatus v "" (bool_decide (v ∈ mg_applied g))) mg_sources));
  ApplyVersion := fun v _ => mg_apply v;
|}.

Lemma mg_apply_spec v g g' e :
  mg_apply v g = (g', e) ->
  match e with
  | Some _ => mg_applied g' = mg_applied g
  | None => v ∈ pending mg_sources (mg_applied g) /\ mg_applied g' = mg_applied g ++ [v]
  end.
Proof.
  unfold mg_apply. case_bool_decide as Hv; simpl; [case_bool_decide; simpl|]; intros [= <- <-]; done.
Qed.

Lemma mg_run_spec vs g g' e :
  mg_run vs g = (g', e) ->
  exists ws, mg_applied g' = mg_applied g ++ ws /\ ws `prefix_of` vs /\ (e = None -> ws = vs).
Proof.
  revert g. induction vs as [|v vs IH]; simpl; intros g H.
  { unfold retM in H. simplify_eq. exists []. by rewrite app_nil_r. }
  unfold checkN in H. apply bindM_inv in H as (g1 & e1 & H1 & H). apply mg_apply_spec in H1.
  destruct e1 as [err|].
  - unfold retM in H. simplify_eq. exists []. rewrite app_nil_r. split_and!; [done|apply prefix_nil|done].
  - destruct H1 as [_ H1]. apply IH in H as (ws & Hg & Hp & He). exists (v :: ws).
    rewrite Hg, H1, <- app_assoc. split_and!; [done|by apply prefix_cons|]. intros Hn. by rewrite He.
Qed.

#[export] Program Instance mem_goose_spec : GooseSpec MemGoose := {|
  applied := mg_applied; dbo_tables := mg_tables; sources := mg_sources;
|}.
Next Obligation. repeat constructor. Qed.
Next Obligation. repeat constructor; lia. Qed.
Next Obligation.
  intros n g g' r [= <- <-]. split; [done|]. intros k [= <-]. case_bool_decide; split; (done || lia).
Qed.
Next Obligation. done. Qed.
Next Obligation. intros g g' r [= <- <-]. split; [done|]. by intros v [= <-]. Qed.
Next Obligation. intros v g g' e. apply mg_apply_spec. Qed.
Next Obligation. intros g g' e. apply mg_run_spec. Qed.

(** A database of the time before goose, with its tables and no version. *)
Definition ex_pre_goose : MemGoose := mkMemGoose {["meta_sources"]} [] None.

Example migrate_up_legacy :
  Up (ex_pre_goose, []) = ((mkMemGoose {["meta_sources"]} [1; 2] None, [CApply 1 true None; CUp None]), None).
Proof. vm_compute. reflexivity. Qed.

Example migrate_up_again :
  (Up (mkMemGoose {["meta_sources"]} [1; 2] None, [])).1.2 = [CUp None].
Proof. vm_compute. reflexivity. Qed.

(** The stamp executes the statements of migration 1, where the comment on
    [baselineIfNeeded] says that the version is recorded without them: with a
    migration 1 that fails on the existing tables, the database cannot be
    stamped. *)
Theorem stamp_runs_baseline :
  let g := mkMemGoose {["meta_sources"]} [] (Some 1) in
  Up g = (g, Some "stamp baseline version 1: migration failed").
Proof. vm_compute. reflexivity. Qed.

End MigrateProofs.
