(* ===== verification/Commands.v ===== *)
(** * The commands (cmd/loader, cmd/seed)

    The dispatch of the loader's arguments and the seed command: which exit
    code each failure gives. *)

From S2P Require Import Prelude.
From S2P Require Import GoStrings.
From S2P Require Import Contracts.
From S2P Require Import Repository.
From S2P Require Import Seed.
From S2P Require Import Server.
From S2P Require Import Migrate.
From Stdlib Require Import ZArith Lia.

Module Commands.
Import Contracts.

(** ** loader *)

Section Loader.
Context {G : Type} `{HG : Migrate.Goose G}.

(** [main] of cmd/loader: [args] is [os.Args]; the first is the program. *)
Definition loader_main (env : string -> string) (sql_open : string -> option error)
    (ping : M G (option error)) (fails : Server.Call -> option error) (args : list string) :
    M G Z :=
  match args with
  | _ :: cmd :: rest =>
      if bool_decide (cmd = "migrate")
      then r <~ Migrate.runMigrate env sql_open ping rest ;; retM r.1
      else retM (Server.runServer env fails).2
  | _ => retM (Server.runServer env fails).2
  end.

End Loader.

(** ** seed *)

Section SeedCommand.
Context {G : Type} `{HG : Seed.SeedDB G}.
(** [json.Marshal] of the parameters. *)
Context (Marshal : gmap string string -> result string).
Context (read_file : string -> result string) (decode : string -> result Seed.File).

(** [main] of cmd/seed with the path of its flag; [gorm_open] and [db_handle]
    are [gorm.Open] and [db.DB()]. *)
Definition seed_main (env : string -> string) (gorm_open : string -> option error)
    (db_handle : M G (option error)) (file : string) : M G Z :=
  let dsn := env "LOADER_METADATA_DSN" in
  if bool_decide (dsn = "") then retM 2
  else match Seed.Load_ read_file decode file with
  | Err _ => retM 1
  | Ok f =>
      match gorm_open dsn with
      | Some _ => retM 1
      | None =>
          e <~ db_handle ;;
          match e with
          | Some _ => retM 1
          | None =>
              r <~ Seed.Apply Marshal f ;;
              retM (match r.2 with Some _ => 1 | None => 0 end)
          end
      end
  end.

End SeedCommand.
End Commands.
